(* ===== verification/_CoqProject ===== *)
-Q . S2P
Prelude.v
Wire.v
GoStr.v
NetIP.v
UdpFrame.v
Transport.v
Sha256.v
TransportAuth.v
TrackerHub.v
Mirror.v
MacSync.v
Pcblist.v
AgentPorts.v
DialPool.v
Seccomp.v
FdStore.v
Notify.v
OciRuntime.v
Leases.v
Listen.v
Proxy.v
System.v
GoPath.v
Forwarding.v
VmRef.v
Plist.v
VmRecord.v
Install.v
Daemon.v
Provision.v
Preflight.v
Up.v
Introspect.v
DoctorAuth.v
DoctorGuest.v
DoctorNet.v
DoctorProbe.v
Setup.v
DoctorHost.v
Doctor.v
TuiLog.v
Tui.v
TuiSpec.v
