(* ===== verification/Prelude.v ===== *)
(** * drawbridge: a verification library

    drawbridge joins the loopback interfaces of a Mac and of a Linux guest: a
    port that listens on one side's 127.0.0.1 is reachable on the other's. The
    Mac runs [drawbridged] ([src/cmd/drawbridged]), the guest runs
    [drawbridge-agent] ([src/cmd/drawbridge-agent]); every exchange between
    them rides connections the Mac opens to the agent's transport port, each
    starting with a four-byte frame that names its kind and, when a secret is
    configured, an HMAC handshake. This library models the program's own logic
    in Rocq and proves what makes it correct. This file is its prelude: results
    of fallible functions, reachability and runs of step relations, the
    tactics, the [dbr] hint databases and the lemmas the components share.

    ** The parts and where they are modelled

    - Standard library of Go, as far as the source uses it: [Wire] (binary
      encodings, [io.ReadFull]), [GoStr] ([strings], [strconv], host:port),
      [NetIP] ([net/netip]), [Sha256] (SHA-256 and HMAC).
    - The transport: [Transport] (endpoint grammar, [internal/transport]),
      [TransportAuth] (secret, latch, handshake, throttle and the agent's
      dispatch of a connection: [internal/transportauth],
      [internal/agent/transport.go]), [Listen] (which interface the agent binds,
      which peers it admits, the life of its listeners and the published
      forward: [internal/agent/listen.go], [gvproxy.go]), [Leases] (how the Mac
      finds the guest: [internal/limaaddr]).
    - Guest listeners on the Mac: [TrackerHub] (the guest's listener set and its
      event streams: [internal/agent/tracker.go], [proc.go]), [Mirror] (the
      Mac's table of mirrors, driven by those events and by reservations:
      [internal/mirror]).
    - Mac listeners in the guest: [Pcblist] (enumerating them), [MacSync]
      (advertising them and accepting reverse activations: [internal/macsync]),
      [AgentPorts] (the agent's port table and the map the BPF gateway steers
      by: [internal/agent/agent.go], [macsync.go], [control.go], [reserve.go]),
      [DialPool] (the connections parked for reverse dials:
      [internal/agent/dialpool.go]), [Proxy] (the gateway proxies:
      [internal/proxy], [internal/acceptloop]), [UdpFrame] (datagrams over a
      stream and the relay: [internal/udpframe]).
    - Bind arbitration: [Seccomp] (the filter, the notification layouts, the
      classification of a socket: [internal/seccomp]), [FdStore] (notify fds
      kept over a restart: [internal/fdstore]), [Notify] (answering a blocked
      bind, the supervision cap and the hand-off of notify fds:
      [internal/agent/notify.go], [notifycap.go], [ociseccomp.go], [fdstore.go]),
      [OciRuntime] (the container runtime wrapper that asks for all this:
      [internal/ociruntime], [cmd/drawbridge-runc]).
    - [System]: the components together, a guest bind decided across the
      transport and a Mac service as the guest sees it.
    - Virtual machines: [VmRef] (naming a VM, choosing one, and the paths derived
      from the name: [internal/vmprovider], [cmd/drawbridge/guest.go]),
      [Forwarding] (which guest ports the provider's own forwarder claims:
      [forwarding.go], [podmanforward.go]), [VmRecord] (the record [up] leaves for
      a podman machine and the endpoint found by it: [internal/vmrecord],
      [internal/podmanaddr]), [GoPath] ([path/filepath] as they use it).
    - The Mac's daemon: [Plist] (the launchd plist, written and read back:
      [internal/install/plist.go]), [Install] (the flags of [drawbridge install]
      merged with the installed daemon's: [cmd/drawbridge/inherit.go], [main.go]),
      [Setup] (laying the files down as root, taking them away, and the status:
      [internal/install/install.go], [status.go]), [Daemon] (the start of
      drawbridged and the endpoint its two loops dial: [cmd/drawbridged]),
      [Introspect] (its read-only socket: [internal/introspect]).
    - The guest's agent: [Preflight] (what a guest must have:
      [internal/kernelfeat], [cmd/drawbridge/guest.go]), [Provision] (registering
      the wrapper with the engine, and undoing it: [internal/guestbin],
      [cmd/drawbridge/ocipodman.go], [down.go]), [Up] (the steps of [drawbridge
      up]: [cmd/drawbridge/up.go]).
    - Doctor ([internal/doctor]), by checks: [DoctorAuth] (the secrets' block,
      [auth.go]), [DoctorGuest] (the guest script, checks 2 and 3), [DoctorNet]
      (checks 4 to 6), [DoctorProbe] (check 8, [probe.go]), [DoctorHost] (checks
      1, 7, 9, 10 and 11), and [Doctor] (what is gathered for which check, the
      report and the exit code: [gather.go], [report.go]).
    - The terminal UI ([internal/tui]): [TuiLog] (scrolling and the log of
      refusals: [scroll.go], [refusals.go]), [Tui] (the model, [Update], the
      layout and the rows of every screen: [model.go], [switcher.go],
      [doctorview.go], [dashboard.go] and the rest), [TuiSpec] (its theorems).

    ** How the code is read

    A function that returns an error becomes one that returns a [result]; its
    error type names the ways it fails, never the text. State is a record
    named after the Go type, an operation a function on it. What runs
    concurrently is a step relation whose steps are the critical sections (and
    the system calls between them) of each goroutine, and its invariants are
    proved over every reachable state, so over every interleaving. Pointer
    identity is a number given at creation: sockets, connections, channels and
    descriptors are such numbers, and the set of open ones is part of the
    state. Times are nanoseconds in [Z], passed in by the environment. Machine
    integers are [Z] with their width's wrap written where the code can reach
    it. Log lines and the sentences of messages are not modelled; which of
    them is produced is, where the code decides something by it.

    The environment (kernel, network, files, clocks, third-party services) is
    a parameter or a choice of the step relation: accepts, reads, polls and
    dials are given by their outcomes. Laws assumed of it are classes or named
    hypotheses (how the kernel runs a BPF program, what it answers about a
    process), and each has a concrete instance that the witnesses use.

    Recursions that are not structural take fuel: [UdpFrame.read_loop] is run
    with the length of the stream, which each frame shortens; [Seccomp.bpf_go]
    with the length of the program, whose jumps go forward; [GoStr.utoa_go]
    with a bound on the digits; [Pcblist.walk] with the buffer's length, proved
    enough; [Notify.runSupervision] with the number of polls given; and
    [Listen.autoVZNAT], which really is unbounded, has a theorem that some
    fuel gives the result. The polls of [Setup] are as many as fit before the
    deadline, a parameter; its name resolution follows 32 links, as the system
    does.

    ** What the theorems show

    The properties carry claim numbers C1, C2, ... in their comments, the most
    important first. By group:
    - the system: a guest bind is refused exactly when the Mac holds the port
      (the agent's table, the reservation call, the mirror client and the
      wildcard-holder check together), and a Mac service is dialed with its
      bytes intact, steered to when its gateway binds and the map takes its key,
      and not bound over by the guest while the agent serves it and can read its
      own table, or the Mac answers and sees it ([System]);
    - security boundaries: a connection reaches a handler only after its
      handshake and secrets never downgrade ([TransportAuth]), the transport
      listens and admits only where it should ([Listen]), addresses taken from
      the lease database pass their gates and come newest first ([Leases]), a
      container profile is rewritten only where bind was plainly allowed and no
      filter notifies yet, and is no weaker after ([OciRuntime]), the filter notifies
      exactly bind ([Seccomp]), an activation reaches only what was advertised
      ([MacSync]);
    - state that follows the other side: every subscriber's events replay to
      the listener set ([TrackerHub]), the mirrors are the guest's listeners
      ([Mirror]), what the guest was told replays to the Mac's set ([MacSync]),
      the steering map is that set and what the control socket registered, and
      nothing else ([AgentPorts]);
    - the daemon's life: what an installation wrote the daemon accepts, and it
      dials only what a resolution vouched for ([Daemon]); installing again with
      the same flags changes nothing ([Install]); no failure and nothing the user
      does leaves root's job on a file anyone else can touch ([Setup]); a second
      [up] changes nothing, and [down] gives every file back ([Up], [Provision]);
    - diagnosis: when each check fails or warns, that a remedy comes exactly with
      those, and when a run exits 1 ([Doctor] and the [Doctor...] files); doctor
      and [up] agree on a guest; nothing of a secret but a prefix of its digest
      is shown;
    - the terminal UI: one tick, one fetch and one live doctor run whatever is
      pressed when, a log of refusals that loses only what the ring had
      overwritten, a selection that stays, and screens of exactly the window's
      height ([TuiSpec], against the runtime as the commands in flight);
    - resources: no descriptor, connection or slot is lost or used twice, and
      caps hold ([DialPool], [Notify], [Proxy], [UdpFrame], [Listen],
      [Introspect]);
    - formats: round trips and torn input ([UdpFrame], [Pcblist], [Seccomp],
      [TransportAuth], [Transport], [TrackerHub], [FdStore], [Plist],
      [DoctorGuest], [Introspect]);
    - progress: a supervision receives and answers what its polls announce and
      ends only, and always, once its filter is gone or a call fails ([Notify]), the
      vzNAT retry binds once it can ([Listen]), the accept loop survives what it
      can retry ([Proxy]).

    Some lemmas show behaviour the code does not mean to have, each a concrete
    reachable state: [AgentPorts.del_loses_port], [DialPool.pop_timeout_leaks],
    [Notify.adopted_twice], [OciRuntime.null_config_panics],
    [Listen.late_publish], [Proxy.UDPStream.zero_port_drops],
    [Mirror.lost_reference], [TrackerHub.seed_keeps_closed],
    [VmRef.long_profile_refused], [Plist.secret_path_trimmed],
    [Install.short_prefix_accepted], [Provision.stale_runtime_kept],
    [Provision.lost_record], [Preflight.version_reads_past_text],
    [Up.restart_lost], [Introspect.explicit_path_remodes],
    [DoctorAuth.unknown_digest_mismatch], [DoctorGuest.debian_runc_unread],
    [DoctorGuest.slirp_passes], [DoctorNet.gate_confirmed_unreachable],
    [DoctorNet.probe_ok_undialed], [DoctorProbe.cut_short_skips],
    [DoctorHost.deactivated_reported], [TuiSpec.help_over_doctor],
    [TuiSpec.switcher_unpins_pane], [TuiSpec.help_shares_scroll],
    [Setup.repaired_then_refused] and [Setup.planted_link_escalates]. The last is
    the most serious: the check that no one but root can replace the daemon's
    binary follows links.

    ** Not modelled

    The text, width and colour of lines, in the terminal UI and in reports
    (presentation), and the UI's framework beyond its delivering one message per
    command; the flag parsing and process execution of the command-line
    programs; running limactl and podman and decoding their JSON; the BPF
    programs (C) and their generated loaders; the benchmark and probe tools.
    Inside the modelled components: JSON framing of the control, reservation and event
    connections, the kicking of a previous session, installing the seccomp
    filter, and reading the OCI state document. *)

From Stdlib Require Export ZArith Lia.
From stdpp Require Export prelude gmap sets list strings sorting fin_maps.

#[export] Set Default Goal Selector "!".
#[export] Set Warnings "-clear-no-such-hyp".

(** The hint and rewrite database of the development. *)
Create HintDb dbr.
Create Rewrite HintDb dbr.
Create Rewrite HintDb dbr_bool.

(** ** Results

    A Go function that returns [(T, error)] becomes a function into
    [result E T]: [Ok] for a nil error, [Err] for the error, whose type names
    the ways the function fails (never the text of the message). *)
Inductive result (E A : Type) : Type :=
| Ok (a : A)
| Err (e : E).
Arguments Ok {E A} _.
Arguments Err {E A} _.

#[export] Instance result_ret E : MRet (result E) := λ A, Ok.
#[export] Instance result_bind E : MBind (result E) :=
  λ A B f m, match m with Ok a => f a | Err e => Err e end.
#[export] Instance result_fmap E : FMap (result E) :=
  λ A B f m, match m with Ok a => Ok (f a) | Err e => Err e end.
#[export] Instance result_eq_dec {E A} `{EqDecision E, EqDecision A} :
  EqDecision (result E A).
Proof. solve_decision. Defined.

Definition is_ok {E A} (r : result E A) : bool :=
  match r with Ok _ => true | Err _ => false end.

(** An option as a result: the error of a lookup that missed. *)
Definition of_option {E A} (e : E) (o : option A) : result E A :=
  match o with Some a => Ok a | None => Err e end.

Lemma result_Ok_inj {E A} (x y : A) : Ok x = Ok y :> result E A → x = y.
Proof. by intros [= H]. Qed.
Lemma result_bind_Ok {E A B} (f : A → result E B) (m : result E A) b :
  m ≫= f = Ok b ↔ ∃ a, m = Ok a ∧ f a = Ok b.
Proof.
  destruct m as [a|e]; split.
  - eauto.
  - by intros (? & [= <-] & ?).
  - done.
  - by intros (? & ? & ?).
Qed.

Lemma of_option_Ok {E A} (e : E) (o : option A) a :
  of_option e o = Ok a ↔ o = Some a.
Proof. by destruct o; split; intros [= ->]. Qed.

#[export] Hint Rewrite @result_bind_Ok @of_option_Ok : dbr.

(** ** Reachability

    The states a component can be in: those reached from an initial state by
    finitely many steps. *)
Section reach.
Context {St : Type} (init : St → Prop) (step : St → St → Prop).

Inductive reach : St → Prop :=
  | reach_init s : init s → reach s
  | reach_step s s' : reach s → step s s' → reach s'.

(** Rule induction packaged for invariants. *)
Lemma reach_invariant (I : St → Prop) :
    (∀ s, init s → I s) →
    (∀ s s', reach s → I s → step s s' → I s') →
    ∀ s, reach s → I s.
Proof. intros H0 HS s. induction 1; eauto. Qed.
End reach.
#[export] Hint Constructors reach : dbr.

(** Labelled steps taken one after the other. *)
Section run.
Context {St Lbl : Type} (exec : Lbl → St → St).

Definition run (ls : list Lbl) (s : St) : St := foldl (λ s l, exec l s) s ls.

Lemma run_nil s : run [] s = s.
Proof. done. Qed.
Lemma run_cons l ls s : run (l :: ls) s = run ls (exec l s).
Proof. done. Qed.
Lemma run_app l1 l2 s : run (l1 ++ l2) s = run l2 (run l1 s).
Proof. apply foldl_app. Qed.
Lemma run_snoc ls l s : run (ls ++ [l]) s = exec l (run ls s).
Proof. by rewrite run_app. Qed.

(** What one step preserves, a run preserves. *)
Lemma run_invariant (I : St → Prop) :
    (∀ l s, I s → I (exec l s)) → ∀ ls s, I s → I (run ls s).
Proof. intros HI ls. induction ls as [|l ls IH]; cbn; eauto. Qed.
End run.

(** ** Tactics *)

(** Split conjunctions and existentials out of the hypotheses. *)
Ltac deex :=
  repeat match goal with
  | H : ∃ _, _ |- _ => destruct H
  | H : _ ∧ _ |- _ => destruct H
  end.

(** Case on every [match] and [if] of the goal, then of the hypotheses. *)
Ltac case_all := repeat (case_match || case_decide); simplify_eq/=.

(** Boolean conditions of the code as propositions. *)
#[export] Hint Rewrite
  Z.eqb_eq Z.eqb_neq Z.ltb_lt Z.ltb_ge Z.leb_le Z.leb_gt
  Nat.eqb_eq Nat.eqb_neq Nat.ltb_lt Nat.ltb_ge Nat.leb_le Nat.leb_gt
  andb_true_iff andb_false_iff orb_true_iff orb_false_iff
  negb_true_iff negb_false_iff String.eqb_eq String.eqb_neq
  bool_decide_eq_true bool_decide_eq_false : dbr_bool.
Ltac bool_prop := autorewrite with dbr_bool in *.

(** ** Lists *)

Lemma foldl_invariant {A B} (I : B → Prop) (f : B → A → B) (l : list A) b :
  I b → (∀ a b, a ∈ l → I b → I (f b a)) → I (foldl f b l).
Proof.
  revert b. induction l as [|a l IH]; intros b Hb Hf; [done|]. cbn.
  apply IH; [apply Hf; [left|done] | intros; apply Hf; [by right|done]].
Qed.

(** The elements an option-valued function keeps. *)
Lemma elem_of_omap {A B} (f : A → option B) (l : list A) b :
  b ∈ omap f l ↔ ∃ a, a ∈ l ∧ f a = Some b.
Proof. apply list_elem_of_omap. Qed.

(** ** Maps *)

(** The connections a table's entries hold. *)
Definition map_conns `{Countable K} {V} (conn : V → nat) (m : gmap K V) : gset nat :=
  list_to_set (conn ∘ snd <$> map_to_list m).

Lemma elem_of_map_conns `{Countable K} {V} (conn : V → nat) (m : gmap K V) c :
  c ∈ map_conns conn m ↔ ∃ k v, m !! k = Some v ∧ conn v = c.
Proof.
  unfold map_conns. rewrite elem_of_list_to_set, list_elem_of_fmap. split.
  - intros ([k v] & -> & ?%elem_of_map_to_list). eauto.
  - intros (k & v & ?%elem_of_map_to_list & <-). by exists (k, v).
Qed.
Lemma size_map_conns `{Countable K} {V} (conn : V → nat) (m : gmap K V) :
  (size (map_conns conn m) <= size m)%nat.
Proof.
  unfold map_conns. rewrite <- length_map_to_list, <- (length_fmap (conn ∘ snd)).
  generalize ((conn ∘ snd) <$> map_to_list m). intros l.
  induction l as [|x l IH]; [done|]. cbn [list_to_set length].
  rewrite size_union_alt, size_singleton.
  assert (list_to_set (C:=gset nat) l ∖ {[x]} ⊆ list_to_set l) as Hs by set_solver.
  apply subseteq_size in Hs. lia.
Qed.
Lemma map_conns_empty `{Countable K} {V} (conn : V → nat) :
  map_conns conn (∅ : gmap K V) = ∅.
Proof. unfold map_conns. by rewrite map_to_list_empty. Qed.
Lemma map_conns_insert `{Countable K} {V} (conn : V → nat) (m : gmap K V) k v :
  m !! k = None → map_conns conn (<[k:=v]> m) = {[conn v]} ∪ map_conns conn m.
Proof.
  intros Hk. apply set_eq. intros c.
  rewrite elem_of_union, elem_of_singleton, !elem_of_map_conns. split.
  - intros (k' & v' & [[-> ->]|[? ?]]%lookup_insert_Some & <-); eauto.
  - intros [->|(k' & v' & ? & <-)].
    + exists k, v. by rewrite lookup_insert_eq.
    + exists k', v'. by rewrite lookup_insert_ne by congruence.
Qed.

(** Closing the connections of the entries [P] picks leaves exactly those of
    the entries it does not pick, when no two entries share one. *)
Lemma map_conns_split `{Countable K} {V} (conn : V → nat) (m : gmap K V) (P : V → bool) :
  (∀ k1 k2 v1 v2, m !! k1 = Some v1 → m !! k2 = Some v2 → conn v1 = conn v2 → k1 = k2) →
  map_conns conn m ∖ map_conns conn (filter (λ '(_, v), P v = true) m) =
  map_conns conn (filter (λ '(_, v), P v = false) m).
Proof.
  intros Hinj. apply set_eq. intros c.
  rewrite elem_of_difference, !elem_of_map_conns. split.
  - intros [(k & v & Hk & <-) Hn]. exists k, v. split; [|done].
    apply map_lookup_filter_Some. split; [done|]. destruct (P v) eqn:E; [|done].
    destruct Hn. exists k, v. by rewrite map_lookup_filter_Some.
  - intros (k & v & [Hk Hp]%map_lookup_filter_Some & <-). split; [eauto|].
    intros (k' & v' & [Hk' Hp']%map_lookup_filter_Some & E).
    assert (k' = k) as -> by eauto. congruence.
Qed.

(** ** Naturals and counting *)

(** How many elements of [l] satisfy the boolean [f]. *)
Definition count {A} (f : A → bool) (l : list A) : nat :=
  length (List.filter f l).

Lemma count_nil {A} (f : A → bool) : count f [] = 0%nat.
Proof. done. Qed.
Lemma count_cons {A} (f : A → bool) x l :
  count f (x :: l) = ((if f x then 1 else 0) + count f l)%nat.
Proof. unfold count. cbn. by destruct (f x). Qed.
Lemma count_app {A} (f : A → bool) l1 l2 :
  count f (l1 ++ l2) = (count f l1 + count f l2)%nat.
Proof. unfold count. by rewrite List.filter_app, length_app. Qed.
Lemma count_perm {A} (f : A → bool) l1 l2 :
  l1 ≡ₚ l2 → count f l1 = count f l2.
Proof.
  induction 1; rewrite ?count_cons; [done|lia|lia|congruence].
Qed.
Lemma count_pos {A} (f : A → bool) l :
  (0 < count f l)%nat ↔ ∃ x, x ∈ l ∧ f x = true.
Proof.
  induction l as [|y l IH]; [rewrite count_nil; split; [lia|]|].
  - intros (x & Hx & _). by apply elem_of_nil in Hx.
  - rewrite count_cons. destruct (f y) eqn:E.
    + split; [|lia]. intros _. exists y. split; [left|done].
    + rewrite Nat.add_0_l, IH. split.
      * intros (x & Hx & Hf). exists x. split; [by right|done].
      * intros (x & [->|Hx]%elem_of_cons & Hf); [congruence|eauto].
Qed.
#[export] Hint Rewrite @count_nil @count_cons @count_app : dbr.
