(* ===== verification/Wire.v ===== *)
(** * Bytes on the wire

    The Go standard library's fixed-width integer codecs ([encoding/binary])
    and [io.ReadFull] on a connection, as the components use them. *)

From S2P Require Import Prelude.
From Stdlib Require Import Strings.Byte.

Open Scope Z_scope.

(** ** Bytes *)

Abbreviation bytes := (list Byte.byte).

Definition b2z (b : Byte.byte) : Z := Z.of_N (Byte.to_N b).
Definition z2b (z : Z) : Byte.byte :=
  default Byte.x00 (Byte.of_N (Z.to_N (z mod 256))).

Lemma b2z_bound b : 0 <= b2z b < 256.
Proof. unfold b2z. pose proof (Byte.to_N_bounded b). lia. Qed.

Lemma b2z_z2b z : b2z (z2b z) = z mod 256.
Proof.
  unfold b2z, z2b. pose proof (Z.mod_pos_bound z 256 ltac:(lia)).
  destruct (Byte.of_N (Z.to_N (z mod 256))) as [b|] eqn:E; cbn.
  - apply Byte.to_of_N in E. lia.
  - apply Byte.of_N_None_iff in E. lia.
Qed.

Lemma z2b_b2z b : z2b (b2z b) = b.
Proof.
  unfold z2b. rewrite Z.mod_small by apply b2z_bound.
  unfold b2z. by rewrite N2Z.id, Byte.of_to_N.
Qed.

Lemma b2z_inj b1 b2 : b2z b1 = b2z b2 → b1 = b2.
Proof. intros E. by rewrite <- (z2b_b2z b1), E, z2b_b2z. Qed.

#[export] Instance byte_eq_dec : EqDecision Byte.byte := Byte.byte_eq_dec.
#[export] Hint Rewrite b2z_z2b z2b_b2z : dbr.
#[export] Hint Resolve b2z_bound : dbr.

(** ** Little- and big-endian integers *)

Fixpoint le_join (l : bytes) : Z :=
  match l with [] => 0 | b :: t => b2z b + 256 * le_join t end.
Fixpoint le_split (n : nat) (z : Z) : bytes :=
  match n with O => [] | S n => z2b z :: le_split n (z / 256) end.

Definition be_join (l : bytes) : Z := le_join (reverse l).
Definition be_split (n : nat) (z : Z) : bytes := reverse (le_split n z).

Lemma length_le_split n z : length (le_split n z) = n.
Proof. revert z. induction n; cbn; auto. Qed.
Lemma length_be_split n z : length (be_split n z) = n.
Proof. unfold be_split. by rewrite length_reverse, length_le_split. Qed.

Lemma le_join_bound l : 0 <= le_join l < 256 ^ Z.of_nat (length l).
Proof.
  induction l as [|b t IH]; cbn [le_join length]; [lia|].
  rewrite Nat2Z.inj_succ, Z.pow_succ_r by lia.
  pose proof (b2z_bound b). lia.
Qed.
Lemma be_join_bound l : 0 <= be_join l < 256 ^ Z.of_nat (length l).
Proof. unfold be_join. rewrite <- length_reverse. apply le_join_bound. Qed.

Lemma le_join_split n z : le_join (le_split n z) = z mod 256 ^ Z.of_nat n.
Proof.
  revert z. induction n as [|n IH]; intros z; cbn [le_join le_split].
  { by rewrite Z.mod_1_r. }
  rewrite IH, b2z_z2b, Nat2Z.inj_succ, Z.pow_succ_r by lia.
  rewrite Z.rem_mul_r by lia. done.
Qed.
Lemma be_join_split n z : be_join (be_split n z) = z mod 256 ^ Z.of_nat n.
Proof. unfold be_join, be_split. by rewrite reverse_involutive, le_join_split. Qed.

Lemma le_split_join l : le_split (length l) (le_join l) = l.
Proof.
  induction l as [|b t IH]; cbn [length le_split le_join]; [done|].
  pose proof (b2z_bound b). rewrite Z.mul_comm. f_equal.
  - rewrite <- (z2b_b2z b) at 2. unfold z2b. by rewrite Z.mod_add by lia.
  - rewrite Z.div_add, Z.div_small by lia. by rewrite Z.add_0_l.
Qed.
Lemma be_split_join l : be_split (length l) (be_join l) = l.
Proof.
  unfold be_split, be_join. rewrite <- (length_reverse l).
  by rewrite le_split_join, reverse_involutive.
Qed.

Lemma be_join_split_small n z :
  0 <= z < 256 ^ Z.of_nat n → be_join (be_split n z) = z.
Proof. intros. by rewrite be_join_split, Z.mod_small. Qed.

Lemma be_join_inj l1 l2 :
  length l1 = length l2 → be_join l1 = be_join l2 → l1 = l2.
Proof. intros HL E. by rewrite <- (be_split_join l1), <- (be_split_join l2), HL, E. Qed.

#[export] Hint Rewrite length_le_split length_be_split : dbr.

(** [binary.BigEndian.Uint16] / [PutUint16] and the little-endian pair. *)
Definition be16 (l : bytes) : Z := be_join (take 2 l).
Definition put_be16 (z : Z) : bytes := be_split 2 z.
Definition le16 (l : bytes) : Z := le_join (take 2 l).
Definition le32 (l : bytes) : Z := le_join (take 4 l).

Lemma be_join_put z : 0 <= z < 65536 → be_join (put_be16 z) = z.
Proof. apply (be_join_split_small 2). Qed.
Lemma put_be_join l : length l = 2%nat → put_be16 (be_join l) = l.
Proof. intros HL. unfold put_be16. rewrite <- HL. apply be_split_join. Qed.
Lemma be16_put z rest : 0 <= z < 65536 → be16 (put_be16 z ++ rest) = z.
Proof.
  intros. unfold be16, put_be16. rewrite take_app_length' by by rewrite length_be_split.
  by apply be_join_split_small.
Qed.
Lemma be16_bound l : 0 <= be16 l < 65536.
Proof.
  unfold be16. pose proof (be_join_bound (take 2 l)) as H.
  assert (256 ^ Z.of_nat (length (take 2 l)) <= 256 ^ 2); [|lia].
  apply Z.pow_le_mono_r; [lia|]. rewrite length_take. lia.
Qed.

(** ** Reading from a connection

    The inbound half of a connection is the list of bytes its peer will ever
    deliver; [io.ReadFull] takes a prefix of it, or fails the way Go's does:
    [EOF] when not one byte was left, [UnexpectedEOF] when some were. *)
Inductive io_err := EOF | UnexpectedEOF | Timeout | Closed.
#[export] Instance io_err_eq_dec : EqDecision io_err.
Proof. solve_decision. Defined.

Definition ReadFull (n : nat) (s : bytes) : result io_err (bytes * bytes) :=
  if (n <=? length s)%nat then Ok (take n s, drop n s)
  else match s with [] => Err EOF | _ => Err UnexpectedEOF end.

Lemma ReadFull_app l rest : ReadFull (length l) (l ++ rest) = Ok (l, rest).
Proof.
  unfold ReadFull. rewrite (proj2 (Nat.leb_le _ _)) by (rewrite length_app; lia).
  by rewrite take_app_length, drop_app_length.
Qed.
Lemma ReadFull_app' n l rest :
  length l = n → ReadFull n (l ++ rest) = Ok (l, rest).
Proof. intros <-. apply ReadFull_app. Qed.
Lemma ReadFull_Ok n s l rest :
  ReadFull n s = Ok (l, rest) ↔ s = l ++ rest ∧ length l = n.
Proof.
  split.
  - unfold ReadFull. case_match eqn:E; [|by case_match]. intros [= <- <-].
    apply Nat.leb_le in E. by rewrite take_drop, length_take, Nat.min_l.
  - intros [-> HL]. by apply ReadFull_app'.
Qed.
Lemma ReadFull_short n s :
  (length s < n)%nat → ∃ e, ReadFull n s = Err e.
Proof.
  intros. unfold ReadFull. rewrite (proj2 (Nat.leb_gt _ _)) by lia.
  case_match; eauto.
Qed.
