(* ===== verification/GoStr.v ===== *)
(** * Go strings

    The parts of the Go standard library's [strings], [strconv] and [net]
    packages the components use on their text: [Cut], [Split], [TrimSpace],
    [ParseUint], [Itoa], [SplitHostPort], [JoinHostPort]. A Go string is a
    Rocq [string], one [ascii] per byte; the texts modelled are ASCII, so
    [TrimSpace] and [ToLower] are their ASCII fast paths. *)

From S2P Require Import Prelude.
From Stdlib Require Export Ascii.

Open Scope string_scope.
Open Scope Z_scope.

Definition code (c : ascii) : Z := Z.of_N (N_of_ascii c).

Lemma code_bound c : 0 <= code c < 256.
Proof. unfold code. pose proof (N_ascii_bounded c). lia. Qed.
Lemma code_inj c d : code c = code d → c = d.
Proof. unfold code. intros E. apply N2Z.inj in E. by rewrite <- (ascii_N_embedding c), E, ascii_N_embedding. Qed.

(** Does [c] occur in [s]? ([strings.IndexByte(s, c) >= 0]) *)
Fixpoint has_byte (c : ascii) (s : string) : bool :=
  match s with
  | EmptyString => false
  | String d s => Ascii.eqb c d || has_byte c s
  end.

(** ** Slices and searches *)

Fixpoint str_take (n : nat) (s : string) : string :=
  match n, s with
  | S n, String c s => String c (str_take n s)
  | _, _ => EmptyString
  end.
Fixpoint str_drop (n : nat) (s : string) : string :=
  match n, s with
  | S n, String _ s => str_drop n s
  | _, _ => s
  end.

(** [strings.IndexByte], [strings.LastIndexByte]. *)
Fixpoint IndexByte (c : ascii) (s : string) : option nat :=
  match s with
  | EmptyString => None
  | String d s => if Ascii.eqb c d then Some O else S <$> IndexByte c s
  end.
Fixpoint LastIndexByte (c : ascii) (s : string) : option nat :=
  match s with
  | EmptyString => None
  | String d s =>
      match LastIndexByte c s with
      | Some n => Some (S n)
      | None => if Ascii.eqb c d then Some O else None
      end
  end.

(** [strings.CutPrefix]; its success is [strings.HasPrefix]. *)
Fixpoint CutPrefix (p s : string) : option string :=
  match p, s with
  | EmptyString, _ => Some s
  | String a p, String b s => if Ascii.eqb a b then CutPrefix p s else None
  | _, _ => None
  end.
Definition HasPrefix (s p : string) : bool :=
  match CutPrefix p s with Some _ => true | None => false end.

(** [strings.Cut]: around the first occurrence of [sep]. *)
Fixpoint Cut (sep s : string) : option (string * string) :=
  match CutPrefix sep s with
  | Some r => Some (EmptyString, r)
  | None =>
      match s with
      | EmptyString => None
      | String c s => prod_map (String c) id <$> Cut sep s
      end
  end.

(** [strings.Split] by a one-byte separator. *)
Fixpoint Split (c : ascii) (s : string) : list string :=
  match s with
  | EmptyString => [EmptyString]
  | String d s =>
      if Ascii.eqb c d then EmptyString :: Split c s
      else match Split c s with
           | [] => [String d EmptyString]
           | w :: ws => String d w :: ws
           end
  end.

(** [strings.Join]. *)
Fixpoint Join (ws : list string) (sep : string) : string :=
  match ws with
  | [] => EmptyString
  | [w] => w
  | w :: ws => w +:+ sep +:+ Join ws sep
  end.

Definition is_space (c : ascii) : bool :=
  let n := code c in (n =? 32) || ((9 <=? n) && (n <=? 13)).

Fixpoint trim_left (f : ascii → bool) (s : string) : string :=
  match s with
  | EmptyString => EmptyString
  | String c s' => if f c then trim_left f s' else s
  end.
Fixpoint trim_right (f : ascii → bool) (s : string) : string :=
  match s with
  | EmptyString => EmptyString
  | String c s' =>
      match trim_right f s' with
      | EmptyString => if f c then EmptyString else String c EmptyString
      | r => String c r
      end
  end.
Definition TrimSpace (s : string) : string :=
  trim_right is_space (trim_left is_space s).

Fixpoint str_forall (f : ascii → bool) (s : string) : bool :=
  match s with EmptyString => true | String c s => f c && str_forall f s end.

Fixpoint str_map (f : ascii → ascii) (s : string) : string :=
  match s with EmptyString => EmptyString | String c s => String (f c) (str_map f s) end.
Definition to_lower (c : ascii) : ascii :=
  let n := code c in
  if (65 <=? n) && (n <=? 90) then ascii_of_N (Z.to_N (n + 32)) else c.
Definition ToLower : string → string := str_map to_lower.

(** [strings.Fields]: the maximal runs of non-space bytes. *)
Fixpoint fields_go (s cur : string) : list string :=
  match s with
  | EmptyString => if decide (cur = "") then [] else [cur]
  | String c s =>
      if is_space c
      then (if decide (cur = "") then [] else [cur]) ++ fields_go s ""
      else fields_go s (cur +:+ String c EmptyString)
  end.
Definition Fields (s : string) : list string := fields_go s "".

(** ** Numbers *)

(** A digit's value, any base up to 36 (as [strconv] reads it). *)
Definition digit_val (c : ascii) : option Z :=
  let n := code c in
  if (48 <=? n) && (n <=? 57) then Some (n - 48)
  else if (97 <=? n) && (n <=? 122) then Some (n - 97 + 10)
  else if (65 <=? n) && (n <=? 90) then Some (n - 65 + 10)
  else None.

Fixpoint parse_digits (base acc : Z) (s : string) : option Z :=
  match s with
  | EmptyString => Some acc
  | String c s =>
      match digit_val c with
      | Some d => if d <? base then parse_digits base (acc * base + d) s else None
      | None => None
      end
  end.

Inductive num_err := ErrSyntax | ErrRange.
#[export] Instance num_err_eq_dec : EqDecision num_err.
Proof. solve_decision. Defined.

(** [strconv.ParseUint] for an explicit base. *)
Definition ParseUint (s : string) (base bits : Z) : result num_err Z :=
  if decide (s = "") then Err ErrSyntax
  else match parse_digits base 0 s with
       | None => Err ErrSyntax
       | Some v => if v <? 2 ^ bits then Ok v else Err ErrRange
       end.

(** [strconv.ParseInt]: an optional sign, then [ParseUint] against the
    two's-complement range. *)
Definition ParseInt (s : string) (base bits : Z) : result num_err Z :=
  match s with
  | String "-" s' =>
      match ParseUint s' base bits with
      | Ok v => if v <=? 2 ^ (bits - 1) then Ok (- v) else Err ErrRange
      | Err e => Err e
      end
  | String "+" s' =>
      match ParseUint s' base bits with
      | Ok v => if v <? 2 ^ (bits - 1) then Ok v else Err ErrRange
      | Err e => Err e
      end
  | _ =>
      match ParseUint s base bits with
      | Ok v => if v <? 2 ^ (bits - 1) then Ok v else Err ErrRange
      | Err e => Err e
      end
  end.
Definition Atoi (s : string) : result num_err Z := ParseInt s 10 64.

(** A digit's character, lower case ([strconv.FormatUint], [%x]). *)
Definition digit_chr (d : Z) : ascii :=
  ascii_of_N (Z.to_N (if d <? 10 then d + 48 else d - 10 + 97)).

Fixpoint utoa_go (fuel : nat) (base n : Z) (acc : string) : string :=
  match fuel with
  | O => acc
  | S fuel =>
      let acc := String (digit_chr (n mod base)) acc in
      if n <? base then acc else utoa_go fuel base (n / base) acc
  end.
(** [strconv.FormatUint(n, base)]; the fuel is the bit length, which no
    number's digit count exceeds. *)
Definition FormatUint (n base : Z) : string :=
  utoa_go (S (Z.to_nat (Z.log2 n))) base n "".
(** [strconv.Itoa] of a non-negative number. *)
Definition Itoa (n : Z) : string := FormatUint n 10.

(** ** [net.SplitHostPort] and [net.JoinHostPort] *)

Inductive addr_err :=
| missing_port | too_many_colons | missing_bracket | unexpected_bracket.
#[export] Instance addr_err_eq_dec : EqDecision addr_err.
Proof. solve_decision. Defined.

Definition SplitHostPort (hp : string) : result addr_err (string * string) :=
  match LastIndexByte ":" hp with
  | None => Err missing_port
  | Some i =>
      let finish host j k :=
        if has_byte "[" (str_drop j hp) then Err unexpected_bracket
        else if has_byte "]" (str_drop k hp) then Err unexpected_bracket
        else Ok (host, str_drop (S i) hp) in
      if HasPrefix hp "[" then
        match IndexByte "]" hp with
        | None => Err missing_bracket
        | Some e =>
            if (S e =? String.length hp)%nat then Err missing_port
            else if (S e =? i)%nat
            then finish (str_take (e - 1) (str_drop 1 hp)) 1%nat (S e)
            else if HasPrefix (str_drop (S e) hp) ":" then Err too_many_colons
            else Err missing_port
        end
      else
        let host := str_take i hp in
        if has_byte ":" host then Err too_many_colons
        else finish host O O
  end.

Definition JoinHostPort (host port : string) : string :=
  if has_byte ":" host then "[" +:+ host +:+ "]:" +:+ port
  else host +:+ ":" +:+ port.

(** ** Facts *)

#[global] Arguments String.append !_ _ / : simpl nomatch.
#[global] Arguments Ascii.eqb !_ !_ / : simpl nomatch.

Lemma append_nil_r s : s +:+ "" = s.
Proof. induction s as [|c s IH]; [done|]. cbn. by rewrite IH. Qed.
Lemma append_assoc' s t u : (s +:+ t) +:+ u = s +:+ (t +:+ u).
Proof. induction s as [|c s IH]; [done|]. cbn. by rewrite IH. Qed.
Lemma append_length s t : String.length (s +:+ t) = (String.length s + String.length t)%nat.
Proof. induction s as [|c s IH]; [done|]. cbn. by rewrite IH. Qed.

Lemma has_byte_app c s t : has_byte c (s +:+ t) = has_byte c s || has_byte c t.
Proof. induction s as [|d s IH]; [done|]. cbn. by rewrite IH, orb_assoc. Qed.
#[export] Hint Rewrite append_nil_r append_assoc' append_length has_byte_app : dbr.

Lemma str_drop_S n c s : str_drop (S n) (String c s) = str_drop n s.
Proof. done. Qed.
Lemma str_drop_0 s : str_drop 0 s = s.
Proof. done. Qed.
Lemma str_take_app s t : str_take (String.length s) (s +:+ t) = s.
Proof. induction s as [|c s IH]; cbn; [by destruct t|by rewrite IH]. Qed.
Lemma str_drop_app s t : str_drop (String.length s) (s +:+ t) = t.
Proof. induction s as [|c s IH]; cbn; [by destruct t|done]. Qed.
Lemma str_drop_app_S s c t : str_drop (S (String.length s)) (s +:+ String c t) = t.
Proof. induction s as [|d s IH]; [by destruct t|done]. Qed.
Lemma str_drop_app_add n s t : str_drop (String.length s + n) (s +:+ t) = str_drop n t.
Proof. induction s as [|d s IH]; [done|]. exact IH. Qed.
Lemma str_take_drop n s : str_take n s +:+ str_drop n s = s.
Proof. revert s. induction n as [|n IH]; intros [|c s]; cbn; try done. by rewrite IH. Qed.

Lemma CutPrefix_Some p s r : CutPrefix p s = Some r ↔ s = p +:+ r.
Proof.
  revert s. induction p as [|a p IH]; intros s; cbn.
  { split; [by intros [= ->]|by intros ->]. }
  destruct s as [|b s]; [done|]. destruct (Ascii.eqb_spec a b) as [->|Hne].
  - rewrite IH. split; [by intros ->|by intros [= ->]].
  - split; [done|]. by intros [= -> _].
Qed.

Lemma Cut_Some sep s a b : Cut sep s = Some (a, b) → s = a +:+ sep +:+ b.
Proof.
  revert a. induction s as [|c s IH]; intros a; cbn.
  - destruct (CutPrefix sep "") as [r|] eqn:E; [|done].
    intros [= <- <-]. by apply CutPrefix_Some in E.
  - destruct (CutPrefix sep (String c s)) as [r|] eqn:E.
    { intros [= <- <-]. by apply CutPrefix_Some in E. }
    destruct (Cut sep s) as [[a' b']|] eqn:E'; [|done].
    intros [= <- <-]. cbn. f_equal. by apply IH.
Qed.

(** Cutting at a separator whose first byte does not occur before it. *)
Lemma Cut_fresh c sep a b :
  has_byte c a = false → Cut (String c sep) (a +:+ String c sep +:+ b) = Some (a, b).
Proof.
  induction a as [|d a IH]; intros Ha.
  - cbn -[CutPrefix]. assert (CutPrefix (String c sep) (String c (sep +:+ b)) = Some b)
      as E by by apply CutPrefix_Some.
    cbn in E |- *. by rewrite E.
  - cbn in Ha. apply orb_false_iff in Ha as [Hd Ha].
    cbn. rewrite Hd. fold (String.append sep b).
    specialize (IH Ha). cbn in IH. by rewrite IH.
Qed.

Lemma Cut1_fst c s a b : Cut (String c "") s = Some (a, b) → has_byte c a = false.
Proof.
  revert a. induction s as [|d s IH]; intros a; cbn; [done|].
  destruct (Ascii.eqb_spec c d) as [->|Hne]; [by intros [= <- <-]|].
  destruct (Cut (String c "") s) as [[a' b']|] eqn:E; [|done].
  intros [= <- <-]. cbn. rewrite (proj2 (Ascii.eqb_neq _ _)) by done. eauto.
Qed.
Lemma Cut1_None c s : Cut (String c "") s = None ↔ has_byte c s = false.
Proof.
  induction s as [|d s IH]; cbn; [done|].
  destruct (Ascii.eqb_spec c d) as [->|Hne]; [by destruct s|]. cbn.
  rewrite <- IH. by destruct (Cut _ s).
Qed.

Lemma LastIndexByte_None c s : LastIndexByte c s = None ↔ has_byte c s = false.
Proof.
  induction s as [|d s IH]; cbn; [done|].
  destruct (LastIndexByte c s) eqn:E.
  - rewrite orb_false_iff, <- IH. naive_solver.
  - rewrite (proj1 IH) by done. rewrite orb_false_r. by destruct (Ascii.eqb c d).
Qed.
Lemma LastIndexByte_app c s t :
  has_byte c t = false → LastIndexByte c (s +:+ String c t) = Some (String.length s).
Proof.
  intros Ht. induction s as [|d s IH]; cbn.
  - by rewrite (proj2 (LastIndexByte_None c t) Ht), Ascii.eqb_refl.
  - by rewrite IH.
Qed.
Lemma LastIndexByte_Some c s i :
  LastIndexByte c s = Some i →
  ∃ a b, s = a +:+ String c b ∧ String.length a = i ∧ has_byte c b = false.
Proof.
  revert i. induction s as [|d s IH]; intros i; cbn; [done|].
  destruct (LastIndexByte c s) as [n|] eqn:E.
  - intros [= <-]. destruct (IH n eq_refl) as (a & b & -> & <- & Hb).
    by exists (String d a), b.
  - destruct (Ascii.eqb_spec c d) as [->|]; [|done]. intros [= <-].
    exists "", s. split_and!; [done..|]. by apply LastIndexByte_None.
Qed.

Lemma IndexByte_Some c s i :
  IndexByte c s = Some i →
  ∃ a b, s = a +:+ String c b ∧ String.length a = i ∧ has_byte c a = false.
Proof.
  revert i. induction s as [|d s IH]; intros i; cbn; [done|].
  destruct (Ascii.eqb_spec c d) as [->|Hne].
  - intros [= <-]. by exists "", s.
  - destruct (IndexByte c s) as [n|] eqn:E; [|done]. intros [= <-].
    destruct (IH n eq_refl) as (a & b & -> & <- & Ha).
    exists (String d a), b. split_and!; [done..|]. cbn.
    by rewrite (proj2 (Ascii.eqb_neq _ _)) by done.
Qed.
Lemma IndexByte_app c s t :
  has_byte c s = false → IndexByte c (s +:+ String c t) = Some (String.length s).
Proof.
  induction s as [|d s IH]; cbn; [by rewrite Ascii.eqb_refl|].
  intros [-> H]%orb_false_iff. by rewrite IH.
Qed.

Lemma HasPrefix1_fresh c s : has_byte c s = false → HasPrefix s (String c "") = false.
Proof. destruct s as [|d s]; [done|]. unfold HasPrefix. by cbn; intros [-> _]%orb_false_iff. Qed.

(** A joined address splits back into its parts. *)
Lemma SplitHostPort_Join h p :
  has_byte "[" h = false → has_byte "]" h = false →
  has_byte ":" p = false → has_byte "[" p = false → has_byte "]" p = false →
  SplitHostPort (JoinHostPort h p) = Ok (h, p).
Proof.
  intros Hh1 Hh2 Hp1 Hp2 Hp3. unfold JoinHostPort.
  destruct (has_byte ":" h) eqn:Hc.
  - assert (E : "[" +:+ h +:+ "]:" +:+ p = (String "[" (h +:+ "]")) +:+ String ":" p)
      by (cbn; by rewrite append_assoc').
    unfold SplitHostPort. rewrite E, LastIndexByte_app by done.
    cbn -[IndexByte str_drop str_take has_byte HasPrefix].
    rewrite append_assoc'. change ("]" +:+ String ":" p) with (String "]" (String ":" p)).
    replace (HasPrefix _ "[") with true by done. cbn match.
    change (String "[" (h +:+ String "]" (String ":" p)))
      with (String "[" h +:+ String "]" (String ":" p)) at 1.
    rewrite IndexByte_app by (cbn; by rewrite Hh2).
    rewrite !append_length.
    cbn -[str_drop str_take has_byte HasPrefix].
    rewrite (Nat.add_comm _ (S (S _))), (Nat.add_comm _ 1).
    cbn -[str_drop str_take has_byte HasPrefix Nat.eqb].
    rewrite (proj2 (Nat.eqb_neq _ _)), Nat.eqb_refl by lia.
    rewrite !str_drop_S, str_drop_0, Nat.sub_0_r, str_take_app, str_drop_app_S.
    rewrite <- Nat.add_1_r, <- (Nat.add_1_r (String.length h)), <- Nat.add_assoc.
    rewrite str_drop_app_add, has_byte_app, Hh1. cbn. by rewrite Hp2, Hp3.
  - cbn. unfold SplitHostPort. change (":" +:+ p) with (String ":" p).
    rewrite LastIndexByte_app by done.
    rewrite str_take_app, Hc, str_drop_app_S, str_drop_0.
    rewrite !has_byte_app. cbn [has_byte]. rewrite Hh1, Hh2, Hp2, Hp3. cbn.
    by rewrite HasPrefix1_fresh by by rewrite has_byte_app, Hh1.
Qed.

(** What a successful split guarantees of its parts: exactly what
    [SplitHostPort_Join] asks for. *)
Lemma SplitHostPort_Ok hp h p :
  SplitHostPort hp = Ok (h, p) →
  has_byte "[" h = false ∧ has_byte "]" h = false ∧
  has_byte ":" p = false ∧ has_byte "[" p = false ∧ has_byte "]" p = false.
Proof.
  unfold SplitHostPort. destruct (LastIndexByte ":" hp) as [i|] eqn:Ei; [|done].
  apply LastIndexByte_Some in Ei as (a & b & -> & <- & Hb).
  rewrite str_drop_app_S, str_take_app.
  destruct (HasPrefix (a +:+ String ":" b) "[") eqn:Hpre.
  - destruct (IndexByte "]" (a +:+ String ":" b)) as [e|] eqn:Ee; [|done].
    case_match; [done|]. destruct (S e =? String.length a)%nat eqn:Ha;
      [|by case_match].
    apply Nat.eqb_eq in Ha. rewrite Ha, str_drop_app.
    destruct (has_byte "[" (str_drop 1 _)) eqn:H1; [done|].
    destruct (has_byte "]" (String ":" b)) eqn:H2; [done|]. intros [= <- <-].
    apply IndexByte_Some in Ee as (u & v & Euv & <- & Hu).
    destruct a as [|c a]; [done|]. destruct u as [|c' u]; [by inv Euv|].
    cbn in Euv. injection Euv as <- Euv. cbn -[has_byte] in *.
    rewrite Nat.sub_0_r, Euv, str_take_app. pose proof H1 as H1'.
    rewrite Euv, has_byte_app in H1'. rewrite has_byte_app in H1.
    cbn in H1, H1', H2, Hu. bool_prop. destruct Hu, H1, H1'. by split_and!.
  - destruct (has_byte ":" a); [done|]. rewrite str_drop_0, !has_byte_app. cbn.
    destruct (has_byte "[" a) eqn:?, (has_byte "]" a) eqn:?, (has_byte "[" b) eqn:?,
      (has_byte "]" b) eqn:?; try done. by intros [= <- <-].
Qed.

Lemma digit_val_bound c d : digit_val c = Some d → 0 <= d < 36.
Proof.
  unfold digit_val. repeat (case_match; bool_prop); try done; intros [= <-]; lia.
Qed.

(** Parsed numbers are in range, and a formatted number parses back. *)
Lemma parse_digits_nonneg base acc s v :
  0 <= acc → 0 < base → parse_digits base acc s = Some v → 0 <= v.
Proof.
  intros Hacc Hb. revert acc Hacc. induction s as [|c s IH]; intros acc Hacc; cbn.
  { by intros [= <-]. }
  destruct (digit_val c) as [d|] eqn:E; [|done]. apply digit_val_bound in E.
  case_match; [|done]. apply IH. lia.
Qed.
Lemma ParseUint_Ok s base bits v :
  0 < base → ParseUint s base bits = Ok v →
  s ≠ "" ∧ parse_digits base 0 s = Some v ∧ 0 <= v < 2 ^ bits.
Proof.
  intros Hb. unfold ParseUint. case_decide; [done|].
  destruct (parse_digits base 0 s) as [w|] eqn:E; [|done].
  case_match eqn:Hlt; [|done]. intros [= ->]. apply Z.ltb_lt in Hlt.
  apply parse_digits_nonneg in E as Hnn; [|lia..]. done.
Qed.

Lemma parse_digits_app base acc s t :
  parse_digits base acc (s +:+ t) = parse_digits base acc s ≫= λ a, parse_digits base a t.
Proof.
  revert acc. induction s as [|c s IH]; intros acc; cbn; [done|].
  by repeat case_match.
Qed.

Lemma digit_val_chr d : 0 <= d < 36 → digit_val (digit_chr d) = Some d.
Proof.
  intros Hd. unfold digit_val, digit_chr, code.
  rewrite N_ascii_embedding by (case_match; lia).
  destruct (d <? 10) eqn:E; bool_prop.
  - rewrite Z2N.id by lia.
    rewrite (proj2 (Z.leb_le _ _)), (proj2 (Z.leb_le _ _)) by lia. cbn. f_equal. lia.
  - rewrite Z2N.id by lia.
    rewrite (proj2 (Z.leb_le 48 _)), (proj2 (Z.leb_gt _ 57)) by lia. cbn.
    rewrite (proj2 (Z.leb_le 97 _)), (proj2 (Z.leb_le _ 122)) by lia. cbn. f_equal. lia.
Qed.

Lemma utoa_go_spec fuel base n acc :
  2 <= base <= 36 → 0 <= n < 2 ^ Z.of_nat fuel →
  ∃ s, utoa_go fuel base n acc = s +:+ acc ∧
    (n = 0 → fuel = O ∨ s ≠ "") ∧ (0 < n → s ≠ "") ∧
    ∀ a, parse_digits base a s = Some (a * base ^ Z.of_nat (String.length s) + n).
Proof.
  intros Hb. revert n acc. induction fuel as [|fuel IH]; intros n acc Hn; cbn [utoa_go].
  { exists "". cbn in *. split_and!; [done|by left|lia|].
    intros a. f_equal. lia. }
  rewrite Nat2Z.inj_succ, Z.pow_succ_r in Hn by lia.
  pose proof (Z.mod_pos_bound n base ltac:(lia)).
  destruct (n <? base) eqn:Hlt; bool_prop.
  - exists (String (digit_chr (n mod base)) ""). split_and!; [done|by right|done|].
    intros a. cbn. rewrite digit_val_chr by lia.
    rewrite (proj2 (Z.ltb_lt _ _)) by lia. f_equal. rewrite Z.mod_small by lia. lia.
  - assert (Hd : 0 <= n / base < 2 ^ Z.of_nat fuel).
    { split; [apply Z.div_pos; lia|]. apply Z.div_lt_upper_bound; [lia|]. nia. }
    destruct (IH _ (String (digit_chr (n mod base)) acc) Hd) as (s & -> & _ & Hs & Hp).
    exists (s +:+ String (digit_chr (n mod base)) ""). rewrite append_assoc'.
    assert (0 < n / base) by (apply Z.div_str_pos; lia).
    split_and!; [done|lia|by destruct s|].
    intros a. rewrite parse_digits_app, Hp. cbn. rewrite digit_val_chr by lia.
    rewrite (proj2 (Z.ltb_lt _ _)) by lia. f_equal.
    rewrite append_length. cbn. rewrite Nat2Z.inj_add, Z.pow_add_r by lia.
    pose proof (Z.div_mod n base ltac:(lia)). change (Z.of_nat 1) with 1. rewrite Z.pow_1_r. nia.
Qed.

Lemma ParseUint_Format n base bits :
  2 <= base <= 36 → 0 <= n < 2 ^ bits → ParseUint (FormatUint n base) base bits = Ok n.
Proof.
  intros Hb Hn. unfold FormatUint.
  destruct (utoa_go_spec (S (Z.to_nat (Z.log2 n))) base n "") as (s & -> & Hz & Hp & Hs);
    [done|split; [lia|]|].
  { destruct (Z.eq_dec n 0) as [->|]; [cbn; lia|].
    rewrite Nat2Z.inj_succ, Z2Nat.id by apply Z.log2_nonneg.
    apply Z.log2_spec. lia. }
  rewrite append_nil_r. unfold ParseUint. rewrite Hs. rewrite decide_False.
  - rewrite Z.mul_0_l, Z.add_0_l. by rewrite (proj2 (Z.ltb_lt _ _)) by lia.
  - destruct (Z.eq_dec n 0) as [->|]; [by destruct Hz|apply Hp; lia].
Qed.
Lemma ParseUint_Itoa n bits : 0 <= n < 2 ^ bits → ParseUint (Itoa n) 10 bits = Ok n.
Proof. intros. apply ParseUint_Format; lia. Qed.
Lemma Itoa_inj n m : 0 <= n → 0 <= m → Itoa n = Itoa m → n = m.
Proof.
  intros Hn Hm E. set (k := Z.max n m).
  assert (Hk : ∀ z, 0 <= z <= k → ParseUint (Itoa z) 10 (k + 1) = Ok z).
  { intros z Hz. apply ParseUint_Itoa. split; [lia|].
    apply Z.le_lt_trans with k; [lia|].
    apply Z.lt_trans with (2 ^ k); [apply Z.pow_gt_lin_r; lia|].
    apply Z.pow_lt_mono_r; lia. }
  pose proof (Hk n) as H1. pose proof (Hk m) as H2. rewrite E in H1.
  rewrite H2 in H1 by lia. by injection (H1 ltac:(lia)).
Qed.

(** ** Decimal text *)

Definition is_dec (c : ascii) : bool := (48 <=? code c) && (code c <=? 57).
Lemma parse_digits_dec a s v : parse_digits 10 a s = Some v → str_forall is_dec s = true.
Proof.
  revert a. induction s as [|c s IH]; intros a; cbn [parse_digits str_forall]; [done|].
  destruct (digit_val c) as [d|] eqn:E; [|done]. destruct (Z.ltb_spec d 10); [|done].
  intros H0%IH. rewrite H0. unfold digit_val in E. unfold is_dec.
  repeat case_match; simplify_eq; rewrite ?andb_true_iff, ?Z.leb_le in *; try lia.
Qed.
Lemma Itoa_dec n : 0 <= n → str_forall is_dec (Itoa n) = true ∧ Itoa n ≠ "".
Proof.
  intros Hn. assert (ParseUint (Itoa n) 10 (n + 1) = Ok n) as E.
  { apply ParseUint_Itoa. split; [lia|].
    apply Z.lt_trans with (2 ^ n); [apply Z.pow_gt_lin_r; lia|apply Z.pow_lt_mono_r; lia]. }
  unfold ParseUint in E. case_decide as H0; [done|]. split; [|done].
  destruct (parse_digits 10 0 (Itoa n)) eqn:P; [|done]. by eapply parse_digits_dec.
Qed.
Lemma Atoi_Itoa n : 0 <= n < 2 ^ 63 → Atoi (Itoa n) = Ok n.
Proof.
  intros Hn. destruct (Itoa_dec n) as [HD HE]; [lia|].
  pose proof (ParseUint_Itoa n 64 ltac:(lia)) as HP.
  unfold Atoi, ParseInt. remember (Itoa n) as s eqn:Es. clear Es.
  destruct s as [|c s]; [done|]. cbn [str_forall] in HD. apply andb_true_iff in HD as [HD _].
  rewrite HP. change (64 - 1) with 63. rewrite (proj2 (Z.ltb_lt n _)) by lia.
  destruct c as [[] [] [] [] [] [] [] []]; (reflexivity || (vm_compute in HD; discriminate HD)).
Qed.

(** A string of bytes that satisfy [g] has none that [g] excludes. *)
Lemma str_forall_has g c s : str_forall g s = true → g c = false → has_byte c s = false.
Proof.
  intros HF Hc. induction s as [|d s IH]; [done|]. cbn in *.
  apply andb_true_iff in HF as [H1 H2]. rewrite IH by done.
  destruct (Ascii.eqb_spec c d) as [->|]; [congruence|done].
Qed.
Lemma str_forall_app f s t : str_forall f (s +:+ t) = str_forall f s && str_forall f t.
Proof. induction s as [|c s IH]; cbn; [done|]. rewrite IH. by rewrite andb_assoc. Qed.
Lemma trim_left_none f s : str_forall (λ c, negb (f c)) s = true → trim_left f s = s.
Proof. destruct s as [|c s]; cbn; [done|]. by destruct (f c). Qed.
Lemma trim_right_none f s : str_forall (λ c, negb (f c)) s = true → trim_right f s = s.
Proof.
  induction s as [|c s IH]; cbn; [done|]. intros [H1 H2]%andb_true_iff. rewrite IH by done.
  destruct s; [|done]. by destruct (f c).
Qed.
Lemma str_forall_impl f g s :
  (∀ c, f c = true → g c = true) → str_forall f s = true → str_forall g s = true.
Proof.
  intros H. induction s as [|c s IH]; cbn; [done|]. intros [H1 H2]%andb_true_iff.
  by rewrite (H c H1), IH.
Qed.
Lemma dec_no_space c : is_dec c = true → negb (is_space c) = true.
Proof. unfold is_dec, is_space. intros [?%Z.leb_le ?%Z.leb_le]%andb_true_iff.
  destruct (Z.eqb_spec (code c) 32); [lia|]. cbn.
  destruct (Z.leb_spec (code c) 13); [lia|]. by rewrite andb_false_r. Qed.
Lemma TrimSpace_Itoa n : 0 <= n → TrimSpace (Itoa n) = Itoa n.
Proof.
  intros Hn. destruct (Itoa_dec n Hn) as [HD _].
  apply (str_forall_impl _ _ _ dec_no_space) in HD.
  unfold TrimSpace. by rewrite trim_left_none, trim_right_none.
Qed.
Lemma TrimSpace_cons c s : is_space c = true → TrimSpace (String c s) = TrimSpace s.
Proof. intros H. unfold TrimSpace. cbn. by rewrite H. Qed.

(** ** Separated fields *)

Lemma Split_cons c s : ∃ w ws, Split c s = w :: ws.
Proof.
  destruct s as [|d s]; cbn; [eauto|]. destruct (Ascii.eqb c d); [eauto|].
  destruct (Split c s); eauto.
Qed.
Lemma Split_fresh c w s : has_byte c w = false →
  Split c (w +:+ String c s) = w :: Split c s.
Proof.
  induction w as [|d w IH]; cbn; [by rewrite Ascii.eqb_refl|].
  destruct (Ascii.eqb_spec c d); [done|]. cbn. intros H. by rewrite IH.
Qed.
Lemma Split_single c w : has_byte c w = false → Split c w = [w].
Proof.
  induction w as [|d w IH]; cbn; [done|].
  destruct (Ascii.eqb_spec c d); [done|]. cbn. intros H. by rewrite IH.
Qed.
Lemma Split_Join c ws : ws ≠ [] → Forall (λ w, has_byte c w = false) ws →
  Split c (Join ws (String c "")) = ws.
Proof.
  intros H0. induction 1 as [|w ws Hw HF IH]; [done|]. destruct ws as [|w' ws].
  - by apply Split_single.
  - change (Join (w :: w' :: ws) (String c "")) with (w +:+ String c "" +:+ Join (w' :: ws) (String c "")).
    change (String c "" +:+ ?x) with (String c x). rewrite Split_fresh by done. f_equal. by apply IH.
Qed.
