(* ===== verification/NetIP.v ===== *)
(** * IP addresses

    The parts of Go's [net/netip] the components use: [Addr], [AddrPort] and
    [Prefix], with their predicates, their text forms and their 16-byte form.
    An address is its number; [wf_addr] bounds it to its width. *)

From S2P Require Import Prelude Wire GoStr.

Open Scope string_scope.
Open Scope list_scope.
Open Scope Z_scope.

(** ** Addresses *)

(** [netip.Addr]: the zero [Addr], an IPv4 address, an IPv6 address with its
    zone ([""] for none). *)
Inductive addr :=
| AddrZero
| Addr4 (a : Z)
| Addr6 (a : Z) (zone : string).

#[export] Instance addr_eq_dec : EqDecision addr.
Proof. solve_decision. Defined.
#[export] Instance addr_countable : Countable addr.
Proof.
  refine (inj_countable'
    (λ a, match a with
          | AddrZero => inl () | Addr4 a => inr (inl a)
          | Addr6 a z => inr (inr (a, z)) end)
    (λ x, match x with
          | inl _ => AddrZero | inr (inl a) => Addr4 a
          | inr (inr (a, z)) => Addr6 a z end) _).
  by intros [].
Defined.

Definition wf_addr (a : addr) : bool :=
  match a with
  | AddrZero => true
  | Addr4 a => (0 <=? a) && (a <? 2 ^ 32)
  | Addr6 a _ => (0 <=? a) && (a <? 2 ^ 128)
  end.

Definition IsValid (a : addr) : bool := match a with AddrZero => false | _ => true end.
Definition Is4 (a : addr) : bool := match a with Addr4 _ => true | _ => false end.
Definition Is6 (a : addr) : bool := match a with Addr6 _ _ => true | _ => false end.
Definition BitLen (a : addr) : Z :=
  match a with AddrZero => 0 | Addr4 _ => 32 | Addr6 _ _ => 128 end.
Definition hasZone (a : addr) : bool :=
  match a with Addr6 _ z => negb (String.eqb z "") | _ => false end.
Definition withoutZone (a : addr) : addr :=
  match a with Addr6 a _ => Addr6 a "" | a => a end.

(** The v4-mapped range [::ffff:0:0/96]. *)
Definition mapped : Z := Z.shiftl 0xffff 32.
Definition Is4In6 (a : addr) : bool :=
  match a with Addr6 a _ => Z.shiftr a 32 =? 0xffff | _ => false end.
Definition Unmap (a : addr) : addr :=
  match a with
  | Addr6 n _ => if Is4In6 a then Addr4 (n mod 2 ^ 32) else a
  | _ => a
  end.

(** [Addr.As16] v4-maps an IPv4 address; [AddrFrom16] does not unmap. *)
Definition As16 (a : addr) : bytes :=
  match a with
  | AddrZero => be_split 16 0
  | Addr4 a => be_split 16 (mapped + a)
  | Addr6 a _ => be_split 16 a
  end.
Definition AddrFrom16 (b : bytes) : addr := Addr6 (be_join b) "".
Definition AddrFrom4 (b : bytes) : addr := Addr4 (be_join b).

Definition IPv4Unspecified : addr := Addr4 0.
Definition IPv6Unspecified : addr := Addr6 0 "".
Definition v4Loopback : addr := Addr4 0x7f000001.
Definition v6Loopback : addr := Addr6 1 "".

Definition IsUnspecified (a : addr) : bool :=
  bool_decide (a = IPv4Unspecified) || bool_decide (a = IPv6Unspecified).
Definition IsLoopback (a : addr) : bool :=
  match Unmap a with
  | AddrZero => false
  | Addr4 a => Z.shiftr a 24 =? 127
  | Addr6 a _ => a =? 1
  end.
Definition IsPrivate (a : addr) : bool :=
  match Unmap a with
  | AddrZero => false
  | Addr4 a => (Z.shiftr a 24 =? 10) || (Z.shiftr a 20 =? 0xac1)
               || (Z.shiftr a 16 =? 0xc0a8)
  | Addr6 a _ => Z.shiftr a 121 =? 0x7e
  end.
Definition IsLinkLocalUnicast (a : addr) : bool :=
  match Unmap a with
  | AddrZero => false
  | Addr4 a => Z.shiftr a 16 =? 0xa9fe
  | Addr6 a _ => Z.shiftr a 118 =? 0x3fa
  end.
(** [Addr.Next]: the zero [Addr] past the last address. *)
Definition Next (a : addr) : addr :=
  match a with
  | AddrZero => AddrZero
  | Addr4 a => if a + 1 =? 2 ^ 32 then AddrZero else Addr4 (a + 1)
  | Addr6 a z => if a + 1 =? 2 ^ 128 then AddrZero else Addr6 (a + 1) z
  end.

(** ** Text *)

Definition octet (i a : Z) : Z := Z.shiftr a (8 * i) mod 256.
Definition string4 (a : Z) : string :=
  Join (Itoa <$> [octet 3 a; octet 2 a; octet 1 a; octet 0 a]) ".".

(** The eight 16-bit groups, most significant first. *)
Definition groups (a : Z) : list Z :=
  (λ i, Z.shiftr a (16 * i) mod 65536) <$> [7; 6; 5; 4; 3; 2; 1; 0].

Fixpoint zero_run (gs : list Z) : nat :=
  match gs with g :: gs => if g =? 0 then S (zero_run gs) else O | [] => O end.
(** The first longest run of at least two zero groups, [start, end). *)
Fixpoint longest_run (i : nat) (gs : list Z) (best : nat * nat) : nat * nat :=
  match gs with
  | [] => best
  | _ :: gs' =>
      let l := zero_run gs in
      longest_run (S i) gs'
        (if (2 <=? l)%nat && (best.2 - best.1 <? l)%nat then (i, i + l)%nat else best)
  end.
Fixpoint string6_go (fuel i : nat) (gs : list Z) (run : nat * nat) : string :=
  match fuel with
  | O => ""
  | S fuel =>
      if (8 <=? i)%nat then ""
      else if (i =? run.1)%nat && (run.1 <? run.2)%nat then
        if (8 <=? run.2)%nat then "::"
        else "::" +:+ FormatUint (default 0 (gs !! run.2)) 16
             +:+ string6_go fuel (S run.2) gs run
      else (if (0 <? i)%nat then ":" else "")
           +:+ FormatUint (default 0 (gs !! i)) 16 +:+ string6_go fuel (S i) gs run
  end.
Definition string6 (a : Z) : string :=
  let gs := groups a in string6_go 9 0 gs (longest_run 0 gs (255, 255)%nat).
Definition zone_suffix (z : string) : string :=
  if decide (z = "") then "" else "%" +:+ z.

(** [Addr.String]. *)
Definition addr_string (a : addr) : string :=
  match a with
  | AddrZero => "invalid IP"
  | Addr4 a => string4 a
  | Addr6 n z =>
      (if Is4In6 a then "::ffff:" +:+ string4 (n mod 2 ^ 32) else string6 n)
      +:+ zone_suffix z
  end.

(** One decimal octet: digits only, no leading zero, at most 255. *)
Definition parse_octet (f : string) : option Z :=
  if (1 <? String.length f)%nat && HasPrefix f "0" then None
  else match ParseUint f 10 8 with Ok v => Some v | Err _ => None end.
Definition parseIPv4Fields (s : string) : option Z :=
  match mapM parse_octet (Split "." s) with
  | Some [a; b; c; d] => Some (((a * 256 + b) * 256 + c) * 256 + d)
  | _ => None
  end.

(** The leading hexadecimal digits of [s] and the rest. *)
Fixpoint span_hex (s : string) : string * string :=
  match s with
  | String c s' =>
      match digit_val c with
      | Some d => if d <? 16 then prod_map (String c) id (span_hex s') else ("", s)
      | None => ("", s)
      end
  | EmptyString => ("", "")
  end.

(** The group loop of [parseIPv6]: the groups read so far, the number of
    groups before the ellipsis, the text left. *)
Fixpoint parse6_loop (fuel : nat) (gs : list Z) (ell : option nat) (s : string)
  : option (list Z * option nat) :=
  match fuel with
  | O => if decide (s = "") then Some (gs, ell) else None
  | S fuel =>
      let '(h, rest) := span_hex s in
      if (String.length h =? 0)%nat || (4 <? String.length h)%nat then None
      else if HasPrefix rest "." then
        if bool_decide (ell = None) && negb (length gs =? 6)%nat then None
        else if (6 <? length gs)%nat then None
        else v4 ← parseIPv4Fields s;
             Some (gs ++ [v4 / 65536; v4 mod 65536], ell)
      else
        g ← parse_digits 16 0 h;
        let gs := gs ++ [g] in
        match rest with
        | EmptyString => Some (gs, ell)
        | String c s' =>
            if negb (Ascii.eqb c ":") then None
            else match s' with
            | EmptyString => None
            | String c' s'' =>
                if Ascii.eqb c' ":" then
                  match ell with
                  | Some _ => None
                  | None =>
                      if decide (s'' = "") then Some (gs, Some (length gs))
                      else parse6_loop fuel gs (Some (length gs)) s''
                  end
                else parse6_loop fuel gs ell s'
            end
        end
  end.

Definition join_groups (gs : list Z) : Z := foldl (λ a g, a * 65536 + g) 0 gs.
Definition parse6_finish (gs : list Z) (ell : option nat) (z : string) : option addr :=
  match ell with
  | None => if (length gs =? 8)%nat then Some (Addr6 (join_groups gs) z) else None
  | Some e =>
      if (8 <=? length gs)%nat then None
      else Some (Addr6 (join_groups
             (take e gs ++ replicate (8 - length gs) 0 ++ drop e gs)) z)
  end.
Definition parseIPv6 (inp : string) : option addr :=
  '(s, z) ← match Cut "%" inp with
            | None => Some (inp, "")
            | Some (s, z) => if decide (z = "") then None else Some (s, z)
            end;
  match CutPrefix "::" s with
  | Some s' =>
      if decide (s' = "") then Some (Addr6 0 z)
      else '(gs, ell) ← parse6_loop 8 [] (Some O) s'; parse6_finish gs ell z
  | None => '(gs, ell) ← parse6_loop 8 [] None s; parse6_finish gs ell z
  end.

(** [netip.ParseAddr]: the first of [.], [:] and [%] decides the family. *)
Fixpoint family_of (s : string) : option ascii :=
  match s with
  | EmptyString => None
  | String c s =>
      if Ascii.eqb c "." || Ascii.eqb c ":" || Ascii.eqb c "%" then Some c else family_of s
  end.
Definition ParseAddr (s : string) : option addr :=
  match family_of s with
  | Some c =>
      if Ascii.eqb c "." then Addr4 <$> parseIPv4Fields s
      else if Ascii.eqb c ":" then parseIPv6 s
      else None
  | None => None
  end.

(** ** [AddrPort] *)
Record addrport := AddrPortFrom { ap_addr : addr; ap_port : Z }.
#[export] Instance addrport_eq_dec : EqDecision addrport.
Proof. solve_decision. Defined.
#[export] Instance addrport_countable : Countable addrport.
Proof.
  by refine (inj_countable' (λ p, (ap_addr p, ap_port p))
    (λ '(a, p), AddrPortFrom a p) _); intros [].
Defined.

(** ** [Prefix]

    [pfx_bits] is [-1] for an invalid prefix, as [Prefix.Bits] reports it. *)
Record prefix := Prefix { pfx_ip : addr; pfx_bits : Z }.
#[export] Instance prefix_eq_dec : EqDecision prefix.
Proof. solve_decision. Defined.

Definition PrefixZero : prefix := Prefix AddrZero (-1).
Definition PrefixIsValid (p : prefix) : bool := 0 <=? pfx_bits p.
Definition PrefixFrom (ip : addr) (bits : Z) : prefix :=
  Prefix (withoutZone ip)
    (if IsValid ip && (0 <=? bits) && (bits <=? BitLen ip) then bits else -1).

(** The number of [a] as a 128-bit value, its low bits cleared. *)
Definition mask_addr (a : addr) (bits : Z) : addr :=
  let clear n w := Z.shiftl (Z.shiftr n (w - bits)) (w - bits) in
  match a with
  | AddrZero => AddrZero
  | Addr4 n => Addr4 (clear n 32)
  | Addr6 n z => Addr6 (clear n 128) z
  end.
Definition Masked (p : prefix) : prefix :=
  if (0 <=? pfx_bits p) && IsValid (pfx_ip p) && (pfx_bits p <=? BitLen (pfx_ip p))
  then PrefixFrom (mask_addr (pfx_ip p) (pfx_bits p)) (pfx_bits p)
  else PrefixZero.

Definition PrefixContains (p : prefix) (ip : addr) : bool :=
  if negb (PrefixIsValid p) || hasZone ip then false
  else match pfx_ip p, ip with
       | Addr4 n, Addr4 m =>
           Z.shiftr n (32 - pfx_bits p) =? Z.shiftr m (32 - pfx_bits p)
       | Addr6 n _, Addr6 m _ =>
           Z.shiftr n (128 - pfx_bits p) =? Z.shiftr m (128 - pfx_bits p)
       | _, _ => false
       end.

(** [netip.ParsePrefix]. *)
Definition ParsePrefix (s : string) : option prefix :=
  i ← LastIndexByte "/" s;
  ip ← ParseAddr (str_take i s);
  if hasZone ip then None
  else
    let b := str_drop (S i) s in
    let leading_ok :=
      match b with
      | String c _ => (49 <=? code c) && (code c <=? 57)
      | EmptyString => true
      end in
    if (1 <? String.length b)%nat && negb leading_ok then None
    else match Atoi b with
         | Err _ => None
         | Ok bits =>
             if (bits <? 0) || ((if Is6 ip then 128 else 32) <? bits) then None
             else Some (PrefixFrom ip bits)
         end.

Definition prefix_string (p : prefix) : string :=
  if PrefixIsValid p then addr_string (pfx_ip p) +:+ "/" +:+ Itoa (pfx_bits p)
  else "invalid Prefix".

(** The text forms, on the addresses the code spells. *)
Example string_loopback : addr_string v4Loopback = "127.0.0.1". Proof. done. Qed.
Example string_any6 : addr_string IPv6Unspecified = "::". Proof. done. Qed.
Example string_lo6 : addr_string v6Loopback = "::1". Proof. done. Qed.
Example string_gw6 : option_map addr_string (ParseAddr "fd77::2") = Some "fd77::2".
Proof. vm_compute. done. Qed.
Example string_runs :
  option_map addr_string (ParseAddr "2001:0:0:1:0:0:0:1") = Some "2001:0:0:1::1".
Proof. vm_compute. done. Qed.
Example string_mapped :
  option_map addr_string (ParseAddr "::ffff:1.2.3.4") = Some "::ffff:1.2.3.4".
Proof. vm_compute. done. Qed.
Example parse_bad : ParseAddr "1.2.3.04" = None ∧ ParseAddr "1::2::3" = None
  ∧ ParseAddr "1.2.3" = None ∧ ParseAddr ":::" = None. 
Proof. vm_compute. done. Qed.

(** ** Facts *)

Lemma length_As16 a : length (As16 a) = 16%nat.
Proof. destruct a; apply length_be_split. Qed.
#[export] Hint Rewrite length_As16 : dbr.

Lemma mapped_shiftr a : 0 <= a < 2 ^ 32 → Z.shiftr (mapped + a) 32 = 0xffff.
Proof.
  intros. unfold mapped. rewrite Z.shiftr_div_pow2, Z.shiftl_mul_pow2 by lia.
  rewrite Z.div_add_l, Z.div_small by lia. done.
Qed.
Lemma mapped_mod a : 0 <= a < 2 ^ 32 → (mapped + a) mod 2 ^ 32 = a.
Proof.
  intros. unfold mapped. rewrite Z.shiftl_mul_pow2, Z.add_comm by lia.
  rewrite Z.mod_add, Z.mod_small by lia. done.
Qed.

Lemma Unmap_idemp a : Unmap (Unmap a) = Unmap a.
Proof. destruct a as [| |n z]; cbn; try done. destruct (_ =? _) eqn:E; cbn; [done|by rewrite E]. Qed.
Lemma wf_Unmap a : wf_addr a = true → wf_addr (Unmap a) = true.
Proof.
  destruct a as [| |n z]; try done. cbn. destruct (Z.shiftr n 32 =? 65535); [|done].
  intros _. cbn. pose proof (Z.mod_pos_bound n (2 ^ 32) ltac:(lia)). bool_prop. lia.
Qed.

(** What [AddrFrom16] and [Unmap] recover of an address's 16 bytes: the
    address itself, its zone dropped and a v4-mapped one unmapped. *)
Lemma AddrFrom16_As16 a :
  wf_addr a = true → IsValid a = true →
  Unmap (AddrFrom16 (As16 a)) = Unmap (withoutZone a).
Proof.
  intros Hwf Hv. unfold AddrFrom16.
  destruct a as [|n|n z]; cbn [As16 withoutZone wf_addr] in *; [done| |]; bool_prop.
  - rewrite be_join_split_small by (unfold mapped; rewrite Z.shiftl_mul_pow2; lia).
    cbn -[mapped Z.shiftr Z.pow]. rewrite mapped_shiftr, mapped_mod by lia. done.
  - rewrite be_join_split_small by (change (256 ^ Z.of_nat 16) with (2 ^ 128); lia). done.
Qed.
Lemma AddrFrom16_inj b1 b2 :
  length b1 = length b2 → AddrFrom16 b1 = AddrFrom16 b2 → b1 = b2.
Proof. intros HL [= E]. by apply be_join_inj. Qed.

(** Equal 16-byte forms come from the same address, up to mapping and zone. *)
Lemma As16_inj a b :
  wf_addr a = true → wf_addr b = true → IsValid a = true → IsValid b = true →
  As16 a = As16 b → Unmap (withoutZone a) = Unmap (withoutZone b).
Proof. intros. rewrite <- !AddrFrom16_As16 by done. congruence. Qed.

(** Text and number of an IPv4 address correspond. *)
Lemma has_byte_digit c d :
  0 <= d < 36 → (code c <? 48) || (57 <? code c) && (code c <? 97) || (122 <? code c) = true →
  Ascii.eqb c (digit_chr d) = false.
Proof.
  intros Hd Hc. apply Ascii.eqb_neq. intros ->. unfold digit_chr, code in Hc.
  rewrite N_ascii_embedding in Hc by (case_match; lia).
  destruct (d <? 10) eqn:E; bool_prop; rewrite Z2N.id in Hc by lia; lia.
Qed.
