(* ===== verification/UdpFrame.v ===== *)
(** * UDP framing and the framed relay

    [internal/udpframe]: the datagram frames carried over proto-17 streams
    ([frame.go]) and the relay that pumps one such stream against a table of
    per-peer UDP sockets ([relay.go]). *)

From S2P Require Import Prelude Wire GoStr NetIP.
From Stdlib Require Import Strings.Byte.

Open Scope Z_scope.

(** ** Frames ([frame.go]) *)

(** Flow policy, in nanoseconds and flows. *)
Definition FlowIdleTimeout : Z := 60 * 10 ^ 9.
Definition FlowSweepInterval : Z := 10 * 10 ^ 9.
Definition MaxFlows : nat := 4096.
Definition HeaderLen : nat := 21.
Definition MaxPayload : nat := Z.to_nat 65507.
Lemma MaxPayload_Z : Z.of_nat MaxPayload = 65507. Proof. done. Qed.
#[global] Opaque MaxPayload MaxFlows.

Inductive frame_err :=
| PayloadTooLong | NonzeroFlags | ZeroPort | FrameIO (e : io_err).
#[export] Instance frame_err_eq_dec : EqDecision frame_err.
Proof. solve_decision. Defined.

(** The bytes of the one [Write] a frame takes. *)
Definition WriteFrame (peer : addrport) (payload : bytes) : result frame_err bytes :=
  if (MaxPayload <? length payload)%nat then Err PayloadTooLong
  else if ap_port peer =? 0 then Err ZeroPort
  else Ok (put_be16 (Z.of_nat (length payload)) ++ [Byte.x00]
           ++ As16 (ap_addr peer) ++ put_be16 (ap_port peer) ++ payload).

Definition slice (i j : nat) (l : bytes) : bytes := take (j - i) (drop i l).

Definition ReadFull' (n : nat) (s : bytes) : result frame_err (bytes * bytes) :=
  match ReadFull n s with Ok r => Ok r | Err e => Err (FrameIO e) end.

(** The peer, the payload and what the stream still holds. *)
Definition ReadFrame (s : bytes) : result frame_err (addrport * bytes * bytes) :=
  '(hdr, s) ← ReadFull' HeaderLen s;
  let n := Z.to_nat (be16 hdr) in
  if (MaxPayload <? n)%nat then Err PayloadTooLong
  else if negb (b2z (default Byte.x00 (hdr !! 2%nat)) =? 0) then Err NonzeroFlags
  else
    let a := Unmap (AddrFrom16 (slice 3 19 hdr)) in
    let port := be16 (drop 19 hdr) in
    if port =? 0 then Err ZeroPort
    else '(payload, s) ← ReadFull' n s;
         Ok (AddrPortFrom a port, payload, s).

(** The read loop of a stream's owner: the datagrams it reads and the error
    it stops on. Every frame takes at least a header off the stream, so the
    stream's length is fuel enough ([read_loop_fuel]). *)
Fixpoint read_loop (fuel : nat) (s : bytes) : list (addrport * bytes) * frame_err :=
  match ReadFrame s with
  | Err e => ([], e)
  | Ok (peer, payload, s) =>
      match fuel with
      | O => ([], FrameIO Closed)
      | S fuel => let '(l, e) := read_loop fuel s in ((peer, payload) :: l, e)
      end
  end.
Definition ReadFrames (s : bytes) : list (addrport * bytes) * frame_err :=
  read_loop (length s) s.

(** The addresses a frame can carry: no zone, never v4-mapped, and a real
    port. *)
Definition wf_peer (p : addrport) : bool :=
  wf_addr (ap_addr p) && IsValid (ap_addr p) && (0 <=? ap_port p) && (ap_port p <? 65536).
Definition canon_peer (p : addrport) : addrport :=
  AddrPortFrom (Unmap (withoutZone (ap_addr p))) (ap_port p).
Definition canonical (p : addrport) : Prop := wf_peer p = true ∧ canon_peer p = p.

Lemma ReadFull'_Ok n s l rest :
  ReadFull' n s = Ok (l, rest) ↔ s = l ++ rest ∧ length l = n.
Proof. rewrite <- ReadFull_Ok. unfold ReadFull'. destruct (ReadFull n s); by split; intros [=->]. Qed.
Lemma ReadFull'_app n l rest : length l = n → ReadFull' n (l ++ rest) = Ok (l, rest).
Proof. intros. by apply ReadFull'_Ok. Qed.

(** Reading from a stream cut after [k] bytes. *)
Lemma ReadFull'_take n s k l rest :
  ReadFull' n s = Ok (l, rest) →
  (∃ e, ReadFull' n (take k s) = Err (FrameIO e)) ∨
  ((n <= k)%nat ∧ ReadFull' n (take k s) = Ok (l, take (k - n) rest)).
Proof.
  intros [-> HL]%ReadFull'_Ok. destruct (decide (k < n)%nat) as [Hk|Hk].
  - left. destruct (ReadFull_short n (take k (l ++ rest))) as [e He].
    { rewrite length_take. lia. }
    unfold ReadFull'. rewrite He. by eexists.
  - right. split; [lia|]. rewrite take_app, take_ge, HL by lia. by apply ReadFull'_app.
Qed.

Lemma put_be16_bound n : length (put_be16 n) = 2%nat.
Proof. apply length_be_split. Qed.
#[export] Hint Rewrite put_be16_bound : dbr.

(** The address that 16 bytes spell writes back the same bytes. *)
Lemma As16_of_bytes b : length b = 16%nat → As16 (Unmap (AddrFrom16 b)) = b.
Proof.
  intros HL. unfold AddrFrom16, Unmap. cbn [Is4In6].
  destruct (Z.shiftr (be_join b) 32 =? 65535) eqn:E; cbn [As16].
  - bool_prop. assert (mapped + be_join b mod 2 ^ 32 = be_join b) as ->.
    { rewrite Z.shiftr_div_pow2 in E by lia. unfold mapped.
      rewrite Z.shiftl_mul_pow2 by lia. pose proof (Z.div_mod (be_join b) (2 ^ 32)). lia. }
    rewrite <- HL. apply be_split_join.
  - rewrite <- HL. apply be_split_join.
Qed.

Lemma wf_of_bytes b : length b = 16%nat → wf_addr (Unmap (AddrFrom16 b)) = true.
Proof.
  intros HL. apply wf_Unmap. cbn -[Z.pow]. pose proof (be_join_bound b) as H.
  rewrite HL in H. change (256 ^ Z.of_nat 16) with (2 ^ 128) in H. bool_prop. lia.
Qed.
Lemma canon_of_bytes b :
  Unmap (withoutZone (Unmap (AddrFrom16 b))) = Unmap (AddrFrom16 b).
Proof.
  unfold AddrFrom16. cbn. destruct (Z.shiftr (be_join b) 32 =? 65535) eqn:E; cbn; [done|].
  by rewrite E.
Qed.
Lemma IsValid_of_bytes b : IsValid (Unmap (AddrFrom16 b)) = true.
Proof. cbn. by case_match. Qed.

(** A 21-byte header split where [ReadFrame] splits it. *)
Lemma header_split (hdr : bytes) :
  length hdr = HeaderLen →
  ∃ n f a p, hdr = n ++ [f] ++ a ++ p ∧ length n = 2%nat ∧ length a = 16%nat ∧
             length p = 2%nat.
Proof.
  intros HL. assert (length (drop 2 hdr) = 19%nat) as H2 by by rewrite length_drop, HL.
  destruct (drop 2 hdr) as [|f r] eqn:E; [done|].
  exists (take 2 hdr), f, (take 16 r), (drop 16 r).
  cbn in H2. rewrite take_drop, !length_take, length_drop, HL. cbn [app].
  rewrite <- E, take_drop. split; [done|]. unfold HeaderLen. lia.
Qed.

Lemma header_fields (n : bytes) f (a p : bytes) :
  length n = 2%nat → length a = 16%nat → length p = 2%nat →
  let hdr := n ++ [f] ++ a ++ p in
  be16 hdr = be_join n ∧ hdr !! 2%nat = Some f ∧ slice 3 19 hdr = a ∧
  be16 (drop 19 hdr) = be_join p.
Proof.
  intros Hn Ha Hp. cbn zeta. unfold be16, slice.
  rewrite take_app_length' by done. split; [done|].
  split; [by rewrite lookup_app_r, Hn by lia|].
  rewrite (assoc (++) n), drop_app_length' by (rewrite length_app, Hn; done).
  split; [by apply take_app_length'|].
  rewrite (assoc (++) (n ++ _)), drop_app_length' by (rewrite !length_app, Hn, Ha; done).
  by rewrite take_ge by lia.
Qed.


Definition frame_bytes (peer : addrport) (payload : bytes) : bytes :=
  (put_be16 (Z.of_nat (length payload)) ++ [Byte.x00]
   ++ As16 (ap_addr peer) ++ put_be16 (ap_port peer)) ++ payload.

Lemma WriteFrame_Ok peer payload frame :
  WriteFrame peer payload = Ok frame ↔
  (length payload <= MaxPayload)%nat ∧ ap_port peer ≠ 0 ∧
  frame = frame_bytes peer payload.
Proof.
  assert (frame_bytes peer payload = put_be16 (Z.of_nat (length payload)) ++ [Byte.x00]
    ++ As16 (ap_addr peer) ++ put_be16 (ap_port peer) ++ payload) as ->
    by (unfold frame_bytes; by rewrite <- !(assoc (++))).
  unfold WriteFrame. destruct (_ <? _)%nat eqn:HL; bool_prop; [split; [done|lia]|].
  destruct (_ =? 0) eqn:HP; bool_prop; [split; [done|lia]|].
  split; [by intros [= <-]|by intros (_ & _ & ->)].
Qed.

(** What a written frame reads back as: the same payload from the canonical
    form of the peer, whatever follows on the stream. *)
Lemma ReadFrame_frame peer payload frame rest :
  wf_peer peer = true → WriteFrame peer payload = Ok frame →
  ReadFrame (frame ++ rest) = Ok (canon_peer peer, payload, rest).
Proof.
  unfold wf_peer. intros Hwf (HL & HP & ->)%WriteFrame_Ok.
  bool_prop. destruct Hwf as [[[Hwf Hv] H0] H1].
  assert (Z.of_nat (length payload) < 65536) by (pose proof MaxPayload_Z; lia).
  set (n := put_be16 (Z.of_nat (length payload))). set (p := put_be16 (ap_port peer)).
  destruct (header_fields n Byte.x00 (As16 (ap_addr peer)) p) as (E1 & E2 & E3 & E4);
    [apply put_be16_bound|apply length_As16|apply put_be16_bound|].
  unfold ReadFrame, frame_bytes. fold n p. rewrite <- (assoc (++) (n ++ _)).
  rewrite (ReadFull'_app HeaderLen) by (rewrite !length_app, length_As16; unfold n, p;
    by rewrite !put_be16_bound).
  cbn [mbind result_bind]. rewrite E1, E2, E3, E4. cbn [default].
  unfold n, p. rewrite !be_join_put, Nat2Z.id by lia.
  rewrite (proj2 (Nat.ltb_ge _ _)) by lia. rewrite (proj2 (Z.eqb_neq _ _) HP).
  change (b2z Byte.x00 =? 0) with true. cbn [negb].
  rewrite ReadFull'_app by done. cbn [mbind result_bind]. unfold canon_peer.
  by rewrite AddrFrom16_As16.
Qed.

(** What [ReadFrame] accepts was written by [WriteFrame]. *)
Lemma ReadFrame_sound s peer payload rest :
  ReadFrame s = Ok (peer, payload, rest) →
  ∃ frame, WriteFrame peer payload = Ok frame ∧ s = frame ++ rest ∧ canonical peer.
Proof.
  unfold ReadFrame. intros ([hdr s'] & (-> & HL)%ReadFull'_Ok & H)%result_bind_Ok.
  destruct (header_split hdr HL) as (n & f & a & p & -> & Hn & Ha & Hp).
  destruct (header_fields n f a p Hn Ha Hp) as (E1 & E2 & E3 & E4).
  rewrite E1, E2, E3, E4 in H. cbn [default] in H.
  pose proof (be_join_bound n) as Bn. rewrite Hn in Bn. cbn in Bn.
  pose proof (be_join_bound p) as Bp. rewrite Hp in Bp. cbn in Bp.
  destruct (_ <? _)%nat eqn:HN in H; [done|]. destruct (negb _) eqn:HF in H; [done|].
  destruct (be_join p =? 0) eqn:HP; [done|]. bool_prop.
  remember (AddrPortFrom (Unmap (AddrFrom16 a)) (be_join p)) as q eqn:Hq.
  apply result_bind_Ok in H as ([pl s''] & (-> & HPl)%ReadFull'_Ok & [= <- <- <-]).
  subst q. eexists. split; [|split].
  - apply WriteFrame_Ok. split; [lia|]. split; [done|reflexivity].
  - unfold frame_bytes. cbn [ap_addr ap_port]. rewrite As16_of_bytes by done. rewrite HPl, Z2Nat.id by lia.
    rewrite !put_be_join by done. assert (f = Byte.x00) as -> by (by apply b2z_inj).
    by rewrite <- !(assoc (++)).
  - unfold canonical, wf_peer, canon_peer. cbn [ap_addr ap_port].
    rewrite wf_of_bytes, IsValid_of_bytes, canon_of_bytes by done.
    split; [|done]. bool_prop. lia.
Qed.

Lemma ReadFrame_shrinks s peer payload rest :
  ReadFrame s = Ok (peer, payload, rest) → (length rest + HeaderLen <= length s)%nat.
Proof.
  intros (frame & (_ & _ & ->)%WriteFrame_Ok & -> & _)%ReadFrame_sound.
  unfold frame_bytes. rewrite !length_app, length_As16, !put_be16_bound. cbn. unfold HeaderLen. lia.
Qed.

(** Fuel beyond the stream's length changes nothing. *)
Lemma read_loop_fuel f s :
  (length s <= f)%nat → read_loop f s = ReadFrames s.
Proof.
  unfold ReadFrames. revert s. induction f as [f IH] using lt_wf_ind. intros s Hf.
  destruct f as [|f].
  { by destruct s; [|cbn in Hf; lia]. }
  destruct s as [|b s]; [done|]. cbn [read_loop length].
  destruct (ReadFrame (b :: s)) as [[[peer pl] rest]|e] eqn:E; [|done].
  apply ReadFrame_shrinks in E. cbn in E, Hf. unfold HeaderLen in E.
  rewrite (IH f) by lia. rewrite (IH (length s)); [done|lia|lia].
Qed.

Lemma ReadFrames_unfold s :
  ReadFrames s = match ReadFrame s with
                 | Err e => ([], e)
                 | Ok (peer, pl, rest) =>
                     ((peer, pl) :: (ReadFrames rest).1, (ReadFrames rest).2)
                 end.
Proof.
  rewrite <- (read_loop_fuel (S (length s)) s) by lia. cbn [read_loop].
  destruct (ReadFrame s) as [[[peer pl] rest]|e] eqn:E; [|done].
  apply ReadFrame_shrinks in E. rewrite read_loop_fuel by lia. by destruct (ReadFrames rest).
Qed.

(** The datagrams a list of writes puts on the stream. *)
Fixpoint WriteFrames (l : list (addrport * bytes)) : result frame_err bytes :=
  match l with
  | [] => Ok []
  | (peer, payload) :: l =>
      f ← WriteFrame peer payload; s ← WriteFrames l; Ok (f ++ s)
  end.

(** Reading a stream cut anywhere inside a frame fails, and with an I/O error:
    no shorter datagram comes out of a torn one. *)
Lemma ReadFrame_torn peer payload frame k :
  wf_peer peer = true → WriteFrame peer payload = Ok frame → (k < length frame)%nat →
  ∃ e, ReadFrame (take k frame) = Err (FrameIO e).
Proof.
  intros Hwf HW Hk.
  pose proof (ReadFrame_frame _ _ _ [] Hwf HW) as HR. rewrite app_nil_r in HR.
  unfold ReadFrame in *.
  apply result_bind_Ok in HR as ([hdr s'] & HR & H).
  destruct (ReadFull'_take HeaderLen frame k hdr s' HR) as [[e ->]|[Hge ->]].
  { by eexists. }
  cbn [mbind result_bind] in *. case_match; [done|]. case_match; [done|].
  case_match; [done|]. remember (AddrPortFrom _ _) as q.
  apply result_bind_Ok in H as ([pl s''] & HR' & [= _ -> ->]).
  destruct (ReadFull'_take _ _ (k - HeaderLen) _ _ HR') as [[e ->]|[Hge' _]].
  { by eexists. }
  apply ReadFull'_Ok in HR as [-> HL1], HR' as [-> HL2].
  rewrite !length_app in Hk. cbn in Hk. lia.
Qed.

(** ** The relay ([relay.go])

    One [RelayStream] call: the table of flows, the UDP sockets its [dial]
    opened, and the goroutines that share them (the read loop of the stream,
    one reader per socket, the sweeper). A step is one critical section or
    one system call of one of them. *)
Module Relay.

Record flow := Flow { fl_conn : nat; fl_lastSeen : Z }.

(** [socks] are the sockets not yet closed and [owner] the peer each
    socket's reader goroutine frames its replies for. [pc] is the datagram
    the read loop holds between [get] and [Write], [held] what the readers
    hold between [Read] and [WriteFrame]. [got], [inbox], [sent] and [out]
    record what was read from the stream, delivered to the sockets, written
    to the sockets and framed onto the stream. *)
Record relay := MkRelay {
  flows : gmap addrport flow;
  socks : gset nat;
  owner : gmap nat addrport;
  next : nat;
  pc : option (nat * bytes);
  held : list (nat * bytes);
  exited : bool;
  got : list (addrport * bytes);
  inbox : list (nat * bytes);
  sent : list (nat * bytes);
  out : list (addrport * bytes) }.

Definition relay0 : relay := MkRelay ∅ ∅ ∅ 0 None [] false [] [] [] [].

Definition set_flows f (r : relay) : relay :=
  MkRelay f (socks r) (owner r) (next r) (pc r) (held r) (exited r) (got r)
    (inbox r) (sent r) (out r).

(** The closure [touch]. *)
Definition touch (now : Z) (peer : addrport) (r : relay) : relay :=
  match flows r !! peer with
  | Some f => set_flows (<[peer := Flow (fl_conn f) now]> (flows r)) r
  | None => r
  end.

(** The closure [get]; [dial_ok] is whether [dial] returned a socket. *)
Definition get (now : Z) (dial_ok : bool) (peer : addrport) (r : relay)
  : option nat * relay :=
  match flows r !! peer with
  | Some f =>
      (Some (fl_conn f), set_flows (<[peer := Flow (fl_conn f) now]> (flows r)) r)
  | None =>
      if (MaxFlows <=? size (flows r))%nat then (None, r)
      else if negb dial_ok then (None, r)
      else
        let uc := next r in
        (Some uc,
         MkRelay (<[peer := Flow uc now]> (flows r)) ({[uc]} ∪ socks r)
           (<[uc := peer]> (owner r)) (S uc) (pc r) (held r) (exited r) (got r)
           (inbox r) (sent r) (out r))
  end.

(** The read loop's turn: a frame was read, [get] ran. *)
Definition recv (now : Z) (dial_ok : bool) (peer : addrport) (payload : bytes)
    (r : relay) : relay :=
  let '(uc, r) := get now dial_ok peer r in
  MkRelay (flows r) (socks r) (owner r) (next r) ((λ uc, (uc, payload)) <$> uc)
    (held r) (exited r) ((peer, payload) :: got r) (inbox r) (sent r) (out r).

(** [uc.Write(payload)]: nothing leaves a socket already closed. *)
Definition write (r : relay) : relay :=
  match pc r with
  | None => r
  | Some (uc, payload) =>
      MkRelay (flows r) (socks r) (owner r) (next r) None (held r) (exited r) (got r)
        (inbox r) (if decide (uc ∈ socks r) then (uc, payload) :: sent r else sent r) (out r)
  end.

(** The sweeper's tick: [cutoff] is [FlowIdleTimeout] before now. *)
Definition expired (cutoff : Z) (f : flow) : bool := fl_lastSeen f <? cutoff.
Definition conns (m : gmap addrport flow) : gset nat := map_conns fl_conn m.
Definition sweep (now : Z) (r : relay) : relay :=
  let cutoff := now - FlowIdleTimeout in
  let dead := filter (λ '(_, f), expired cutoff f = true) (flows r) in
  let keep := filter (λ '(_, f), expired cutoff f = false) (flows r) in
  MkRelay keep (socks r ∖ conns dead) (owner r) (next r) (pc r) (held r) (exited r)
    (got r) (inbox r) (sent r) (out r).

(** A socket's reader: [uc.Read], then [touch] and [WriteFrame]. *)
Definition sock_read (uc : nat) (data : bytes) (r : relay) : relay :=
  MkRelay (flows r) (socks r) (owner r) (next r) (pc r) ((uc, data) :: held r) (exited r)
    (got r) ((uc, data) :: inbox r) (sent r) (out r).
Definition reply (now : Z) (peer : addrport) (uc : nat) (data : bytes)
    (hs : list (nat * bytes)) (r : relay) : relay :=
  let r := touch now peer r in
  MkRelay (flows r) (socks r) (owner r) (next r) (pc r) hs (exited r)
    (got r) (inbox r) (sent r) ((peer, data) :: out r).

(** The deferred calls on the way out: every flow's socket is closed. *)
Definition exit_relay (r : relay) : relay :=
  MkRelay (flows r) (socks r ∖ conns (flows r)) (owner r) (next r) None (held r) true
    (got r) (inbox r) (sent r) (out r).

(** The read loop runs [get] only before it returns, and after the last
    datagram's [Write]; the sweeper may tick once more after that. *)
Inductive step : relay → relay → Prop :=
| step_recv now ok peer payload r :
    exited r = false → pc r = None → step r (recv now ok peer payload r)
| step_write r : exited r = false → step r (write r)
| step_sweep now r : step r (sweep now r)
| step_sock_read uc data r : uc ∈ socks r → step r (sock_read uc data r)
| step_reply now peer uc data hs r :
    held r ≡ₚ (uc, data) :: hs → owner r !! uc = Some peer →
    step r (reply now peer uc data hs r)
| step_exit r : exited r = false → pc r = None → step r (exit_relay r).

Definition reachable : relay → Prop := reach (λ r, r = relay0) step.

(** The table and the sockets agree. *)
Record tables_ok (r : relay) : Prop := {
  ok_owner peer f : flows r !! peer = Some f → owner r !! fl_conn f = Some peer;
  ok_open : socks r = if exited r then ∅ else conns (flows r);
  ok_fresh uc : is_Some (owner r !! uc) → (uc < next r)%nat;
  ok_cap : (size (flows r) <= MaxFlows)%nat }.

(** The datagrams stay with their peer. *)
Record demux_ok (r : relay) : Prop := {
  ok_pc uc d : pc r = Some (uc, d) → ∃ p, owner r !! uc = Some p ∧ (p, d) ∈ got r;
  ok_held uc d : (uc, d) ∈ held r → (uc, d) ∈ inbox r;
  ok_sent uc d : (uc, d) ∈ sent r → ∃ p, owner r !! uc = Some p ∧ (p, d) ∈ got r;
  ok_inbox uc d : (uc, d) ∈ inbox r → is_Some (owner r !! uc);
  ok_out p d : (p, d) ∈ out r → ∃ uc, owner r !! uc = Some p ∧ (uc, d) ∈ inbox r }.

Lemma elem_of_conns m uc : uc ∈ conns m ↔ ∃ p f, m !! p = Some f ∧ fl_conn f = uc.
Proof. apply elem_of_map_conns. Qed.

Lemma touch_lookup now peer r p :
  flows (touch now peer r) !! p =
  (if decide (p = peer) then (λ f, Flow (fl_conn f) now) <$> flows r !! p
   else flows r !! p).
Proof.
  unfold touch. destruct (decide (p = peer)) as [->|D].
  - destruct (flows r !! peer) as [f|] eqn:E; cbn; [|by rewrite E].
    by rewrite lookup_insert_eq.
  - destruct (flows r !! peer) as [f|] eqn:E; cbn; [|done].
    by rewrite lookup_insert_ne.
Qed.

Lemma touch_eq now peer r : touch now peer r = set_flows (flows (touch now peer r)) r.
Proof. unfold touch. destruct (flows r !! peer); [done|by destruct r]. Qed.

(** Touching a flow keeps the sockets of the table. *)
Lemma touch_tables now peer r : tables_ok r → tables_ok (touch now peer r).
Proof.
  intros [H1 H2 H3 H4]. rewrite touch_eq. split; cbn; [| |done|].
  - intros p f. rewrite touch_lookup. case_decide as D; [|apply H1].
    intros (f' & ? & ->)%fmap_Some. cbn. by apply H1.
  - rewrite H2. destruct (exited r); [done|]. apply set_eq. intros uc.
    rewrite !elem_of_conns. setoid_rewrite touch_lookup.
    split; intros (p & f & Hp & <-).
    + exists p. case_decide; eauto. rewrite Hp. by eexists.
    + case_decide; [|by eauto]. apply fmap_Some in Hp as (f' & ? & ->). eauto.
  - unfold touch. destruct (flows r !! peer) eqn:Ep; cbn; [|done].
    rewrite map_size_insert, Ep. done.
Qed.

Lemma get_tables now ok peer r :
  exited r = false → tables_ok r → tables_ok (get now ok peer r).2.
Proof.
  intros HE HI. unfold get. destruct (flows r !! peer) as [f|] eqn:Ep.
  { pose proof (touch_tables now peer r HI) as HT. unfold touch in HT. by rewrite Ep in HT. }
  destruct (_ <=? _)%nat eqn:HC; [done|]. destruct (negb ok); [done|].
  destruct HI as [H1 H2 H3 H4]. rewrite HE in H2. bool_prop. split; cbn.
  - intros p f [[<- <-]|[? Hp]]%lookup_insert_Some; cbn; [by rewrite lookup_insert_eq|].
    apply H1 in Hp. rewrite lookup_insert_ne; [done|]. intros E.
    pose proof (H3 (fl_conn f) (ex_intro _ _ Hp)). lia.
  - rewrite HE, H2. unfold conns. by rewrite map_conns_insert.
  - intros uc [p [[<- _]|[_ Hp]]%lookup_insert_Some]; [lia|].
    specialize (H3 uc (ex_intro _ _ Hp)). lia.
  - rewrite map_size_insert, Ep. lia.
Qed.

Lemma sweep_tables now r : tables_ok r → tables_ok (sweep now r).
Proof.
  intros [H1 H2 H3 H4]. split; cbn; [| |done|].
  - intros p f [Hp _]%map_lookup_filter_Some. by apply H1.
  - rewrite H2. destruct (exited r); [set_solver|]. apply map_conns_split.
    intros p1 p2 f1 f2 E1%H1 E2%H1 E. rewrite E in E1. congruence.
  - eapply Nat.le_trans; [|exact H4]. apply map_size_filter.
Qed.

Lemma step_tables r r' : tables_ok r → step r r' → tables_ok r'.
Proof.
  intros HI. destruct 1 as [now ok peer pl r HE HP|r HE|now r|uc d r Hu|now p uc d hs r Hh Ho|r HE HP].
  - pose proof (get_tables now ok peer r HE HI) as [H1 H2 H3 H4]. unfold recv.
    destruct (get now ok peer r) as [uc r']. by split.
  - unfold write. destruct (pc r) as [[uc d]|]; [|done]. by destruct HI; split.
  - by apply sweep_tables.
  - by destruct HI; split.
  - pose proof (touch_tables now p r HI) as [H1 H2 H3 H4]. by split.
  - destruct HI as [H1 H2 H3 H4]. split; [done| |done|done].
    cbn. rewrite H2, HE. set_solver.
Qed.

Lemma reachable_tables r : reachable r → tables_ok r.
Proof.
  apply reach_invariant; [|intros s s' _; apply step_tables].
  intros s ->. split; cbn; [done| | |].
  - apply set_eq. intros uc. rewrite elem_of_conns. split; [set_solver|].
    by intros (? & ? & ? & _).
  - by intros uc [].
  - rewrite map_size_empty. lia.
Qed.

(** [get] hands out the socket of the peer it was asked for, and opens a new
    one only under a name no reader has. *)
Lemma get_spec now ok peer r uc r' :
  tables_ok r → get now ok peer r = (uc, r') →
  owner r ⊆ owner r' ∧ (∀ u, uc = Some u → owner r' !! u = Some peer) ∧
  pc r' = pc r ∧ held r' = held r ∧ got r' = got r ∧ inbox r' = inbox r ∧
  sent r' = sent r ∧ out r' = out r.
Proof.
  intros [H1 _ H3 _]. unfold get. destruct (flows r !! peer) as [f|] eqn:Ep.
  { intros [= <- <-]. cbn. split; [done|]. split; [|done]. intros u [= <-]. by apply H1. }
  destruct (_ <=? _)%nat; [by intros [= <- <-]|]. destruct (negb ok); [by intros [= <- <-]|].
  intros [= <- <-]. cbn. split; [|split; [|done]].
  - apply insert_subseteq. destruct (owner r !! next r) eqn:E; [|done].
    pose proof (H3 _ (ex_intro _ _ E)). lia.
  - intros u [= <-]. by rewrite lookup_insert_eq.
Qed.

Lemma touch_fields now peer r :
  owner (touch now peer r) = owner r ∧ pc (touch now peer r) = pc r ∧
  got (touch now peer r) = got r ∧ inbox (touch now peer r) = inbox r ∧
  sent (touch now peer r) = sent r ∧ out (touch now peer r) = out r.
Proof. by rewrite touch_eq. Qed.

Lemma step_demux r r' : tables_ok r → demux_ok r → step r r' → demux_ok r'.
Proof.
  intros HT [D1 D2 D3 D4 D5] HS.
  destruct HS as [now ok peer pl r HE HP|r HE|now r|uc d r Hu|now p uc d hs r Hh Ho|r HE HP].
  - unfold recv. destruct (get now ok peer r) as [u r'] eqn:G.
    destruct (get_spec _ _ _ _ _ _ HT G) as (Hsub & Hu & Epc & Eh & Eg & Ei & Es & Eo).
    split; cbn; rewrite ?Eh, ?Eg, ?Ei, ?Es, ?Eo; auto.
    + intros uc d [u' [-> [= -> ->]]]%fmap_Some. exists peer. split; [by apply Hu|by left].
    + intros uc d (p & Hp & ?)%D3. exists p. split; [by eapply lookup_weaken|by right].
    + intros uc d [p Hp]%D4. exists p. by eapply lookup_weaken.
    + intros p d (uc & Hp & ?)%D5. exists uc. split; [by eapply lookup_weaken|done].
  - unfold write. destruct (pc r) as [[u d]|] eqn:Epc; [|by split; auto; rewrite Epc].
    split; cbn; auto; [done|]. intros uc d'. case_decide; [|apply D3].
    intros [[= -> ->]|?]%elem_of_cons; eauto.
  - by split.
  - split; cbn; auto; [| |].
    + intros u d' [[= -> ->]|?]%elem_of_cons; [by left|right; auto].
    + intros u d' [[= -> ->]|?]%elem_of_cons; [|eauto].
      destruct HT as [H1 H2 _ _]. rewrite H2 in Hu. destruct (exited r); [set_solver|].
      apply elem_of_conns in Hu as (p & f & Hp & <-). eauto.
    + intros p d' (u & ? & ?)%D5. exists u. split; [done|by right].
  - destruct (touch_fields now p r) as (Eo & Ep & Eg & Ei & Es & Eou).
    assert (∀ x, x ∈ hs → x ∈ held r) as Hhs by (intros x ?; rewrite Hh; by right).
    split; cbn; rewrite ?Eo, ?Ep, ?Eg, ?Ei, ?Es, ?Eou; auto.
    intros p' d' [[= -> ->]|?]%elem_of_cons; [|auto]. exists uc. split; [done|].
    apply D2. rewrite Hh. by left.
  - split; cbn; auto; done.
Qed.

Lemma reachable_demux r : reachable r → demux_ok r.
Proof.
  apply reach_invariant; [|intros s s' HR; apply step_demux, reachable_tables, HR].
  intros s ->. split; cbn; try done; set_solver.
Qed.
End Relay.

(** ** Properties *)

(** C17: a stream yields a datagram exactly when its next bytes are the frame
    [WriteFrame] writes for it: [ReadFrame] is the inverse of [WriteFrame],
    byte for byte, on the peers a frame can name (no zone, v4-mapped
    addresses unmapped, a nonzero port), and it takes that frame and nothing
    more off the stream. *)
Theorem ReadFrame_exact s peer payload rest :
  ReadFrame s = Ok (peer, payload, rest) ↔
  ∃ frame, WriteFrame peer payload = Ok frame ∧ s = frame ++ rest ∧ canonical peer.
Proof.
  split; [apply ReadFrame_sound|]. intros (frame & HW & -> & Hwf & Hc).
  rewrite (ReadFrame_frame _ _ _ rest Hwf HW). by rewrite Hc.
Qed.

Lemma ReadFrames_app peer payload frame s :
  wf_peer peer = true → WriteFrame peer payload = Ok frame →
  ReadFrames (frame ++ s) =
    ((canon_peer peer, payload) :: (ReadFrames s).1, (ReadFrames s).2).
Proof. intros Hwf HW. by rewrite ReadFrames_unfold, (ReadFrame_frame _ _ _ _ Hwf HW). Qed.
Lemma ReadFrames_torn peer payload frame k :
  wf_peer peer = true → WriteFrame peer payload = Ok frame → (k < length frame)%nat →
  ∃ e, ReadFrames (take k frame) = ([], FrameIO e).
Proof.
  intros Hwf HW Hk. destruct (ReadFrame_torn _ _ _ _ Hwf HW Hk) as [e He].
  exists e. by rewrite ReadFrames_unfold, He.
Qed.

(** A stream of frames cut at any byte (the transport died) delivers the
    datagrams whose frames arrived whole, in order and unchanged, and then an
    I/O error: never a desync, never a datagram that was not sent. Uncut, it
    delivers them all. *)
Theorem ReadFrames_cut l s k :
  Forall (λ d, wf_peer d.1 = true) l → WriteFrames l = Ok s →
  ∃ n e, ReadFrames (take k s) = (take n (prod_map canon_peer id <$> l), FrameIO e) ∧
         ((length s <= k)%nat → n = length l).
Proof.
  revert s k. induction l as [|[peer pl] l IH]; intros s k Hwf HW.
  { inv HW. exists 0%nat, EOF. by rewrite take_nil. }
  apply Forall_cons in Hwf as [Hp Hwf]. cbn [WriteFrames] in HW.
  apply result_bind_Ok in HW as (f & Hf & (s' & Hs & [= <-])%result_bind_Ok).
  destruct (decide (k < length f)%nat) as [Hk|Hk].
  - rewrite take_app_le by lia. destruct (ReadFrames_torn _ _ _ _ Hp Hf Hk) as [e ->].
    exists 0%nat, e. split; [done|]. rewrite length_app. lia.
  - rewrite take_app, take_ge by lia. rewrite (ReadFrames_app _ _ _ _ Hp Hf).
    destruct (IH s' (k - length f)%nat Hwf Hs) as (n & e & E & Hn). rewrite E.
    exists (S n), e. split; [done|]. rewrite length_app. cbn. intros. rewrite Hn; lia.
Qed.

Definition ex_peer : addrport := AddrPortFrom v4Loopback 5353.
Definition ex_grams : list (addrport * bytes) :=
  [(ex_peer, [Byte.x41]); (AddrPortFrom v6Loopback 53, [])].
Lemma ReadFrames_cut_witness :
  ∃ s n e, WriteFrames ex_grams = Ok s ∧ length s = 43%nat ∧
    ReadFrames (take 40 s) = (take n (prod_map canon_peer id <$> ex_grams), FrameIO e).
Proof.
  destruct (WriteFrames ex_grams) as [s|] eqn:E; [|vm_compute in E; discriminate].
  destruct (ReadFrames_cut ex_grams s 40) as (n & e & H & _); [|exact E|].
  - repeat constructor.
  - exists s, n, e. split; [done|]. split; [|exact H].
    apply (f_equal (λ r, match r with Ok s => length s | Err _ => 0%nat end)) in E.
    rewrite <- E. vm_compute. reflexivity.
Defined.

(** Whatever the interleaving of the read loop, the sweeper and the
    per-socket readers, the open sockets of a relay are exactly those of its
    flow table, one per peer and at most [MaxFlows] of them, and once the
    relay has returned every socket it ever opened is closed. *)
Theorem relay_sockets (r : Relay.relay) :
  Relay.reachable r →
  (size (Relay.socks r) <= MaxFlows)%nat ∧
  (Relay.exited r = true → Relay.socks r = ∅) ∧
  (Relay.exited r = false → ∀ uc, uc ∈ Relay.socks r ↔
     ∃ p t, Relay.flows r !! p = Some (Relay.Flow uc t)) ∧
  (∀ p1 p2 f1 f2, Relay.flows r !! p1 = Some f1 → Relay.flows r !! p2 = Some f2 →
     Relay.fl_conn f1 = Relay.fl_conn f2 → p1 = p2).
Proof.
  intros [H1 H2 H3 H4]%Relay.reachable_tables. split; [|split; [|split]].
  - rewrite H2. destruct (Relay.exited r); [rewrite size_empty; lia|].
    unfold Relay.conns. pose proof (size_map_conns Relay.fl_conn (Relay.flows r)). lia.
  - rewrite H2. by intros ->.
  - rewrite H2. intros -> uc. rewrite Relay.elem_of_conns. split.
    + intros (p & [c t] & ? & <-). eauto.
    + intros (p & t & ?). eauto.
  - intros p1 p2 f1 f2 E1%H1 E2%H1 E. rewrite E in E1. congruence.
Qed.
Lemma relay_sockets_witness :
  let r := Relay.exit_relay (Relay.write (Relay.recv 0 true ex_peer [] Relay.relay0)) in
  (size (Relay.socks r) <= MaxFlows)%nat ∧ Relay.socks r = ∅.
Proof.
  intros r. destruct (relay_sockets r) as (H & He & _).
  - eapply reach_step; [|by apply Relay.step_exit].
    eapply reach_step; [|by apply Relay.step_write].
    eapply reach_step; [|by apply Relay.step_recv]. by apply reach_init.
  - split; [exact H|]. by apply He.
Defined.

(** A relay never mixes flows up: a datagram leaves on a flow's socket
    only if it came off the stream in a frame of the peer that socket
    belongs to, and a frame tagged with a peer carries only what the backend
    sent to that peer's socket. *)
Theorem relay_demux (r : Relay.relay) :
  Relay.reachable r →
  (∀ uc d, (uc, d) ∈ Relay.sent r →
     ∃ p, Relay.owner r !! uc = Some p ∧ (p, d) ∈ Relay.got r) ∧
  (∀ p d, (p, d) ∈ Relay.out r →
     ∃ uc, Relay.owner r !! uc = Some p ∧ (uc, d) ∈ Relay.inbox r).
Proof. by intros [_ _ D3 _ D5]%Relay.reachable_demux. Qed.
Lemma relay_demux_witness :
  let r := Relay.write (Relay.recv 0 true ex_peer [Byte.x41] Relay.relay0) in
  Relay.sent r = [(0%nat, [Byte.x41])] ∧
  ∃ p, Relay.owner r !! 0%nat = Some p ∧ (p, [Byte.x41]) ∈ Relay.got r.
Proof.
  intros r. assert (Relay.sent r = [(0%nat, [Byte.x41])]) as E.
  { vm_compute. reflexivity. }
  split; [exact E|]. apply (relay_demux r).
  - eapply reach_step; [|by apply Relay.step_write].
    eapply reach_step; [|by apply Relay.step_recv]. by apply reach_init.
  - rewrite E. by left.
Defined.
