(* ===== verification/Transport.v ===== *)
(** * Transport endpoints

    [internal/transport/transport.go]: the endpoint grammar shared by the Mac
    side and the guest agent, and what [Dial] and [Listen] make of it. *)

From S2P Require Import Prelude Wire GoStr.

Open Scope string_scope.
Open Scope Z_scope.

Definition DefaultAgentPort : Z := 4777.
(** 3 seconds, in nanoseconds. *)
Definition DefaultDialTimeout : Z := 3 * 10 ^ 9.

Definition SchemeTCP : string := "tcp".
Definition SchemeUnix : string := "unix".
Definition SchemeVsock : string := "vsock".

Record Endpoint := MkEndpoint { Scheme : string; Addr : string }.
#[export] Instance Endpoint_eq_dec : EqDecision Endpoint.
Proof. solve_decision. Defined.

(** [Endpoint.String]. *)
Definition ep_String (e : Endpoint) : string :=
  if String.eqb (Scheme e) "" then Addr e else Scheme e +:+ "://" +:+ Addr e.

Definition uint_or_0 (p : string) : Z :=
  match ParseUint p 10 16 with Ok v => v | Err _ => 0 end.

(** [Endpoint.Port]. *)
Definition ep_Port (e : Endpoint) : Z :=
  if String.eqb (Scheme e) SchemeTCP then
    match SplitHostPort (Addr e) with Ok (_, p) => uint_or_0 p | Err _ => 0 end
  else if String.eqb (Scheme e) SchemeVsock then
    match Cut ":" (Addr e) with Some (_, p) => uint_or_0 p | None => 0 end
  else 0.

Inductive ep_err :=
| EmptyEndpoint
| BadTCP (e : addr_err)
| BadTCPPort (e : num_err)
| UnixNotAbsolute
| VsockNeedsPort
| BadVsockCID (e : num_err)
| BadVsockPort (e : num_err)
| UnknownScheme (s : string).

Definition wrap {E E' A} (f : E → E') (r : result E A) : result E' A :=
  match r with Ok a => Ok a | Err e => Err (f e) end.

Definition Parse (endpoint : string) : result ep_err Endpoint :=
  if String.eqb endpoint "" then Err EmptyEndpoint
  else
    let '(scheme, addr) :=
      match Cut "://" endpoint with
      | Some sa => sa
      | None => (SchemeTCP, endpoint)
      end in
    if String.eqb scheme SchemeTCP then
      '(host, port) ← wrap BadTCP (SplitHostPort addr);
      _ ← wrap BadTCPPort (ParseUint port 10 16);
      Ok (MkEndpoint SchemeTCP (JoinHostPort host port))
    else if String.eqb scheme SchemeUnix then
      if negb (HasPrefix addr "/") then Err UnixNotAbsolute
      else Ok (MkEndpoint SchemeUnix addr)
    else if String.eqb scheme SchemeVsock then
      '(cid, port) ← of_option VsockNeedsPort (Cut ":" addr);
      _ ← wrap BadVsockCID (ParseUint cid 10 32);
      _ ← wrap BadVsockPort (ParseUint port 10 16);
      Ok (MkEndpoint SchemeVsock (cid +:+ ":" +:+ port))
    else Err (UnknownScheme scheme).

(** [DialTimeout] and [Listen], over the network's own dial and listen, which
    are given the network ("tcp", "unix") and the address. *)
Inductive dial_err (E : Type) := BadEndpoint (e : ep_err) | ErrUnsupported | NetErr (e : E).
Arguments BadEndpoint {E} _.
Arguments ErrUnsupported {E}.
Arguments NetErr {E} _.

Section net.
Context {E C : Type}.
Variable net_open : string → string → result E C.

Definition open_endpoint (endpoint : string) : result (dial_err E) C :=
  e ← wrap BadEndpoint (Parse endpoint);
  if String.eqb (Scheme e) SchemeTCP then wrap NetErr (net_open "tcp" (Addr e))
  else if String.eqb (Scheme e) SchemeUnix then wrap NetErr (net_open "unix" (Addr e))
  else Err ErrUnsupported.
End net.

Definition DialTimeout {E C} (net_dial : Z → string → string → result E C)
    (endpoint : string) (d : Z) : result (dial_err E) C :=
  open_endpoint (net_dial d) endpoint.
Definition Dial {E C} (net_dial : Z → string → string → result E C)
    (endpoint : string) : result (dial_err E) C :=
  DialTimeout net_dial endpoint DefaultDialTimeout.
Definition Listen {E L} (net_listen : string → string → result E L)
    (endpoint : string) : result (dial_err E) L :=
  open_endpoint net_listen endpoint.

(** ** Facts *)

Lemma wrap_Ok {E E' A} (f : E → E') (r : result E A) a : wrap f r = Ok a ↔ r = Ok a.
Proof. destruct r; by split; intros [= ->]. Qed.
#[export] Hint Rewrite @wrap_Ok : dbr.

(** The endpoints [Parse] returns: one constructor per scheme. *)
Inductive parsed : Endpoint → Prop :=
| parsed_tcp h p v :
    has_byte "[" h = false → has_byte "]" h = false →
    has_byte ":" p = false → has_byte "[" p = false → has_byte "]" p = false →
    ParseUint p 10 16 = Ok v → parsed (MkEndpoint SchemeTCP (JoinHostPort h p))
| parsed_unix a : HasPrefix a "/" = true → parsed (MkEndpoint SchemeUnix a)
| parsed_vsock c p v w :
    has_byte ":" c = false → ParseUint c 10 32 = Ok v → ParseUint p 10 16 = Ok w →
    parsed (MkEndpoint SchemeVsock (c +:+ ":" +:+ p)).

Lemma Parse_parsed s e : Parse s = Ok e → parsed e.
Proof.
  unfold Parse. destruct (String.eqb s ""); [done|].
  destruct (match Cut "://" s with Some sa => sa | None => _ end) as [scheme addr].
  destruct (String.eqb scheme SchemeTCP).
  { intros ([h p] & HS & (v & HP & [= <-])%result_bind_Ok)%result_bind_Ok.
    apply wrap_Ok in HS, HP. apply SplitHostPort_Ok in HS as (? & ? & ? & ? & ?).
    by econstructor. }
  destruct (String.eqb scheme SchemeUnix).
  { destruct (HasPrefix addr "/") eqn:HP; [|done]. intros [= <-]. by constructor. }
  destruct (String.eqb scheme SchemeVsock); [|done].
  intros ([c p] & HC & (v & Hc & (w & Hp & [= <-])%result_bind_Ok)%result_bind_Ok)%result_bind_Ok.
  apply of_option_Ok in HC. apply wrap_Ok in Hc, Hp. apply Cut1_fst in HC.
  by econstructor.
Qed.

(** Reading back a scheme-qualified spelling. *)
Lemma Cut_scheme scheme a :
  has_byte ":" scheme = false → Cut "://" (scheme +:+ "://" +:+ a) = Some (scheme, a).
Proof. apply Cut_fresh. Qed.

Lemma Parse_parsed_String e : parsed e → Parse (ep_String e) = Ok e.
Proof.
  destruct 1 as [h p v H1 H2 H3 H4 H5 HP|a HP|c p v w HC Hc Hp];
    unfold Parse, ep_String; cbn [Scheme Addr].
  - change (String.eqb SchemeTCP "") with false. cbn match. rewrite Cut_scheme by done.
    cbn match. cbn [String.eqb SchemeTCP]. 
    rewrite SplitHostPort_Join by done. cbn. by rewrite HP.
  - change (String.eqb SchemeUnix "") with false. cbn match. rewrite Cut_scheme by done.
    change (String.eqb (SchemeUnix +:+ _) "") with false. cbn match.
    change (String.eqb SchemeUnix SchemeTCP) with false. cbn match. by rewrite HP.
  - change (String.eqb SchemeVsock "") with false. cbn match. rewrite Cut_scheme by done.
    change (String.eqb (SchemeVsock +:+ _) "") with false. cbn match.
    change (String.eqb SchemeVsock SchemeTCP) with false.
    change (String.eqb SchemeVsock SchemeUnix) with false.
    change (String.eqb SchemeVsock SchemeVsock) with true. cbn match.
    pose proof (Cut_fresh ":" "" c p HC) as E. cbn in E |- *. rewrite E.
    cbn. rewrite Hc. cbn. by rewrite Hp.
Qed.

(** The port a parsed endpoint names: its text is a 16-bit number, and [Port]
    is that number ([0] for unix). *)
Lemma parsed_port e : parsed e → 0 <= ep_Port e < 65536.
Proof.
  intros _. assert (∀ p, 0 <= uint_or_0 p < 65536) as H.
  { intros p. unfold uint_or_0. destruct (ParseUint p 10 16) as [v|] eqn:E; [|lia].
    apply ParseUint_Ok in E; lia. }
  unfold ep_Port. repeat case_match; auto; lia.
Qed.

(** A concrete network for the witnesses: it connects to anything and
    returns what it was asked for. *)
Definition echo_net (d : Z) (network a : string) : result unit (string * string) :=
  Ok (network, a).

(** ** Properties *)

(** The canonical spelling of a parsed endpoint parses to the same
    endpoint, whatever spelling (bare [host:port], bracketed host, leading
    zeros) it came from, and a bare spelling parses as the tcp one. *)
Theorem Parse_canonical s e :
  Parse s = Ok e →
  Parse (ep_String e) = Ok e ∧ 0 <= ep_Port e < 65536 ∧
  (Cut "://" s = None → Scheme e = SchemeTCP ∧ Parse (SchemeTCP +:+ "://" +:+ s) = Ok e).
Proof.
  intros H. pose proof (Parse_parsed _ _ H) as HP.
  split; [by apply Parse_parsed_String|]. split; [by apply parsed_port|].
  intros HC. assert (Parse (SchemeTCP +:+ "://" +:+ s) = Parse s) as ->.
  { unfold Parse. rewrite HC, Cut_scheme by done. by destruct s. }
  split; [|done]. unfold Parse in H. rewrite HC in H. destruct (String.eqb s ""); [done|].
  cbn in H. apply result_bind_Ok in H as ([h p] & _ & (v & _ & [= <-])%result_bind_Ok).
  done.
Qed.
Lemma Parse_canonical_witness :
  ∃ e, Parse "[fd77::1]:04777" = Ok e ∧ Parse (ep_String e) = Ok e ∧
       ep_String e = "tcp://[fd77::1]:04777" ∧ ep_Port e = 4777.
Proof.
  exists (MkEndpoint "tcp" "[fd77::1]:04777").
  assert (Parse "[fd77::1]:04777" = Ok (MkEndpoint "tcp" "[fd77::1]:04777")) as E
    by (vm_compute; reflexivity).
  destruct (Parse_canonical _ _ E) as (H & _ & _). split; [exact E|]. split; [exact H|].
  split; vm_compute; reflexivity.
Defined.
