(* ===== verification/Sha256.v ===== *)
(** * SHA-256 and HMAC

    Go's [crypto/sha256] and [crypto/hmac], which [internal/transportauth]
    computes its proofs with: FIPS 180-4 and RFC 2104 over 32-bit words kept
    as integers below 2^32, checked against the published test vectors. *)

From S2P Require Import Prelude Wire GoStr.
From Stdlib Require Import Strings.Byte.

Open Scope string_scope.
Open Scope list_scope.
Open Scope Z_scope.

Definition w32 (x : Z) : Z := x mod 2 ^ 32.
Definition rotr (n x : Z) : Z := Z.lor (Z.shiftr x n) (w32 (Z.shiftl x (32 - n))).
Definition lnot32 (x : Z) : Z := Z.lxor x 0xffffffff.

Definition choose (x y z : Z) : Z := Z.lxor (Z.land x y) (Z.land (lnot32 x) z).
Definition majority (x y z : Z) : Z :=
  Z.lxor (Z.lxor (Z.land x y) (Z.land x z)) (Z.land y z).
Definition bigs0 (x : Z) : Z := Z.lxor (Z.lxor (rotr 2 x) (rotr 13 x)) (rotr 22 x).
Definition bigs1 (x : Z) : Z := Z.lxor (Z.lxor (rotr 6 x) (rotr 11 x)) (rotr 25 x).
Definition smalls0 (x : Z) : Z := Z.lxor (Z.lxor (rotr 7 x) (rotr 18 x)) (Z.shiftr x 3).
Definition smalls1 (x : Z) : Z := Z.lxor (Z.lxor (rotr 17 x) (rotr 19 x)) (Z.shiftr x 10).

(** The constants by their definition: the first 32 bits of the fractional
    parts of the cube roots (rounds) and square roots (initial state) of the
    first primes. *)
Definition is_prime (n : nat) : bool :=
  forallb (λ d, negb (n mod d =? 0)%nat) (seq 2 (n - 2)).
Definition primes : list Z :=
  Z.of_nat <$> List.filter is_prime (seq 2 310).
(** The integer cube root, a bit at a time from bit [n] down. *)
Fixpoint cbrt_bits (n : nat) (x r : Z) : Z :=
  match n with
  | O => r
  | S n => let r' := r + 2 ^ Z.of_nat n in
           cbrt_bits n x (if r' * r' * r' <=? x then r' else r)
  end.
Definition K256 : list Z :=
  Eval vm_compute in (λ p, w32 (cbrt_bits 36 (Z.shiftl p 96) 0)) <$> primes.
Definition H256 : list Z :=
  Eval vm_compute in (λ p, w32 (Z.sqrt (Z.shiftl p 64))) <$> take 8 primes.

(** The message schedule, newest word first: [W_t] from the 16 before it. *)
Fixpoint schedule (n : nat) (w : list Z) : list Z :=
  match n with
  | O => w
  | S n =>
      let at_ i := default 0 (w !! i) in
      schedule n (w32 (smalls1 (at_ 1%nat) + at_ 6%nat + smalls0 (at_ 14%nat) + at_ 15%nat) :: w)
  end.

Definition round256 (s : list Z) (kw : Z * Z) : list Z :=
  match s with
  | [a; b; c; d; e; f; g; h] =>
      let t1 := h + bigs1 e + choose e f g + kw.1 + kw.2 in
      let t2 := bigs0 a + majority a b c in
      [w32 (t1 + t2); a; b; c; w32 (d + t1); e; f; g]
  | _ => s
  end.

Fixpoint words (n : nat) (l : bytes) : list Z :=
  match n with O => [] | S n => be_join (take 4 l) :: words n (drop 4 l) end.

Definition compress (s : list Z) (block : bytes) : list Z :=
  let w := reverse (schedule 48 (reverse (words 16 block))) in
  zip_with (λ a b, w32 (a + b)) s (foldl round256 s (zip K256 w)).

Definition pad (msg : bytes) : bytes :=
  let n := Z.of_nat (length msg) in
  msg ++ [Byte.x80] ++ replicate (Z.to_nat ((119 - n) mod 64)) Byte.x00 ++ be_split 8 (8 * n).

Fixpoint blocks (n : nat) (s : list Z) (l : bytes) : list Z :=
  match n with O => s | S n => blocks n (compress s (take 64 l)) (drop 64 l) end.

(** [sha256.Sum256]. *)
Definition sha256 (msg : bytes) : bytes :=
  let p := pad msg in
  concat (be_split 4 <$> blocks (length p / 64) H256 p).

(** [hmac.New(sha256.New, key)], one [Write] sequence, [Sum]. *)
Definition hmac (key msg : bytes) : bytes :=
  let key := if (64 <? length key)%nat then sha256 key else key in
  let key := key ++ replicate (64 - length key) Byte.x00 in
  let xor c := (λ b, z2b (Z.lxor (b2z b) c)) <$> key in
  sha256 (xor 0x5c ++ sha256 (xor 0x36 ++ msg)).

Definition bytes_of (s : string) : bytes := (λ c, z2b (code c)) <$> String.list_ascii_of_string s.

(** FIPS 180-4 "abc" and the empty message; RFC 4231 test cases 1 and 2. *)
Example sha256_abc : be_join (sha256 (bytes_of "abc")) =
  0xba7816bf8f01cfea414140de5dae2223b00361a396177a9cb410ff61f20015ad.
Proof. vm_compute. reflexivity. Qed.
Example sha256_empty : be_join (sha256 []) =
  0xe3b0c44298fc1c149afbf4c8996fb92427ae41e4649b934ca495991b7852b855.
Proof. vm_compute. reflexivity. Qed.
Example hmac_rfc4231_1 : be_join (hmac (replicate 20 Byte.x0b) (bytes_of "Hi There")) =
  0xb0344c61d8db38535ca8afceaf0bf12b881dc200c9833da726e9376c2e32cff7.
Proof. vm_compute. reflexivity. Qed.
Example hmac_rfc4231_2 :
  be_join (hmac (bytes_of "Jefe") (bytes_of "what do ya want for nothing?")) =
  0x5bdcc146bf60754e6a042426089575c75a003f089d2739839dec58b964ec3843.
Proof. vm_compute. reflexivity. Qed.

(** ** Facts *)

Lemma length_round s kw : length (round256 s kw) = length s.
Proof. by do 9 (destruct s as [|? s]; try done). Qed.

Lemma length_schedule n w : length (schedule n w) = (n + length w)%nat.
Proof. revert w. induction n as [|n IH]; intros w; cbn [schedule]; [done|]. rewrite IH. cbn. lia. Qed.
Lemma length_words n l : length (words n l) = n.
Proof. revert l. induction n as [|n IH]; intros l; cbn; auto. Qed.

Lemma length_compress s b : length (compress s b) = length s.
Proof.
  unfold compress. rewrite length_zip_with.
  assert (∀ kws s, length (foldl round256 s kws) = length s) as ->; [|lia].
  induction kws as [|kw kws IH]; intros t; cbn; [done|]. by rewrite IH, length_round.
Qed.

Lemma length_sha256 m : length (sha256 m) = 32%nat.
Proof.
  unfold sha256. generalize (pad m) as p. intros p. generalize (length p / 64)%nat as n.
  assert (∀ n s l, length (blocks n s l) = length s) as HB.
  { induction n as [|n IH]; intros s l; cbn; [done|]. by rewrite IH, length_compress. }
  intros n. assert (∀ l : list Z, length (concat (be_split 4 <$> l)) = (4 * length l)%nat) as ->.
  { induction l as [|x l IH]; [done|]. cbn [fmap list_fmap concat length].
    rewrite length_app, length_be_split, IH. lia. }
  by rewrite HB.
Qed.
Lemma length_hmac k m : length (hmac k m) = 32%nat.
Proof. apply length_sha256. Qed.
#[export] Hint Rewrite length_sha256 length_hmac : dbr.

#[global] Opaque sha256 hmac.
