(* ===== verification/TransportAuth.v ===== *)
(** * Transport authentication

    [internal/transportauth]: the per-VM secret and its file, the sticky
    latch, the frame and its proofs, the two halves of the handshake, the
    throttle on refusal lines and the Mac side's diagnosis; and the agent's
    dispatch of an accepted connection ([internal/agent/transport.go]). *)

From S2P Require Import Prelude Wire GoStr Sha256.
From Stdlib Require Import Strings.Byte.

Open Scope string_scope.
Open Scope list_scope.
Open Scope Z_scope.

(** ** The secret and its file ([transportauth.go]) *)

Definition SecretLen : nat := 32.

(** A [Secret] is an array of [SecretLen] bytes. *)
Abbreviation Secret := bytes.
Definition wf_secret (s : Secret) : Prop := length s = SecretLen.

Inductive load_err :=
| ErrAbsent | ErrMalformed | ErrConfiguredMissing.
#[export] Instance load_err_eq_dec : EqDecision load_err.
Proof. solve_decision. Defined.

(** [hex.EncodeToString] and [hex.DecodeString]. *)
Definition hex_byte (b : Byte.byte) : string :=
  String (digit_chr (b2z b / 16)) (String (digit_chr (b2z b mod 16)) "").
Fixpoint EncodeToString (l : bytes) : string :=
  match l with [] => "" | b :: l => hex_byte b +:+ EncodeToString l end.
Definition hex_val (c : ascii) : option Z :=
  d ← digit_val c; if d <? 16 then Some d else None.
Fixpoint DecodeString (s : string) : option bytes :=
  match s with
  | EmptyString => Some []
  | String a (String b s) =>
      x ← hex_val a; y ← hex_val b; l ← DecodeString s; Some (z2b (16 * x + y) :: l)
  | String _ EmptyString => None
  end.

Definition newline : string := String (ascii_of_nat 10) "".

(** [Secret.Format]. *)
Definition Format (s : Secret) : string := EncodeToString s +:+ newline.

Definition Parse (b : string) : result load_err Secret :=
  let txt := TrimSpace b in
  if negb (String.length txt =? 2 * SecretLen)%nat then Err ErrMalformed
  else match DecodeString txt with
       | None => Err ErrMalformed
       | Some raw => Ok raw
       end.

(** What [os.ReadFile] finds at a path. *)
Inductive file := Missing | Unreadable | Content (b : string).

Definition Load (f : file) : result load_err Secret :=
  match f with
  | Missing => Err ErrAbsent
  | Unreadable => Err ErrMalformed
  | Content b => Parse b
  end.

Definition LoadOptional (path : string) (f : file) : result load_err (option Secret) :=
  if String.eqb path "" then Ok None
  else match Load f with
       | Err ErrAbsent => Ok None
       | Err e => Err e
       | Ok s => Ok (Some s)
       end.

(** ** The latch ([latch.go]) *)

(** [filepath.Clean] on a Unix path: the elements kept, last first. *)
Fixpoint clean_go (rooted : bool) (ws acc : list string) : list string :=
  match ws with
  | [] => acc
  | w :: ws =>
      if String.eqb w "" || String.eqb w "." then clean_go rooted ws acc
      else if String.eqb w ".." then
        match acc with
        | [] => clean_go rooted ws (if rooted then [] else [".."])
        | a :: acc' =>
            if String.eqb a ".." then clean_go rooted ws (".." :: acc)
            else clean_go rooted ws acc'
        end
      else clean_go rooted ws (w :: acc)
  end.
Definition Clean (p : string) : string :=
  let rooted := HasPrefix p "/" in
  let ws := reverse (clean_go rooted (Split "/" p) []) in
  if rooted then "/" +:+ Join ws "/"
  else match ws with [] => "." | _ => Join ws "/" end.

Definition latchKey (path : string) : string := Clean path.

(** The process's [configured] map. *)
Definition latch := gset string.

Definition Require_ (path : string) (st : latch) : latch :=
  if String.eqb path "" then st else {[latchKey path]} ∪ st.
Definition Configured (path : string) (st : latch) : bool :=
  if String.eqb path "" then false else bool_decide (latchKey path ∈ st).

(** [LoadLatched], on the file as [os.ReadFile] finds it at that moment. *)
Definition LoadLatched (path : string) (f : file) (st : latch)
  : result load_err (option Secret) * latch :=
  if String.eqb path "" then (Ok None, st)
  else match Load f with
       | Err ErrAbsent =>
           (if Configured path st then Err ErrConfiguredMissing else Ok None, st)
       | Err e => (Err e, {[latchKey path]} ∪ st)
       | Ok s => (Ok (Some s), {[latchKey path]} ∪ st)
       end.

(** A process's history: what it did with secret paths, and what it found. *)
Inductive latch_op :=
| OpRequire (path : string)
| OpLoad (path : string) (f : file).
Definition latch_exec (o : latch_op) (st : latch) : latch :=
  match o with
  | OpRequire p => Require_ p st
  | OpLoad p f => (LoadLatched p f st).2
  end.
(** The operations that configure a path: naming it, or finding a file. *)
Definition configures (path : string) (o : latch_op) : bool :=
  match o with
  | OpRequire p => negb (String.eqb p "") && String.eqb (latchKey p) (latchKey path)
  | OpLoad p f =>
      negb (String.eqb p "") && String.eqb (latchKey p) (latchKey path)
      && match f with Missing => false | _ => true end
  end.

(** ** Frames and proofs *)

Definition FrameLen : nat := 4.
Definition ProofLen : nat := 32.
Definition AuthNone : Z := 0.
Definition AuthStaticHMACv1 : Z := 1.
Definition labelMac : string := "drawbridge-transport-v1:mac".
Definition labelAgent : string := "drawbridge-transport-v1:agent".

Definition Frame (typ auth : Z) : bytes := [z2b typ; z2b auth; Byte.x00; Byte.x00].
Definition AuthFrame (typ : Z) (sec : option Secret) : bytes :=
  match sec with
  | None => Frame typ AuthNone
  | Some _ => Frame typ AuthStaticHMACv1
  end.

Definition proof_msg (label : string) (frame : bytes) : bytes := bytes_of label ++ frame.
Definition proof (s : Secret) (label : string) (frame : bytes) : bytes :=
  hmac s (proof_msg label frame).
Definition MacProof (s : Secret) (frame : bytes) : bytes := proof s labelMac frame.
Definition AgentProof (s : Secret) (frame : bytes) : bytes := proof s labelAgent frame.
Definition Verify (want got : bytes) : bool := bool_decide (want = got).

(** ** The handshake ([handshake.go]) *)

Inductive Cause :=
| CausePeerUnauthenticated | CauseProofMismatch | CauseNoLocalSecret
| CauseIncomplete | CauseSecretUnreadable.
#[export] Instance Cause_eq_dec : EqDecision Cause.
Proof. solve_decision. Defined.
#[export] Instance Cause_countable : Countable Cause.
Proof.
  refine (inj_countable
    (λ c, match c with
          | CausePeerUnauthenticated => 0%nat | CauseProofMismatch => 1%nat
          | CauseNoLocalSecret => 2%nat | CauseIncomplete => 3%nat
          | CauseSecretUnreadable => 4%nat end)
    (λ n, nth_error [CausePeerUnauthenticated; CauseProofMismatch; CauseNoLocalSecret;
                     CauseIncomplete; CauseSecretUnreadable] n) _).
  by intros [].
Defined.

(** A connection, from one end: the bytes its peer will ever deliver, the
    bytes written to it, whether a deadline is armed, and whether its next
    [Write] fails. *)
Record conn := Conn { c_in : bytes; c_out : bytes; c_deadline : bool; c_broken : bool }.

Definition SetDeadline (on : bool) (c : conn) : conn :=
  Conn (c_in c) (c_out c) on (c_broken c).
Definition read_conn (n : nat) (c : conn) : option (bytes * conn) :=
  match ReadFull n (c_in c) with
  | Ok (l, rest) => Some (l, Conn rest (c_out c) (c_deadline c) (c_broken c))
  | Err _ => None
  end.
Definition write_conn (b : bytes) (c : conn) : option conn :=
  if c_broken c then None else Some (Conn (c_in c) (c_out c ++ b) (c_deadline c) false).

(** [ClientHello]: frame, proof and extra in one [Write]. *)
Definition hello_bytes (sec : option Secret) (typ : Z) (extra : bytes) : bytes :=
  let frame := AuthFrame typ sec in
  frame ++ match sec with Some s => MacProof s frame | None => [] end ++ extra.
Definition ClientHello (c : conn) (sec : option Secret) (typ : Z) (extra : bytes)
  : option conn * bytes :=
  (write_conn (hello_bytes sec typ extra) c, AuthFrame typ sec).

(** [AwaitAgentProof]; the deferred call clears the read deadline on every
    path past the arming. *)
Definition AwaitAgentProof (c : conn) (sec : option Secret) (frame : bytes)
  : result Cause conn :=
  match sec with
  | None => Ok c
  | Some s =>
      match read_conn ProofLen (SetDeadline true c) with
      | None => Err CauseIncomplete
      | Some (got, c) =>
          if Verify (AgentProof s frame) got then Ok (SetDeadline false c)
          else Err CauseProofMismatch
      end
  end.

Definition byte_at (i : nat) (l : bytes) : Z := b2z (default Byte.x00 (l !! i)).

Definition ServerHandshake (c : conn) (sec : option Secret) (frame : bytes)
  : result Cause conn :=
  let auth := byte_at 1 frame in
  match sec with
  | None => if auth =? AuthNone then Ok c else Err CauseNoLocalSecret
  | Some s =>
      if auth =? AuthNone then Err CausePeerUnauthenticated
      else
        match read_conn ProofLen (SetDeadline true c) with
        | None => Err CauseIncomplete
        | Some (got, c) =>
            if negb (Verify (MacProof s frame) got) then Err CauseProofMismatch
            else match write_conn (AgentProof s frame) c with
                 | None => Err CauseIncomplete
                 | Some c => Ok (SetDeadline false c)
                 end
        end
  end.

(** ** The agent's dispatch ([agent/transport.go]) *)

Inductive stream := Events | Stream | MacSync | DialStream | Reserve.
Definition stream_of (typ : Z) : option stream :=
  if typ =? 69 then Some Events
  else if typ =? 83 then Some Stream
  else if typ =? 77 then Some MacSync
  else if typ =? 68 then Some DialStream
  else if typ =? 82 then Some Reserve
  else None.

(** Closed, with the refusal it was diagnosed with when it has one, or handed
    to its handler. *)
Inductive outcome :=
| ConnClosed (refused : option Cause)
| Dispatched (k : stream) (c : conn).

(** [handleTransportConn] on a fresh connection, with the secret file as it
    is read and the latch as it stands. *)
Definition handleTransportConn (SecretFile : string) (f : file) (st : latch) (c : conn)
  : outcome * latch :=
  match read_conn FrameLen (SetDeadline true c) with
  | None => (ConnClosed None, st)
  | Some (frame, c) =>
      if negb (byte_at 2 frame =? 0) || negb (byte_at 3 frame =? 0)
      then (ConnClosed None, st)
      else if negb (byte_at 1 frame =? AuthNone)
              && negb (byte_at 1 frame =? AuthStaticHMACv1)
      then (ConnClosed None, st)
      else
        let '(sec, st) := LoadLatched SecretFile f st in
        match sec with
        | Err _ => (ConnClosed (Some CauseSecretUnreadable), st)
        | Ok sec =>
            match ServerHandshake c sec frame with
            | Err cause => (ConnClosed (Some cause), st)
            | Ok c =>
                match stream_of (byte_at 0 frame) with
                | None => (ConnClosed None, st)
                | Some k => (Dispatched k (SetDeadline false c), st)
                end
            end
        end
  end.

(** ** The throttle on refusal lines ([mac.go])

    Times are in nanoseconds; keys are the caller's. *)
Definition RefusalLogEvery : Z := 30 * 10 ^ 9.

Section throttle.
Context {K : Type} `{Countable K}.

(** [Throttle.Allow] at time [now]: the decision and the new [last] map. *)
Definition Allow (every now : Z) (key : K) (last : gmap K Z) : bool * gmap K Z :=
  match last !! key with
  | Some seen => if now - seen <? every then (false, last) else (true, <[key := now]>
      (if (1024 <? size last)%nat then filter (λ '(_, t), now - t < every) last else last))
  | None => (true, <[key := now]>
      (if (1024 <? size last)%nat then filter (λ '(_, t), now - t < every) last else last))
  end.

(** The decisions over a sequence of calls [(now, key)], oldest first. *)
Fixpoint Allows (every : Z) (calls : list (Z * K)) (last : gmap K Z) : list bool :=
  match calls with
  | [] => []
  | (now, key) :: calls =>
      let '(b, last) := Allow every now key last in b :: Allows every calls last
  end.

(** What it promises: a line passes unless one of its key passed less than
    [every] before. [passed] are the calls that passed, newest first. *)
Definition muted (every now : Z) (key : K) (passed : list (Z * K)) : bool :=
  existsb (λ '(t, k), bool_decide (k = key) && (now - t <? every)) passed.
Fixpoint Allows_spec (every : Z) (calls passed : list (Z * K)) : list bool :=
  match calls with
  | [] => []
  | (now, key) :: calls =>
      if muted every now key passed then false :: Allows_spec every calls passed
      else true :: Allows_spec every calls ((now, key) :: passed)
  end.
End throttle.

(** [agent/transport.go]'s own copy, keyed by (cause, source). *)
Definition authLogEvery : Z := 30 * 10 ^ 9.
Definition allowAuthLog (now : Z) (cause : Cause) (src : string)
    (authLast : gmap (Cause * string) Z) : bool * gmap (Cause * string) Z :=
  Allow authLogEvery now (cause, src) authLast.

(** ** The Mac side's diagnosis ([mac.go]) *)

Inductive check_id :=
| CheckAuthMismatch | CheckAuthWrongPeer | CheckAuthFilePerms | CheckAuthMacMissing.

(** A failed dial's error: a refusal, or an ordinary I/O error. *)
Inductive dial_failure := Refused (c : Cause) | IOFailure.
Definition CauseOf (e : dial_failure) : option Cause :=
  match e with Refused c => Some c | IOFailure => None end.

Definition CheckID (e : dial_failure) : check_id :=
  match CauseOf e with
  | Some CauseProofMismatch => CheckAuthWrongPeer
  | Some CauseSecretUnreadable => CheckAuthFilePerms
  | _ => CheckAuthMismatch
  end.

(** [MacConfig.Secret]. *)
Definition MacSecret (SecretFile : string) (f : file) (st : latch)
  : result Cause (option Secret) * latch :=
  let '(r, st) := LoadLatched SecretFile f st in
  (match r with Ok s => Ok s | Err _ => Err CauseSecretUnreadable end, st).

(** [MacConfig.Report]: the line is logged, and its check recorded, only for
    a refusal the throttle admits. *)
Definition Report (every now : Z) (e : dial_failure) (ep : string)
    (last : gmap (option Cause * string) Z)
  : option check_id * gmap (option Cause * string) Z :=
  match CauseOf e with
  | None => (None, last)
  | Some c =>
      let '(ok, last) := Allow every now (Some c, ep) last in
      (if ok then Some (CheckID e) else None, last)
  end.

(** ** Facts *)

Lemma ascii_all (P : ascii → bool) :
  forallb P (ascii_of_nat <$> seq 0 256) = true → ∀ c, P c = true.
Proof.
  intros H c. rewrite forallb_forall in H. apply H.
  apply list_elem_of_In, list_elem_of_fmap. exists (nat_of_ascii c).
  rewrite ascii_nat_embedding. split; [done|]. apply elem_of_seq.
  pose proof (nat_ascii_bounded c). lia.
Qed.

(** A hexadecimal digit's value and its lower-case spelling determine each
    other. *)
Lemma hex_val_spec c d : hex_val c = Some d ↔ 0 <= d < 16 ∧ to_lower c = digit_chr d.
Proof.
  assert (match hex_val c with
          | Some d => (0 <=? d) && (d <? 16) && Ascii.eqb (to_lower c) (digit_chr d)
          | None => forallb (λ d, negb (Ascii.eqb (to_lower c) (digit_chr (Z.of_nat d))))
                      (seq 0 16)
          end = true) as H.
  { revert c. apply (ascii_all (λ c, match hex_val c with _ => _ end)).
    vm_compute. reflexivity. }
  destruct (hex_val c) as [d'|].
  - apply andb_true_iff in H as [H E%Ascii.eqb_eq]. bool_prop. split.
    + intros [= <-]. split; [lia|done].
    + intros [Hd Ed]. rewrite E in Ed. apply (f_equal digit_val) in Ed.
      rewrite !digit_val_chr in Ed by lia. done.
  - split; [done|]. intros [Hd Ed]. rewrite forallb_forall in H.
    specialize (H (Z.to_nat d)). rewrite Z2Nat.id, Ed, Ascii.eqb_refl in H by lia.
    exfalso. cut (negb true = true); [done|]. apply H. apply in_seq. lia.
Qed.

Lemma DecodeString_spec t l : DecodeString t = Some l ↔ ToLower t = EncodeToString l.
Proof.
  revert l. induction t as [t IH] using (induction_ltof1 _ String.length). intros l.
  destruct t as [|a [|b t]]; cbn [DecodeString].
  - destruct l as [|x l]; [done|]. by split.
  - split; [done|]. destruct l as [|x l]; by intros [=].
  - specialize (IH t ltac:(unfold ltof; cbn; lia)). 
    change (ToLower (String a (String b t)))
      with (String (to_lower a) (String (to_lower b) (ToLower t))).
    split.
    + intros (x & Hx & (y & Hy & (l' & Hl & [= <-])%bind_Some)%bind_Some)%bind_Some.
      apply hex_val_spec in Hx as [Bx Ex], Hy as [By Ey]. apply IH in Hl.
      cbn [EncodeToString hex_byte String.append]. rewrite Ex, Ey, Hl, b2z_z2b.
      rewrite (Z.mod_small (16 * x + y)) by lia.
      rewrite (Z.mul_comm 16), Z.div_add_l, Z.div_small, Z.add_0_r by lia.
      by rewrite (Z.add_comm _ y), Z.mod_add, Z.mod_small by lia.
    + destruct l as [|z l]; [done|]. cbn. intros [= Ea Eb Et].
      pose proof (b2z_bound z). pose proof (Z.mod_pos_bound (b2z z) 16 ltac:(lia)).
      assert (hex_val a = Some (b2z z / 16)) as ->.
      { apply hex_val_spec. split; [|done]. split; [apply Z.div_pos; lia|].
        apply Z.div_lt_upper_bound; lia. }
      assert (hex_val b = Some (b2z z mod 16)) as -> by by apply hex_val_spec.
      apply IH in Et. rewrite Et. cbn. rewrite <- Z.div_mod by lia. by rewrite z2b_b2z.
Qed.

Lemma length_EncodeToString l : String.length (EncodeToString l) = (2 * length l)%nat.
Proof. induction l as [|b l IH]; [done|]. cbn [EncodeToString length]. rewrite append_length, IH. cbn. lia. Qed.
Lemma length_ToLower s : String.length (ToLower s) = String.length s.
Proof. induction s as [|c s IH]; [done|]. cbn. by rewrite IH. Qed.

Lemma Parse_spec b s :
  Parse b = Ok s ↔ wf_secret s ∧ ToLower (TrimSpace b) = EncodeToString s.
Proof.
  unfold Parse, wf_secret. rewrite <- DecodeString_spec. split.
  - destruct (negb _) eqn:E; [done|]. apply negb_false_iff, Nat.eqb_eq in E.
    destruct (DecodeString (TrimSpace b)) as [raw|] eqn:ED; [|done].
    intros [= <-]. split; [|done]. apply DecodeString_spec in ED.
    apply (f_equal String.length) in ED.
    rewrite length_ToLower, length_EncodeToString in ED. lia.
  - intros [HL ED]. pose proof ED as EL. apply DecodeString_spec in EL.
    apply (f_equal String.length) in EL.
    rewrite length_ToLower, length_EncodeToString, HL in EL. rewrite EL. cbn. by rewrite ED.
Qed.

(** Text without spaces loses only what surrounds it. *)
Definition no_space (s : string) : bool := str_forall (λ c, negb (is_space c)) s.
Lemma trim_right_app s c : no_space s = true → is_space c = true →
  trim_right is_space (s +:+ String c "") = s.
Proof.
  intros Hs Hc. induction s as [|d s IH]; cbn; [by rewrite Hc|].
  cbn in Hs. apply andb_true_iff in Hs as [Hd Hs]. rewrite (IH Hs).
  destruct s; [|done]. by destruct (is_space d).
Qed.
Lemma TrimSpace_line s c :
  no_space s = true → is_space c = true → TrimSpace (s +:+ String c "") = s.
Proof.
  intros Hs Hc. unfold TrimSpace. destruct s as [|d s].
  { cbn. by rewrite Hc. }
  cbn [String.append trim_left]. pose proof Hs as Hd. cbn in Hd.
  destruct (is_space d) eqn:Ed; [done|]. exact (trim_right_app (String d s) c Hs Hc).
Qed.

Lemma hex_no_space l : no_space (EncodeToString l) = true ∧ ToLower (EncodeToString l) = EncodeToString l.
Proof.
  assert (∀ d, 0 <= d < 16 → is_space (digit_chr d) = false ∧ to_lower (digit_chr d) = digit_chr d) as HD.
  { intros d Hd. pose proof (Z2Nat.id d ltac:(lia)) as E. rewrite <- E.
    assert (Z.to_nat d < 16)%nat as Hn by lia. generalize dependent (Z.to_nat d).
    intros n _ Hn. do 16 (destruct n; [by vm_compute|]). lia. }
  induction l as [|b l [IH1 IH2]]; [done|]. pose proof (b2z_bound b).
  destruct (HD (b2z b / 16)) as [S1 L1].
  { split; [apply Z.div_pos; lia|apply Z.div_lt_upper_bound; lia]. }
  destruct (HD (b2z b mod 16)) as [S2 L2]; [by apply Z.mod_pos_bound|].
  unfold no_space, ToLower in *. cbn. by rewrite S1, S2, L1, L2, IH1, IH2.
Qed.

(** *** The latch *)

Lemma LoadLatched_latch p f st :
  (LoadLatched p f st).2 = st ∨
  (LoadLatched p f st).2 = {[latchKey p]} ∪ st ∧ p ≠ "".
Proof.
  unfold LoadLatched. destruct (String.eqb_spec p ""); [by left|].
  destruct (Load f) as [s|[| |]]; cbn; auto.
Qed.

(** The latch holds exactly the paths some operation configured. *)
Lemma latch_run ops st path :
  path ≠ "" →
  Configured path (run latch_exec ops st) =
    Configured path st || existsb (configures path) ops.
Proof.
  intros Hp. unfold Configured. rewrite (proj2 (String.eqb_neq _ _)) by done.
  revert st. induction ops as [|o ops IH]; intros st; [by rewrite orb_false_r|].
  cbn [existsb]. rewrite run_cons, IH, orb_assoc. f_equal.
  destruct o as [q|q f]; cbn.
  - unfold Require_. destruct (String.eqb_spec q "") as [->|Hq]; cbn; [by rewrite orb_false_r|].
    destruct (String.eqb_spec (latchKey q) (latchKey path)) as [E|E].
    + rewrite E, orb_true_r. apply bool_decide_eq_true. set_solver.
    + rewrite orb_false_r. apply bool_decide_ext. set_solver.
  - unfold LoadLatched. destruct (String.eqb_spec q "") as [->|Hq]; cbn; [by rewrite orb_false_r|].
    destruct (String.eqb_spec (latchKey q) (latchKey path)) as [E|E].
    + destruct f; cbn; rewrite ?orb_false_r; [done| |destruct (Parse b) as [?|[]] eqn:EP];
        cbn; rewrite ?orb_true_r; try (apply bool_decide_eq_true; set_solver).
      exfalso. unfold Parse in EP. by repeat case_match.
    + cbn. rewrite orb_false_r. destruct (Load f) as [?|[]]; cbn; try done;
        apply bool_decide_ext; set_solver.
Qed.

(** *** Reading and writing a connection *)

Lemma read_conn_app n l r o d b :
  length l = n → read_conn n (Conn (l ++ r) o d b) = Some (l, Conn r o d b).
Proof. intros <-. unfold read_conn. cbn. by rewrite ReadFull_app. Qed.
Lemma read_conn_Some n c l c' :
  read_conn n c = Some (l, c') ↔
  length l = n ∧ c = Conn (l ++ c_in c') (c_out c') (c_deadline c') (c_broken c').
Proof.
  split; [|intros [HL ->]; rewrite read_conn_app by done; by destruct c'].
  unfold read_conn. destruct (ReadFull n (c_in c)) as [[l' rest]|] eqn:E; [|done].
  apply ReadFull_Ok in E as [E HL]. intros [= <- <-]. cbn. split; [done|].
  destruct c as [i o d b]. cbn in *. by rewrite E.
Qed.

Lemma byte_at_z2b i b l : byte_at i (l ++ b) = if (i <? length l)%nat then byte_at i l else byte_at (i - length l) b.
Proof.
  unfold byte_at. destruct (i <? length l)%nat eqn:E; bool_prop.
  - by rewrite lookup_app_l.
  - by rewrite lookup_app_r.
Qed.

Lemma length_AuthFrame typ sec : length (AuthFrame typ sec) = FrameLen.
Proof. by destruct sec. Qed.
Lemma length_MacProof s f : length (MacProof s f) = ProofLen.
Proof. apply length_hmac. Qed.
Lemma length_AgentProof s f : length (AgentProof s f) = ProofLen.
Proof. apply length_hmac. Qed.

(** The MAC'd messages of the two directions never coincide, and each fixes
    its frame. *)
Lemma proof_msg_inj l1 l2 f1 f2 :
  l1 ∈ [labelMac; labelAgent] → l2 ∈ [labelMac; labelAgent] →
  length f1 = FrameLen → length f2 = FrameLen →
  proof_msg l1 f1 = proof_msg l2 f2 → l1 = l2 ∧ f1 = f2.
Proof.
  unfold proof_msg. intros H1 H2 L1 L2 E.
  assert (length (bytes_of l1) = length (bytes_of l2)) as HL.
  { apply (f_equal (@length _)) in E. rewrite !length_app, L1, L2 in E. lia. }
  apply app_inj_1 in E as [E ->]; [|done]. split; [|done].
  assert (l1 = labelMac ∨ l1 = labelAgent) as [-> | ->] by set_solver;
    assert (l2 = labelMac ∨ l2 = labelAgent) as [-> | ->] by set_solver; try done;
    exfalso; vm_compute in HL; discriminate HL.
Qed.

(** The agent's checks on the frame the Mac writes for a known type. *)
Definition mac_frame_ok (frame : bytes) : Prop :=
  length frame = FrameLen ∧ byte_at 2 frame = 0 ∧ byte_at 3 frame = 0 ∧
  (byte_at 1 frame = AuthNone ∨ byte_at 1 frame = AuthStaticHMACv1).

Lemma handle_unfold path f st c :
  handleTransportConn path f st c =
  match read_conn FrameLen (SetDeadline true c) with
  | Some (frame, c1) =>
      if bool_decide (byte_at 2 frame = 0 ∧ byte_at 3 frame = 0 ∧
           (byte_at 1 frame = AuthNone ∨ byte_at 1 frame = AuthStaticHMACv1)) then
        match (LoadLatched path f st).1 with
        | Err _ => (ConnClosed (Some CauseSecretUnreadable), (LoadLatched path f st).2)
        | Ok sec =>
            (match ServerHandshake c1 sec frame with
             | Err cause => ConnClosed (Some cause)
             | Ok c2 => match stream_of (byte_at 0 frame) with
                        | None => ConnClosed None
                        | Some k => Dispatched k (SetDeadline false c2)
                        end
             end, (LoadLatched path f st).2)
        end
      else (ConnClosed None, st)
  | None => (ConnClosed None, st)
  end.
Proof.
  unfold handleTransportConn. destruct (read_conn _ _) as [[frame c1]|]; [|done].
  destruct (Z.eqb_spec (byte_at 2 frame) 0); cbn;
    [|rewrite bool_decide_eq_false_2; [done|naive_solver]].
  destruct (Z.eqb_spec (byte_at 3 frame) 0); cbn;
    [|rewrite bool_decide_eq_false_2; [done|naive_solver]].
  assert (negb (byte_at 1 frame =? AuthNone) && negb (byte_at 1 frame =? AuthStaticHMACv1)
    = negb (bool_decide (byte_at 1 frame = AuthNone ∨ byte_at 1 frame = AuthStaticHMACv1))) as ->.
  { destruct (Z.eqb_spec (byte_at 1 frame) AuthNone),
      (Z.eqb_spec (byte_at 1 frame) AuthStaticHMACv1); cbn; case_bool_decide; naive_solver. }
  destruct (bool_decide (_ ∨ _)) eqn:E; bool_prop; cbn.
  - rewrite bool_decide_eq_true_2 by done.
    destruct (LoadLatched path f st) as [[sec|er] st']; cbn; [|done].
    destruct (ServerHandshake c1 sec frame); [|done]. by destruct (stream_of _).
  - rewrite bool_decide_eq_false_2; [done|naive_solver].
Qed.

(** What [ServerHandshake] accepts, and what it leaves of the connection. *)
Definition handshake_ok (sec : option Secret) (frame : bytes) (c c' : conn) : Prop :=
  match sec with
  | None => byte_at 1 frame = AuthNone ∧ c' = c
  | Some s =>
      byte_at 1 frame ≠ AuthNone ∧ c_broken c = false ∧
      c_in c = MacProof s frame ++ c_in c' ∧
      c' = Conn (c_in c') (c_out c ++ AgentProof s frame) false false
  end.
Lemma ServerHandshake_Ok c sec frame c' :
  ServerHandshake c sec frame = Ok c' ↔ handshake_ok sec frame c c'.
Proof.
  unfold ServerHandshake, handshake_ok. destruct sec as [s|].
  - destruct (Z.eqb_spec (byte_at 1 frame) AuthNone) as [E|E]; [split; [done|by intros [? _]]|].
    destruct (read_conn ProofLen (SetDeadline true c)) as [[got c1]|] eqn:R.
    + apply read_conn_Some in R as [HL HR]. unfold Verify.
      unfold SetDeadline in HR. injection HR as Ei Eo Ed Eb.
      destruct (bool_decide_reflect (MacProof s frame = got)) as [<-|Hne]; cbn.
      * unfold write_conn. rewrite <- Eb, <- Eo. destruct (c_broken c) eqn:B;
          [split; [done|by intros (_ & ? & _)]|].
        split; [intros [= <-]; by cbn|]. intros (_ & _ & Ei' & ->). cbn in *.
        rewrite Ei' in Ei. by apply app_inv_head in Ei as ->.
      * split; [done|]. intros (_ & _ & Ei' & _). destruct Hne.
        rewrite Ei' in Ei. apply app_inj_1 in Ei as [-> _]; [done|].
        by rewrite HL, length_MacProof.
    + split; [done|]. intros (_ & _ & Ei & _).
      assert (read_conn ProofLen (SetDeadline true c) =
        Some (MacProof s frame, Conn (c_in c') (c_out c) true (c_broken c))) as R'.
      { apply read_conn_Some. split; [apply length_MacProof|].
        unfold SetDeadline. by rewrite Ei. }
      by rewrite R' in R.
  - destruct (Z.eqb_spec (byte_at 1 frame) AuthNone); split; try done.
    + by intros [= ->].
    + by intros [_ ->].
    + by intros [? _].
Qed.

(** The frames of the Mac side pass the agent's checks. *)
Lemma byte_at_AuthFrame typ sec :
  byte_at 1 (AuthFrame typ sec) = (match sec with Some _ => AuthStaticHMACv1 | None => AuthNone end) ∧
  byte_at 2 (AuthFrame typ sec) = 0 ∧ byte_at 3 (AuthFrame typ sec) = 0.
Proof. by destruct sec. Qed.
Lemma stream_of_typ typ k :
  stream_of typ = Some k → 0 <= typ < 256 ∧ ∀ sec, byte_at 0 (AuthFrame typ sec) = typ.
Proof.
  intros H. assert (0 <= typ < 256).
  { unfold stream_of in H. repeat (case_match; bool_prop; [lia|]). done. }
  split; [done|]. intros sec. assert (byte_at 0 (AuthFrame typ sec) = b2z (z2b typ)) as ->
    by by destruct sec. by rewrite b2z_z2b, Z.mod_small.
Qed.

(** *** The throttle *)
Section throttle_facts.
Context {K : Type} `{Countable K}.
Implicit Types (last : gmap K Z) (passed : list (Z * K)).

(** The map agrees with the calls that passed, as far as any later decision
    can tell. *)
Definition throttle_ok (every now : Z) (last : gmap K Z) (passed : list (Z * K)) : Prop :=
  ∀ key now', now <= now' →
    muted every now' key passed =
    match last !! key with Some t => now' - t <? every | None => false end.

Lemma throttle_ok_mono every n1 n2 last passed :
  n1 <= n2 → throttle_ok every n1 last passed → throttle_ok every n2 last passed.
Proof. intros Hn HT key now' Hn'. apply HT. lia. Qed.

Lemma throttle_ok_pass every now key last passed :
  throttle_ok every now last passed → muted every now key passed = false →
  throttle_ok every now (<[key := now]>
    (if (1024 <? size last)%nat then filter (λ '(_, t), now - t < every) last else last))
    ((now, key) :: passed).
Proof.
  intros HT HM k now' Hn. cbn [muted existsb]. fold (muted every now' k passed).
  set (pruned := if (_ <? _)%nat then _ else _). rewrite (HT k now' Hn).
  destruct (decide (k = key)) as [->|Hne].
  - rewrite lookup_insert_eq, bool_decide_eq_true_2 by done. cbn.
    rewrite (HT key now ltac:(lia)) in HM. destruct (now' - now <? every); [done|].
    cbn. destruct (last !! key); [|done]. bool_prop. lia.
  - rewrite lookup_insert_ne, bool_decide_eq_false_2 by congruence. cbn. subst pruned.
    destruct (_ <? _)%nat; [|done]. destruct (last !! k) as [t|] eqn:El.
    + destruct (decide (now - t < every)) as [Ht|Ht].
      * by erewrite map_lookup_filter_Some_2 by (done || exact Ht).
      * rewrite map_lookup_filter_None_2; [bool_prop; lia|]. right. intros x Ex.
        by rewrite El in Ex; injection Ex as <-.
    + by rewrite map_lookup_filter_None_2 by by left.
Qed.

Lemma Allows_ok every now last passed calls :
  throttle_ok every now last passed → StronglySorted Z.le (now :: calls.*1) →
  Allows every calls last = Allows_spec every calls passed.
Proof.
  revert now last passed. induction calls as [|[t key] calls IH]; intros now last passed HT HS;
    [done|].
  cbn [fmap list_fmap fst] in HS. apply StronglySorted_inv in HS as [HS HF].
  apply Forall_cons in HF as [Ht _]. cbn [Allows Allows_spec].
  apply (throttle_ok_mono _ _ _ _ _ Ht) in HT as HT'.
  pose proof (HT' key t ltac:(lia)) as HM. unfold Allow. rewrite HM.
  destruct (last !! key) as [seen|] eqn:El.
  - destruct (t - seen <? every) eqn:E; f_equal; eapply IH; eauto.
    by apply throttle_ok_pass.
  - f_equal. eapply IH; eauto. by apply throttle_ok_pass.
Qed.
End throttle_facts.

(** ** Properties *)

Lemma Load_Format s : wf_secret s → Load (Content (Format s)) = Ok s.
Proof.
  intros Hs. apply Parse_spec. split; [done|].
  destruct (hex_no_space s) as [H1 H2]. unfold Format, newline. by rewrite TrimSpace_line.
Qed.

(** A secret file parses to a secret exactly when its text, trimmed and
    whatever its case, is the lower-case hexadecimal of that secret's 32
    bytes; so the file [Format] writes loads back to the same secret. *)
Theorem secret_file b s :
  (Load (Content b) = Ok s ↔ wf_secret s ∧ ToLower (TrimSpace b) = EncodeToString s) ∧
  (wf_secret s → Load (Content (Format s)) = Ok s).
Proof.
  split; [apply Parse_spec|apply Load_Format].
Qed.
Lemma secret_file_witness :
  let s := replicate 32 Byte.xa7 in wf_secret s ∧ Load (Content (Format s)) = Ok s.
Proof.
  intros s. assert (wf_secret s) as Hs by (vm_compute; reflexivity).
  split; [exact Hs|]. exact (proj2 (secret_file "" s) Hs).
Defined.

(** C20: the latch never lets a process drop back to unauthenticated mode: a
    load of a path reports "no secret" exactly when the file is missing and
    nothing this process did before configured that path, by any spelling of
    it; once configured, a missing file is [ErrConfiguredMissing] for good. *)
Theorem latch_never_downgrades ops path f :
  path ≠ "" →
  let st := run latch_exec ops ∅ in
  ((LoadLatched path f st).1 = Ok None ↔
     f = Missing ∧ existsb (configures path) ops = false) ∧
  (existsb (configures path) ops = true → f = Missing →
     (LoadLatched path f st).1 = Err ErrConfiguredMissing).
Proof.
  intros Hp st. assert (Configured path st = existsb (configures path) ops) as HC.
  { unfold st. rewrite (latch_run ops ∅ path Hp). unfold Configured.
    rewrite (proj2 (String.eqb_neq _ _) Hp). by rewrite bool_decide_eq_false_2. }
  unfold LoadLatched. rewrite (proj2 (String.eqb_neq _ _) Hp), HC.
  split.
  - destruct f as [| |b]; cbn; [|by split; [|intros [? _]]|].
    + destruct (existsb _ ops); cbn; naive_solver.
    + destruct (Parse b) as [s|e] eqn:E; cbn; [by split; [|intros [? _]]|].
      destruct e; cbn; try by split; [|intros [? _]].
      exfalso. unfold Parse in E. by repeat case_match.
  - intros -> ->. done.
Qed.
Lemma latch_never_downgrades_witness :
  (LoadLatched "/etc//drawbridge/../drawbridge/s" Missing
     (run latch_exec [OpLoad "/etc/drawbridge/s" Unreadable; OpLoad "/x" Missing] ∅)).1
  = Err ErrConfiguredMissing.
Proof.
  apply (latch_never_downgrades
    [OpLoad "/etc/drawbridge/s" Unreadable; OpLoad "/x" Missing]
    "/etc//drawbridge/../drawbridge/s" Missing); [discriminate|vm_compute; reflexivity|reflexivity].
Defined.

(** C9: the agent hands a connection to a stream handler exactly when its
    frame names a known stream with the reserved bytes zero and either
    neither side has a secret, or both have one and the 32 bytes after the
    frame are the proof of this side's secret over this very frame. The
    handler then sees the stream from the first byte after the handshake, no
    deadline is left armed, and nothing but the agent's own proof was
    written. *)
Theorem dispatch_iff path f st c k c' st' :
  handleTransportConn path f st c = (Dispatched k c', st') ↔
  ∃ frame sec proof,
    c_in c = frame ++ proof ++ c_in c' ∧ length frame = FrameLen ∧
    stream_of (byte_at 0 frame) = Some k ∧
    byte_at 2 frame = 0 ∧ byte_at 3 frame = 0 ∧
    LoadLatched path f st = (Ok sec, st') ∧
    match sec with
    | None => byte_at 1 frame = AuthNone ∧ proof = [] ∧
        c' = Conn (c_in c') (c_out c) false (c_broken c)
    | Some s => byte_at 1 frame = AuthStaticHMACv1 ∧ proof = MacProof s frame ∧
        c_broken c = false ∧ c' = Conn (c_in c') (c_out c ++ AgentProof s frame) false false
    end.
Proof.
  rewrite handle_unfold. split.
  - destruct (read_conn _ _) as [[frame c1]|] eqn:R; [|done].
    apply read_conn_Some in R as [HL R]. unfold SetDeadline in R. injection R as Ei Eo Ed Eb.
    destruct (bool_decide _) eqn:HB; [|done]. bool_prop.
    destruct (LoadLatched path f st) as [[sec|e] st1] eqn:EL; cbn; [|done].
    destruct (ServerHandshake c1 sec frame) as [c2|] eqn:HS; [|done].
    destruct (stream_of (byte_at 0 frame)) as [k1|] eqn:Ek; [|done]. intros [= <- <- <-].
    apply ServerHandshake_Ok in HS. destruct sec as [s|]; cbn in HS |- *.
    + destruct HS as (H1 & HB1 & Ein & Ec). exists frame, (Some s), (MacProof s frame).
      rewrite <- Eo, <- Eb in *. rewrite Ec, Ei, Ein. cbn. destruct HB as (? & ? & [?|?]); naive_solver.
    + destruct HS as [H1 ->]. exists frame, None, []. rewrite Ei, Eo, Eb. naive_solver.
  - intros (frame & sec & proof & Ei & HL & Hk & H2 & H3 & EL & H).
    assert (read_conn FrameLen (SetDeadline true c) =
      Some (frame, Conn (proof ++ c_in c') (c_out c) true (c_broken c))) as ->.
    { apply read_conn_Some. split; [done|]. unfold SetDeadline. by rewrite Ei. }
    rewrite bool_decide_eq_true_2 by (destruct sec; naive_solver). rewrite EL. cbn [fst snd].
    destruct sec as [s|].
    + destruct H as (H1 & -> & HB & Ec).
      rewrite (proj2 (ServerHandshake_Ok _ (Some s) frame c')); [by rewrite Hk, Ec|].
      cbn. rewrite H1. by rewrite Ec at 2.
    + destruct H as (H1 & -> & Ec).
      rewrite (proj2 (ServerHandshake_Ok _ None frame _)) by (by split).
      rewrite Hk, Ec. done.
Qed.
Lemma dispatch_iff_witness :
  let c := Conn (bytes_of "E" ++ [Byte.x00; Byte.x00; Byte.x00; Byte.x41]) [] false false in
  ∃ c', (handleTransportConn "/s" Missing ∅ c).1 = Dispatched Events c' ∧
    c_in c' = [Byte.x41].
Proof.
  intros c. exists (Conn [Byte.x41] [] false false). split; [|reflexivity].
  assert (handleTransportConn "/s" Missing ∅ c
          = (Dispatched Events (Conn [Byte.x41] [] false false), ∅)) as E.
  { apply (dispatch_iff "/s" Missing ∅ c Events (Conn [Byte.x41] [] false false) ∅).
    exists (Frame 69 0), None, []. repeat split; vm_compute; reflexivity. }
  by rewrite E.
Defined.

(** The two halves of the handshake against each other: for every
    combination of the two sides' secrets, what the agent makes of the Mac's
    opening segment (dispatched with exactly the payload after it, or refused
    with the cause the diagnosis table gives), and that a Mac holding the
    agent's secret accepts the agent's proof and sees exactly the payload
    after it, while any other 32-byte answer is refused as the wrong peer. *)
Theorem handshake_table path f st st' sm sa typ k extra more :
  stream_of typ = Some k → LoadLatched path f st = (Ok sa, st') →
  let frame := AuthFrame typ sm in
  handleTransportConn path f st (Conn (hello_bytes sm typ extra ++ more) [] false false) =
    (match sm, sa with
     | None, None => Dispatched k (Conn (extra ++ more) [] false false)
     | Some _, None => ConnClosed (Some CauseNoLocalSecret)
     | None, Some _ => ConnClosed (Some CausePeerUnauthenticated)
     | Some a, Some b =>
         if Verify (MacProof b frame) (MacProof a frame)
         then Dispatched k (Conn (extra ++ more) (AgentProof b frame) false false)
         else ConnClosed (Some CauseProofMismatch)
     end, st') ∧
  ∀ answer rest, length answer = ProofLen →
    AwaitAgentProof (Conn (answer ++ rest) [] false false) sm frame =
    match sm with
    | None => Ok (Conn (answer ++ rest) [] false false)
    | Some a => if Verify (AgentProof a frame) answer then Ok (Conn rest [] false false)
                else Err CauseProofMismatch
    end.
Proof.
  intros Hk EL frame. split.
  - rewrite handle_unfold. unfold hello_bytes. fold frame. rewrite <- !(assoc (++)).
    unfold SetDeadline at 1. cbn [c_in c_out c_broken c_deadline].
    set (body := match sm with Some s => _ | None => _ end ++ extra ++ more).
    rewrite (read_conn_app FrameLen frame body) by apply length_AuthFrame.
    destruct (byte_at_AuthFrame typ sm) as (H1 & H2 & H3). fold frame in H1, H2, H3.
    destruct (stream_of_typ typ k Hk) as [_ H0]. specialize (H0 sm). fold frame in H0.
    rewrite bool_decide_eq_true_2 by (rewrite H1; destruct sm; auto).
    rewrite EL. cbn [fst snd]. f_equal. rewrite H0, Hk. unfold ServerHandshake. rewrite H1.
    unfold body. destruct sm as [a|], sa as [b|]; cbn; try done.
    unfold SetDeadline at 1. cbn [c_in c_out c_broken c_deadline].
    rewrite (read_conn_app ProofLen (MacProof a _) (extra ++ more))
      by apply length_MacProof.
    destruct (Verify _ _); done.
  - intros answer rest HL. unfold AwaitAgentProof. destruct sm as [a|]; [|done].
    unfold SetDeadline at 1. cbn [c_in c_out c_broken c_deadline].
    rewrite (read_conn_app ProofLen answer rest) by done.
    by destruct (Verify _ _).
Qed.
Definition ex_secret : Secret := replicate 32 Byte.x01.
Lemma handshake_table_witness :
  let hello := hello_bytes (Some ex_secret) 83 [Byte.x06; Byte.x1f; Byte.x90; Byte.x00] in
  length hello = 40%nat ∧
  handleTransportConn "/s" (Content (Format ex_secret)) ∅ (Conn (hello ++ []) [] false false)
  = (Dispatched Stream (Conn [Byte.x06; Byte.x1f; Byte.x90; Byte.x00]
       (AgentProof ex_secret (AuthFrame 83 (Some ex_secret))) false false), {["/s"]}).
Proof.
  intros hello. split; [vm_compute; reflexivity|].
  assert (LoadLatched "/s" (Content (Format ex_secret)) ∅ = (Ok (Some ex_secret), {["/s"]})) as EL.
  { vm_compute. reflexivity. }
  destruct (handshake_table "/s" (Content (Format ex_secret)) ∅ {["/s"]} (Some ex_secret)
    (Some ex_secret) 83 Stream [Byte.x06; Byte.x1f; Byte.x90; Byte.x00] [] eq_refl EL) as [H _].
  unfold hello. rewrite H. unfold Verify.
  rewrite bool_decide_eq_true_2 by reflexivity. reflexivity.
Defined.

(** Over any sequence of calls at non-decreasing times, the throttle
    (and the agent's copy of it) passes a line exactly when no line of its
    key passed within the window before it: forgetting old keys to bound the
    map changes no decision. *)
Theorem throttle_exact every (calls : list (Z * string)) :
  StronglySorted Z.le (calls.*1) →
  Allows every calls ∅ = Allows_spec every calls [].
Proof.
  intros HS. destruct calls as [|[t k] calls]; [done|].
  apply (Allows_ok every t); [intros key now _; by rewrite lookup_empty|].
  constructor; [done|]. apply StronglySorted_inv in HS as [_ HF]. by constructor.
Qed.
Lemma throttle_exact_witness :
  Allows RefusalLogEvery [(0, "a"); (5, "a"); (6, "b"); (30 * 10 ^ 9, "a")] ∅ =
    [true; false; true; true].
Proof.
  rewrite (throttle_exact RefusalLogEvery [(0, "a"); (5, "a"); (6, "b"); (30 * 10 ^ 9, "a")]).
  - vm_compute. reflexivity.
  - cbn. repeat constructor; lia.
Defined.
