(* ===== verification/TrackerHub.v ===== *)
(** * The guest-listener hub

    [internal/agent/tracker.go], [proc.go] and the seeding of [agent.go]: the
    set of guest listeners, kept current by the kernel tracker's ring-buffer
    events and a scan of [/proc/net], and its fan-out to the event streams. *)

From S2P Require Import Prelude Wire GoStr NetIP.
From stdpp Require Export gmultiset.
From Stdlib Require Import Strings.Byte.

Open Scope string_scope.
Open Scope list_scope.
Open Scope Z_scope.

Definition ProtoTCP : Z := 6.
Definition ProtoUDP : Z := 17.

(** [Listener]: proto is "tcp" or "udp". *)
Record Listener := MkListener { l_proto : string; l_port : Z; l_addr : addr }.
#[export] Instance Listener_eq_dec : EqDecision Listener.
Proof. solve_decision. Defined.
#[export] Instance Listener_countable : Countable Listener.
Proof.
  by refine (inj_countable' (λ l, (l_proto l, l_port l, l_addr l))
    (λ '(p, n, a), MkListener p n a) _); intros [].
Defined.

(** A listener as it travels in an event: its address as text. *)
Record listenerInfo := Info { i_proto : string; i_port : Z; i_addr : string }.
#[export] Instance listenerInfo_eq_dec : EqDecision listenerInfo.
Proof. solve_decision. Defined.
#[export] Instance listenerInfo_countable : Countable listenerInfo.
Proof.
  by refine (inj_countable' (λ l, (i_proto l, i_port l, i_addr l))
    (λ '(p, n, a), Info p n a) _); intros [].
Defined.
Definition info (l : Listener) : listenerInfo :=
  Info (l_proto l) (l_port l) (addr_string (l_addr l)).

Inductive Op := OpAdd | OpDel.
#[export] Instance Op_eq_dec : EqDecision Op.
Proof. solve_decision. Defined.

(** [TransportEvent]: a snapshot, or one listener's add or del. *)
Inductive TransportEvent :=
| Snapshot (ls : list listenerInfo)
| Change (op : Op) (l : listenerInfo).

(** ** The hub *)

Definition chan_cap : nat := 256.

(** A subscriber's channel: what is buffered, whether the hub closed it, and
    what its session has received. *)
Record chan := Chan { buf : list TransportEvent; closed : bool; recvd : list TransportEvent }.

(** [TrackerHub]; [chans] are all the channels ever made and [subs] those
    still subscribed. [panicked] records a send on, or a close of, a closed
    channel. *)
Record hub := Hub {
  set : gset Listener; subs : gset nat; chans : gmap nat chan; nextch : nat;
  panicked : bool }.
Definition NewTrackerHub : hub := Hub ∅ ∅ ∅ 0 false.

(** [Subscribe]: the snapshot is in the channel before the lock is released. *)
Definition Subscribe (h : hub) : nat * hub :=
  let ch := nextch h in
  let snap := info <$> elements (set h) in
  (ch, Hub (set h) ({[ch]} ∪ subs h) (<[ch := Chan [Snapshot snap] false []]> (chans h))
         (S ch) (panicked h)).
(** The cancel function [Subscribe] returns. *)
Definition cancel (ch : nat) (h : hub) : hub :=
  Hub (set h) (subs h ∖ {[ch]}) (chans h) (nextch h) (panicked h).

Definition Has (l : Listener) (h : hub) : bool := bool_decide (l ∈ set h).

Definition linuxEphemeralLo : Z := 32768.
Definition linuxEphemeralHi : Z := 60999.
Definition eventWorthy (l : Listener) : bool :=
  negb (String.eqb (l_proto l) "udp" && (linuxEphemeralLo <=? l_port l)
        && (l_port l <=? linuxEphemeralHi)).

(** One subscriber's turn in the fan-out: send, or on a full buffer drop the
    subscription and close the channel. *)
Definition publish (ev : TransportEvent) (ch : nat) (h : hub) : hub :=
  match chans h !! ch with
  | None => h
  | Some c =>
      if closed c then Hub (set h) (subs h) (chans h) (nextch h) true
      else if (length (buf c) <? chan_cap)%nat
      then Hub (set h) (subs h)
             (<[ch := Chan (buf c ++ [ev]) false (recvd c)]> (chans h)) (nextch h) (panicked h)
      else Hub (set h) (subs h ∖ {[ch]})
             (<[ch := Chan (buf c) true (recvd c)]> (chans h)) (nextch h) (panicked h)
  end.

Definition apply (op : Op) (l : Listener) (h : hub) : hub :=
  if negb (eventWorthy l) then h
  else
    let present := bool_decide (l ∈ set h) in
    match op, present with
    | OpAdd, true | OpDel, false => h
    | _, _ =>
        let set' := match op with OpAdd => {[l]} ∪ set h | OpDel => set h ∖ {[l]} end in
        let h' := Hub set' (subs h) (chans h) (nextch h) (panicked h) in
        foldr (publish (Change op (info l))) h' (elements (subs h))
    end.

(** A session takes the next event off its channel ([serveEvents]); [None]
    when there is none: the channel is empty, and closed or still open. *)
Definition recv (ch : nat) (h : hub) : hub :=
  match chans h !! ch with
  | Some (Chan (ev :: evs) cl r) =>
      Hub (set h) (subs h) (<[ch := Chan evs cl (r ++ [ev])]> (chans h)) (nextch h) (panicked h)
  | _ => h
  end.

(** ** Where the changes come from *)

(** The ring-buffer record, [binary.Read] little-endian: op, proto, port,
    address; a short sample is skipped. *)
Record ListenerEvent := MkEvent { e_op : Z; e_proto : Z; e_port : Z; e_addr : bytes }.
Definition EventDel : Z := 2.
Definition decode_event (raw : bytes) : option ListenerEvent :=
  if (length raw <? 20)%nat then None
  else Some (MkEvent (le_join (take 1 raw)) (le_join (take 1 (drop 1 raw)))
               (le16 (drop 2 raw)) (take 16 (drop 4 raw))).
Definition listenerFromEvent (e : ListenerEvent) : Listener :=
  MkListener (if e_proto e =? ProtoUDP then "udp" else "tcp") (e_port e)
    (Unmap (AddrFrom16 (e_addr e))).
(** One turn of [RunTracker]'s loop. *)
Definition track (raw : bytes) (h : hub) : hub :=
  match decode_event raw with
  | None => h
  | Some e => apply (if e_op e =? EventDel then OpDel else OpAdd) (listenerFromEvent e) h
  end.

(** [procFile]: the protocol, whether the addresses are IPv6, and whether
    only listening sockets count. *)
Record procFile := ProcFile { pf_proto : string; pf_v6 : bool; pf_listenOnly : bool }.
Definition procFiles : list procFile :=
  [ProcFile "tcp" false true; ProcFile "tcp" true true;
   ProcFile "udp" false false; ProcFile "udp" true false].

(** [binary.LittleEndian.PutUint32]. *)
Definition put_le32 (z : Z) : bytes := le_split 4 z.

Fixpoint proc_dwords (n : nat) (host : string) : option bytes :=
  match n with
  | O => Some []
  | S n =>
      match ParseUint (str_take 8 host) 16 32 with
      | Err _ => None
      | Ok dw => b ← proc_dwords n (str_drop 8 host); Some (put_le32 dw ++ b)
      end
  end.
Definition parseProcAddr (s : string) (v6 : bool) : option (addr * Z) :=
  '(host, portHex) ← Cut ":" s;
  match ParseUint portHex 16 16 with
  | Err _ => None
  | Ok port =>
      let wantLen := if v6 then 32%nat else 8%nat in
      if negb (String.length host =? wantLen)%nat then None
      else
        b ← proc_dwords (String.length host / 8) host;
        Some (if v6 then AddrFrom16 b else AddrFrom4 (take 4 b), port)
  end.
Definition proc_row (f : procFile) (line : string) : option Listener :=
  match Fields line with
  | _ :: loc :: _ :: state :: _ =>
      if pf_listenOnly f && negb (String.eqb state "0A") then None
      else
        '(a, port) ← parseProcAddr loc (pf_v6 f);
        if port =? 0 then None else Some (MkListener (pf_proto f) port (Unmap a))
  | _ => None
  end.
(** [parseProcNet] on the file's lines, the header first. *)
Definition parseProcNet (f : procFile) (lines : list string) : list Listener :=
  omap (proc_row f) (tail lines).
Definition scanProcNet (files : procFile → list string) : list Listener :=
  concat ((λ f, parseProcNet f (files f)) <$> procFiles).

(** The hub's side of [seed]. *)
Definition seed (ls : list Listener) (h : hub) : hub := foldl (λ h l, apply OpAdd l h) h ls.

(** ** Steps *)

Inductive hstep : hub → hub → Prop :=
| hstep_subscribe h : hstep h (Subscribe h).2
| hstep_cancel ch h : hstep h (cancel ch h)
| hstep_apply op l h : hstep h (apply op l h)
| hstep_recv ch h : hstep h (recv ch h).
Definition reachable : hub → Prop := reach (λ h, h = NewTrackerHub) hstep.

(** What a reader of the events knows after them: the multiset of listeners
    its reference counts stand for. *)
Definition replay1 (m : gmultiset listenerInfo) (ev : TransportEvent) : gmultiset listenerInfo :=
  match ev with
  | Snapshot ls => list_to_set_disj ls
  | Change OpAdd l => {[+ l +]} ⊎ m
  | Change OpDel l => m ∖ {[+ l +]}
  end.
Definition replay (evs : list TransportEvent) : gmultiset listenerInfo := foldl replay1 ∅ evs.
Definition infos (s : gset Listener) : gmultiset listenerInfo :=
  list_to_set_disj (info <$> elements s).

(** ** Facts *)

Lemma replay_snoc evs ev : replay (evs ++ [ev]) = replay1 (replay evs) ev.
Proof. unfold replay. by rewrite foldl_app. Qed.

Lemma infos_add l s : l ∉ s → infos ({[l]} ∪ s) = {[+ info l +]} ⊎ infos s.
Proof.
  intros Hl. unfold infos. rewrite (list_to_set_disj_perm _ (info <$> l :: elements s)); [done|].
  by rewrite elements_union_singleton.
Qed.
Lemma infos_del l s : l ∈ s → infos (s ∖ {[l]}) = infos s ∖ {[+ info l +]}.
Proof.
  intros Hl. assert (s = {[l]} ∪ s ∖ {[l]}) as Hs by by apply union_difference_singleton_L.
  rewrite Hs at 2. rewrite infos_add by set_solver. multiset_solver.
Qed.

(** The hub's invariant: it never touches a closed channel, and every
    subscriber that is still subscribed would know the current set from what
    it received and what its channel holds. *)
Definition sub_ok (s : gset Listener) (c : chan) : Prop :=
  closed c = false ∧ (length (buf c) <= chan_cap)%nat ∧
  replay (recvd c ++ buf c) = infos s ∧
  ∃ ls evs, recvd c ++ buf c = Snapshot ls :: evs.
Record hub_ok (h : hub) : Prop := {
  ok_calm : panicked h = false;
  ok_subs ch : ch ∈ subs h → ∃ c, chans h !! ch = Some c ∧ sub_ok (set h) c;
  ok_next ch : is_Some (chans h !! ch) → (ch < nextch h)%nat }.

Lemma sub_ok_send s s' ev c :
  sub_ok s c → replay1 (infos s) ev = infos s' → (length (buf c) < chan_cap)%nat →
  sub_ok s' (Chan (buf c ++ [ev]) false (recvd c)).
Proof.
  intros (Hc & Hb & Hr & ls & evs & E) Hev Hl. split; [done|]. cbn.
  rewrite (assoc (++)), replay_snoc, Hr, Hev. rewrite length_app. cbn.
  split; [lia|]. split; [done|]. exists ls, (evs ++ [ev]). by rewrite ?(assoc (++)), E.
Qed.

(** Half-way through the fan-out: the subscribers of [L] have been served. *)
Lemma publish_all s s' ev h L :
  hub_ok h → set h = s → replay1 (infos s) ev = infos s' → NoDup L →
  (∀ ch, ch ∈ L → ch ∈ subs h) →
  let h' := foldr (publish ev) (Hub s' (subs h) (chans h) (nextch h) (panicked h)) L in
  panicked h' = false ∧ set h' = s' ∧ nextch h' = nextch h ∧ subs h' ⊆ subs h ∧
  (∀ ch, is_Some (chans h' !! ch) → is_Some (chans h !! ch)) ∧
  (∀ ch, ch ∉ L → ch ∈ subs h → ch ∈ subs h' ∧ chans h' !! ch = chans h !! ch) ∧
  (∀ ch, ch ∈ L → ch ∈ subs h' → ∃ c, chans h' !! ch = Some c ∧ sub_ok s' c).
Proof.
  intros [HP HS HN] <- Hev HL HI. induction L as [|ch L IH]; cbn zeta; cbn [foldr].
  { cbn. repeat split; auto. set_solver. }
  inversion HL as [|?? Hch HL']; subst. clear HL. rename HL' into HL.
  destruct IH as (I1 & I2 & I3 & I4 & I5 & I6 & I7); [done|intros; apply HI; by right|].
  set (h1 := foldr _ _ _) in *.
  destruct (HS ch) as (c & Ec & Hc); [apply HI; by left|].
  destruct (I6 ch Hch ltac:(apply HI; by left)) as [Hin Ec1]. rewrite Ec in Ec1.
  unfold publish. rewrite Ec1. destruct Hc as [Hcl Hc]. rewrite Hcl.
  destruct (length (buf c) <? chan_cap)%nat eqn:EL; bool_prop; cbn.
  - split_and!; auto.
    + intros k. destruct (decide (k = ch)) as [->|?]; [eauto|]. rewrite lookup_insert_ne; auto.
    + intros k [Hk1 Hk2]%not_elem_of_cons Hs. rewrite lookup_insert_ne by done. by apply I6.
    + intros k [->|Hk]%elem_of_cons Hs.
      * rewrite lookup_insert_eq. eexists. split; [done|]. eapply sub_ok_send; [by split|done|lia].
      * rewrite lookup_insert_ne by (by intros ->). auto.
  - split_and!; auto; [set_solver| | |].
    + intros k. destruct (decide (k = ch)) as [->|?]; [eauto|]. rewrite lookup_insert_ne; auto.
    + intros k [Hk1 Hk2]%not_elem_of_cons Hs. rewrite lookup_insert_ne by done.
      destruct (I6 k Hk2 Hs). set_solver.
    + intros k [->|Hk]%elem_of_cons Hs; [set_solver|].
      rewrite lookup_insert_ne by set_solver. apply I7; [done|set_solver].
Qed.

Lemma apply_ok op l h : hub_ok h → hub_ok (apply op l h).
Proof.
  intros HO. unfold apply. destruct (negb (eventWorthy l)); [done|].
  assert (∀ s' ev, replay1 (infos (set h)) ev = infos s' →
    hub_ok (foldr (publish ev) (Hub s' (subs h) (chans h) (nextch h) (panicked h))
              (elements (subs h)))) as HF.
  { intros s' ev Hev. destruct (publish_all (set h) s' ev h (elements (subs h)))
      as (I1 & I2 & I3 & I4 & I5 & I6 & I7); [done|done|done|apply NoDup_elements|set_solver|].
    set (h' := foldr _ _ _) in *. split; [done| |].
    - intros ch Hch. rewrite I2. apply I7; [|done]. apply elem_of_elements. by apply I4.
    - rewrite I3. intros ch ?%I5. by apply (ok_next _ HO). }
  destruct op; case_bool_decide as Hl; try done; apply HF; cbn.
  - by rewrite infos_add.
  - by rewrite infos_del.
Qed.

Lemma hstep_ok h h' : hub_ok h → hstep h h' → hub_ok h'.
Proof.
  intros HO HS. destruct HS as [h|ch h|op l h|ch h]; [| |by apply apply_ok|].
  - destruct HO as [HP HS HN]. split; cbn; [done| |].
    + intros k [->%elem_of_singleton|Hk]%elem_of_union.
      * rewrite lookup_insert_eq. eexists. split; [done|]. split; [done|]. cbn.
        split; [unfold chan_cap; lia|]. split; [done|]. by eexists _, [].
      * destruct (HS k Hk) as (c & Ec & ?). exists c. split; [|done].
        rewrite lookup_insert_ne; [done|]. pose proof (HN k (ex_intro _ _ Ec)). lia.
    + intros k. destruct (decide (k = nextch h)) as [->|?]; [lia|].
      rewrite lookup_insert_ne by done. intros ?%HN. lia.
  - destruct HO as [HP HS HN]. split; cbn; [done| |done]. intros k Hk. apply HS. set_solver.
  - unfold recv. destruct (chans h !! ch) as [[[|ev evs] cl r]|] eqn:Ec; try done.
    destruct HO as [HP HS HN]. split; cbn; [done| |].
    + intros k Hk. destruct (HS k Hk) as (c & Ek & Hc1 & Hc2 & Hc3 & Hc4).
      destruct (decide (k = ch)) as [->|?].
      * rewrite lookup_insert_eq. eexists. split; [done|].
        rewrite Ec in Ek. injection Ek as <-. cbn in *. split; [done|]. cbn.
        assert ((r ++ [ev]) ++ evs = r ++ ev :: evs) as -> by by rewrite <- (assoc (++)).
        split_and!; [lia|exact Hc3|exact Hc4].
      * rewrite lookup_insert_ne by done. exists c. by repeat split.
    + intros k. destruct (decide (k = ch)) as [->|?]; [intros _; apply HN; rewrite Ec; by eexists|].
      rewrite lookup_insert_ne by done. apply HN.
Qed.

Lemma reachable_ok h : reachable h → hub_ok h.
Proof.
  apply reach_invariant; [|intros s s' _; apply hstep_ok].
  intros s ->. split; cbn; [done| |]; [set_solver|]. by intros ch [].
Qed.

(** What a change leaves of the set. *)
Lemma publish_set ev L h : set (foldr (publish ev) h L) = set h.
Proof.
  induction L as [|ch L IH]; [done|]. cbn. rewrite <- IH. unfold publish.
  by repeat case_match.
Qed.
Lemma set_apply op l h :
  set (apply op l h) =
    if eventWorthy l then match op with OpAdd => {[l]} ∪ set h | OpDel => set h ∖ {[l]} end
    else set h.
Proof.
  unfold apply. destruct (eventWorthy l); [|done]. cbn.
  destruct op; case_bool_decide; rewrite ?publish_set; cbn; set_solver.
Qed.

(** *** Reading [/proc/net] *)

(** How the kernel prints it: each dword of the address, read in the
    machine's little-endian order, as eight upper-case hexadecimal digits. *)
Definition hexU (d : Z) : ascii :=
  ascii_of_N (Z.to_N (if d <? 10 then d + 48 else d - 10 + 65)).
Fixpoint hex_pad (n : nat) (z : Z) : string :=
  match n with O => "" | S n => hex_pad n (z / 16) +:+ String (hexU (z mod 16)) "" end.
Fixpoint proc_host (n : nat) (b : bytes) : string :=
  match n with O => "" | S n => hex_pad 8 (le32 b) +:+ proc_host n (drop 4 b) end.
Definition proc_spell (b : bytes) (port : Z) : string :=
  proc_host (length b / 4) b +:+ ":" +:+ hex_pad 4 port.

Lemma digit_val_hexU d : 0 <= d < 16 → digit_val (hexU d) = Some d.
Proof.
  intros Hd. rewrite <- (Z2Nat.id d) by lia. assert (Z.to_nat d < 16)%nat as H by lia.
  generalize dependent (Z.to_nat d). clear. intros n H.
  do 16 (destruct n; [reflexivity|]). lia.
Qed.
Lemma parse_hex_pad n z acc :
  parse_digits 16 acc (hex_pad n z) = Some (acc * 16 ^ Z.of_nat n + z mod 16 ^ Z.of_nat n).
Proof.
  revert z. induction n as [|n IH]; intros z.
  { cbn. rewrite Z.mod_1_r. f_equal. lia. }
  cbn [hex_pad]. rewrite parse_digits_app, IH. cbn -[Z.pow].
  pose proof (Z.mod_pos_bound z 16 ltac:(lia)). rewrite digit_val_hexU by done.
  rewrite (proj2 (Z.ltb_lt _ _)) by lia. f_equal.
  rewrite Nat2Z.inj_succ, Z.pow_succ_r by lia. rewrite Z.rem_mul_r by lia. lia.
Qed.
Lemma length_hex_pad n z : String.length (hex_pad n z) = n.
Proof. revert z. induction n as [|n IH]; intros z; [done|]. cbn. rewrite append_length, IH. cbn. lia. Qed.
Lemma hex_pad_no_colon n z : has_byte ":" (hex_pad n z) = false.
Proof.
  revert z. induction n as [|n IH]; intros z; [done|]. cbn. rewrite has_byte_app, IH. cbn.
  rewrite orb_false_r. pose proof (digit_val_hexU (z mod 16) ltac:(by apply Z.mod_pos_bound)) as H.
  apply Ascii.eqb_neq. intros E. by rewrite <- E in H.
Qed.
Lemma ParseUint_hex_pad n z bits :
  (0 < n)%nat → 0 <= z < 2 ^ bits → 2 ^ bits = 16 ^ Z.of_nat n →
  ParseUint (hex_pad n z) 16 bits = Ok z.
Proof.
  intros Hn Hz Hb. unfold ParseUint. case_decide as E.
  { apply (f_equal String.length) in E. rewrite length_hex_pad in E. cbn in E. lia. }
  rewrite parse_hex_pad, <- Hb, Z.mod_small by done. cbn.
  by rewrite (proj2 (Z.ltb_lt _ _)) by lia.
Qed.

Lemma proc_dwords_spell n b :
  length b = (4 * n)%nat → proc_dwords n (proc_host n b) = Some b ∧
  String.length (proc_host n b) = (8 * n)%nat ∧ has_byte ":" (proc_host n b) = false.
Proof.
  revert b. induction n as [|n IH]; intros b HL; [by destruct b|].
  cbn [proc_host proc_dwords].
  destruct (IH (drop 4 b)) as (E & El & Eh); [rewrite length_drop; lia|].
  assert (length (take 4 b) = 4%nat) as H4 by (rewrite length_take; lia).
  rewrite append_length, length_hex_pad, has_byte_app, hex_pad_no_colon, El, Eh.
  split; [|split; [lia|done]].
  pose proof (str_take_app (hex_pad 8 (le32 b)) (proc_host n (drop 4 b))) as Et.
  pose proof (str_drop_app (hex_pad 8 (le32 b)) (proc_host n (drop 4 b))) as Ed.
  rewrite length_hex_pad in Et, Ed. rewrite Et, Ed.
  rewrite ParseUint_hex_pad; [|lia| |done].
  - rewrite E. cbn [mbind option_bind]. unfold put_le32, le32.
    pose proof (le_split_join (take 4 b)) as EJ. rewrite H4 in EJ. rewrite EJ.
    by rewrite take_drop.
  - unfold le32. pose proof (le_join_bound (take 4 b)) as HB. rewrite H4 in HB. done.
Qed.

Lemma parseProcAddr_spell b port (v6 : bool) :
  length b = (if v6 then 16 else 4)%nat → 0 <= port < 65536 →
  parseProcAddr (proc_spell b port) v6 =
    Some (if v6 then AddrFrom16 b else AddrFrom4 b, port).
Proof.
  intros HL Hp. unfold parseProcAddr, proc_spell.
  set (n := (length b / 4)%nat). assert (length b = 4 * n)%nat as Hn.
  { subst n. rewrite HL. by destruct v6. }
  destruct (proc_dwords_spell n b Hn) as (E & El & Eh).
  rewrite (Cut_fresh ":" "" _ (hex_pad 4 port) Eh).
  cbn [mbind option_bind]. rewrite ParseUint_hex_pad; [|lia|lia|done].
  rewrite El. assert ((8 * n / 8)%nat = n) as -> by (rewrite Nat.mul_comm; by apply Nat.div_mul).
  assert ((8 * n)%nat = if v6 then 32%nat else 8%nat) as -> by (subst n; rewrite HL; by destruct v6).
  rewrite Nat.eqb_refl. cbn [negb]. rewrite E. cbn. destruct v6; [done|].
  by rewrite take_ge by lia.
Qed.

(** ** Properties *)

(** C13: what a subscriber received together with what its channel still holds
    is, at every moment, exactly the current listener set (as a multiset of
    event listeners, which is what a reference count needs): the snapshot
    comes first, no change is lost, duplicated or reordered, and a subscriber
    too slow for the buffer is unsubscribed instead of diverging. The hub
    never sends on nor closes a closed channel. *)
Theorem hub_replay (h : hub) :
  reachable h →
  panicked h = false ∧
  ∀ ch, ch ∈ subs h → ∃ c, chans h !! ch = Some c ∧ closed c = false ∧
    (length (buf c) <= chan_cap)%nat ∧
    (∃ ls evs, recvd c ++ buf c = Snapshot ls :: evs) ∧
    replay (recvd c ++ buf c) = infos (set h).
Proof.
  intros [HP HS _]%reachable_ok. split; [done|]. intros ch Hch.
  destruct (HS ch Hch) as (c & Ec & H1 & H2 & H3 & H4). by exists c.
Qed.
Definition ex_l : Listener := MkListener "tcp" 8080 (Addr4 0).
Definition ex_hub : hub :=
  recv 0 (apply OpAdd ex_l (Subscribe (apply OpAdd (MkListener "tcp" 22 (Addr4 0)) NewTrackerHub)).2).
Lemma hub_replay_witness :
  ∃ c, chans ex_hub !! 0%nat = Some c ∧ replay (recvd c ++ buf c) = infos (set ex_hub).
Proof.
  destruct (hub_replay ex_hub) as [_ H].
  - eapply reach_step; [|by apply hstep_recv]. eapply reach_step; [|by apply hstep_apply].
    eapply reach_step; [|by apply hstep_subscribe]. eapply reach_step; [|by apply hstep_apply].
    by apply reach_init.
  - destruct (H 0%nat) as (c & Ec & _ & _ & _ & Hr).
    + vm_compute. reflexivity.
    + exists c. split; [exact Ec|exact Hr].
Defined.

(** The scan of [/proc/net] reads every address and port the kernel
    prints back to the address of the same bytes: the four- or sixteen-byte
    address from its little-endian dwords, the port from its hexadecimal. *)
Theorem proc_addr_roundtrip b port (v6 : bool) :
  length b = (if v6 then 16 else 4)%nat → 0 <= port < 65536 →
  parseProcAddr (proc_spell b port) v6 =
    Some (if v6 then AddrFrom16 b else AddrFrom4 b, port).
Proof. apply parseProcAddr_spell. Qed.
Lemma proc_addr_roundtrip_witness :
  proc_spell (be_split 4 0x7f000001) 8080 = "0100007F:1F90" ∧
  parseProcAddr (proc_spell (be_split 4 0x7f000001) 8080) false = Some (AddrFrom4 (be_split 4 0x7f000001), 8080).
Proof.
  split; [vm_compute; reflexivity|].
  apply (proc_addr_roundtrip (be_split 4 0x7f000001) 8080 false); [reflexivity|lia].
Defined.

(** Seeding puts a listener the scan saw into the set whatever happened to it
    since: when the tracker reported its close before the scan's add, the set
    keeps a listener the guest no longer has. *)
Lemma seed_keeps_closed l h :
  eventWorthy l = true → l ∉ set h → l ∈ set (seed [l] (apply OpDel l h)).
Proof. intros Hw Hl. cbn. rewrite set_apply, Hw. set_solver. Qed.
