(* ===== verification/Mirror.v ===== *)
(** * The mirror client

    [internal/mirror/mirror.go] and [udp.go]'s open path: the Mac-side table
    of mirrors of guest listeners, driven by the events of the guest's hub,
    by the guest's reservation requests and by reservation timers. *)

From S2P Require Import Prelude Wire GoStr NetIP Transport TrackerHub.

Open Scope string_scope.
Open Scope list_scope.
Open Scope Z_scope.

(** [mirrorKey]. *)
Abbreviation mirrorKey := (string * Z)%type.

(** [mirrorEntry]; [e_sock] names both the entry (its pointer) and the
    listening socket its [stop] closes. *)
Record mirrorEntry := Entry {
  e_sock : nat; e_refs : Z; e_pending : bool; e_since : Z }.

(** A non-bound outcome of a port. *)
Inductive obs_state := EntrySkipped | EntryBindFailed.
#[export] Instance obs_state_eq_dec : EqDecision obs_state.
Proof. solve_decision. Defined.
Record observed := Observed { o_state : obs_state; o_since : Z }.

(** The parts of [Client] that change; [socks] are the sockets it has bound
    and not closed, [skips] the skip lines recorded in the refusal ring. *)
Record client := Client {
  mirrors : gmap mirrorKey mirrorEntry;
  obs : gmap mirrorKey observed;
  socks : gset nat;
  nextsock : nat;
  skips : list mirrorKey }.
Definition client0 : client := Client ∅ ∅ ∅ 0 [].

(** The configured fields: [Skip], the port of the agent's endpoint, and
    [GuestAgentPort] (0 for unset). *)
Record config := Config { Skip : gset Z; agentPort : Z; GuestAgentPort : Z }.
Definition New (agentAddr : string) (skip : gset Z) (gap : Z) : config :=
  Config skip (match Parse agentAddr with Ok e => ep_Port e | Err _ => 0 end) gap.

(** What the outside answers while one operation runs: the clock, the
    [MacHolder] hook ([None] when unset), and [net.Listen] on the mirror
    address. *)
Inductive bind_err := EADDRINUSE | EACCES | OtherBindErr.
#[export] Instance bind_err_eq_dec : EqDecision bind_err.
Proof. solve_decision. Defined.
Record env := Env {
  now : Z;
  MacHolder : option (string → Z → string * bool);
  listen : mirrorKey → option bind_err }.

Section client.
Context (cfg : config).

Definition observe (t : Z) (key : mirrorKey) (s : obs_state) (c : client) : client :=
  match obs c !! key with
  | Some cur =>
      if decide (o_state cur = s) then c
      else Client (mirrors c) (<[key := Observed s t]> (obs c)) (socks c) (nextsock c) (skips c)
  | None => Client (mirrors c) (<[key := Observed s t]> (obs c)) (socks c) (nextsock c) (skips c)
  end.
Definition forget (key : mirrorKey) (c : client) : client :=
  Client (mirrors c) (delete key (obs c)) (socks c) (nextsock c) (skips c).

Definition guestAgentPort : Z :=
  if GuestAgentPort cfg =? 0 then DefaultAgentPort else GuestAgentPort cfg.

Definition mirrorable (l : listenerInfo) : bool :=
  if (i_port l =? 0) || (i_port l =? agentPort cfg) || (i_port l =? guestAgentPort) then false
  else if negb (String.eqb (i_proto l) "tcp")
       && (negb (String.eqb (i_proto l) "udp")
           || (32768 <=? i_port l) && (i_port l <=? 60999)) then false
  else bool_decide (i_addr l ∈ ["0.0.0.0"; "::"; "127.0.0.1"; "::1"]).

Definition skipped (port : Z) : bool := bool_decide (port ∈ Skip cfg).

(** [declined]: an audible skip. *)
Definition declined (t : Z) (key : mirrorKey) (c : client) : bool * client :=
  if negb (skipped key.2) then (false, c)
  else
    let c := observe t key EntrySkipped c in
    (true, Client (mirrors c) (obs c) (socks c) (nextsock c) (key :: skips c)).

Definition macHeld (e : env) (key : mirrorKey) : string :=
  match MacHolder e with
  | None => ""
  | Some f => let '(h, known) := f key.1 key.2 in if known then h else ""
  end.

(** A bound listener registered as the key's mirror. *)
Definition register (t : Z) (key : mirrorKey) (refs : Z) (pending : bool) (c : client) : client :=
  let s := nextsock c in
  forget key (Client (<[key := Entry s refs pending t]> (mirrors c)) (obs c) ({[s]} ∪ socks c)
                (S s) (skips c)).

(** [openLocked] and [openUDPLocked]: only TCP consults the holder hook. *)
Definition openLocked (e : env) (key : mirrorKey) (refs : Z) (c : client) : client :=
  if String.eqb key.1 "udp" then
    match listen e key with
    | Some _ => observe (now e) key EntryBindFailed c
    | None => register (now e) key refs false c
    end
  else if negb (String.eqb (macHeld e key) "") then observe (now e) key EntryBindFailed c
  else match listen e key with
       | Some _ => observe (now e) key EntryBindFailed c
       | None => register (now e) key refs false c
       end.

(** [e.stop()] and [delete(c.mirrors, key)]. *)
Definition stop (key : mirrorKey) (c : client) : client :=
  match mirrors c !! key with
  | Some e => Client (delete key (mirrors c)) (obs c) (socks c ∖ {[e_sock e]}) (nextsock c) (skips c)
  | None => c
  end.
Definition set_entry (key : mirrorKey) (e : mirrorEntry) (c : client) : client :=
  Client (<[key := e]> (mirrors c)) (obs c) (socks c) (nextsock c) (skips c).

Definition key_of (l : listenerInfo) : mirrorKey := (i_proto l, i_port l).

(** [reconcile]'s first loop: the wanted reference counts, and the skips
    logged once per port. *)
Definition wanted (l : listenerInfo) : bool := mirrorable l && negb (skipped (i_port l)).
Definition want_of (snapshot : list listenerInfo) : gmap mirrorKey Z :=
  foldl (λ w l, if wanted l then <[key_of l := default 0 (w !! key_of l) + 1]> w else w) ∅ snapshot.
Definition skip_lines (t : Z) (snapshot : list listenerInfo) (c : client) : client :=
  (foldl (λ sc l,
      if mirrorable l && skipped (i_port l) && negb (bool_decide (key_of l ∈ sc.1))
      then ({[key_of l]} ∪ sc.1, (declined t (key_of l) sc.2).2) else sc)
    (∅ : gset mirrorKey, c) snapshot).2.

(** Its loop over the mirrors. *)
Definition settle (want : gmap mirrorKey Z) (key : mirrorKey) (e : mirrorEntry)
  : option mirrorEntry :=
  let w := default 0 (want !! key) in
  if w =? 0 then if e_pending e then Some e else None
  else Some (Entry (e_sock e) w false (e_since e)).
Definition settle_all (want : gmap mirrorKey Z) (c : client) : client :=
  let keep := map_imap (settle want) (mirrors c) in
  let gone := filter (λ '(k, e), settle want k e = None) (mirrors c) in
  Client keep (obs c) (socks c ∖ map_conns e_sock gone) (nextsock c) (skips c).
Definition open_all (e : env) (want : gmap mirrorKey Z) (c : client) : client :=
  foldl (λ c '(key, refs), match mirrors c !! key with
                           | Some _ => c
                           | None => openLocked e key refs c
                           end) c (map_to_list want).
Definition reconcile (e : env) (snapshot : list listenerInfo) (c : client) : client :=
  let c := skip_lines (now e) snapshot c in
  let want := want_of snapshot in
  open_all e want (settle_all want c).

Definition add (e : env) (l : listenerInfo) (c : client) : client :=
  if negb (mirrorable l) then c
  else
    let key := key_of l in
    let '(d, c) := declined (now e) key c in
    if d then c
    else match mirrors c !! key with
         | Some m =>
             if e_pending m then set_entry key (Entry (e_sock m) 1 false (e_since m)) c
             else set_entry key (Entry (e_sock m) (e_refs m + 1) false (e_since m)) c
         | None => openLocked e key 1 c
         end.

Definition del (l : listenerInfo) (c : client) : client :=
  if negb (mirrorable l) then c
  else
    let key := key_of l in
    match mirrors c !! key with
    | None => c
    | Some m =>
        if e_pending m then c
        else
          let m' := Entry (e_sock m) (e_refs m - 1) false (e_since m) in
          let c := set_entry key m' c in
          if e_refs m' <=? 0 then stop key c else c
    end.

Definition closeAll (c : client) : client :=
  Client ∅ (obs c) (socks c ∖ map_conns e_sock (mirrors c)) (nextsock c) (skips c).

(** One event of the session ([session]'s switch; pings do nothing). *)
Definition on_event (e : env) (ev : TransportEvent) (c : client) : client :=
  match ev with
  | Snapshot ls => reconcile e ls c
  | Change OpAdd l => add e l c
  | Change OpDel l => del l c
  end.

(** ** Reservations *)

Record reserveReq := Req { r_op : string; r_proto : string; r_port : Z }.
Inductive reason := Unsupported | InUse | Unknown.
#[export] Instance reason_eq_dec : EqDecision reason.
Proof. solve_decision. Defined.
(** [reserveResp]: [Ok] or a reason. *)
Abbreviation reserveResp := (result reason unit).

Definition handleReserve (e : env) (r : reserveReq) (c : client) : reserveResp * client :=
  if negb (String.eqb (r_op r) "reserve") || negb (String.eqb (r_proto r) "tcp")
     || (r_port r =? 0) then (Err Unsupported, c)
  else
    let key := ("tcp", r_port r) in
    if skipped (r_port r) then
      let c := observe (now e) key EntrySkipped c in
      (Ok tt, Client (mirrors c) (obs c) (socks c) (nextsock c) (key :: skips c))
    else match mirrors c !! key with
    | Some _ => (Ok tt, c)
    | None =>
        if negb (String.eqb (macHeld e key) "") then (Err InUse, c)
        else match listen e key with
             | Some EADDRINUSE => (Err InUse, c)
             | Some _ => (Err Unknown, c)
             | None => (Ok tt, register (now e) key 0 true c)
             end
    end.

(** The reservation timer's function, for the entry it was armed for. *)
Definition releaseIfPending (key : mirrorKey) (sock : nat) (c : client) : client :=
  match mirrors c !! key with
  | Some m => if (e_sock m =? sock)%nat && e_pending m then stop key c else c
  | None => c
  end.

Definition Mirrors (proto : string) (port : Z) (c : client) : bool :=
  bool_decide (is_Some (mirrors c !! (proto, port))).
Definition MirroredPorts (proto : string) (c : client) : list Z :=
  omap (λ k : mirrorKey, if String.eqb k.1 proto then Some k.2 else None) (map_to_list (mirrors c)).*1.

(** [Snapshot]'s entries, before sorting: the bound ones, then the observed
    ones that are not bound. *)
Inductive entry_state := EntryBound | EntryObs (s : obs_state).
Definition entries (c : client) : list (mirrorKey * entry_state * Z) :=
  ((λ '(k, e), (k, EntryBound, e_since e)) <$> map_to_list (mirrors c)) ++
  omap (λ '(k, o), if decide (is_Some (mirrors c !! k)) then None
                   else Some (k, EntryObs (o_state o), o_since o)) (map_to_list (obs c)).
End client.

(** ** Facts *)

Section facts.
Context (cfg : config).
Implicit Types (c : client) (k : mirrorKey) (want : gmap mirrorKey Z).

(** The table, the sockets and the observations agree: exactly one bound
    socket per mirror, no mirror of a skipped port, and no mirrored port
    reported as skipped or failed. *)
Record client_ok c : Prop := {
  ok_socks : socks c = map_conns e_sock (mirrors c);
  ok_inj k1 k2 e1 e2 : mirrors c !! k1 = Some e1 → mirrors c !! k2 = Some e2 →
    e_sock e1 = e_sock e2 → k1 = k2;
  ok_fresh k e : mirrors c !! k = Some e → (e_sock e < nextsock c)%nat;
  ok_skip k : is_Some (mirrors c !! k) → k.2 ∉ Skip cfg;
  ok_obs k : is_Some (mirrors c !! k) → obs c !! k = None }.

(** The primitive changes every operation is made of. *)
Inductive prim : client → client → Prop :=
| prim_obs c o sk : (∀ k, is_Some (mirrors c !! k) → o !! k = None) →
    prim c (Client (mirrors c) o (socks c) (nextsock c) sk)
| prim_reg t k refs p c : mirrors c !! k = None → k.2 ∉ Skip cfg →
    prim c (register t k refs p c)
| prim_set k m e c : mirrors c !! k = Some m → e_sock e = e_sock m →
    prim c (set_entry k e c)
| prim_stop k c : prim c (stop k c)
| prim_settle want c : prim c (settle_all want c).

Lemma settle_Some want k m e :
  settle want k m = Some e → e_sock e = e_sock m.
Proof. unfold settle. intros; case_all; naive_solver. Qed.

Lemma imap_Some (want : gmap mirrorKey Z) (ms : gmap mirrorKey mirrorEntry) k e :
  map_imap (settle want) ms !! k = Some e →
  ∃ m, ms !! k = Some m ∧ settle want k m = Some e ∧ e_sock e = e_sock m.
Proof.
  rewrite map_lookup_imap. intros (m & Hm & He)%bind_Some. exists m.
  eauto using settle_Some.
Qed.

Lemma map_conns_settle want c :
  client_ok c →
  map_conns e_sock (mirrors c) ∖
    map_conns e_sock (filter (λ '(k, e), settle want k e = None) (mirrors c)) =
  map_conns e_sock (map_imap (settle want) (mirrors c)).
Proof.
  intros [_ Hinj _ _ _]. apply set_eq. intros s.
  rewrite elem_of_difference, !elem_of_map_conns. split.
  - intros [(k & m & Hk & <-) Hn]. destruct (settle want k m) as [e|] eqn:E.
    + exists k, e. rewrite map_lookup_imap, Hk. cbn. split; [done|]. by eapply settle_Some.
    + destruct Hn. exists k, m. by rewrite map_lookup_filter_Some.
  - intros (k & e & (m & Hm & He & Es)%imap_Some & <-). rewrite Es.
    split; [eauto|]. intros (k' & m' & [Hk' Hn]%map_lookup_filter_Some & E).
    assert (k' = k) as -> by eauto. rewrite Hm in Hk'. by simplify_eq.
Qed.

Lemma prim_ok c c' : client_ok c → prim c c' → client_ok c'.
Proof.
  intros HO HP. destruct HP as [c o sk Ho|t k refs p c Hk Hsk|k m e c Hm He|k c|want c].
  - by destruct HO; split.
  - destruct HO as [H1 H2 H3 H4 H5]. split; cbn.
    + by rewrite map_conns_insert, H1.
    + intros k1 k2 e1 e2 [[<- <-]|[? E1]]%lookup_insert_Some [[<- <-]|[? E2]]%lookup_insert_Some;
        cbn; try done; intros E; [apply H3 in E2|apply H3 in E1|by eapply H2]; lia.
    + intros k1 e1 [[<- <-]|[? E1]]%lookup_insert_Some; cbn; [lia|]. apply H3 in E1. lia.
    + intros k1. rewrite lookup_insert_is_Some. intros [<-|[? ?]]; auto.
    + intros k1. rewrite lookup_insert_is_Some. intros [<-|[? ?]].
      * by rewrite lookup_delete_eq.
      * rewrite lookup_delete_ne by done. auto.
  - assert (∀ k1 e1, mirrors (set_entry k e c) !! k1 = Some e1 →
      ∃ m1, mirrors c !! k1 = Some m1 ∧ e_sock m1 = e_sock e1) as HB.
    { cbn. intros k1 e1 [[<- <-]|[? E1]]%lookup_insert_Some; eauto. }
    destruct HO as [H1 H2 H3 H4 H5]. split.
    + cbn. rewrite H1. apply set_eq. intros s. rewrite !elem_of_map_conns. split.
      * intros (k1 & m1 & E1 & <-). destruct (decide (k1 = k)) as [->|?].
        -- exists k, e. rewrite lookup_insert_eq. split; [done|]. congruence.
        -- exists k1, m1. by rewrite lookup_insert_ne.
      * intros (k1 & e1 & (m1 & ? & <-)%HB & <-). eauto.
    + intros k1 k2 e1 e2 (m1 & E1 & <-)%HB (m2 & E2 & <-)%HB. by eapply H2.
    + intros k1 e1 (m1 & E1 & <-)%HB. by eapply H3.
    + intros k1 [e1 (m1 & E1 & _)%HB]. eauto.
    + intros k1 [e1 (m1 & E1 & _)%HB]. cbn. eauto.
  - unfold stop. destruct (mirrors c !! k) as [m|] eqn:Em; [|done].
    destruct HO as [H1 H2 H3 H4 H5]. split; cbn.
    + rewrite H1. apply set_eq. intros s.
      rewrite elem_of_difference, !elem_of_map_conns, elem_of_singleton. split.
      * intros [(k1 & m1 & E1 & <-) Hn]. exists k1, m1. split; [|done].
        rewrite lookup_delete_ne; [done|]. intros <-. congruence.
      * intros (k1 & m1 & [? E1]%lookup_delete_Some & <-). split; [eauto|].
        intros E. by assert (k1 = k) by eauto.
    + intros k1 k2 e1 e2 [_ E1]%lookup_delete_Some [_ E2]%lookup_delete_Some. by eapply H2.
    + intros k1 e1 [_ E1]%lookup_delete_Some. by eapply H3.
    + intros k1 [e1 [_ E1]%lookup_delete_Some]. eauto.
    + intros k1 [e1 [_ E1]%lookup_delete_Some]. eauto.
  - split; cbn.
    + rewrite (ok_socks _ HO). by apply map_conns_settle.
    + intros k1 k2 e1 e2 (m1 & E1 & _ & ->)%imap_Some (m2 & E2 & _ & ->)%imap_Some.
      by eapply (ok_inj _ HO).
    + intros k1 e1 (m1 & E1 & _ & ->)%imap_Some. by eapply (ok_fresh _ HO).
    + intros k1 [e1 (m1 & E1 & _)%imap_Some]. eapply (ok_skip _ HO). eauto.
    + intros k1 [e1 (m1 & E1 & _)%imap_Some]. eapply (ok_obs _ HO). eauto.
Qed.

(** *** Every operation is made of primitive changes *)

Definition prims : client → client → Prop := rtc prim.
Lemma prims_ok c c' : client_ok c → prims c c' → client_ok c'.
Proof. intros HO. induction 1; eauto using prim_ok. Qed.

(** Recording an outcome of a port that is not mirrored. *)
Lemma observe_prim t k st sk c :
  client_ok c → mirrors c !! k = None →
  let c' := observe t k st c in
  prim c (Client (mirrors c') (obs c') (socks c') (nextsock c') sk) ∧
  mirrors c' = mirrors c ∧ socks c' = socks c ∧ nextsock c' = nextsock c.
Proof.
  intros HO Hk. assert (∀ k', is_Some (mirrors c !! k') →
    <[k:=Observed st t]> (obs c) !! k' = None) as HI.
  { intros k' Hk'. rewrite lookup_insert_ne by (intros <-; rewrite Hk in Hk'; by destruct Hk').
    by apply (ok_obs _ HO). }
  unfold observe. destruct (obs c !! k) as [o|]; [case_decide|]; cbn; (split; [|done]);
    apply prim_obs; auto; apply (ok_obs _ HO).
Qed.
Lemma observe_prims t k st c :
  client_ok c → mirrors c !! k = None →
  prims c (observe t k st c) ∧ mirrors (observe t k st c) = mirrors c.
Proof.
  intros HO Hk. destruct (observe_prim t k st (skips (observe t k st c)) c HO Hk) as (H & ? & _).
  split; [|done]. apply rtc_once. by destruct (observe t k st c).
Qed.

Lemma not_mirrored_skip k c : client_ok c → k.2 ∈ Skip cfg → mirrors c !! k = None.
Proof.
  intros HO Hs. destruct (mirrors c !! k) eqn:E; [|done].
  by destruct (ok_skip _ HO k); [rewrite E; eauto|].
Qed.
Lemma declined_prims t k c :
  client_ok c →
  prims c (declined cfg t k c).2 ∧ mirrors (declined cfg t k c).2 = mirrors c ∧
  (declined cfg t k c).1 = skipped cfg k.2.
Proof.
  intros HO. unfold declined. destruct (skipped cfg k.2) eqn:Hs; cbn; [|by split].
  unfold skipped in Hs. bool_prop. apply (not_mirrored_skip k c HO) in Hs as Hk.
  destruct (observe_prim t k EntrySkipped (k :: skips (observe t k EntrySkipped c)) c HO Hk)
    as (H & E & _). split; [by apply rtc_once|done].
Qed.

(** [openLocked] opens the mirror or records why it could not. *)
Lemma openLocked_prims e k refs c :
  client_ok c → mirrors c !! k = None → k.2 ∉ Skip cfg →
  prims c (openLocked e k refs c) ∧
  (openLocked e k refs c = register (now e) k refs false c ∨
   mirrors (openLocked e k refs c) = mirrors c).
Proof.
  intros HO Hk Hs. unfold openLocked.
  destruct (observe_prims (now e) k EntryBindFailed c HO Hk) as [H1 H2].
  assert (prims c (register (now e) k refs false c)) by by apply rtc_once, prim_reg.
  repeat case_match; auto.
Qed.

Lemma skip_lines_prims t ls c :
  client_ok c →
  prims c (skip_lines cfg t ls c) ∧ mirrors (skip_lines cfg t ls c) = mirrors c.
Proof.
  intros HO. unfold skip_lines.
  apply (foldl_invariant (λ sc : gset mirrorKey * client,
    prims c sc.2 ∧ mirrors sc.2 = mirrors c)); [done|].
  intros l [sn c1] _ [HP HM]. cbn in *. case_match; [|done]. cbn.
  destruct (declined_prims t (key_of l) c1) as (HP' & HM' & _); [by eapply prims_ok|].
  split; [by etrans|congruence].
Qed.

(** *** Wanted counts *)

Definition is_for k (l : listenerInfo) : bool := wanted cfg l && bool_decide (key_of l = k).
(** How many of the listeners of [G] the key's mirror stands for. *)
Definition cnt k (G : gmultiset listenerInfo) : Z := Z.of_nat (count (is_for k) (elements G)).

Lemma cnt_nonneg k G : 0 <= cnt k G.
Proof. unfold cnt. lia. Qed.
Lemma cnt_empty k : cnt k ∅ = 0.
Proof. unfold cnt. by rewrite gmultiset_elements_empty. Qed.
Lemma cnt_add k l G : cnt k ({[+ l +]} ⊎ G) = (if is_for k l then 1 else 0) + cnt k G.
Proof.
  unfold cnt. rewrite (count_perm _ _ _ (gmultiset_elements_disj_union _ _)), count_app.
  rewrite gmultiset_elements_singleton, count_cons, count_nil. destruct (is_for k l); lia.
Qed.
Lemma cnt_del k l G : l ∈ G → cnt k (G ∖ {[+ l +]}) = cnt k G - (if is_for k l then 1 else 0).
Proof.
  intros Hl. assert (G = {[+ l +]} ⊎ G ∖ {[+ l +]}) as E by multiset_solver.
  rewrite E at 2. rewrite cnt_add. lia.
Qed.
Lemma cnt_snapshot k ls : cnt k (list_to_set_disj ls) = Z.of_nat (count (is_for k) ls).
Proof.
  induction ls as [|l ls IH]; [apply cnt_empty|].
  rewrite list_to_set_disj_cons, cnt_add, IH, count_cons. destruct (is_for k l); lia.
Qed.
Lemma cnt_pos_wanted k G : 0 < cnt k G → k.2 ∉ Skip cfg.
Proof.
  unfold cnt. intros H. assert (0 < count (is_for k) (elements G))%nat as Hp by lia.
  apply count_pos in Hp as (l & _ & Hl). unfold is_for, wanted, skipped in Hl.
  bool_prop. by destruct Hl as [[_ ?] <-].
Qed.

(** [want_of] counts, and holds no zero. *)
Lemma want_of_spec ls k :
  want_of cfg ls !! k = let n := count (is_for k) ls in
                        if (n =? 0)%nat then None else Some (Z.of_nat n).
Proof.
  induction ls as [|l ls IH] using rev_ind; [done|].
  unfold want_of in *. rewrite foldl_app. cbn [foldl].
  rewrite count_app, count_cons, count_nil, Nat.add_0_r. unfold is_for at 2 4.
  destruct (wanted cfg l) eqn:Hw; cbn [andb]; [|by rewrite Nat.add_0_r].
  case_bool_decide as Hk; [subst k; rewrite lookup_insert_eq, IH|].
  - cbn zeta. rewrite Nat.add_1_r. cbn. f_equal.
    destruct (Nat.eqb_spec (count (is_for (key_of l)) ls) 0) as [->|]; cbn; lia.
  - rewrite lookup_insert_ne by done. by rewrite Nat.add_0_r.
Qed.
Lemma want_of_default ls k : default 0 (want_of cfg ls !! k) = cnt k (list_to_set_disj ls).
Proof.
  rewrite want_of_spec, cnt_snapshot. cbn zeta.
  destruct (Nat.eqb_spec (count (is_for k) ls) 0) as [->|]; done.
Qed.
Lemma want_of_Some ls k r :
  want_of cfg ls !! k = Some r → r = cnt k (list_to_set_disj ls) ∧ 0 < r.
Proof.
  intros E. pose proof (want_of_default ls k) as HD. rewrite E in HD. cbn in HD.
  split; [done|]. rewrite want_of_spec in E. cbn in E.
  destruct (Nat.eqb_spec (count (is_for k) ls) 0); [done|]. injection E as <-. lia.
Qed.

(** *** What the operations do to the table *)

(** An environment in which every mirror opens. *)
Definition opens (e : env) : Prop := ∀ k, listen e k = None ∧ macHeld e k = "".

Lemma openLocked_opens e k refs c :
  opens e → openLocked e k refs c = register (now e) k refs false c.
Proof. intros He. destruct (He k) as [H1 H2]. unfold openLocked. rewrite H1, H2. by case_match. Qed.

(** The table after [open_all]: what was there, and below [want] what opened. *)
Definition opened want c c' : Prop :=
  ∀ k, match mirrors c !! k with
       | Some m => mirrors c' !! k = Some m
       | None => match mirrors c' !! k with
                 | Some m => want !! k = Some (e_refs m) ∧ e_pending m = false
                 | None => True
                 end
       end.

Lemma open_step e k refs c0 c want :
  client_ok c → opened want c0 c → want !! k = Some refs → k.2 ∉ Skip cfg →
  let c' := match mirrors c !! k with Some _ => c | None => openLocked e k refs c end in
  prims c c' ∧ opened want c0 c'.
Proof.
  intros HO HI Hw Hs. destruct (mirrors c !! k) as [m|] eqn:Ek; [by split|].
  destruct (openLocked_prims e k refs c HO Ek Hs) as [HP Heff]. split; [done|].
  intros k'. specialize (HI k'). destruct Heff as [->| ->]; [|done]. cbn.
  destruct (decide (k = k')) as [<-|Hne].
  - rewrite Ek in HI. destruct (mirrors c0 !! k); [done|]. by rewrite lookup_insert_eq.
  - by rewrite lookup_insert_ne.
Qed.

Lemma open_all_spec e want c :
  client_ok c → (∀ k, is_Some (want !! k) → k.2 ∉ Skip cfg) →
  prims c (open_all e want c) ∧ opened want c (open_all e want c).
Proof.
  intros HO Hs. unfold open_all.
  apply (foldl_invariant (λ c', prims c c' ∧ opened want c c')).
  { split; [done|]. intros k. by destruct (mirrors c !! k) eqn:E; rewrite ?E. }
  intros [k refs] c' Hin%elem_of_map_to_list [HP HI].
  destruct (open_step e k refs c c' want) as [HP' HI']; eauto using prims_ok.
  split; [by etrans|done].
Qed.

(** When every mirror opens, every wanted key is open afterwards. *)
Lemma open_all_opens e want c k :
  opens e → is_Some (want !! k) → is_Some (mirrors (open_all e want c) !! k).
Proof.
  intros He [r Hr]. apply elem_of_map_to_list in Hr. unfold open_all.
  revert c. induction (map_to_list want) as [|[k1 r1] L IH]; intros c; [set_solver|].
  assert (∀ c1 k0, is_Some (mirrors c1 !! k0) → is_Some (mirrors (foldl (λ c '(key, refs),
    match mirrors c !! key with Some _ => c | None => openLocked e key refs c end) c1 L) !! k0)) as Hkeep.
  { intros c1 k0 H0. apply (foldl_invariant (λ c', is_Some (mirrors c' !! k0))); [done|].
    intros [k2 r2] c2 _ H2. destruct (mirrors c2 !! k2) eqn:E2; [done|].
    rewrite openLocked_opens by done. cbn. destruct (decide (k2 = k0)) as [->|?].
    - rewrite lookup_insert_eq. eauto. - by rewrite lookup_insert_ne. }
  cbn [foldl]. apply elem_of_cons in Hr as [[= <- <-]|Hr]; [|by apply IH].
  apply Hkeep. destruct (mirrors c !! k) eqn:E; [by rewrite E; eauto|].
  rewrite openLocked_opens by done. cbn. rewrite lookup_insert_eq. eauto.
Qed.

(** *** Sessions *)

(** What happens to a client: an event of the session, a reservation
    request, a reservation timer, the end of a session. *)
Inductive label :=
| LEvent (e : env) (ev : TransportEvent)
| LReserve (e : env) (r : reserveReq)
| LExpire (k : mirrorKey) (sock : nat)
| LEnd.

(** The client with what its current session told it of the guest. *)
Definition exec (l : label) (s : client * gmultiset listenerInfo) : client * gmultiset listenerInfo :=
  let '(c, G) := s in
  match l with
  | LEvent e ev => (on_event cfg e ev c, replay1 G ev)
  | LReserve e r => ((handleReserve cfg e r c).2, G)
  | LExpire k sock => (releaseIfPending k sock c, G)
  | LEnd => (closeAll c, ∅)
  end.
Definition step s s' : Prop := ∃ l, s' = exec l s.
Definition reachable : client * gmultiset listenerInfo → Prop :=
  reach (λ s, s = (client0, ∅)) step.

(** A history in which no bind fails and the guest only closes what it has
    open. *)
Definition good (l : label) (G : gmultiset listenerInfo) : Prop :=
  match l with
  | LEvent e ev => opens e ∧ match ev with Change OpDel i => i ∈ G | _ => True end
  | LReserve e _ => opens e
  | _ => True
  end.
Definition good_step (s s' : client * gmultiset listenerInfo) : Prop :=
  ∃ l, good l s.2 ∧ s' = exec l s.
Definition good_reachable : client * gmultiset listenerInfo → Prop :=
  reach (λ s, s = (client0, ∅)) good_step.

(** A mirror stands for at least one, and at most all, of its listeners. *)
Definition entry_ok (G : gmultiset listenerInfo) k (m : mirrorEntry) : Prop :=
  e_pending m = false → 0 < e_refs m <= cnt k G.
Definition refs_ok (G : gmultiset listenerInfo) c : Prop :=
  ∀ k m, mirrors c !! k = Some m → entry_ok G k m.
(** When no bind ever failed, it stands for all of them. *)
Definition exact (G : gmultiset listenerInfo) c : Prop :=
  ∀ k, match mirrors c !! k with
       | Some m => if e_pending m then cnt k G = 0 else e_refs m = cnt k G ∧ 0 < cnt k G
       | None => cnt k G = 0
       end.

(** **** Reconciling *)

Lemma settle_all_lookup want c k :
  mirrors (settle_all want c) !! k = mirrors c !! k ≫= settle want k.
Proof. apply map_lookup_imap. Qed.

Lemma reconcile_prims e ls c :
  client_ok c →
  prims c (reconcile cfg e ls c) ∧
  opened (want_of cfg ls) (settle_all (want_of cfg ls) (skip_lines cfg (now e) ls c))
    (reconcile cfg e ls c) ∧
  mirrors (skip_lines cfg (now e) ls c) = mirrors c.
Proof.
  intros HO. destruct (skip_lines_prims (now e) ls c HO) as [H1 H2].
  set (c1 := skip_lines _ _ _ _) in *. set (c2 := settle_all (want_of cfg ls) c1).
  assert (prims c c2) as HP2.
  { etrans; [done|]. by apply rtc_once, prim_settle. }
  destruct (open_all_spec e (want_of cfg ls) c2) as [H3 H4].
  - by eapply prims_ok.
  - intros k [r Hr]. apply want_of_Some in Hr as [-> Hr]. by eapply cnt_pos_wanted.
  - split; [by etrans|]. by split.
Qed.

Lemma reconcile_refs e ls c :
  client_ok c → refs_ok (list_to_set_disj ls) (reconcile cfg e ls c).
Proof.
  intros HO k m Hm Hp. destruct (reconcile_prims e ls c HO) as (_ & Hop & E).
  specialize (Hop k). rewrite settle_all_lookup, E in Hop. rewrite Hm in Hop.
  assert (∀ w, want_of cfg ls !! k = Some w → 0 < w <= cnt k (list_to_set_disj ls)) as HW.
  { intros w [-> ?]%want_of_Some. lia. }
  destruct (mirrors c !! k ≫= settle _ k) as [m'|] eqn:Es.
  - injection Hop as ->. apply bind_Some in Es as (m0 & _ & Es). unfold settle in Es.
    destruct (default 0 _ =? 0) eqn:Hz; [destruct (e_pending m0) eqn:?; congruence|].
    injection Es as <-. cbn in *. destruct (want_of cfg ls !! k) as [w|]; [by apply HW|done].
  - apply HW, Hop.
Qed.

Lemma reconcile_exact e ls c :
  client_ok c → opens e → exact (list_to_set_disj ls) (reconcile cfg e ls c).
Proof.
  intros HO He k. destruct (reconcile_prims e ls c HO) as (_ & Hop & E).
  pose proof (open_all_opens e (want_of cfg ls)
    (settle_all (want_of cfg ls) (skip_lines cfg (now e) ls c)) k He) as Hall.
  fold (reconcile cfg e ls c) in Hall. change (open_all e _ _) with (reconcile cfg e ls c) in Hall.
  specialize (Hop k). rewrite settle_all_lookup, E in Hop.
  pose proof (want_of_default ls k) as HD.
  destruct (mirrors c !! k ≫= settle _ k) as [m'|] eqn:Es.
  - rewrite Hop. apply bind_Some in Es as (m0 & _ & Es). unfold settle in Es. rewrite HD in Es.
    destruct (Z.eqb_spec (cnt k (list_to_set_disj ls)) 0) as [Hz|Hz].
    + destruct (e_pending m0) eqn:Ep; [|done]. injection Es as <-. by rewrite Ep.
    + injection Es as <-. cbn. pose proof (cnt_nonneg k (list_to_set_disj ls)). split; [done|lia].
  - destruct (mirrors (reconcile cfg e ls c) !! k) as [m|] eqn:Em.
    + destruct Hop as [Hw ->]. by apply want_of_Some in Hw as [-> ?].
    + destruct (want_of cfg ls !! k) eqn:Ew; [|by rewrite <- HD].
      destruct Hall as [? ?]; [by eexists|congruence].
Qed.

(** **** One listener's add and del *)

Lemma is_for_key k l : is_for k l = true ↔ mirrorable cfg l = true ∧ (i_port l ∉ Skip cfg) ∧ key_of l = k.
Proof.
  unfold is_for, wanted, skipped. bool_prop. naive_solver.
Qed.

(** The cases of [add] that touch the table. *)
Lemma add_spec e l c :
  client_ok c →
  prims c (add cfg e l c) ∧
  ((mirrors (add cfg e l c) = mirrors c ∧
     (is_for (key_of l) l = false ∨ (mirrors c !! key_of l = None ∧ ¬ opens e))) ∨
   (is_for (key_of l) l = true ∧ ∃ m',
      mirrors (add cfg e l c) = <[key_of l := m']> (mirrors c) ∧
      e_pending m' = false ∧
      e_refs m' = match mirrors c !! key_of l with
                  | Some m => if e_pending m then 1 else e_refs m + 1
                  | None => 1
                  end ∧
      (∀ m, mirrors c !! key_of l = Some m → e_sock m' = e_sock m))).
Proof.
  intros HO. unfold add. destruct (mirrorable cfg l) eqn:Hm; cbn [negb].
  2:{ split; [done|]. left. split; [done|]. left. unfold is_for, wanted. by rewrite Hm. }
  destruct (declined_prims (now e) (key_of l) c HO) as (HP & HM & HD).
  destruct (declined cfg (now e) (key_of l) c) as [d c1]. cbn in *. subst d.
  destruct (skipped cfg (i_port l)) eqn:Hs; unfold is_for, wanted; rewrite Hm, Hs;
    rewrite bool_decide_eq_true_2 by done; cbn.
  { split; [done|]. left. split; [done|]. by left. }
  assert (client_ok c1) as HO1 by by eapply prims_ok.
  rewrite <- HM. destruct (mirrors c1 !! key_of l) as [m|] eqn:Em.
  - destruct (e_pending m) eqn:Ep; (split;
      [etrans; [done|]; by eapply rtc_once, prim_set|right; split; [done|]; eexists; split_and!; [done..|by intros ? [= <-]]]).
  - unfold skipped in Hs. bool_prop.
    destruct (openLocked_prims e (key_of l) 1 c1 HO1 Em Hs) as [HP' Heff].
    split; [by etrans|]. destruct Heff as [->|En].
    + right. split; [done|]. eexists. split_and!; [done..|by intros ? [=]].
    + left. split; [done|]. right. split; [done|]. intros He.
      rewrite openLocked_opens in En by done. cbn in En.
      apply (f_equal (lookup (key_of l))) in En. rewrite lookup_insert_eq in En. congruence.
Qed.

Lemma is_for_at k l : is_for k l = if decide (key_of l = k) then is_for (key_of l) l else false.
Proof.
  unfold is_for. case_decide as E.
  - by rewrite <- E.
  - by rewrite bool_decide_eq_false_2, andb_false_r.
Qed.
Lemma cnt_add_for k l G :
  cnt k ({[+ l +]} ⊎ G) =
    cnt k G + (if decide (key_of l = k) then if is_for (key_of l) l then 1 else 0 else 0).
Proof.
  rewrite cnt_add, (is_for_at k). case_decide; [|lia]. case_match; lia.
Qed.

Lemma add_refs e l G c :
  client_ok c → refs_ok G c → refs_ok ({[+ l +]} ⊎ G) (add cfg e l c).
Proof.
  intros HO HR k m. destruct (add_spec e l c HO) as [_ [[-> _]|(Hf & m' & -> & Hp & Hr & _)]].
  - intros Hm Hp. pose proof (HR k m Hm Hp). rewrite cnt_add. case_match; lia.
  - intros [[<- <-]|[Hne Hm]]%lookup_insert_Some Hpm; rewrite cnt_add_for.
    + rewrite decide_True by done. rewrite Hf, Hr. pose proof (cnt_nonneg (key_of l) G).
      destruct (mirrors c !! key_of l) as [m0|] eqn:E0; [|lia].
      destruct (e_pending m0) eqn:E1; [lia|]. pose proof (HR _ _ E0 E1). lia.
    + rewrite decide_False by done. pose proof (HR k m Hm Hpm). lia.
Qed.
Lemma add_exact e l G c :
  client_ok c → opens e → exact G c → exact ({[+ l +]} ⊎ G) (add cfg e l c).
Proof.
  intros HO He HE k. rewrite cnt_add_for.
  destruct (add_spec e l c HO) as [_ [[-> Hn]|(Hf & m' & -> & Hp & Hr & _)]].
  - assert (is_for (key_of l) l = false) as -> by (by destruct Hn as [?|[_ ?]]).
    replace (cnt k G + _) with (cnt k G) by (case_decide; lia). apply HE.
  - case_decide as Hk; [subst k|].
    + rewrite lookup_insert_eq, Hp, Hf. specialize (HE (key_of l)).
      pose proof (cnt_nonneg (key_of l) G).
      destruct (mirrors c !! key_of l) as [m0|]; [|lia].
      destruct (e_pending m0); [lia|]. destruct HE. lia.
    + rewrite lookup_insert_ne by done. rewrite Z.add_0_r. apply HE.
Qed.

Lemma del_spec l c :
  client_ok c →
  prims c (del cfg l c) ∧
  mirrors (del cfg l c) =
    match mirrors c !! key_of l with
    | Some m => if mirrorable cfg l && negb (e_pending m)
                then if e_refs m <=? 1 then delete (key_of l) (mirrors c)
                     else <[key_of l := Entry (e_sock m) (e_refs m - 1) false (e_since m)]> (mirrors c)
                else mirrors c
    | None => mirrors c
    end.
Proof.
  intros HO. unfold del. destruct (mirrorable cfg l); cbn; [|split; [done|by case_match]].
  destruct (mirrors c !! key_of l) as [m|] eqn:Em; [|done].
  destruct (e_pending m); cbn; [done|].
  assert (prim c (set_entry (key_of l) (Entry (e_sock m) (e_refs m - 1) false (e_since m)) c)) as HP
    by by eapply prim_set.
  destruct (e_refs m - 1 <=? 0) eqn:E; bool_prop.
  - rewrite (proj2 (Z.leb_le _ _)) by lia. split.
    + eapply rtc_l; [done|]. by apply rtc_once, prim_stop.
    + unfold stop. cbn. rewrite lookup_insert_eq. cbn. by rewrite delete_insert_eq.
  - rewrite (proj2 (Z.leb_gt _ _)) by lia. split; [by apply rtc_once|done].
Qed.

(** A mirrored key's listener of the same key is one it stands for. *)
Lemma mirrored_is_for l c m :
  client_ok c → mirrors c !! key_of l = Some m → is_for (key_of l) l = mirrorable cfg l.
Proof.
  intros HO Hm. pose proof (ok_skip _ HO (key_of l) (ex_intro _ _ Hm)) as Hs. cbn in Hs.
  unfold is_for, wanted, skipped. rewrite bool_decide_eq_false_2, bool_decide_eq_true_2 by done.
  by rewrite !andb_true_r.
Qed.

Lemma cnt_del_for k l G :
  l ∈ G → cnt k (G ∖ {[+ l +]}) =
    cnt k G - (if decide (key_of l = k) then if is_for (key_of l) l then 1 else 0 else 0).
Proof.
  intros Hl. rewrite cnt_del, (is_for_at k) by done. case_decide; [|lia]. case_match; lia.
Qed.

Lemma del_refs l G c :
  client_ok c → refs_ok G c → refs_ok (G ∖ {[+ l +]}) (del cfg l c).
Proof.
  intros HO HR k m Hm Hp. destruct (del_spec l c HO) as [_ E]. rewrite E in Hm. clear E.
  assert (cnt k G - 1 <= cnt k (G ∖ {[+ l +]}) ∧
          (key_of l ≠ k ∨ mirrorable cfg l = false → cnt k (G ∖ {[+ l +]}) = cnt k G)) as [Hc1 Hc2].
  { destruct (decide (l ∈ G)) as [Hl|Hl].
    - rewrite cnt_del_for by done. case_decide; [|split; [lia|intros _; lia]].
      split; [destruct (is_for (key_of l) l); lia|]. intros [?|E]; [done|]. unfold is_for, wanted. rewrite E. cbn. lia.
    - assert (G ∖ {[+ l +]} = G) as -> by multiset_solver. split; [lia|done]. }
  destruct (mirrors c !! key_of l) as [m0|] eqn:Em0.
  2:{ destruct (decide (key_of l = k)) as [<-|Hne]; [congruence|].
      rewrite Hc2 by auto. by apply HR. }
  destruct (mirrorable cfg l) eqn:Hml; cbn in Hm; [|rewrite Hc2 by auto; by apply HR].
  destruct (e_pending m0) eqn:Ep; cbn in Hm.
  { destruct (decide (key_of l = k)) as [<-|Hne]; [congruence|].
    rewrite Hc2 by auto. by apply HR. }
  destruct (e_refs m0 <=? 1) eqn:E1; bool_prop.
  - apply lookup_delete_Some in Hm as [Hne Hm]. rewrite Hc2 by auto. by apply HR.
  - apply lookup_insert_Some in Hm as [[<- <-]|[Hne Hm]]; cbn.
    + pose proof (HR _ _ Em0 Ep). lia.
    + rewrite Hc2 by auto. by apply HR.
Qed.
Lemma del_exact l G c :
  client_ok c → l ∈ G → exact G c → exact (G ∖ {[+ l +]}) (del cfg l c).
Proof.
  intros HO Hl HE k. rewrite cnt_del_for by done. destruct (del_spec l c HO) as [_ ->].
  pose proof (HE (key_of l)) as HK. pose proof (HE k) as HE'.
  assert (is_for (key_of l) l = true → 0 < cnt (key_of l) G) as Hpos.
  { intros Hf. pose proof (cnt_del (key_of l) l G Hl) as E. rewrite Hf in E.
    pose proof (cnt_nonneg (key_of l) (G ∖ {[+ l +]})). lia. }
  destruct (mirrors c !! key_of l) as [m0|] eqn:Em0.
  - rewrite (mirrored_is_for l c m0 HO Em0) in *.
    destruct (mirrorable cfg l); cbn; [|replace (cnt k G - _) with (cnt k G) by (case_decide; lia); done].
    destruct (e_pending m0); cbn; [specialize (Hpos eq_refl); lia|]. destruct HK as [HK ?].
    case_decide as Hk; [subst k|].
    + destruct (e_refs m0 <=? 1) eqn:E1; bool_prop.
      * rewrite lookup_delete_eq. lia.
      * rewrite lookup_insert_eq. cbn. lia.
    + rewrite Z.sub_0_r. destruct (e_refs m0 <=? 1).
      * by rewrite lookup_delete_ne.
      * by rewrite lookup_insert_ne.
  - case_decide as Hk; [subst k|by rewrite Z.sub_0_r]. rewrite Em0, HK in *.
    destruct (is_for (key_of l) l); [specialize (Hpos eq_refl); lia|done].
Qed.

(** **** Reservations, timers and the end of a session *)

Lemma handleReserve_spec e r c :
  client_ok c →
  let c' := (handleReserve cfg e r c).2 in
  prims c c' ∧
  (mirrors c' = mirrors c ∨
   mirrors c !! ("tcp", r_port r) = None ∧ c' = register (now e) ("tcp", r_port r) 0 true c).
Proof.
  intros HO. unfold handleReserve. destruct (_ || _); [by split; [|left]|].
  set (key := ("tcp", r_port r) : mirrorKey).
  destruct (skipped cfg (r_port r)) eqn:Hs; unfold skipped in Hs; bool_prop.
  { destruct (observe_prim (now e) key EntrySkipped
      (key :: skips (observe (now e) key EntrySkipped c)) c HO) as (H & E & _).
    - by apply not_mirrored_skip.
    - split; [by apply rtc_once|by left]. }
  destruct (mirrors c !! key) as [m|] eqn:Em; [by split; [|left]|].
  destruct (negb _); [by split; [|left]|].
  destruct (listen e key) as [[]|]; try by (split; [|left]).
  cbn. split; [by apply rtc_once, prim_reg|by right].
Qed.

Lemma release_spec k sock c :
  prims c (releaseIfPending k sock c) ∧
  (mirrors (releaseIfPending k sock c) = mirrors c ∨
   ∃ m, mirrors c !! k = Some m ∧ e_pending m = true ∧ e_sock m = sock ∧
        mirrors (releaseIfPending k sock c) = delete k (mirrors c)).
Proof.
  unfold releaseIfPending. destruct (mirrors c !! k) as [m|] eqn:Em; [|by split; [|left]].
  destruct (_ && _) eqn:Hb; [|by split; [|left]]. bool_prop. destruct Hb as [<- Hp].
  split; [by apply rtc_once, prim_stop|]. right. exists m. unfold stop. by rewrite Em.
Qed.

Lemma closeAll_ok c : client_ok c → client_ok (closeAll c).
Proof.
  intros HO. split; cbn; try done.
  - rewrite (ok_socks _ HO), map_conns_empty. set_solver.
  - by intros k [].
  - by intros k [].
Qed.

Lemma exec_ok l s : client_ok s.1 → client_ok (exec l s).1.
Proof.
  destruct s as [c G]. cbn. intros HO. destruct l as [e ev|e r|k sock|]; cbn.
  - destruct ev as [ls|[] l]; cbn; eapply prims_ok; try done.
    + by apply reconcile_prims.
    + by apply add_spec.
    + by apply del_spec.
  - eapply prims_ok; [done|]. by apply handleReserve_spec.
  - eapply prims_ok; [done|]. by apply release_spec.
  - by apply closeAll_ok.
Qed.

Lemma exec_refs l s : client_ok s.1 → refs_ok s.2 s.1 → refs_ok (exec l s).2 (exec l s).1.
Proof.
  destruct s as [c G]. cbn. intros HO HR. destruct l as [e ev|e r|k sock|]; cbn.
  - destruct ev as [ls|[] l]; cbn.
    + by apply reconcile_refs. + by apply add_refs. + by apply del_refs.
  - destruct (handleReserve_spec e r c HO) as [_ [E|[Hn ->]]]; intros k m; [rewrite E; apply HR|].
    cbn. intros [[<- <-]|[? Hm]]%lookup_insert_Some; [done|by apply HR].
  - intros k' m. destruct (release_spec k sock c) as [_ [-> |(m0 & _ & _ & _ & ->)]]; [apply HR|].
    intros [_ Hm]%lookup_delete_Some. by apply HR.
  - done.
Qed.

Lemma exec_exact l s :
  client_ok s.1 → good l s.2 → exact s.2 s.1 → exact (exec l s).2 (exec l s).1.
Proof.
  destruct s as [c G]. cbn. intros HO Hg HE. destruct l as [e ev|e r|k sock|]; cbn in *.
  - destruct Hg as [He Hd]. destruct ev as [ls|[] l]; cbn.
    + by apply reconcile_exact. + by apply add_exact. + by apply del_exact.
  - destruct (handleReserve_spec e r c HO) as [_ [E|[Hn ->]]]; intros k; [rewrite E; apply HE|].
    cbn. specialize (HE k). destruct (decide (("tcp", r_port r) = k)) as [<-|?].
    + rewrite lookup_insert_eq. cbn. by rewrite Hn in HE.
    + by rewrite lookup_insert_ne.
  - intros k'. destruct (release_spec k sock c) as [_ [-> |(m0 & Em & Ep & _ & ->)]]; [apply HE|].
    specialize (HE k'). destruct (decide (k = k')) as [<-|?].
    + rewrite lookup_delete_eq. by rewrite Em, Ep in HE.
    + by rewrite lookup_delete_ne.
  - intros k. cbn. apply cnt_empty.
Qed.

Lemma reachable_inv s : reachable s → client_ok s.1 ∧ refs_ok s.2 s.1.
Proof.
  apply (reach_invariant _ _ (λ s, client_ok s.1 ∧ refs_ok s.2 s.1)).
  - intros s0 ->. cbn. split; [|by intros k m].
    split; cbn; try done; by intros k [].
  - intros s0 s1 _ [H1 H2] [l ->]. split; [by apply exec_ok|by apply exec_refs].
Qed.
Lemma good_reachable_inv s : good_reachable s → client_ok s.1 ∧ exact s.2 s.1.
Proof.
  apply (reach_invariant _ _ (λ s, client_ok s.1 ∧ exact s.2 s.1)).
  - intros s0 ->. cbn. split.
    + apply (reachable_inv (client0, ∅)). by apply reach_init.
    + intros k. apply cnt_empty.
  - intros s0 s1 _ [H1 H2] (l & Hg & ->). split; [by apply exec_ok|by apply exec_exact].
Qed.
End facts.

(** ** Properties *)

(** Whatever the events, bind failures, reservations, timers and lost
    sessions, the client holds exactly one bound socket per mirror, never one
    for a skipped port, and never reports a mirrored port as skipped or
    failed; and every adopted mirror counts at least one and at most all of
    the guest listeners it stands for, so none outlives its listeners. *)
Theorem mirror_table cfg c G :
  reachable cfg (c, G) →
  (∀ s, s ∈ socks c ↔ ∃ k m, mirrors c !! k = Some m ∧ e_sock m = s) ∧
  (∀ k1 k2 m1 m2, mirrors c !! k1 = Some m1 → mirrors c !! k2 = Some m2 →
     e_sock m1 = e_sock m2 → k1 = k2) ∧
  (∀ k m, mirrors c !! k = Some m →
    (k.2 ∉ Skip cfg) ∧ obs c !! k = None ∧
    (e_pending m = false → 0 < e_refs m <= cnt cfg k G)).
Proof.
  intros [[H1 H2 H3 H4 H5] HR]%reachable_inv. cbn in *. split; [|split; [done|]].
  - intros s. rewrite H1. apply elem_of_map_conns.
  - intros k m Hm. split; [by apply H4; eexists|]. split; [by apply H5; eexists|]. by apply HR.
Qed.

Definition ex_cfg : config := New "192.168.64.5:4777" {[22]} 0.
Definition ex_env : env := Env 0 None (λ _, None).
Definition ex_web : listenerInfo := Info "tcp" 8080 "0.0.0.0".
Definition ex_web6 : listenerInfo := Info "tcp" 8080 "::".
Definition ex_run : client * gmultiset listenerInfo :=
  exec ex_cfg (LEvent ex_env (Change OpDel ex_web))
    (exec ex_cfg (LEvent ex_env (Change OpAdd ex_web6))
      (exec ex_cfg (LEvent ex_env (Snapshot [ex_web; Info "tcp" 22 "::"])) (client0, ∅))).
Lemma ex_good : good_reachable ex_cfg ex_run.
Proof.
  eapply reach_step; [|eexists (LEvent _ _); split; [|reflexivity]].
  - eapply reach_step; [|eexists (LEvent _ _); split; [|reflexivity]].
    + eapply reach_step; [|eexists (LEvent _ _); split; [|reflexivity]]; [by apply reach_init|done].
    + done.
  - split; [done|]. apply (bool_decide_unpack _). vm_compute. done.
Qed.
Lemma ex_reachable : reachable ex_cfg ex_run.
Proof. do 3 (eapply reach_step; [|eexists (LEvent _ _); reflexivity]). by apply reach_init. Qed.

Lemma mirror_table_witness :
  ∃ m, mirrors ex_run.1 !! ("tcp", 8080) = Some m ∧ 0 < e_refs m <= cnt ex_cfg ("tcp", 8080) ex_run.2.
Proof.
  exists (Entry 0 1 false 0).
  assert (mirrors ex_run.1 !! ("tcp", 8080) = Some (Entry 0 1 false 0)) as E
    by (vm_compute; reflexivity).
  split; [exact E|].
  destruct (mirror_table ex_cfg ex_run.1 ex_run.2) as (_ & _ & H); [exact ex_reachable|].
  by apply (H ("tcp", 8080) _ E).
Defined.

(** C12: while no bind fails and the guest's closes are of listeners it has,
    the mirrors are exactly the guest's: a key is mirrored, or awaiting its
    reserved listener, and its count is the number of mirrorable, unskipped
    guest listeners on it; the mirror goes with the last of them. *)
Theorem mirror_exact cfg c G k :
  good_reachable cfg (c, G) →
  match mirrors c !! k with
  | Some m => if e_pending m then cnt cfg k G = 0
              else e_refs m = cnt cfg k G ∧ 0 < cnt cfg k G
  | None => cnt cfg k G = 0
  end.
Proof. intros [_ HE]%good_reachable_inv. apply HE. Qed.
Lemma mirror_exact_witness :
  mirrors ex_run.1 !! ("tcp", 22) = None ∧ cnt ex_cfg ("tcp", 22) ex_run.2 = 0.
Proof.
  assert (mirrors ex_run.1 !! ("tcp", 22) = None) as E by (vm_compute; reflexivity).
  split; [exact E|].
  pose proof (mirror_exact ex_cfg ex_run.1 ex_run.2 ("tcp", 22) ex_good) as H.
  by rewrite E in H.
Defined.

(** The whole decision of a reservation request: it is granted without
    binding anything when the port is skipped or already mirrored, granted
    with the real mirror socket bound and registered before the answer when
    the Mac has no holder and the bind succeeds, refused as in use exactly
    when the Mac holds the port (a wildcard holder, or the bind says so), and
    answered unknown on any other bind error; nothing but the grant binds. *)
Theorem reserve_table cfg e p c :
  let key := ("tcp", p) in
  let '(resp, c') := handleReserve cfg e (Req "reserve" "tcp" p) c in
  p ≠ 0 →
  (resp = Ok tt ↔ p ∈ Skip cfg ∨ is_Some (mirrors c !! key) ∨
                  (macHeld e key = "" ∧ listen e key = None)) ∧
  (resp = Err InUse ↔ (p ∉ Skip cfg) ∧ mirrors c !! key = None ∧
                  (macHeld e key ≠ "" ∨ listen e key = Some EADDRINUSE)) ∧
  (resp = Ok tt → p ∉ Skip cfg → is_Some (mirrors c' !! key)) ∧
  (mirrors c' = mirrors c ∧ socks c' = socks c ∨
   resp = Ok tt ∧ macHeld e key = "" ∧ listen e key = None ∧
   mirrors c' = <[key := Entry (nextsock c) 0 true (now e)]> (mirrors c) ∧
   socks c' = {[nextsock c]} ∪ socks c).
Proof.
  cbn zeta. unfold handleReserve. cbn [r_op r_proto r_port]. rewrite !String.eqb_refl.
  cbn [negb orb]. destruct (Z.eqb_spec p 0) as [->|Hp]; [by intros []|].
  unfold skipped. destruct (bool_decide_reflect (p ∈ Skip cfg)) as [Hs|Hs].
  { intros _. split_and!; [naive_solver..|]. left. cbn. unfold observe. by repeat case_match. }
  destruct (mirrors c !! ("tcp", p)) as [m|] eqn:Em.
  { intros _. rewrite Em. split_and!; [naive_solver..|by left]. }
  destruct (String.eqb_spec (macHeld e ("tcp", p)) "") as [Hh|Hh]; cbn [negb].
  2:{ intros _. rewrite Em. split_and!; [naive_solver..|by left]. }
  destruct (listen e ("tcp", p)) as [[]|] eqn:El; intros _; rewrite ?Em;
    split_and!; cbn; rewrite ?lookup_insert_eq; naive_solver.
Qed.
Lemma reserve_table_witness :
  (handleReserve ex_cfg ex_env (Req "reserve" "tcp" 3000) client0).1 = Ok tt ∧
  is_Some (mirrors (handleReserve ex_cfg ex_env (Req "reserve" "tcp" 3000) client0).2 !! ("tcp", 3000)).
Proof.
  pose proof (reserve_table ex_cfg ex_env 3000 client0) as H. cbn zeta in H.
  destruct (handleReserve ex_cfg ex_env (Req "reserve" "tcp" 3000) client0) as [resp c'] eqn:E.
  destruct H as (H1 & _ & H3 & _); [lia|]. cbn.
  assert (resp = Ok tt) as Hr.
  { apply H1. right. right. split; reflexivity. }
  split; [exact Hr|]. apply H3; [exact Hr|]. apply (bool_decide_unpack _). vm_compute. done.
Defined.

Lemma reconcile_keeps cfg e ls c k m :
  client_ok cfg c → mirrors c !! k = Some m → e_pending m = true →
  ∃ m', mirrors (reconcile cfg e ls c) !! k = Some m' ∧ e_sock m' = e_sock m.
Proof.
  intros HO Hm Hp. destruct (reconcile_prims cfg e ls c HO) as (_ & Hop & E).
  specialize (Hop k). rewrite settle_all_lookup, E, Hm in Hop. cbn in Hop.
  unfold settle in Hop. rewrite Hp in Hop. destruct (_ =? 0); eauto.
Qed.
Lemma pending_add cfg e l c m :
  client_ok cfg c → mirrors c !! key_of l = Some m → e_pending m = true →
  mirrorable cfg l = true →
  ∃ m', mirrors (add cfg e l c) !! key_of l = Some m' ∧ e_sock m' = e_sock m ∧
        e_pending m' = false ∧ e_refs m' = 1.
Proof.
  intros HO Hm Hp Hl. pose proof (mirrored_is_for cfg l c m HO Hm) as Hf. rewrite Hl in Hf.
  destruct (add_spec cfg e l c HO) as [_ [[_ [?|[? _]]]|(_ & m' & -> & H1 & H2 & H3)]];
    [congruence..|].
  exists m'. rewrite lookup_insert_eq, H2, Hm, Hp. split_and!; auto.
Qed.

(** C16: a reservation holds: from the grant until its own timer fires or the
    session ends, no event, request or other timer takes the reserved socket
    away or gives it to another port; and the guest listener's add event
    adopts it in place, after which its timer leaves it alone. *)
Theorem reservation_holds cfg c G k m :
  reachable cfg (c, G) → mirrors c !! k = Some m → e_pending m = true →
  (∀ l, l ≠ LEnd → l ≠ LExpire k (e_sock m) →
     ∃ m', mirrors (exec cfg l (c, G)).1 !! k = Some m' ∧ e_sock m' = e_sock m) ∧
  (∀ e l, key_of l = k → mirrorable cfg l = true →
     ∃ m', mirrors (add cfg e l c) !! k = Some m' ∧ e_sock m' = e_sock m ∧
       e_pending m' = false ∧ e_refs m' = 1 ∧
       releaseIfPending k (e_sock m) (add cfg e l c) = add cfg e l c).
Proof.
  intros [HO _]%reachable_inv Hm Hp. cbn in HO. split.
  - intros l Hend Hexp. destruct l as [e [ls|[] l]|e r|k' sock|]; cbn; [| | | | |done].
    + by apply reconcile_keeps.
    + destruct (add_spec cfg e l c HO) as [_ [[-> _]|(_ & m' & -> & _ & _ & Hs)]]; [eauto|].
      destruct (decide (key_of l = k)) as [<-|?].
      * rewrite lookup_insert_eq. eauto.
      * rewrite lookup_insert_ne by done. eauto.
    + destruct (del_spec cfg l c HO) as [_ ->].
      destruct (mirrors c !! key_of l) as [m0|] eqn:Em0; [|eauto].
      destruct (mirrorable cfg l); cbn; [|eauto]. destruct (e_pending m0) eqn:Ep0; cbn; [eauto|].
      assert (key_of l ≠ k) by congruence.
      case_match; rewrite ?lookup_delete_ne, ?lookup_insert_ne by done; eauto.
    + destruct (handleReserve_spec cfg e r c HO) as [_ [->|[Hn ->]]]; [eauto|].
      cbn. rewrite lookup_insert_ne by congruence. eauto.
    + destruct (release_spec cfg k' sock c) as [_ [->|(m0 & Em0 & _ & <- & ->)]]; [eauto|].
      rewrite lookup_delete_ne by congruence. eauto.
  - intros e l <- Hl. destruct (pending_add cfg e l c m HO Hm Hp Hl) as (m' & E & Es & Ep & Er).
    exists m'. split_and!; auto. unfold releaseIfPending. rewrite E, Ep. by rewrite andb_false_r.
Qed.
Lemma reservation_holds_witness :
  let c := (handleReserve ex_cfg ex_env (Req "reserve" "tcp" 3000) client0).2 in
  ∃ m', mirrors (reconcile ex_cfg ex_env [ex_web] c) !! ("tcp", 3000) = Some m' ∧ e_sock m' = 0%nat.
Proof.
  intros c.
  destruct (reservation_holds ex_cfg c ∅ ("tcp", 3000) (Entry 0 0 true 0)) as [H _].
  - eapply reach_step; [by apply reach_init|]. by exists (LReserve ex_env (Req "reserve" "tcp" 3000)).
  - vm_compute. reflexivity.
  - reflexivity.
  - apply (H (LEvent ex_env (Snapshot [ex_web]))); discriminate.
Defined.

(** A mirror that failed to open loses its reference: when the bind works by
    the time a second listener of the port appears, the mirror opens with a
    count of one for two listeners, and one close removes it while the guest
    still listens. *)
Lemma lost_reference :
  let busy := Env 0 None (λ _, Some EADDRINUSE) in
  let s := exec ex_cfg (LEvent ex_env (Change OpDel ex_web6))
    (exec ex_cfg (LEvent ex_env (Change OpAdd ex_web6))
      (exec ex_cfg (LEvent busy (Change OpAdd ex_web)) (client0, ∅))) in
  mirrors s.1 !! ("tcp", 8080) = None ∧ cnt ex_cfg ("tcp", 8080) s.2 = 1.
Proof. vm_compute. done. Qed.
