(* ===== verification/MacSync.v ===== *)
(** * The Mac listener sync

    [internal/macsync]: what the Mac advertises to the guest and how the
    changes travel ([sync.go]), what a reverse activation may reach, and the
    wildcard-holder check the mirror client consults ([holder.go]). *)

From S2P Require Import Prelude Wire GoStr NetIP TrackerHub TransportAuth.
From Stdlib Require Import Strings.Byte.

Open Scope string_scope.
Open Scope list_scope.
Open Scope Z_scope.

(** [macsync.Listener]. *)
Record MacListener := MkMac { m_proto : string; m_port : Z; m_addr : addr; m_v6only : bool }.
#[export] Instance MacListener_eq_dec : EqDecision MacListener.
Proof. solve_decision. Defined.
#[export] Instance MacListener_countable : Countable MacListener.
Proof.
  by refine (inj_countable' (λ l, (m_proto l, m_port l, m_addr l, m_v6only l))
    (λ '(p, n, a, v), MkMac p n a v) _); intros [].
Defined.

(** ** Wildcard holders ([holder.go]) *)

(** Does this listener hold [port] on a wildcard that serves [ip]? *)
Definition holds (port : Z) (ip : addr) (l : MacListener) : bool :=
  String.eqb (m_proto l) "tcp" && (m_port l =? port) &&
  let a := Unmap (m_addr l) in
  IsUnspecified a &&
  ((Is4 ip && Is4 a) || (Is4 ip && Is6 a && negb (m_v6only l)) || (Is6 ip && Is6 a)).
Fixpoint WildcardHolder (ls : list MacListener) (port : Z) (mirrorIP : addr) : option MacListener :=
  match ls with
  | [] => None
  | l :: ls => if holds port (Unmap mirrorIP) l then Some l else WildcardHolder ls port mirrorIP
  end.

(** [AddrPort.String]. *)
Definition addrport_string (a : addr) (p : Z) : string :=
  match a with
  | AddrZero => "invalid AddrPort"
  | Addr4 _ => addr_string a +:+ ":" +:+ Itoa p
  | Addr6 _ _ => "[" +:+ addr_string a +:+ "]:" +:+ Itoa p
  end.
Definition describeHolder (l : MacListener) : string :=
  let s := addrport_string (m_addr l) (m_port l) in
  if Is6 (m_addr l) && negb (Is4In6 (m_addr l)) then
    if m_v6only l then s +:+ " (v6-only)" else s +:+ " (dual-stack)"
  else s.

(** [HolderCheck]'s predicate, on what its poll answers at that moment. *)
Definition HolderCheck (mirrorIP : string) (poll : option (list MacListener))
    (proto : string) (port : Z) : string * bool :=
  match ParseAddr mirrorIP with
  | None => ("", false)
  | Some ip =>
      if negb (String.eqb proto "tcp") then ("", false)
      else match poll with
           | None | Some [] => ("", false)
           | Some ls => match WildcardHolder ls port ip with
                        | Some l => (describeHolder l, true)
                        | None => ("", true)
                        end
           end
  end.

(** ** The advertised set ([sync.go]) *)

Definition v4Any : addr := IPv4Unspecified.
Definition v6Any : addr := IPv6Unspecified.

Section syncer.
(** [Exclude] (the mirror-owned ports) and the configured UDP ports. *)
Context (Exclude : MacListener → bool) (UDPPorts : list Z).

Definition normalize (l : MacListener) : option MacListener :=
  if negb (String.eqb (m_proto l) "tcp") || (m_port l =? 0) then None
  else
    a ← (if decide (m_addr l = v4Loopback ∨ m_addr l = v4Any) then Some (m_addr l)
         else if decide (m_addr l = v6Any) then
           if m_v6only l then None else Some v4Any
         else None);
    let l := MkMac (m_proto l) (m_port l) a false in
    if Exclude l then None else Some l.

Definition udp_listener (p : Z) : MacListener := MkMac "udp" p v4Any false.
Definition currentSet (poll : option (list MacListener)) : option (gset MacListener) :=
  ls ← poll;
  Some (list_to_set (omap normalize ls) ∪
        list_to_set (omap (λ p, if (p =? 0) || Exclude (udp_listener p) then None
                                else Some (udp_listener p)) UDPPorts)).

(** [advKey]: the protocol byte and the port. *)
Definition advKeyOf (l : MacListener) : option (Z * Z) :=
  if String.eqb (m_proto l) "tcp" then Some (6, m_port l)
  else if String.eqb (m_proto l) "udp" then Some (17, m_port l)
  else None.
Definition adv_of (set : gset MacListener) : gset (Z * Z) :=
  list_to_set (omap advKeyOf (elements set)).

(** The refusal-ring ids a syncer records. *)
Inductive sync_id :=
| IDAdvertisedEmptied | IDAdvertisedNone | IDActivationReserved | IDReverseDialRefused.

(** [Syncer]'s state; [last] is what the current session told the guest and
    [sent] the events it wrote since its snapshot. *)
Record syncer := Syncer {
  advertised : option (gset (Z * Z));
  lastEmptiedLog : option Z;
  sessionUp : bool;
  last : gset MacListener;
  sent : list TransportEvent;
  lastSent : Z;
  refusals : list sync_id }.
Definition syncer0 : syncer := Syncer None None false ∅ [] 0 [].

Definition record (id : sync_id) (s : syncer) : syncer :=
  Syncer (advertised s) (lastEmptiedLog s) (sessionUp s) (last s) (sent s) (lastSent s)
    (id :: refusals s).

(** [noteEmptied], at most one line per 30 s. *)
Definition noteEmptied (now : Z) (s : syncer) : syncer :=
  if match lastEmptiedLog s with Some t => now - t <? 30 * 10 ^ 9 | None => false end then s
  else record IDAdvertisedEmptied
         (Syncer (advertised s) (Some now) (sessionUp s) (last s) (sent s) (lastSent s) (refusals s)).

Definition setAdvertised (now : Z) (set : gset MacListener) (s : syncer) : syncer :=
  let adv := adv_of set in
  let s' := Syncer (Some adv) (lastEmptiedLog s) (sessionUp s) (last s) (sent s) (lastSent s)
              (refusals s) in
  if bool_decide (adv = ∅) && sessionUp s &&
     match advertised s with Some prev => negb (bool_decide (prev = ∅)) | None => false end
  then noteEmptied now s' else s'.

Definition isAdvertised (proto port : Z) (s : syncer) : bool :=
  match advertised s with
  | None => false
  | Some adv => bool_decide ((proto, port) ∈ adv)
  end.

(** [Run]'s priming of the set, before any stream is parked. *)
Definition prime (now : Z) (poll : option (list MacListener)) (s : syncer) : syncer :=
  match currentSet poll with
  | Some set => setAdvertised now set s
  | None => setAdvertised now ∅ s
  end.

Definition mac_info (l : MacListener) : listenerInfo :=
  Info (m_proto l) (m_port l) (addr_string (m_addr l)).

(** The start of a session past its handshake: the snapshot, or the error of
    the poll. *)
Definition session_start (now : Z) (poll : option (list MacListener)) (s : syncer) : option syncer :=
  cur ← currentSet poll;
  let s := Syncer (advertised s) (lastEmptiedLog s) (sessionUp s) cur
             [Snapshot (mac_info <$> elements cur)] now (refusals s) in
  let s := setAdvertised now cur s in
  let s := Syncer (advertised s) (lastEmptiedLog s) true (last s) (sent s) (lastSent s) (refusals s) in
  Some (if bool_decide (cur = ∅) then record IDAdvertisedNone s else s).

(** The events of one tick: the dels, then the adds. *)
Definition diff (last cur : gset MacListener) : list TransportEvent :=
  ((λ l, Change OpDel (mac_info l)) <$> elements (last ∖ cur)) ++
  ((λ l, Change OpAdd (mac_info l)) <$> elements (cur ∖ last)).
(** One tick of the session's loop; [None] ends the session. *)
Definition tick (now : Z) (poll : option (list MacListener)) (s : syncer) : option syncer :=
  cur ← currentSet poll;
  let evs := diff (last s) cur in
  let s := Syncer (advertised s) (lastEmptiedLog s) (sessionUp s) cur (sent s ++ evs)
             (if bool_decide (evs = []) then lastSent s else now) (refusals s) in
  let s := setAdvertised now cur s in
  Some (Syncer (advertised s) (lastEmptiedLog s) (sessionUp s) (last s) (sent s)
          (if 10 * 10 ^ 9 <? now - lastSent s then now else lastSent s) (refusals s)).
Definition session_end (s : syncer) : syncer :=
  Syncer (advertised s) (lastEmptiedLog s) false (last s) (sent s) (lastSent s) (refusals s).

(** ** Reverse activations *)

(** What [parkOne] and [handleStream] make of the activation header a parked
    connection reads. *)
Inductive activation :=
| ActClosed
| ActDialTCP (port : Z)
| ActRelayUDP (port : Z).
Definition handleStream (proto port : Z) (s : syncer) : activation * syncer :=
  if port =? 0 then (ActClosed, s)
  else if negb (isAdvertised proto port s) then (ActClosed, record IDReverseDialRefused s)
  else if proto =? 6 then (ActDialTCP port, s)
  else if proto =? 17 then (ActRelayUDP port, s)
  else (ActClosed, s).
(** [parkOne] once the handshake is done: the header is read, checked, and
    handed on; the rest of the stream goes to the splice or the relay. *)
Definition activate (inp : bytes) (s : syncer) : activation * bytes * syncer :=
  match ReadFull 4 inp with
  | Err _ => (ActClosed, [], s)
  | Ok (hdr, rest) =>
      if negb (byte_at 3 hdr =? 0) then (ActClosed, [], record IDActivationReserved s)
      else
        let '(act, s) := handleStream (byte_at 0 hdr) (be_join (take 2 (drop 1 hdr))) s in
        (act, rest, s)
  end.
End syncer.

(** ** Facts *)

Lemma WildcardHolder_Some ls p ip l :
  WildcardHolder ls p ip = Some l → l ∈ ls ∧ holds p (Unmap ip) l = true.
Proof.
  induction ls as [|x ls IH]; cbn; [done|]. destruct (holds p (Unmap ip) x) eqn:E.
  - intros [= <-]. split; [left|done].
  - intros [? ?]%IH. split; [by right|done].
Qed.
Lemma WildcardHolder_None ls p ip :
  WildcardHolder ls p ip = None ↔ ∀ l, l ∈ ls → holds p (Unmap ip) l = false.
Proof.
  induction ls as [|x ls IH]; cbn; [set_solver|]. destruct (holds p (Unmap ip) x) eqn:E.
  - split; [done|]. intros H. rewrite H in E; [done|left].
  - rewrite IH. set_solver.
Qed.

Lemma describeHolder_nonempty l : describeHolder l ≠ "".
Proof.
  assert (addrport_string (m_addr l) (m_port l) ≠ "") as H.
  { unfold addrport_string. destruct (m_addr l); [discriminate| |discriminate]. intros E.
    apply (f_equal String.length) in E. rewrite !append_length in E. cbn [String.length] in E. lia. }
  unfold describeHolder. destruct (_ && _); [destruct (m_v6only l)|done]; intros E;
    apply (f_equal String.length) in E; rewrite append_length in E; cbn [String.length] in E; lia.
Qed.

(** The listeners [normalize] turns into the v4-any key of a port are the
    wildcard holders of 127.0.0.1 on it, when nothing is excluded. *)
Lemma normalize_holds p l :
  p ≠ 0 → Unmap (m_addr l) = m_addr l →
  holds p v4Loopback l = true ↔ normalize (λ _, false) l = Some (MkMac "tcp" p v4Any false).
Proof.
  intros Hp Ha. unfold holds, normalize. rewrite Ha.
  destruct l as [pr po a v]. cbn in *. destruct (String.eqb_spec pr "tcp") as [->|?]; [|done].
  destruct (Z.eqb_spec po p) as [->|Hne]; cbn.
  2:{ split; [done|]. destruct (po =? 0); [done|]. case_decide; [|case_decide; [destruct v|]];
      by intros [= ?]. }
  rewrite (proj2 (Z.eqb_neq _ _)) by done. unfold IsUnspecified.
  destruct (decide (a = v4Loopback ∨ a = v4Any)) as [[->| ->]|Hn]; [by vm_compute|by vm_compute|].
  destruct (decide (a = v6Any)) as [->|Hn6]; [by destruct v|].
  rewrite !bool_decide_eq_false_2; [done| |]; intros ->; auto.
Qed.

Lemma adv_of_spec set proto port :
  (proto, port) ∈ adv_of set ↔ ∃ l, l ∈ set ∧ advKeyOf l = Some (proto, port).
Proof.
  unfold adv_of. rewrite elem_of_list_to_set, elem_of_omap. by setoid_rewrite elem_of_elements.
Qed.

(** *** The session *)

Definition mac_infos (s : gset MacListener) : gmultiset listenerInfo :=
  list_to_set_disj (mac_info <$> elements s).

Lemma setAdvertised_fields now set s :
  advertised (setAdvertised now set s) = Some (adv_of set) ∧
  sessionUp (setAdvertised now set s) = sessionUp s ∧
  last (setAdvertised now set s) = last s ∧ sent (setAdvertised now set s) = sent s.
Proof. unfold setAdvertised, noteEmptied. by repeat case_match. Qed.

Lemma mac_infos_add l s : l ∉ s → mac_infos ({[l]} ∪ s) = {[+ mac_info l +]} ⊎ mac_infos s.
Proof.
  intros Hl. unfold mac_infos.
  rewrite (list_to_set_disj_perm _ (mac_info <$> l :: elements s)); [done|].
  by rewrite elements_union_singleton.
Qed.
Lemma replay_adds m L S :
  NoDup L → (∀ l, l ∈ L → l ∉ S) →
  m = mac_infos S →
  foldl replay1 m ((λ l, Change OpAdd (mac_info l)) <$> L) = mac_infos (list_to_set L ∪ S).
Proof.
  revert m S. induction L as [|l L IH]; intros m S Hnd Hd ->; cbn [fmap list_fmap foldl replay1]; [f_equal; set_solver|].
  inversion Hnd as [|?? Hl HL]; subst. rewrite <- mac_infos_add by (apply Hd; left).
  rewrite (IH _ ({[l]} ∪ S)); [f_equal; set_solver|done|set_solver|done].
Qed.
Lemma replay_dels m L S :
  NoDup L → (∀ l, l ∈ L → l ∈ S) →
  m = mac_infos S →
  foldl replay1 m ((λ l, Change OpDel (mac_info l)) <$> L) = mac_infos (S ∖ list_to_set L).
Proof.
  revert m S. induction L as [|l L IH]; intros m S Hnd Hd ->; cbn [fmap list_fmap foldl replay1]; [f_equal; set_solver|].
  inversion Hnd as [|?? Hl HL]; subst.
  assert (l ∈ S) as HlS by (apply Hd; left).
  assert (S = {[l]} ∪ S ∖ {[l]}) as HS by by apply union_difference_singleton_L.
  assert (mac_infos S ∖ {[+ mac_info l +]} = mac_infos (S ∖ {[l]})) as ->.
  { rewrite HS at 1. rewrite mac_infos_add by set_solver. multiset_solver. }
  rewrite (IH _ (S ∖ {[l]})); [f_equal; set_solver|done|set_solver|done].
Qed.

(** A tick's events turn the old set into the new one. *)
Lemma replay_diff last cur :
  foldl replay1 (mac_infos last) (diff last cur) = mac_infos cur.
Proof.
  unfold diff. rewrite foldl_app.
  rewrite (replay_dels _ _ last); [|apply NoDup_elements|set_solver|done].
  rewrite (replay_adds _ _ (last ∖ list_to_set (elements (last ∖ cur))));
    [|apply NoDup_elements|set_solver|done].
  f_equal. rewrite !list_to_set_elements_L. apply set_eq. intros x.
  destruct (decide (x ∈ cur)), (decide (x ∈ last)); set_solver.
Qed.

(** What happens to a syncer: the exclusions and the poll are read afresh at
    each step. *)
Inductive sstep (UDPPorts : list Z) : syncer → syncer → Prop :=
| s_prime Ex now poll s : sessionUp s = false → sstep UDPPorts s (prime Ex UDPPorts now poll s)
| s_start Ex now poll s s' : sessionUp s = false →
    session_start Ex UDPPorts now poll s = Some s' → sstep UDPPorts s s'
| s_tick Ex now poll s s' : sessionUp s = true →
    tick Ex UDPPorts now poll s = Some s' → sstep UDPPorts s s'
| s_end s : sstep UDPPorts s (session_end s)
| s_activate inp s : sstep UDPPorts s (activate inp s).2.
Definition sreach (UDPPorts : list Z) : syncer → Prop := reach (λ s, s = syncer0) (sstep UDPPorts).

Definition sync_ok (s : syncer) : Prop :=
  sessionUp s = true →
  replay (sent s) = mac_infos (last s) ∧ advertised s = Some (adv_of (last s)).

Lemma activate_fields inp s :
  let s' := (activate inp s).2 in
  advertised s' = advertised s ∧ sessionUp s' = sessionUp s ∧ last s' = last s ∧ sent s' = sent s.
Proof.
  cbn zeta. unfold activate, handleStream.
  destruct (ReadFull 4 inp) as [[hdr rest]|]; [|done].
  by repeat (case_match; simplify_eq/=).
Qed.

Lemma sreach_ok ports s0 : sreach ports s0 → sync_ok s0.
Proof.
  apply reach_invariant; [by intros ? ->|]. intros s1 s2 _ HI HS. unfold sync_ok in *.
  destruct HS as [Ex now poll s Hup|Ex now poll s s' Hup HS|Ex now poll s s' Hup HS|s|inp s].
  - unfold prime. destruct (currentSet Ex ports poll); rewrite (proj1 (proj2 (setAdvertised_fields _ _ _))), Hup; done.
  - unfold session_start in HS. apply bind_Some in HS as (cur & _ & [= <-]).
    intros _. match goal with |- context [setAdvertised now cur ?x] => set (sx := x) end.
    destruct (setAdvertised_fields now cur sx) as (E1 & E2 & E3 & E4).
    assert (replay (sent sx) = mac_infos (last sx)) as HR by done.
    destruct (bool_decide (cur = ∅)); unfold record; cbn [advertised sent last sessionUp];
      by rewrite E1, E3, E4.
  - unfold tick in HS. apply bind_Some in HS as (cur & _ & [= <-]).
    intros _. cbn [advertised sent last sessionUp]. match goal with |- context [setAdvertised now cur ?x] => set (sx := x) end.
    destruct (setAdvertised_fields now cur sx) as (E1 & E2 & E3 & E4).
    rewrite E1, E3, E4. split; [|done]. cbn. unfold replay. rewrite foldl_app.
    destruct (HI Hup) as [HR _]. unfold replay in HR. rewrite HR. apply replay_diff.
  - done.
  - destruct (activate_fields inp s) as (E1 & E2 & E3 & E4). by rewrite E1, E2, E3, E4.
Qed.

(** The activation header of a parked connection, decided. *)
Lemma activate_spec inp s :
  activate inp s =
  match ReadFull 4 inp with
  | Err _ => (ActClosed, [], s)
  | Ok (hdr, rest) =>
      let port := be_join (take 2 (drop 1 hdr)) in
      if bool_decide (byte_at 3 hdr ≠ 0) then (ActClosed, [], record IDActivationReserved s)
      else if bool_decide (port = 0) then (ActClosed, rest, s)
      else if negb (isAdvertised (byte_at 0 hdr) port s)
      then (ActClosed, rest, record IDReverseDialRefused s)
      else (if byte_at 0 hdr =? 6 then ActDialTCP port
            else if byte_at 0 hdr =? 17 then ActRelayUDP port else ActClosed, rest, s)
  end.
Proof.
  unfold activate, handleStream. destruct (ReadFull 4 inp) as [[hdr rest]|]; [|done].
  destruct (Z.eqb_spec (byte_at 3 hdr) 0); cbn [negb];
    [rewrite bool_decide_eq_false_2 by auto|by rewrite bool_decide_eq_true_2].
  destruct (Z.eqb_spec (be_join (take 2 (drop 1 hdr))) 0);
    [by rewrite bool_decide_eq_true_2|rewrite bool_decide_eq_false_2 by done].
  destruct (isAdvertised _ _ s); cbn [negb]; [|done]. destruct (_ =? 6); [done|]. by destruct (_ =? 17).
Qed.

(** ** Properties *)

(** C14: while a session is up, what the guest was told (the snapshot and
    every tick's dels and adds) replays to exactly the listener set of the
    last poll, and the set the guest may activate is exactly that set's
    protocols and ports: nothing advertised is refused and nothing refused
    was advertised. *)
Theorem sync_replay ports s :
  sreach ports s → sessionUp s = true →
  replay (sent s) = mac_infos (last s) ∧
  ∀ proto port, isAdvertised proto port s = true ↔
    ∃ l, l ∈ last s ∧ advKeyOf l = Some (proto, port).
Proof.
  intros HR Hup. destruct (sreach_ok _ _ HR Hup) as [H1 H2]. split; [done|].
  intros proto port. unfold isAdvertised. rewrite H2. bool_prop. apply adv_of_spec.
Qed.
Definition ex_poll : option (list MacListener) :=
  Some [MkMac "tcp" 5432 v6Any false; MkMac "tcp" 80 v6Any true; MkMac "tcp" 9 v4Loopback false].
Definition ex_sync : option syncer :=
  s ← session_start (λ _, false) [53] 0 ex_poll syncer0;
  tick (λ _, false) [53] 1 (Some [MkMac "tcp" 5432 v6Any false]) s.
Lemma sync_replay_witness :
  ∃ s, ex_sync = Some s ∧ replay (sent s) = mac_infos (last s) ∧
    isAdvertised 6 5432 s = true ∧ isAdvertised 6 9 s = false ∧ isAdvertised 17 53 s = true.
Proof.
  pose (ok s := isAdvertised 6 5432 s && negb (isAdvertised 6 9 s) && isAdvertised 17 53 s && sessionUp s).
  assert (from_option ok false ex_sync = true) as HE by (vm_compute; reflexivity).
  assert (from_option sessionUp false (session_start (λ _, false) [53] 0 ex_poll syncer0) = true) as HU
    by (vm_compute; reflexivity).
  destruct ex_sync as [s|] eqn:E; [|discriminate HE].
  unfold ok in HE. cbn [from_option] in HE. rewrite !andb_true_iff, negb_true_iff in HE.
  destruct HE as [[[H1 H2] H3] H4].
  exists s. split; [reflexivity|]. split; [|auto].
  apply (sync_replay [53] s); [|exact H4]. unfold ex_sync in E.
  apply bind_Some in E as (s1 & E1 & E2). rewrite E1 in HU.
  eapply reach_step; [eapply reach_step; [by apply reach_init|]|].
  - eapply s_start; [reflexivity|exact E1].
  - eapply s_tick; [exact HU|exact E2].
Defined.

(** An activated stream reaches a local service exactly when its header
    is four bytes naming the protocol and a nonzero port this Mac
    advertised, with the reserved byte zero; the service then sees the stream
    from the first byte after the header. *)
Theorem activation_bounded inp s rest p :
  (∃ s', activate inp s = (ActDialTCP p, rest, s')) ∨
  (∃ s', activate inp s = (ActRelayUDP p, rest, s')) ↔
  p ≠ 0 ∧ 0 <= p < 65536 ∧
  ∃ proto, (proto = 6 ∨ proto = 17) ∧ isAdvertised proto p s = true ∧
    inp = [z2b proto] ++ put_be16 p ++ [Byte.x00] ++ rest.
Proof.
  rewrite activate_spec. split.
  - intros H. destruct (ReadFull 4 inp) as [[hdr rs]|] eqn:E;
      [|by destruct H as [[? ?]|[? ?]]].
    apply ReadFull_Ok in E as [-> HL]. cbn zeta in H.
    destruct hdr as [|b0 [|b1 [|b2 [|b3 [|]]]]]; try done. cbn [take drop] in H.
    unfold byte_at in H. cbn [lookup list_lookup default from_option id] in H.
    case_bool_decide as H3; [by destruct H as [[? ?]|[? ?]]|].
    case_bool_decide as Hp; [by destruct H as [[? ?]|[? ?]]|].
    destruct (isAdvertised (b2z b0) (be_join [b1; b2]) s) eqn:Ha; cbn [negb] in H;
      [|by destruct H as [[? ?]|[? ?]]].
    assert (rs = rest ∧ be_join [b1; b2] = p ∧ (b2z b0 = 6 ∨ b2z b0 = 17)) as (-> & <- & Hpr).
    { destruct (Z.eqb_spec (b2z b0) 6), (Z.eqb_spec (b2z b0) 17);
        destruct H as [[? H]|[? H]]; inversion H; auto. }
    pose proof (be_join_bound [b1; b2]) as HB.
    change (256 ^ Z.of_nat (length [b1; b2])) with 65536 in HB. split; [done|]. split; [lia|].
    exists (b2z b0). split; [done|]. split; [done|]. rewrite z2b_b2z.
    rewrite put_be_join by done.
    cbn [app]. do 4 f_equal. apply b2z_inj. by destruct (decide (b2z b3 = 0)).
  - intros (Hp & Hb & proto & Hpr & Ha & ->).
    change ([z2b proto] ++ put_be16 p ++ [Byte.x00] ++ rest)
      with (([z2b proto] ++ put_be16 p ++ [Byte.x00]) ++ rest).
    rewrite (ReadFull_app' 4) by done. cbn zeta.
    change (take 2 (drop 1 ([z2b proto] ++ put_be16 p ++ [Byte.x00]))) with (put_be16 p).
    rewrite be_join_put by done.
    change (byte_at 3 _) with (b2z Byte.x00). change (byte_at 0 _) with (b2z (z2b proto)).
    rewrite b2z_z2b, (Z.mod_small proto) by lia. rewrite bool_decide_eq_false_2 by (by intros []).
    rewrite bool_decide_eq_false_2 by done. rewrite Ha. cbn [negb].
    destruct Hpr as [->| ->]; [left|right]; by eexists.
Qed.

(** The wildcard-holder backstop and the listener sync read the Mac's
    listeners the same way: on any non-empty poll of unmapped addresses, a
    port has a holder that serves 127.0.0.1 exactly when the sync would
    advertise the port as v4-any (a v6-only [::] counts for neither), and an
    empty poll never names one. *)
Theorem holder_matches_sync ls p :
  p ≠ 0 → (∀ l, l ∈ ls → Unmap (m_addr l) = m_addr l) →
  ((∃ h, h ≠ "" ∧ HolderCheck "127.0.0.1" (Some ls) "tcp" p = (h, true)) ↔
   ∃ set, currentSet (λ _, false) [] (Some ls) = Some set ∧ MkMac "tcp" p v4Any false ∈ set) ∧
  (ls = [] → HolderCheck "127.0.0.1" (Some ls) "tcp" p = ("", false)).
Proof.
  intros Hp Hu. assert (ParseAddr "127.0.0.1" = Some v4Loopback) as EA by (vm_compute; done).
  unfold HolderCheck. rewrite EA. cbn [negb String.eqb Ascii.eqb Bool.eqb].
  change (negb (String.eqb "tcp" "tcp")) with false. cbn match. split; [|by intros ->].
  assert ((∃ set, currentSet (λ _, false) [] (Some ls) = Some set ∧
             MkMac "tcp" p v4Any false ∈ set) ↔ ∃ l, l ∈ ls ∧ holds p v4Loopback l = true) as ->.
  { unfold currentSet. cbn [mbind option_bind]. split.
    - intros (set & [= <-] & Hin). cbn in Hin. rewrite union_empty_r_L in Hin.
      apply elem_of_list_to_set, elem_of_omap in Hin as (l & Hl & Hn).
      exists l. split; [done|]. apply normalize_holds; auto.
    - intros (l & Hl & Hh). eexists. split; [done|]. apply elem_of_union_l.
      apply elem_of_list_to_set, elem_of_omap. exists l. split; [done|]. apply normalize_holds; auto. }
  destruct ls as [|x ls']; [split; [by intros (? & _ & [=])|set_solver]|].
  set (ls := x :: ls') in *. destruct (WildcardHolder ls p v4Loopback) as [l|] eqn:E.
  - apply WildcardHolder_Some in E. split; [eauto|]. intros _. eexists. split; [|done].
    apply describeHolder_nonempty.
  - rewrite WildcardHolder_None in E. split; [by intros (h & Hh & [= <-])|].
    intros (l & Hl & Hh). pose proof (E l Hl) as E'. change (Unmap v4Loopback) with v4Loopback in E'. congruence.
Qed.
Lemma holder_matches_sync_witness :
  ∃ h, h ≠ "" ∧ HolderCheck "127.0.0.1" (Some [MkMac "tcp" 80 v6Any false]) "tcp" 80 = (h, true).
Proof.
  apply (holder_matches_sync [MkMac "tcp" 80 v6Any false] 80); [lia| |].
  - intros l ->%list_elem_of_singleton. reflexivity.
  - exists ({[MkMac "tcp" 80 v4Any false]} ∪ ∅). split; apply (bool_decide_unpack _); vm_compute; exact I.
Defined.
