(* ===== verification/Pcblist.v ===== *)
(** * The Mac's TCP listener enumeration

    [internal/macsync/pcblist_darwin.go]: the walk over the buffer the
    [net.inet.tcp.pcblist_n] sysctl returns, and the bounded retry around a
    torn read. Offsets are naturals; the 32-bit lengths wrap where the code's
    do. *)

From S2P Require Import Prelude Wire GoStr NetIP TransportAuth MacSync.
From Stdlib Require Import Strings.Byte.

Open Scope string_scope.
Open Scope list_scope.
Open Scope Z_scope.

Definition xsoInpcb : Z := 0x010.
Definition xsoTcpcb : Z := 0x020.
Definition inpIPv4 : Z := 0x1.
Definition inpIPv6 : Z := 0x2.
Definition tcpsListen : Z := 1.
Definition inpLportOff : nat := 18.
Definition inpVflagOff : nat := 44.
Definition inpLaddrOff : nat := 64.
Definition tcpStateOff : nat := 36.
Definition pcblistAttempts : nat := 3.

Inductive pcb_err := ShortRead | errTruncated | SysctlErr | TornPersisted.
#[export] Instance pcb_err_eq_dec : EqDecision pcb_err.
Proof. solve_decision. Defined.

(** [binary.LittleEndian.Uint32(b[off:])] and [b[i:j]]. *)
Definition u32_at (off : nat) (b : bytes) : Z := le32 (drop off b).
Definition sub (i j : nat) (b : bytes) : bytes := take (j - i) (drop i b).

Definition roundup8 (n : Z) : nat :=
  if n =? 0 then 8%nat else Z.to_nat (Z.ldiff ((n + 7) mod 2 ^ 32) 7).

(** A nil slice is the empty one: both fail [listenerFrom]'s length checks. *)
Definition listenerFrom (inp tcp : bytes) : option MacListener :=
  if (length inp <? inpLaddrOff + 16)%nat || (length tcp <? tcpStateOff + 4)%nat then None
  else if negb (u32_at tcpStateOff tcp =? tcpsListen) then None
  else
    let port := be16 (drop inpLportOff inp) in
    let vflag := byte_at inpVflagOff inp in
    if negb (Z.land vflag inpIPv6 =? 0) then
      Some (MkMac "tcp" port (AddrFrom16 (sub inpLaddrOff (inpLaddrOff + 16) inp))
              (Z.land vflag inpIPv4 =? 0))
    else Some (MkMac "tcp" port (AddrFrom4 (sub (inpLaddrOff + 12) (inpLaddrOff + 16) inp)) false).

(** The walk's variables. *)
Record walker := Walker {
  w_out : list MacListener; w_seen : Z; w_inp : bytes; w_tcp : bytes }.
Definition flush (w : walker) : walker :=
  Walker (w_out w ++ option_list (listenerFrom (w_inp w) (w_tcp w))) 0 [] [].

(** One block's turn. *)
Definition block (kind : Z) (blk : bytes) (w : walker) : walker :=
  let w := if negb (Z.land (w_seen w) kind =? 0) then flush w else w in
  Walker (w_out w) (Z.lor (w_seen w) kind)
    (if kind =? xsoInpcb then blk else w_inp w) (if kind =? xsoTcpcb then blk else w_tcp w).

(** The loop: whether the trailing header was seen, and the variables; [None]
    when the fuel ran out. *)
Fixpoint walk (fuel : nat) (b : bytes) (xigLen : Z) (off : nat) (w : walker)
  : option (bool * walker) :=
  if (length b <? off + 8)%nat then Some (false, w)
  else
    let blen := u32_at off b in
    if blen <=? xigLen then Some (true, w)
    else
      let end_ := (off + Z.to_nat blen)%nat in
      if (length b <? end_)%nat then Some (false, w)
      else match fuel with
           | O => None
           | S fuel =>
               walk fuel b xigLen (off + roundup8 blen)
                 (block (u32_at (off + 4) b) (sub off end_ b) w)
           end.

(** [parsePcblistN]. *)
Definition parsePcblistN (b : bytes) : option (result pcb_err (list MacListener)) :=
  if (length b <? 24)%nat then Some (Err ShortRead)
  else
    let xigLen := u32_at 0 b in
    let xigCount := u32_at 4 b in
    '(terminated, w) ← walk (length b) b xigLen (roundup8 xigLen) (Walker [] 0 [] []);
    Some (if negb terminated && negb (xigCount =? 0) then Err errTruncated
          else Ok (w_out (flush w))).

(** What one [SysctlRaw] call returns. *)
Inductive sysctl := Raw (b : bytes) | ENOMEM | SysOther.

(** [Listeners] over the successive reads. *)
Fixpoint Listeners_go (attempts : nat) (reads : list sysctl)
  : option (result pcb_err (list MacListener)) :=
  match attempts with
  | O => Some (Err TornPersisted)
  | S n =>
      match reads with
      | [] => None
      | ENOMEM :: reads => Listeners_go n reads
      | SysOther :: _ => Some (Err SysctlErr)
      | Raw b :: reads =>
          r ← parsePcblistN b;
          match r with
          | Err errTruncated => Listeners_go n reads
          | _ => Some r
          end
      end
  end.
Definition Listeners (reads : list sysctl) : option (result pcb_err (list MacListener)) :=
  Listeners_go pcblistAttempts reads.

(** ** Facts *)

Lemma u32_at_take off k b :
  (off + 4 <= k)%nat → u32_at off (take k b) = u32_at off b.
Proof.
  intros Hk. unfold u32_at, le32. rewrite skipn_firstn_comm, take_take.
  by rewrite Nat.min_l by lia.
Qed.
Lemma sub_take i j k b : (j <= k)%nat → sub i j (take k b) = sub i j b.
Proof. intros Hk. unfold sub. rewrite skipn_firstn_comm, take_take. by rewrite Nat.min_l by lia. Qed.

Lemma u32_at_bound off b : 0 <= u32_at off b < 2 ^ 32.
Proof.
  unfold u32_at, le32. pose proof (le_join_bound (take 4 (drop off b))) as H.
  split; [lia|]. eapply Z.lt_le_trans; [apply H|].
  change (2 ^ 32) with (256 ^ 4). apply Z.pow_le_mono_r; [lia|]. rewrite length_take. lia.
Qed.

Lemma roundup8_ge n : 0 < n < 2 ^ 32 - 8 → (8 <= roundup8 n)%nat.
Proof.
  intros Hn. unfold roundup8. rewrite (proj2 (Z.eqb_neq _ _)) by lia.
  rewrite Z.mod_small by lia.
  assert (Z.ldiff (n + 7) 7 = 8 * ((n + 7) / 8)) as ->.
  { change 7 with (Z.ones 3) at 2. rewrite Z.ldiff_ones_r by lia.
    rewrite Z.shiftl_mul_pow2, Z.shiftr_div_pow2 by lia. change (2 ^ 3) with 8. lia. }
  assert (1 <= (n + 7) / 8) by (apply Z.div_le_lower_bound; lia). lia.
Qed.

(** The walk never runs out of fuel on a buffer smaller than 4 GiB: every
    block it takes moves it eight bytes on at least. *)
Lemma walk_total fuel b xl off w :
  0 <= xl → Z.of_nat (length b) < 2 ^ 32 - 8 → (length b <= fuel + off)%nat →
  is_Some (walk fuel b xl off w).
Proof.
  intros Hx Hb. revert off w. induction fuel as [|fuel IH]; intros off w Hf; cbn [walk];
    destruct (length b <? off + 8)%nat eqn:E1; bool_prop; try by eexists.
  - lia.
  - destruct (u32_at off b <=? xl) eqn:E2; [by eexists|].
    destruct (length b <? off + Z.to_nat (u32_at off b))%nat eqn:E3; [by eexists|].
    bool_prop. pose proof (roundup8_ge (u32_at off b)). apply IH. lia.
Qed.

(** Cutting the buffer changes the walk only by making it end early: if it
    still sees a trailing header, it saw every block the whole walk saw. *)
Lemma walk_prefix f1 f2 b k xl off w r1 r2 :
  walk f1 (take k b) xl off w = Some (true, r1) →
  walk f2 b xl off w = Some r2 → r2 = (true, r1).
Proof.
  revert f2 off w. induction f1 as [|f1 IH]; intros f2 off w H1 H2.
  - cbn [walk] in H1. rewrite length_take in H1.
    destruct (_ <? off + 8)%nat eqn:E1 in H1; [done|]. bool_prop.
    rewrite u32_at_take in H1 by lia.
    destruct (u32_at off b <=? xl) eqn:E2 in H1; [|by case_match].
    injection H1 as ->. destruct f2; cbn [walk] in H2;
      rewrite (proj2 (Nat.ltb_ge _ _)), E2 in H2 by lia; by injection H2 as <-.
  - cbn [walk] in H1. rewrite length_take in H1.
    destruct (_ <? off + 8)%nat eqn:E1 in H1; [done|]. bool_prop.
    rewrite !u32_at_take in H1 by lia.
    destruct (u32_at off b <=? xl) eqn:E2.
    + injection H1 as ->. destruct f2; cbn [walk] in H2;
        rewrite (proj2 (Nat.ltb_ge _ _)), E2 in H2 by lia; by injection H2 as <-.
    + destruct (_ <? off + Z.to_nat _)%nat eqn:E3 in H1; [done|]. bool_prop.
      rewrite sub_take in H1 by lia.
      destruct f2 as [|f2]; cbn [walk] in H2;
        rewrite (proj2 (Nat.ltb_ge _ _)), (proj2 (Z.leb_gt _ _) E2),
          (proj2 (Nat.ltb_ge _ _)) in H2 by lia; [done|].
      by eapply IH.
Qed.

Lemma parse_total b :
  Z.of_nat (length b) < 2 ^ 32 - 8 → is_Some (parsePcblistN b).
Proof.
  intros Hb. unfold parsePcblistN. destruct (_ <? 24)%nat; [by eexists|].
  destruct (walk_total (length b) b (u32_at 0 b) (roundup8 (u32_at 0 b)) (Walker [] 0 [] []))
    as [[t w] ->]; [apply u32_at_bound|done|lia|]. by eexists.
Qed.

(** ** Properties *)

(** A torn read never shows a smaller listener set: the walk always
    terminates, and if any truncation of a buffer that claims sockets parses
    at all, it parses to exactly the listeners of the whole buffer; every
    other truncation is an error. *)
Theorem pcblist_torn b k ls :
  Z.of_nat (length b) < 2 ^ 32 - 8 → u32_at 4 b ≠ 0 →
  parsePcblistN b = Some (Ok ls) →
  ∃ r, parsePcblistN (take k b) = Some r ∧ ∀ ls', r = Ok ls' → ls' = ls.
Proof.
  intros Hb Hc HP.
  destruct (parse_total (take k b)) as [r Hr].
  { rewrite length_take. lia. }
  exists r. split; [done|]. intros ls' ->. unfold parsePcblistN in *.
  destruct (_ <? 24)%nat eqn:E1 in Hr; [done|]. destruct (_ <? 24)%nat eqn:E2 in HP; [done|].
  rewrite length_take in E1. bool_prop. rewrite !u32_at_take in Hr by lia.
  apply bind_Some in Hr as ([t1 w1] & W1 & Hr), HP as ([t2 w2] & W2 & HP).
  rewrite (proj2 (Z.eqb_neq _ _)) in Hr, HP by done. rewrite !andb_true_r in Hr, HP.
  destruct t1; [|done]. destruct t2; [|done]. cbn in Hr, HP.
  pose proof (walk_prefix _ _ _ _ _ _ _ _ _ W1 W2) as [= ->]. congruence.
Qed.

(** A two-socket buffer: a listener on 127.0.0.1:8080 and a connected
    socket. *)
Definition ex_blk (kind : Z) (body : bytes) : bytes :=
  let n := (8 + length body)%nat in
  le_split 4 (Z.of_nat n) ++ le_split 4 kind ++ body ++
  replicate (roundup8 (Z.of_nat n) - n) Byte.x00.
Definition ex_inp (port : Z) : bytes :=
  ex_blk xsoInpcb (replicate 10 Byte.x00 ++ be_split 2 port ++ replicate 24 Byte.x00 ++ [Byte.x01] ++
                   replicate 31 Byte.x00 ++ be_split 4 0x7f000001 ++ replicate 8 Byte.x00).
Definition ex_tcp (state : Z) : bytes := ex_blk xsoTcpcb (replicate 28 Byte.x00 ++ le_split 4 state).
Definition ex_hdr : bytes := le_split 4 24 ++ le_split 4 2 ++ replicate 16 Byte.x00.
Definition ex_buf : bytes :=
  ex_hdr ++ ex_inp 8080 ++ ex_tcp 1 ++ ex_inp 50000 ++ ex_tcp 4 ++ ex_hdr.
Lemma pcblist_torn_witness :
  let l := [MkMac "tcp" 8080 v4Loopback false] in
  parsePcblistN ex_buf = Some (Ok l) ∧
  ∃ r, parsePcblistN (take 150 ex_buf) = Some r ∧ ∀ ls', r = Ok ls' → ls' = l.
Proof.
  intros l. assert (parsePcblistN ex_buf = Some (Ok l)) as E by (vm_compute; reflexivity).
  split; [exact E|]. apply (pcblist_torn ex_buf 150 l); [|discriminate|exact E].
  apply (bool_decide_unpack _). vm_compute. exact I.
Defined.
