(* ===== verification/AgentPorts.v ===== *)
(** * The agent's port maps

    [internal/agent]: the Mac-owned ports with their gateway proxies and the
    [mac_ports] map the BPF gateway steers by ([agent.go]), the control socket
    ([control.go]), the 'M' session that keeps them in step with the Mac
    ([macsync.go]) and the reservation call of the bind supervisor
    ([reserve.go]). *)

From S2P Require Import Prelude Wire GoStr NetIP TrackerHub.

Open Scope string_scope.
Open Scope list_scope.
Open Scope Z_scope.

(** [bpf.PortKey] and [bpf.KeyFor]: the map key of a bind address. *)
Record PortKey := MkKey { k_proto : Z; k_port : Z; k_addr : bytes }.
#[export] Instance PortKey_eq_dec : EqDecision PortKey.
Proof. solve_decision. Defined.
#[export] Instance byte_countable : Countable Byte.byte.
Proof.
  by refine (inj_countable (λ b, Byte.to_N b) (λ n, Byte.of_N n) Byte.of_to_N).
Defined.
#[export] Instance PortKey_countable : Countable PortKey.
Proof.
  by refine (inj_countable' (λ k, (k_proto k, k_port k, k_addr k))
    (λ '(p, n, a), MkKey p n a) _); intros [].
Defined.
Definition KeyFor (proto : Z) (a : addr) (port : Z) : PortKey := MkKey proto port (As16 a).

Abbreviation portID := (Z * Z)%type.
Record macEntry := MacEntry { me_key : PortKey; me_proxy : nat; me_backend : string }.

(** The parts of [Agent] that are port state. [mac_ports] and [guest_ports]
    are the BPF maps; [proxies] the gateway listeners that are open, each on
    [GatewayV4] at its protocol and port. *)
Record agent := Agent {
  mac : gmap portID macEntry;
  guest : gmap portID PortKey;
  syncOwned : gset portID;
  mac_ports : gmap PortKey Z;
  guest_ports : gmap PortKey Z;
  proxies : gmap nat portID;
  nextproxy : nat }.
Definition agent0 : agent := Agent ∅ ∅ ∅ ∅ ∅ ∅ 0.

Inductive port_err :=
| AlreadyRegistered | UnknownProto | GatewayListener | MapPut | NotRegistered | MapDelete.
#[export] Instance port_err_eq_dec : EqDecision port_err.
Proof. solve_decision. Defined.

(** What the outside answers while a port is added: whether the gateway
    listener binds and whether the map has room for the key. *)
Record penv := PEnv { proxy_ok : bool; put_ok : bool }.

(** [AddMacPort] as the states the rest of the system can see, oldest first:
    the proxy listens before the map steers to it. The last one is the state
    it leaves; an error carries the state it leaves too. *)
Definition AddMacPort (e : penv) (proto port : Z) (bind : addr) (backend : string) (a : agent)
  : list agent * option port_err :=
  let id := (proto, port) in
  match mac a !! id with
  | Some _ => ([a], Some AlreadyRegistered)
  | None =>
      if negb ((proto =? ProtoTCP) || (proto =? ProtoUDP)) then ([a], Some UnknownProto)
      else if negb (proxy_ok e) then ([a], Some GatewayListener)
      else
        let p := nextproxy a in
        let a1 := Agent (mac a) (guest a) (syncOwned a) (mac_ports a) (guest_ports a)
                    (<[p := id]> (proxies a)) (S p) in
        let k := KeyFor proto bind port in
        if negb (put_ok e) then
          ([a1; Agent (mac a1) (guest a1) (syncOwned a1) (mac_ports a1) (guest_ports a1)
                  (delete p (proxies a1)) (nextproxy a1)], Some MapPut)
        else
          let a2 := Agent (mac a1) (guest a1) (syncOwned a1) (<[k := 1]> (mac_ports a1))
                      (guest_ports a1) (proxies a1) (nextproxy a1) in
          ([a1; a2; Agent (<[id := MacEntry k p backend]> (mac a2)) (guest a2) (syncOwned a2)
                      (mac_ports a2) (guest_ports a2) (proxies a2) (nextproxy a2)], None)
  end.

(** [RemoveMacPort]: steering stops before the proxy closes. Deleting a key
    the map does not hold is the map's only error. *)
Definition RemoveMacPort (proto port : Z) (a : agent) : list agent * option port_err :=
  let id := (proto, port) in
  match mac a !! id with
  | None => ([a], Some NotRegistered)
  | Some e =>
      let a1 := Agent (mac a) (guest a) (syncOwned a) (delete (me_key e) (mac_ports a))
                  (guest_ports a) (proxies a) (nextproxy a) in
      let a2 := Agent (mac a1) (guest a1) (syncOwned a1) (mac_ports a1) (guest_ports a1)
                  (delete (me_proxy e) (proxies a1)) (nextproxy a1) in
      ([a1; a2; Agent (delete id (mac a2)) (guest a2) (syncOwned a2 ∖ {[id]}) (mac_ports a2)
                  (guest_ports a2) (proxies a2) (nextproxy a2)],
       match mac_ports a !! me_key e with Some _ => None | None => Some MapDelete end)
  end.

(** The state an operation leaves. *)
Definition final (a : agent) (r : list agent * option port_err) : agent :=
  default a (list.last r.1).

Definition AddGuestPort (put : bool) (proto port : Z) (bind : addr) (a : agent)
  : agent * option port_err :=
  let id := (proto, port) in
  match guest a !! id with
  | Some _ => (a, Some AlreadyRegistered)
  | None =>
      let k := KeyFor proto bind port in
      if negb put then (a, Some MapPut)
      else (Agent (mac a) (<[id := k]> (guest a)) (syncOwned a) (mac_ports a)
              (<[k := 1]> (guest_ports a)) (proxies a) (nextproxy a), None)
  end.
Definition RemoveGuestPort (proto port : Z) (a : agent) : agent * option port_err :=
  let id := (proto, port) in
  match guest a !! id with
  | None => (a, Some NotRegistered)
  | Some k =>
      (Agent (mac a) (delete id (guest a)) (syncOwned a) (mac_ports a)
         (delete k (guest_ports a)) (proxies a) (nextproxy a),
       match guest_ports a !! k with Some _ => None | None => Some MapDelete end)
  end.

(** ** The control socket *)

Record ControlRequest := Control {
  cr_op : string; cr_proto : string; cr_port : Z; cr_bind : string; cr_backend : string }.
Inductive control_err := BadProto | BadBind | BadOp | PortErr (e : port_err).

Definition control_proto (s : string) : option Z :=
  if String.eqb s "tcp" then Some ProtoTCP
  else if String.eqb s "udp" then Some ProtoUDP
  else if String.eqb s "" then Some 0 else None.
Definition lift_err (r : option port_err) : option control_err := PortErr <$> r.
Definition dispatch (e : penv) (req : ControlRequest) (a : agent) : agent * option control_err :=
  match control_proto (cr_proto req) with
  | None => (a, Some BadProto)
  | Some proto =>
      match (if String.eqb (cr_bind req) "" then Some IPv4Unspecified else ParseAddr (cr_bind req)) with
      | None => (a, Some BadBind)
      | Some bind =>
          if String.eqb (cr_op req) "ping" then (a, None)
          else if String.eqb (cr_op req) "add-mac-port" then
            let r := AddMacPort e proto (cr_port req) bind (cr_backend req) a in
            (final a r, lift_err r.2)
          else if String.eqb (cr_op req) "remove-mac-port" then
            let r := RemoveMacPort proto (cr_port req) a in (final a r, lift_err r.2)
          else if String.eqb (cr_op req) "add-guest-port" then
            let r := AddGuestPort (put_ok e) proto (cr_port req) bind a in (r.1, lift_err r.2)
          else if String.eqb (cr_op req) "remove-guest-port" then
            let r := RemoveGuestPort proto (cr_port req) a in (r.1, lift_err r.2)
          else (a, Some BadOp)
      end
  end.

(** ** The 'M' session *)

Definition protoNum (proto : string) : option Z :=
  if String.eqb proto "tcp" then Some ProtoTCP
  else if String.eqb proto "udp" then Some ProtoUDP
  else None.

Definition own (id : portID) (a : agent) : agent :=
  Agent (mac a) (guest a) ({[id]} ∪ syncOwned a) (mac_ports a) (guest_ports a) (proxies a) (nextproxy a).
Definition disown (id : portID) (a : agent) : agent :=
  Agent (mac a) (guest a) (syncOwned a ∖ {[id]}) (mac_ports a) (guest_ports a) (proxies a) (nextproxy a).

(** [addSyncPort], when nothing else takes the lock between its sections. *)
Definition addSyncPort (e : portID → penv) (proto : string) (port : Z) (text : string) (a : agent)
  : agent :=
  match protoNum proto with
  | None => a
  | Some pn =>
      match ParseAddr text with
      | None => a
      | Some bind =>
          let id := (pn, port) in
          match mac a !! id with
          | Some _ => a
          | None =>
              let a := own id a in
              let r := AddMacPort (e id) pn port bind "" a in
              match r.2 with
              | None => final a r
              | Some _ => disown id (final a r)
              end
          end
      end
  end.

Definition delSyncPort (proto : string) (port : Z) (a : agent) : agent :=
  match protoNum proto with
  | None => a
  | Some pn =>
      if bool_decide ((pn, port) ∈ syncOwned a) then final a (RemoveMacPort pn port a) else a
  end.

Definition remove_all (ids : list portID) (a : agent) : agent :=
  foldl (λ a id, final a (RemoveMacPort id.1 id.2 a)) a ids.

(** The snapshot's listeners by port: the last one of a port wins. *)
Definition sync_want (ls : list Listener) : gmap portID Listener :=
  foldl (λ w l, match protoNum (l_proto l) with
                | Some pn => <[(pn, l_port l) := l]> w
                | None => w
                end) ∅ ls.
Definition applySyncSnapshot (e : portID → penv) (ls : list Listener) (a : agent) : agent :=
  let want := sync_want ls in
  let stale := filter (λ id, want !! id = None) (elements (syncOwned a)) in
  let a := remove_all stale a in
  foldl (λ a '(id, l), addSyncPort e (l_proto l) id.2 (addr_string (l_addr l)) a) a
    (map_to_list want).
Definition removeSyncOwned (a : agent) : agent := remove_all (elements (syncOwned a)) a.

(** A listener as the JSON decoder reads it: its address parses, and the
    empty text is the zero address. *)
Definition decode_listener (i : listenerInfo) : option Listener :=
  a ← (if String.eqb (i_addr i) "" then Some AddrZero else ParseAddr (i_addr i));
  Some (MkListener (i_proto i) (i_port i) a).
(** One event of [serveMacSync]'s loop; [None] when it does not decode, which
    ends the session. *)
Definition sync_event (e : portID → penv) (ev : TransportEvent) (a : agent) : option agent :=
  match ev with
  | Snapshot ls => ls ← mapM decode_listener ls; Some (applySyncSnapshot e ls a)
  | Change OpAdd i => Some (addSyncPort e (i_proto i) (i_port i) (i_addr i) a)
  | Change OpDel i => Some (delSyncPort (i_proto i) (i_port i) a)
  end.

(** ** The reservation call *)

Inductive reserve_answer := RespOK | RespInUse | RespUnknown.
#[export] Instance reserve_answer_eq_dec : EqDecision reserve_answer.
Proof. solve_decision. Defined.

(** [macPortHeld]: (held, known); [contended] is whether [TryLock] failed. *)
Definition macPortHeld (contended : bool) (proto : string) (port : Z) (a : agent) : bool * bool :=
  match protoNum proto with
  | None => (false, true)
  | Some pn =>
      if contended then (false, false)
      else (bool_decide (is_Some (mac a !! (pn, port))), true)
  end.

(** The Mac's answer on the 'R' connection: nothing when none is parked or
    the call fails, else its [ok] flag and whether its reason is "inuse". *)
Definition ReservePort (contended : bool) (rpc : option (bool * bool)) (proto : string) (port : Z)
    (a : agent) : reserve_answer :=
  match macPortHeld contended proto port a with
  | (true, true) => RespInUse
  | _ => match rpc with
         | None => RespUnknown
         | Some (ok, inuse) => if ok then RespOK else if inuse then RespInUse else RespUnknown
         end
  end.

(** ** Facts *)

(** The map steers only to ports with an open gateway listener. *)
Definition steered (a : agent) : Prop :=
  ∀ k v, mac_ports a !! k = Some v → ∃ p, proxies a !! p = Some (k_proto k, k_port k).

(** Between operations the table, the map and the listeners agree. *)
Record agent_ok (a : agent) : Prop := {
  ok_entry id e : mac a !! id = Some e →
    (k_proto (me_key e), k_port (me_key e)) = id ∧ mac_ports a !! me_key e = Some 1 ∧
    proxies a !! me_proxy e = Some id ∧ (id.1 = ProtoTCP ∨ id.1 = ProtoUDP);
  ok_map k v : mac_ports a !! k = Some v → ∃ id e, mac a !! id = Some e ∧ me_key e = k;
  ok_proxy p id : proxies a !! p = Some id → ∃ e, mac a !! id = Some e ∧ me_proxy e = p;
  ok_freshp p : is_Some (proxies a !! p) → (p < nextproxy a)%nat }.
Definition owned_ok (a : agent) : Prop := ∀ id, id ∈ syncOwned a → is_Some (mac a !! id).

Lemma ok_steered a : agent_ok a → steered a.
Proof.
  intros HO k v Hk. destruct (ok_map _ HO k v Hk) as (id & e & He & <-).
  destruct (ok_entry _ HO id e He) as (E & _ & Hp & _). exists (me_proxy e). by rewrite E.
Qed.

Lemma AddMacPort_spec e pr po b bk a :
  agent_ok a →
  let r := AddMacPort e pr po b bk a in
  let a' := final a r in
  agent_ok a' ∧ Forall steered r.1 ∧ syncOwned a' = syncOwned a ∧
  mac a' = match r.2 with
           | None => <[(pr, po) := MacEntry (KeyFor pr b po) (nextproxy a) bk]> (mac a)
           | Some _ => mac a
           end.
Proof.
  intros HO. pose proof (ok_steered a HO) as HS. unfold AddMacPort.
  destruct (mac a !! (pr, po)) as [m|] eqn:Em; [by split_and!; [|apply list.Forall_singleton|..]|].
  destruct ((pr =? ProtoTCP) || (pr =? ProtoUDP)) eqn:Hpr; cbn; [|by split_and!; [|apply list.Forall_singleton|..]].
  destruct (proxy_ok e); cbn; [|by split_and!; [|apply list.Forall_singleton|..]].
  set (p := nextproxy a). assert (proxies a !! p = None) as Hfresh.
  { destruct (proxies a !! p) eqn:E; [|done].
    pose proof (ok_freshp _ HO p (ex_intro _ _ E)). lia. }
  assert (∀ mc (m : gmap PortKey Z),
    (∀ k v, m !! k = Some v → k = KeyFor pr b po ∨ is_Some (mac_ports a !! k)) →
    steered (Agent mc (guest a) (syncOwned a) m (guest_ports a)
               (<[p := (pr, po)]> (proxies a)) (S p))) as HS1.
  { intros mc m Hm k v Hk. cbn in Hk |- *. destruct (Hm k v Hk) as [->|[w Hw]].
    - exists p. by rewrite lookup_insert_eq.
    - destruct (HS k w Hw) as [q Hq]. exists q. rewrite lookup_insert_ne; [done|].
      intros <-. congruence. }
  destruct (put_ok e); cbn.
  - split; [|split; [|done]].
    + bool_prop. split; cbn.
      * intros id m [[<- <-]|[Hne Hm]]%lookup_insert_Some; cbn.
        -- rewrite !lookup_insert_eq. naive_solver.
        -- destruct (ok_entry _ HO id m Hm) as (E & H1 & H2 & H3). split; [done|].
           rewrite lookup_insert_ne by (intros Eq; rewrite <- Eq in E; by cbn in E).
           rewrite lookup_insert_ne by congruence. done.
      * intros k v [[<- <-]|[Hne Hk]]%lookup_insert_Some.
        -- eexists _, _. by rewrite lookup_insert_eq.
        -- destruct (ok_map _ HO k v Hk) as (id & m & Hm & <-). exists id, m.
           rewrite lookup_insert_ne by congruence. done.
      * intros q id [[<- <-]|[Hne Hq]]%lookup_insert_Some.
        -- eexists. by rewrite lookup_insert_eq.
        -- destruct (ok_proxy _ HO q id Hq) as (m & Hm & <-). exists m.
           rewrite lookup_insert_ne by congruence. done.
      * intros q. rewrite lookup_insert_is_Some. intros [<-|[_ Hq]]; [lia|].
        pose proof (ok_freshp _ HO q Hq). lia.
    + apply list.Forall_cons; split; [apply HS1; eauto|].
      apply list.Forall_cons; split; [|apply list.Forall_singleton]; apply HS1;
        intros k v [[<- _]|[_ Hk]]%lookup_insert_Some; eauto.
  - rewrite delete_insert_id by done. split; [|split; [|done]].
    + destruct HO as [H1 H2 H3 H4]. split; try done. cbn. intros q Hq. specialize (H4 q Hq). lia.
    + apply list.Forall_cons; split; [apply HS1; eauto|]. by apply list.Forall_singleton.
Qed.

Lemma RemoveMacPort_spec pr po a :
  agent_ok a →
  let r := RemoveMacPort pr po a in
  let a' := final a r in
  agent_ok a' ∧ Forall steered r.1 ∧ mac a' = delete (pr, po) (mac a) ∧
  syncOwned a' = (if decide (is_Some (mac a !! (pr, po))) then syncOwned a ∖ {[(pr, po)]}
                  else syncOwned a) ∧
  (r.2 = None ↔ is_Some (mac a !! (pr, po))).
Proof.
  intros HO. pose proof (ok_steered a HO) as HS. unfold RemoveMacPort.
  destruct (mac a !! (pr, po)) as [m|] eqn:Em; cbn.
  2:{ split; [done|]. split; [by apply list.Forall_singleton|]. rewrite delete_id by done.
      rewrite decide_False by (by intros []). split_and!; [done..|]. split; [done|by intros []]. }
  destruct (ok_entry _ HO _ _ Em) as (Ek & Hk1 & Hp & Hpr).
  assert (∀ id m', id ≠ (pr, po) → mac a !! id = Some m' →
    me_key m' ≠ me_key m ∧ me_proxy m' ≠ me_proxy m) as Hother.
  { intros id m' Hne Hm'. destruct (ok_entry _ HO _ _ Hm') as (Ek' & _ & Hp' & _).
    split; intros E; rewrite E in *; congruence. }
  assert (∀ k v, delete (me_key m) (mac_ports a) !! k = Some v →
    ∃ id m', id ≠ (pr, po) ∧ mac a !! id = Some m' ∧ me_key m' = k) as Hrest.
  { intros k v [Hne Hk]%lookup_delete_Some. destruct (ok_map _ HO k v Hk) as (id & m' & Hm' & <-).
    exists id, m'. split; [|done]. intros ->. congruence. }
  assert (∀ x y z w, steered (Agent x y z (delete (me_key m) (mac_ports a)) w
                      (delete (me_proxy m) (proxies a)) (nextproxy a))) as HS2.
  { intros x y z w k v Hk. destruct (Hrest k v Hk) as (id & m' & Hne & Hm' & <-).
    destruct (ok_entry _ HO _ _ Hm') as (Ek' & _ & Hp' & _). exists (me_proxy m'). cbn.
    rewrite lookup_delete_ne by (apply not_eq_sym; by eapply Hother). by rewrite Ek'. }
  rewrite Hk1. rewrite decide_True by eauto. split_and!; [|..]; try done.
  - split; cbn.
    + intros id m' [Hne Hm']%lookup_delete_Some.
      destruct (ok_entry _ HO _ _ Hm') as (Ek' & Hk' & Hp' & Hpr').
      destruct (Hother id m' (not_eq_sym Hne) Hm'). by rewrite !lookup_delete_ne by auto.
    + intros k v Hk. destruct (Hrest k v Hk) as (id & m' & Hne & Hm' & <-).
      exists id, m'. by rewrite lookup_delete_ne by auto.
    + intros q id [Hne Hq]%lookup_delete_Some. destruct (ok_proxy _ HO q id Hq) as (m' & Hm' & <-).
      exists m'. rewrite lookup_delete_ne; [done|]. intros <-. congruence.
    + intros q [id [_ Hq]%lookup_delete_Some]. apply (ok_freshp _ HO). eauto.
  - apply list.Forall_cons; split; [|apply list.Forall_cons; split; [|apply list.Forall_singleton]];
      try apply HS2. intros k v Hk. cbn in Hk |- *.
    apply lookup_delete_Some in Hk as [Hne Hk]. by eapply HS.
Qed.

(** *** Histories *)

Inductive pstep : agent → agent → Prop :=
| p_control e req a : pstep a (dispatch e req a).1
| p_event e ev a a' : sync_event e ev a = Some a' → pstep a a'
| p_session_end a : pstep a (removeSyncOwned a).
Definition preach : agent → Prop := reach (λ a, a = agent0) pstep.

Definition inv (a : agent) : Prop := agent_ok a ∧ owned_ok a.

Lemma agent_ok_same a a' :
  agent_ok a → mac a' = mac a → mac_ports a' = mac_ports a → proxies a' = proxies a →
  nextproxy a' = nextproxy a → agent_ok a'.
Proof. intros [H1 H2 H3 H4] E1 E2 E3 E4. split; rewrite ?E1, ?E2, ?E3, ?E4; done. Qed.

Lemma RemoveMacPort_inv pr po a : inv a → inv (final a (RemoveMacPort pr po a)).
Proof.
  intros [HO HI]. destruct (RemoveMacPort_spec pr po a HO) as (HO' & _ & Em & Es & _).
  split; [done|]. intros id. rewrite Es, Em. case_decide as D.
  - intros [Hid Hne]%elem_of_difference. rewrite lookup_delete_ne by set_solver. by apply HI.
  - intros Hid. rewrite lookup_delete_ne; [by apply HI|]. intros <-. destruct D. by apply HI.
Qed.
Lemma AddMacPort_inv e pr po b bk a : inv a → inv (final a (AddMacPort e pr po b bk a)).
Proof.
  intros [HO HI]. destruct (AddMacPort_spec e pr po b bk a HO) as (HO' & _ & Es & Em).
  split; [done|]. intros id. rewrite Es, Em. intros Hid%HI. case_match; [done|].
  rewrite lookup_insert_is_Some. destruct (decide ((pr, po) = id)); auto.
Qed.
Lemma guest_inv put pr po b a :
  inv a → inv (AddGuestPort put pr po b a).1 ∧ inv (RemoveGuestPort pr po a).1.
Proof.
  intros [HO HI]. unfold AddGuestPort, RemoveGuestPort. split.
  - destruct (guest a !! _); [done|]. destruct put; [|done]. split; [|exact HI].
    by eapply agent_ok_same.
  - destruct (guest a !! _); [|done]. split; [|exact HI]. by eapply agent_ok_same.
Qed.
Lemma dispatch_inv e req a : inv a → inv (dispatch e req a).1.
Proof.
  intros HI. unfold dispatch. destruct (control_proto _) as [pr|]; [|done].
  destruct (if String.eqb (cr_bind req) "" then Some IPv4Unspecified
            else ParseAddr (cr_bind req)) as [b|]; [|done].
  destruct (String.eqb _ "ping"); [done|].
  destruct (String.eqb _ "add-mac-port"); [by apply AddMacPort_inv|].
  destruct (String.eqb _ "remove-mac-port"); [by apply RemoveMacPort_inv|].
  destruct (String.eqb _ "add-guest-port"); [by apply (guest_inv _ _ _ b)|].
  destruct (String.eqb _ "remove-guest-port"); [|done].
  by apply (guest_inv true _ _ IPv4Unspecified).
Qed.

(** The gateway listener of a port binds and the map takes its key. *)
Definition opens (v : penv) : Prop := proxy_ok v = true ∧ put_ok v = true.
(** [addSyncPort] on a listener whose port is not registered: registered and
    owned, or, when the gateway or the map refuses it, left as it was. *)
Lemma addSyncPort_spec e pr po text a :
  inv a → inv (addSyncPort e pr po text a) ∧
  let a' := addSyncPort e pr po text a in
  match protoNum pr, ParseAddr text with
  | Some pn, Some b =>
      match mac a !! (pn, po) with
      | Some _ => a' = a
      | None =>
          mac a' = mac a ∧ syncOwned a' = syncOwned a ∧ ¬ opens (e (pn, po)) ∨
          syncOwned a' = {[(pn, po)]} ∪ syncOwned a ∧
            mac a' = <[(pn, po) := MacEntry (KeyFor pn b po) (nextproxy a) ""]> (mac a) ∧
            opens (e (pn, po))
      end
  | _, _ => a' = a
  end.
Proof.
  intros HI. unfold addSyncPort. destruct (protoNum pr) as [pn|] eqn:Epn; [|done].
  destruct (ParseAddr text) as [b|]; [|done].
  destruct (mac a !! (pn, po)) as [m|] eqn:Em; [done|]. cbn zeta.
  destruct HI as [HO HI]. assert (agent_ok (own (pn, po) a)) as HO1 by by eapply agent_ok_same.
  destruct (AddMacPort_spec (e (pn, po)) pn po b "" (own (pn, po) a) HO1) as (HO' & _ & Es & Ema).
  cbn in Es, Ema. assert ((pn, po) ∉ syncOwned a) as Hn.
  { intros Hin. destruct (HI _ Hin). congruence. }
  destruct ((AddMacPort (e (pn, po)) pn po b "" (own (pn, po) a)).2) as [er|] eqn:Er.
  - split.
    + split; [by eapply agent_ok_same|]. intros id. cbn. rewrite Es, Ema.
      intros [[Heq|Hin]%elem_of_union Hd]%elem_of_difference; [set_solver|by apply HI].
    + left. cbn. rewrite Ema, Es. split; [done|]. split; [set_solver|]. intros [H1 H2].
      unfold AddMacPort in Er. cbn in Er. rewrite Em, H1 in Er. cbn in Er. rewrite H2 in Er.
      assert ((pn =? ProtoTCP) || (pn =? ProtoUDP) = true) as Hp.
      { unfold protoNum in Epn. by repeat case_match; simplify_eq. }
      by rewrite Hp in Er.
  - assert (opens (e (pn, po))) as Hopen.
    { unfold AddMacPort in Er. cbn in Er. rewrite Em in Er.
      unfold opens. repeat case_match; try done. by destruct (proxy_ok _), (put_ok _). }
    split; [|right; by rewrite Es, Ema]. split; [done|]. intros id. rewrite Es, Ema.
    intros [->%elem_of_singleton|Hin%HI]%elem_of_union; rewrite lookup_insert_is_Some; [by left|].
    destruct (decide ((pn, po) = id)); auto.
Qed.

Lemma remove_all_spec ids a :
  inv a → (∀ id, id ∈ ids → id ∈ syncOwned a) → NoDup ids →
  inv (remove_all ids a) ∧
  syncOwned (remove_all ids a) = syncOwned a ∖ list_to_set ids ∧
  ∀ id, mac (remove_all ids a) !! id = if decide (id ∈ ids) then None else mac a !! id.
Proof.
  revert a. induction ids as [|[pr po] ids IH]; intros a HI Hin Hnd.
  { cbn. split; [done|]. split; [set_solver|]. intros id. by rewrite decide_False by set_solver. }
  inversion Hnd as [|?? Hni Hnd']; subst.
  assert (is_Some (mac a !! (pr, po))) as Hs by (apply HI, Hin; left).
  destruct (RemoveMacPort_spec pr po a (proj1 HI)) as (_ & _ & Em & Es & _).
  rewrite decide_True in Es by done.
  destruct (IH (final a (RemoveMacPort pr po a))) as (H1 & H2 & H3).
  - by apply RemoveMacPort_inv.
  - intros id Hid. rewrite Es. apply elem_of_difference. split; [apply Hin; by right|].
    intros ->%elem_of_singleton. done.
  - done.
  - change (remove_all ((pr, po) :: ids) a) with (remove_all ids (final a (RemoveMacPort pr po a))).
    split; [done|]. split; [rewrite H2, Es; set_solver|].
    intros id. rewrite H3, Em. destruct (decide (id = (pr, po))) as [->|Hne].
    + rewrite lookup_delete_eq, (decide_True (P := (pr, po) ∈ (pr, po) :: ids)) by left.
      by case_decide.
    + rewrite lookup_delete_ne by done.
      destruct (decide (id ∈ ids)), (decide (id ∈ (pr, po) :: ids)); set_solver.
Qed.

Lemma sync_event_inv e ev a a' : inv a → sync_event e ev a = Some a' → inv a'.
Proof.
  intros HI. destruct ev as [ls|[] i]; cbn.
  - intros (ls' & _ & [= <-])%bind_Some. unfold applySyncSnapshot.
    apply (foldl_invariant inv).
    + apply remove_all_spec; [done| |apply list.NoDup_filter, NoDup_elements].
      intros id [_ ?]%list_elem_of_filter. by apply elem_of_elements.
    + intros [id l] a1 _ H1. by apply addSyncPort_spec.
  - intros [= <-]. by apply addSyncPort_spec.
  - intros [= <-]. unfold delSyncPort. destruct (protoNum _); [|done].
    case_match; [|done]. by apply RemoveMacPort_inv.
Qed.
Lemma preach_inv a : preach a → inv a.
Proof.
  apply reach_invariant.
  - intros a0 ->. split; [split; cbn; try done; by intros ? []|]. intros id. set_solver.
  - intros a0 a1 _ HI HS. destruct HS as [e req b|e ev b b' He|b].
    + by apply dispatch_inv.
    + by eapply sync_event_inv.
    + apply remove_all_spec; [done|set_solver|apply NoDup_elements].
Qed.

(** *** A whole 'M' session *)

(** The listeners the Mac's sync sends ([MacSync.normalize]), by port. *)
Definition wf_sync (i : listenerInfo) : Prop :=
  is_Some (protoNum (i_proto i)) ∧ (i_addr i = "127.0.0.1" ∨ i_addr i = "0.0.0.0").
Definition id_of (i : listenerInfo) : portID := (default 0 (protoNum (i_proto i)), i_port i).
Definition uniq (G : gset listenerInfo) : Prop :=
  ∀ i j, i ∈ G → j ∈ G → id_of i = id_of j → i = j.

(** The set the Mac has told of, event by event. *)
Definition told (G : gset listenerInfo) (ev : TransportEvent) : gset listenerInfo :=
  match ev with
  | Snapshot ls => list_to_set ls
  | Change OpAdd i => {[i]} ∪ G
  | Change OpDel i => G ∖ {[i]}
  end.

(** The agent steers exactly the ports of [G] for the session, each with the
    bind scope of its listener; [M] are the entries the control socket made
    before it, which the session leaves alone. *)
Record tracks (M : gmap portID macEntry) (G : gset listenerInfo) (a : agent) : Prop := {
  t_inv : inv a;
  t_own id : id ∈ syncOwned a ↔ ∃ i, i ∈ G ∧ id_of i = id;
  t_key i : i ∈ G → ∃ e b, mac a !! id_of i = Some e ∧ ParseAddr (i_addr i) = Some b ∧
    me_key e = KeyFor (id_of i).1 b (id_of i).2;
  t_mac id : is_Some (mac a !! id) → id ∈ syncOwned a ∨ id ∈ dom M;
  t_old id m : M !! id = Some m → mac a !! id = Some m }.

(** An event the theorem covers: from the state [G], no two listeners of one
    port, none on a port the control socket holds, a del of something told,
    and a snapshot only to start with. *)
Definition ok_told (C : gset portID) (G : gset listenerInfo) : Prop :=
  (∀ i, i ∈ G → wf_sync i ∧ id_of i ∉ C) ∧ uniq G.
Definition ok_event (C : gset portID) (G : gset listenerInfo) (ev : TransportEvent) : Prop :=
  ok_told C (told G ev) ∧
  match ev with
  | Snapshot _ => G = ∅
  | Change OpDel i => i ∈ G
  | Change OpAdd _ => True
  end.

Lemma wf_parse i : wf_sync i →
  ∃ pn b, protoNum (i_proto i) = Some pn ∧ id_of i = (pn, i_port i) ∧
    ParseAddr (i_addr i) = Some b ∧ addr_string b = i_addr i ∧ i_addr i ≠ "".
Proof.
  intros [[pn Hpn] Ha]. exists pn. unfold id_of. rewrite Hpn.
  destruct Ha as [-> | ->]; [exists v4Loopback|exists IPv4Unspecified];
    repeat split; by vm_compute.
Qed.

(** The snapshot's map holds, for each port, the one listener of it. *)
Lemma sync_want_spec ls id l :
  (∀ x, x ∈ ls → is_Some (protoNum (l_proto x))) →
  sync_want ls !! id = Some l → l ∈ ls ∧ id_of (info l) = id.
Proof.
  unfold sync_want. induction ls as [|x ls IH] using rev_ind; intros HP; [by intros [=]|].
  rewrite foldl_app. cbn [foldl].
  destruct (HP x) as [pn Epn]; [set_solver|]. rewrite Epn.
  intros [[<- <-]|[_ H]]%lookup_insert_Some.
  - split; [set_solver|]. unfold id_of. cbn. by rewrite Epn.
  - destruct IH; [set_solver|done|]. set_solver.
Qed.
Lemma sync_want_all ls l :
  (∀ x, x ∈ ls → is_Some (protoNum (l_proto x))) →
  l ∈ ls → is_Some (sync_want ls !! id_of (info l)).
Proof.
  unfold sync_want. induction ls as [|x ls IH] using rev_ind; intros HP; [set_solver|].
  rewrite foldl_app. cbn [foldl].
  destruct (HP x) as [pn Epn]; [set_solver|]. rewrite Epn.
  intros [Hl| ->%list_elem_of_singleton]%elem_of_app; rewrite lookup_insert_is_Some.
  - destruct (decide ((pn, l_port x) = id_of (info l))); [by left|right].
    split; [done|]. apply IH; [set_solver|done].
  - left. unfold id_of. cbn. by rewrite Epn.
Qed.

Lemma decode_wf ls :
  (∀ i, i ∈ ls → wf_sync i) →
  ∃ ls', mapM decode_listener ls = Some ls' ∧ info <$> ls' = ls.
Proof.
  induction ls as [|i ls IH]; intros HW; [by exists []|].
  destruct IH as (ls' & E & EI); [set_solver|].
  destruct (wf_parse i) as (pn & b & _ & _ & Hb & Hs & Hne); [set_solver|].
  exists (MkListener (i_proto i) (i_port i) b :: ls').
  assert (decode_listener i = Some (MkListener (i_proto i) (i_port i) b)) as Ed.
  { unfold decode_listener. by rewrite (proj2 (String.eqb_neq _ _) Hne), Hb. }
  cbn [mapM]. rewrite Ed. cbn [mbind option_bind]. rewrite E. cbn.
  split; [done|]. rewrite EI. unfold info. cbn. rewrite Hs. by destruct i.
Qed.

Section session.
Context (e : portID → penv) (M : gmap portID macEntry).
Hypothesis env_ok : ∀ id, opens (e id).

Lemma add_tracks G a i :
  tracks M G a → ok_told (dom M) ({[i]} ∪ G) →
  tracks M ({[i]} ∪ G) (addSyncPort e (i_proto i) (i_port i) (i_addr i) a).
Proof.
  intros [T1 T2 T3 T4 T5] [HW HU]. destruct (HW i) as [Hwf HC]; [set_solver|].
  destruct (wf_parse i Hwf) as (pn & b & Hpn & Hid & Hb & _ & _).
  destruct (addSyncPort_spec e (i_proto i) (i_port i) (i_addr i) a T1) as [HI HS].
  cbn zeta in HS. rewrite Hpn, Hb, <- Hid in HS.
  set (a' := addSyncPort _ _ _ _ _) in *.
  destruct (mac a !! id_of i) as [m|] eqn:Em.
  - rewrite HS in *. destruct (T4 (id_of i)) as [Hin|?]; [eauto| |done].
    apply T2 in Hin as (j & Hj & Ej).
    assert (j = i) as -> by (apply HU; [set_solver..|done]).
    replace ({[i]} ∪ G) with G by set_solver. done.
  - destruct HS as [(_ & _ & Hn)|(Es & Ea & _)]; [by destruct Hn|].
    split; [done| | | |].
    + intros id. rewrite Es, elem_of_union, elem_of_singleton, T2. set_solver.
    + intros j Hj. rewrite Ea. destruct (decide (id_of j = id_of i)) as [Eq|Hne].
      * rewrite (HU j i) by set_solver. rewrite lookup_insert_eq.
        eexists _, b. split; [done|]. split; [done|]. cbn [me_key]. by rewrite Hid.
      * rewrite lookup_insert_ne by done. apply T3. set_solver.
    + intros id. rewrite Ea, Es. rewrite lookup_insert_is_Some. set_solver.
    + intros id m Hm. rewrite Ea, lookup_insert_ne; [by apply T5|].
      intros <-. apply HC, elem_of_dom. eauto.
Qed.

Lemma del_tracks G a i :
  tracks M G a → ok_told (dom M) G → i ∈ G →
  tracks M (G ∖ {[i]}) (delSyncPort (i_proto i) (i_port i) a).
Proof.
  intros [T1 T2 T3 T4 T5] [HW HU] Hi. destruct (HW i Hi) as [Hwf HC].
  destruct (wf_parse i Hwf) as (pn & b & Hpn & Hid & Hb & _ & _).
  unfold delSyncPort. rewrite Hpn. rewrite <- Hid.
  rewrite bool_decide_eq_true_2 by (apply T2; eauto).
  destruct (T3 i Hi) as (m & b' & Em & _). rewrite Hid in Em.
  destruct (RemoveMacPort_spec pn (i_port i) a (proj1 T1)) as (_ & _ & Ea & Es & _).
  rewrite decide_True in Es by eauto. split.
  - by apply RemoveMacPort_inv.
  - intros id. rewrite Es, elem_of_difference, T2, elem_of_singleton. split.
    + intros [(j & Hj & <-) Hne]. exists j. split; [|done]. rewrite <- Hid in Hne. set_solver.
    + intros (j & [Hj Hne]%elem_of_difference & <-). split; [eauto|].
      rewrite <- Hid. intros E. apply Hne. rewrite (HU j i); set_solver.
  - intros j [Hj Hne]%elem_of_difference. rewrite Ea, lookup_delete_ne; [by apply T3|].
    rewrite <- Hid. intros E. apply Hne. rewrite (HU j i); set_solver.
  - intros id. rewrite Ea, Es. intros [m' [Hne Hm']%lookup_delete_Some].
    destruct (T4 id); [eauto| |by right]. left. set_solver.
  - intros id m' Hm'. rewrite Ea, lookup_delete_ne; [by apply T5|].
    rewrite <- Hid. intros <-. apply HC, elem_of_dom. eauto.
Qed.

Lemma adds_tracks W L G a :
  ok_told (dom M) W → tracks M G a → G ⊆ W →
  (∀ id l, (id, l) ∈ L → info l ∈ W ∧ id_of (info l) = id) →
  tracks M (list_to_set (info ∘ snd <$> L) ∪ G)
    (foldl (λ a '(id, l), addSyncPort e (l_proto l) id.2 (addr_string (l_addr l)) a) a L).
Proof.
  revert G a. induction L as [|[id l] L IH]; intros G a HW HT HG HL; cbn.
  { by replace (∅ ∪ G) with G by set_solver. }
  destruct (HL id l) as [Hl <-]; [left|].
  rewrite <- (assoc_L (∪)), (comm_L (∪) {[info l]}), <- (assoc_L (∪)), (comm_L (∪) G).
  assert ({[info l]} ∪ G ⊆ W) as Hsub.
  { apply union_subseteq. split; [by apply singleton_subseteq_l|done]. }
  apply IH; [done| |done|intros id' l' H'; apply HL; by right].
  apply (add_tracks G a (info l) HT). destruct HW as [HW HU]. split.
  - intros i Hi. apply HW. by apply Hsub.
  - intros i j Hi Hj. apply HU; by apply Hsub.
Qed.

Lemma snapshot_tracks a ls :
  tracks M ∅ a → ok_told (dom M) (list_to_set ls) →
  ∃ a', sync_event e (Snapshot ls) a = Some a' ∧ tracks M (list_to_set ls) a'.
Proof.
  intros HT HW. destruct (decode_wf ls) as (ls' & E & EI).
  { intros i Hi. apply HW. set_solver. }
  cbn. rewrite E. cbn. eexists. split; [done|]. unfold applySyncSnapshot.
  assert (syncOwned a = ∅) as Eo.
  { apply set_eq. intros id. rewrite (t_own _ _ _ HT). set_solver. }
  rewrite Eo, elements_empty. cbn [filter list_filter remove_all foldl].
  assert (∀ x, x ∈ ls' → is_Some (protoNum (l_proto x)) ∧ info x ∈ ls) as HP.
  { intros x Hx. assert (info x ∈ ls) as Hi.
    { rewrite <- EI. apply list_elem_of_fmap. eauto. }
    split; [|done]. destruct HW as [HW _]. destruct (HW (info x)) as [[? _] _]; set_solver. }
  assert (list_to_set ls = list_to_set (info ∘ snd <$> map_to_list (sync_want ls')) ∪ ∅
          :> gset listenerInfo) as ->.
  { rewrite union_empty_r_L. apply set_eq. intros i. rewrite !elem_of_list_to_set. split.
    - intros Hi. rewrite <- EI in Hi. apply list_elem_of_fmap in Hi as (l & -> & Hl).
      destruct (sync_want_all ls' l) as [l' Hl']; [apply HP|done|].
      destruct (sync_want_spec ls' _ _ (λ x Hx, proj1 (HP x Hx)) Hl') as [Hin Eid].
      apply list_elem_of_fmap. exists (id_of (info l), l'). split.
      + cbn. apply (proj2 HW); [apply elem_of_list_to_set, HP, Hl|apply elem_of_list_to_set, HP, Hin|done].
      + by apply elem_of_map_to_list.
    - intros ([id l] & -> & Hl%elem_of_map_to_list)%list_elem_of_fmap. cbn.
      apply HP. by eapply sync_want_spec; [intros; apply HP|]. }
  apply (adds_tracks (list_to_set ls)); [done|done|set_solver|].
  intros id l Hl%elem_of_map_to_list.
  destruct (sync_want_spec ls' id l (λ x Hx, proj1 (HP x Hx)) Hl) as [Hin ?].
  split; [|done]. apply elem_of_list_to_set. by apply HP.
Qed.

Lemma event_tracks G ev a :
  tracks M G a → ok_told (dom M) G → ok_event (dom M) G ev →
  ∃ a', sync_event e ev a = Some a' ∧ tracks M (told G ev) a'.
Proof.
  intros HT HG [HW He]. destruct ev as [ls|[] i].
  - subst G. by apply snapshot_tracks.
  - eexists. split; [done|]. by apply add_tracks.
  - eexists. split; [done|]. by apply del_tracks.
Qed.
End session.

(** A session's events, one after the other; [None] when one does not decode. *)
Definition sync_events (e : portID → penv) (evs : list TransportEvent) (a : agent) : option agent :=
  foldl (λ r ev, a ← r; sync_event e ev a) (Some a) evs.
Fixpoint ok_session (C : gset portID) (G : gset listenerInfo) (evs : list TransportEvent) : Prop :=
  match evs with
  | [] => True
  | ev :: evs => ok_event C G ev ∧ ok_session C (told G ev) evs
  end.

Lemma sync_events_snoc e evs ev a :
  sync_events e (evs ++ [ev]) a = sync_events e evs a ≫= sync_event e ev.
Proof. unfold sync_events. by rewrite foldl_app. Qed.

Lemma sync_events_tracks e M G evs a :
  (∀ id, opens (e id)) →
  tracks M G a → ok_told (dom M) G → ok_session (dom M) G evs →
  ∃ a', sync_events e evs a = Some a' ∧ tracks M (foldl told G evs) a'.
Proof.
  intros He. unfold sync_events. revert G a.
  induction evs as [|ev evs IH]; intros G a HT HG HS; [by exists a|].
  destruct HS as [Hev HS]. destruct (event_tracks e M He G ev a HT HG Hev) as (a' & Ea & HT').
  cbn [foldl]. cbn. rewrite Ea. apply IH; [done| |done]. by destruct Hev.
Qed.

Lemma session_start_tracks a :
  inv a → syncOwned a = ∅ → tracks (mac a) ∅ a.
Proof.
  intros HI Ho. split; [done| | | |done].
  - intros id. rewrite Ho. set_solver.
  - intros i. set_solver.
  - intros id Hid. right. by apply elem_of_dom.
Qed.

(** The map steers the ports told of, each with its listener's scope, and the
    ones the control socket had registered; nothing else. *)
Lemma tracks_steers M G a k : tracks M G a →
  mac_ports a !! k = Some 1 ↔
  (∃ i b, i ∈ G ∧ ParseAddr (i_addr i) = Some b ∧ k = KeyFor (id_of i).1 b (id_of i).2) ∨
  (∃ id m, M !! id = Some m ∧ me_key m = k).
Proof.
  intros [[HO HI] T2 T3 T4 T5]. split.
  - intros (id & m & Hm & Ek)%(ok_map _ HO). destruct (T4 id) as [(i & Hi & <-)%T2|Hd]; [eauto| |].
    + left. destruct (T3 i Hi) as (m' & b & Hm' & Hb & Ek'). exists i, b. split_and!; [done..|].
      congruence.
    + right. apply elem_of_dom in Hd as [m' Hm']. exists id, m'. split; [done|].
      apply T5 in Hm'. congruence.
  - intros [(i & b & Hi & Hb & ->)|(id & m & Hm & <-)].
    + destruct (T3 i Hi) as (m & b' & Hm & Hb' & Ek). rewrite Hb in Hb'. injection Hb' as <-.
      rewrite <- Ek. by apply (ok_entry _ HO (id_of i) m).
    + by apply (ok_entry _ HO id m), T5.
Qed.

(** ** Properties *)

(** C11: at every moment the kernel can look, even half-way through adding or
    removing a port, the map steers connects only to ports whose gateway
    proxy is listening; between operations it steers exactly the registered
    ports, and the open proxies are exactly theirs. *)
Theorem steer_served a :
  preach a →
  (∀ k, mac_ports a !! k = Some 1 ↔ ∃ id e, mac a !! id = Some e ∧ me_key e = k) ∧
  (∀ p id, proxies a !! p = Some id ↔ ∃ e, mac a !! id = Some e ∧ me_proxy e = p) ∧
  (∀ e pr po b bk s, s ∈ (AddMacPort e pr po b bk a).1 → steered s) ∧
  (∀ pr po s, s ∈ (RemoveMacPort pr po a).1 → steered s).
Proof.
  intros [HO _]%preach_inv. split; [|split; [|split]].
  - intros k. split; [apply (ok_map _ HO)|]. intros (id & e & He & <-). by apply (ok_entry _ HO id e).
  - intros p id. split; [apply (ok_proxy _ HO)|]. intros (e & He & <-). by apply (ok_entry _ HO id e).
  - intros e pr po b bk. destruct (AddMacPort_spec e pr po b bk a HO) as (_ & HF & _).
    by rewrite list.Forall_forall in HF.
  - intros pr po. destruct (RemoveMacPort_spec pr po a HO) as (_ & HF & _).
    by rewrite list.Forall_forall in HF.
Qed.
Definition ok_env : penv := PEnv true true.
Lemma steer_served_witness :
  let a := (dispatch ok_env (Control "add-mac-port" "tcp" 8080 "" "") agent0).1 in
  mac_ports a !! KeyFor 6 IPv4Unspecified 8080 = Some 1 ∧
  ∃ id e, mac a !! id = Some e ∧ me_key e = KeyFor 6 IPv4Unspecified 8080.
Proof.
  intros a. assert (mac_ports a !! KeyFor 6 IPv4Unspecified 8080 = Some 1) as E
    by (vm_compute; reflexivity).
  split; [exact E|]. apply (steer_served a); [|exact E].
  eapply reach_step; [by apply reach_init|]. apply p_control.
Defined.

Definition ex_any (p : Z) : listenerInfo := Info "tcp" p "0.0.0.0".
Definition ex_lo (p : Z) : listenerInfo := Info "tcp" p "127.0.0.1".

(** The Mac's del events name an address the agent ignores: with one port
    open on both 127.0.0.1 and 0.0.0.0, closing one of them stops steering a
    port the Mac still serves, until the session restarts. *)
Lemma del_loses_port :
  let evs := [Snapshot [ex_any 80; ex_lo 80]; Change OpDel (ex_lo 80)] in
  ex_any 80 ∈ foldl told ∅ evs ∧
  ∃ a', sync_events (λ _, ok_env) evs agent0 = Some a' ∧ mac a' = ∅ ∧ mac_ports a' = ∅.
Proof.
  cbn zeta. split; [cbn [foldl told]; apply elem_of_difference; split; [set_solver|]; 
    by intros ?%elem_of_singleton|].
  eexists. split; [vm_compute; reflexivity|]. done.
Qed.
