(* ===== verification/DialPool.v ===== *)
(** * The agent's pool of reverse-dial connections

    [internal/agent/dialpool.go]: connections the Mac parked in advance, each
    guarded by a watchdog read until a proxy pops it, and the activation
    header [macDialer] ([macsync.go]) writes on a popped one. The goroutines
    (a watchdog per pooled connection, any number of pops and parks) interleave
    between their critical sections, each of which is one step here. *)

From S2P Require Import Prelude Wire.

Open Scope list_scope.
Open Scope Z_scope.

Definition poolCap : nat := 32.

(** An entry of the pool; it is named by its connection, which is parked
    once. [done] is the closed state of its channel. *)
Record parked := Parked { handoff : bool; bad : bool; done_ : bool }.

(** Where a running [pop] stands: at the top of its loop, waiting for the
    watchdog of the entry it took, waiting on its channel, or past its
    timeout and about to look at the channel a last time. *)
Inductive popst := Looping | Took (c : nat) | Waiting (w : nat) | TimedOut (w : nat).
#[export] Instance popst_eq_dec : EqDecision popst.
Proof. solve_decision. Defined.

(** The pool with the goroutines that work on it. [sends] are the parks that
    took a waiter and have not sent to it yet; [chans] the waiter channels
    with their one-place buffers; [shut] the connections the pool decided to
    close (the [Close] follows the critical section that decides);
    [given] the connections pops returned, latest first; [seen] every
    connection ever parked. *)
Record pool := Pool {
  conns : gset nat;
  waiters : list nat;
  closed : bool;
  entries : gmap nat parked;
  sends : list (nat * nat);
  chans : gmap nat (option nat);
  pops : gmap nat popst;
  shut : gset nat;
  given : list nat;
  seen : gset nat }.
Definition newDialPool : pool := Pool ∅ [] false ∅ [] ∅ ∅ ∅ [] ∅.

(** [park], up to its send. *)
Definition park (c : nat) (p : pool) : pool :=
  if closed p || (poolCap <=? size (conns p))%nat then
    Pool (conns p) (waiters p) (closed p) (entries p) (sends p) (chans p) (pops p)
      ({[c]} ∪ shut p) (given p) ({[c]} ∪ seen p)
  else match waiters p with
  | w :: ws =>
      Pool (conns p) ws (closed p) (entries p) ((w, c) :: sends p) (chans p) (pops p)
        (shut p) (given p) ({[c]} ∪ seen p)
  | [] =>
      Pool ({[c]} ∪ conns p) [] (closed p) (<[c := Parked false false false]> (entries p))
        (sends p) (chans p) (pops p) (shut p) (given p) ({[c]} ∪ seen p)
  end.

(** [w <- c]: it would block on a full buffer. *)
Definition send (w c : nat) (p : pool) : option pool :=
  match chans p !! w with
  | Some None => Some (Pool (conns p) (waiters p) (closed p) (entries p)
      (filter (λ s, s ≠ (w, c)) (sends p)) (<[w := Some c]> (chans p)) (pops p)
      (shut p) (given p) (seen p))
  | _ => None
  end.

(** [watch], once its read returned [n] bytes and, or not, a timeout. *)
Definition watch (c : nat) (n : nat) (timeout : bool) (p : pool) : pool :=
  match entries p !! c with
  | None => p
  | Some e =>
      let e' := Parked (handoff e) ((0 <? n)%nat || negb timeout) true in
      if handoff e then
        Pool (conns p) (waiters p) (closed p) (<[c := e']> (entries p)) (sends p) (chans p)
          (pops p) (shut p) (given p) (seen p)
      else
        Pool (conns p ∖ {[c]}) (waiters p) (closed p) (<[c := e']> (entries p)) (sends p) (chans p)
          (pops p) ({[c]} ∪ shut p) (given p) (seen p)
  end.

Definition set_pop (t : nat) (s : option popst) (p : pool) : pool :=
  Pool (conns p) (waiters p) (closed p) (entries p) (sends p) (chans p)
    (partial_alter (λ _, s) t (pops p)) (shut p) (given p) (seen p).
Definition return_conn (t c : nat) (p : pool) : pool :=
  Pool (conns p) (waiters p) (closed p) (entries p) (sends p) (chans p)
    (delete t (pops p)) (shut p) (c :: given p) (seen p).

(** The top of [pop]'s loop: the first entry of the map iteration, if any, is
    [pick]; [w] names the channel it makes otherwise. *)
Definition pop_top (t : nat) (pick : option nat) (w : nat) (p : pool) : pool :=
  if closed p then set_pop t None p
  else match pick with
  | Some c =>
      let e := default (Parked false false false) (entries p !! c) in
      set_pop t (Some (Took c))
        (Pool (conns p ∖ {[c]}) (waiters p) (closed p)
           (<[c := Parked true (bad e) (done_ e)]> (entries p)) (sends p) (chans p) (pops p)
           (shut p) (given p) (seen p))
  | None =>
      set_pop t (Some (Waiting w))
        (Pool (conns p) (waiters p ++ [w]) (closed p) (entries p) (sends p)
           (<[w := None]> (chans p)) (pops p) (shut p) (given p) (seen p))
  end.

(** [pop] after the watchdog handed its entry over: the conn is returned if
    the watchdog saw nothing but the poke and [probeLive] finds it live,
    otherwise it is closed and the loop goes round. *)
Definition pop_took (t c : nat) (live : bool) (p : pool) : pool :=
  match entries p !! c with
  | Some e =>
      if bad e || negb live then
        set_pop t (Some Looping)
          (Pool (conns p) (waiters p) (closed p) (entries p) (sends p) (chans p) (pops p)
             ({[c]} ∪ shut p) (given p) (seen p))
      else return_conn t c p
  | None => p
  end.

(** [c := <-w] *)
Definition recv (t w c : nat) (p : pool) : pool :=
  return_conn t c (Pool (conns p) (waiters p) (closed p) (entries p) (sends p)
    (<[w := None]> (chans p)) (pops p) (shut p) (given p) (seen p)).
(** The timeout branch: leave the waiters, then look at the channel again. *)
Definition pop_timeout (t w : nat) (p : pool) : pool :=
  set_pop t (Some (TimedOut w))
    (Pool (conns p) (filter (λ x, x ≠ w) (waiters p)) (closed p) (entries p) (sends p) (chans p)
       (pops p) (shut p) (given p) (seen p)).
Definition pop_last (t w : nat) (p : pool) : pool :=
  match chans p !! w with
  | Some (Some c) => recv t w c p
  | _ => set_pop t None p
  end.

Definition close (p : pool) : pool :=
  Pool ∅ (waiters p) true (entries p) (sends p) (chans p) (pops p)
    (conns p ∪ shut p) (given p) (seen p).

(** What [probeLive]'s short read tells: live is a timeout with no byte. *)
Definition probeLive (n : nat) (timeout : bool) : bool := (n =? 0)%nat && timeout.

(** [macDialer]'s activation header: protocol, port, reserved. *)
Definition dial_header (proto port : Z) : bytes := z2b proto :: put_be16 port ++ [z2b 0].

(** One step of any goroutine. *)
Inductive step (p : pool) : pool → Prop :=
| step_park c : (c ∉ seen p) → step p (park c p)
| step_send w c p' : (w, c) ∈ sends p → send w c p = Some p' → step p p'
| step_watch c n timeout e :
    entries p !! c = Some e → done_ e = false → step p (watch c n timeout p)
| step_pop t : pops p !! t = None → step p (set_pop t (Some Looping) p)
| step_top t c w : pops p !! t = Some Looping → c ∈ conns p →
    step p (pop_top t (Some c) w p)
| step_wait t w : pops p !! t = Some Looping → conns p = ∅ → chans p !! w = None →
    step p (pop_top t None w p)
| step_took t c e live : pops p !! t = Some (Took c) → entries p !! c = Some e →
    done_ e = true → step p (pop_took t c live p)
| step_recv t w c : pops p !! t = Some (Waiting w) → chans p !! w = Some (Some c) →
    step p (recv t w c p)
| step_timeout t w : pops p !! t = Some (Waiting w) → step p (pop_timeout t w p)
| step_last t w : pops p !! t = Some (TimedOut w) → step p (pop_last t w p)
| step_close : step p (close p).
Definition reachable : pool → Prop := reach (λ p, p = newDialPool) step.

(** ** Where a connection is *)

Inductive place := Pooled | Taken (t : nat) | Sending (w : nat) | Buffered (w : nat) | Given | Shut.
#[export] Instance place_eq_dec : EqDecision place.
Proof. solve_decision. Defined.
Definition at_place (p : pool) (c : nat) (pl : place) : Prop :=
  match pl with
  | Pooled => c ∈ conns p
  | Taken t => pops p !! t = Some (Took c)
  | Sending w => (w, c) ∈ sends p
  | Buffered w => chans p !! w = Some (Some c)
  | Given => c ∈ given p
  | Shut => c ∈ shut p
  end.
(** The channel a place belongs to. *)
Definition on_chan (pl : place) : option nat :=
  match pl with Sending w | Buffered w => Some w | _ => None end.

(** Connection [c] is at [q] and nowhere else. *)
Definition only (p : pool) (c : nat) (q : place) : Prop := ∀ pl, at_place p c pl ↔ pl = q.

Record chan_ok (waiters : list nat) (sends : list (nat * nat)) (chans : gmap nat (option nat))
    (entries : gmap nat parked) : Prop := {
  ch_nodup : NoDup waiters;
  ch_wait : ∀ w, w ∈ waiters → chans !! w = Some None ∧ ∀ c, ((w, c) ∉ sends);
  ch_send : ∀ w c, (w, c) ∈ sends →
    chans !! w = Some None ∧ entries !! c = None ∧ ∀ c', (w, c') ∈ sends → c' = c;
  ch_buf : ∀ w c, chans !! w = Some (Some c) → entries !! c = None }.
Record entry_ok (p : pool) : Prop := {
  en_seen : ∀ c, is_Some (entries p !! c) → c ∈ seen p;
  en_pooled : ∀ c, c ∈ conns p → entries p !! c = Some (Parked false false false);
  en_took : ∀ t c, pops p !! t = Some (Took c) → ∃ e, entries p !! c = Some e ∧ handoff e = true;
  en_given : ∀ c, c ∈ given p →
    entries p !! c = None ∨ entries p !! c = Some (Parked true false true) }.
Record conns_ok (p : pool) : Prop := {
  co_cap : (size (conns p) ≤ poolCap)%nat;
  co_idle : conns p = ∅ ∨ waiters p = [];
  co_closed : closed p = true → conns p = ∅ }.
Record place_ok (p : pool) : Prop := {
  ok_at : ∀ c, c ∈ seen p → ∃ q, only p c q;
  ok_seen : ∀ c pl, at_place p c pl → c ∈ seen p;
  ok_nodup : NoDup (given p) }.
Definition pool_ok (p : pool) : Prop :=
  place_ok p ∧ conns_ok p ∧ entry_ok p ∧ chan_ok (waiters p) (sends p) (chans p) (entries p).

Lemma only_at p c q : only p c q → at_place p c q.
Proof. intros H. by apply H. Qed.
Lemma only_of p c q : place_ok p → at_place p c q → only p c q.
Proof.
  intros O A. destruct (ok_at p O c (ok_seen p O c q A)) as (q' & H).
  apply H in A as ->. exact H.
Qed.
Lemma fresh_nowhere p c pl : place_ok p → c ∉ seen p → ¬ at_place p c pl.
Proof. intros O H A. by apply H, (ok_seen p O c pl). Qed.

(** A step moves at most one connection. *)
Definition frame (p p' : pool) (c : nat) : Prop :=
  ∀ c' pl, c' ≠ c → at_place p' c' pl ↔ at_place p c' pl.
Lemma moved_at p p' c q :
  place_ok p → frame p p' c → only p' c q → seen p' = {[c]} ∪ seen p → NoDup (given p') →
  place_ok p'.
Proof.
  intros O F Q E HD. split; [intros x|intros x|done]; destruct (decide (x = c)) as [->|N].
  - by exists q.
  - rewrite E. intros [?%elem_of_singleton|H]%elem_of_union; [done|].
    destruct (ok_at p O x H) as (q' & Hq). exists q'. intros pl. rewrite (F x pl N). apply Hq.
  - rewrite E. set_solver.
  - intros pl. rewrite (F x pl N). intros ?%(ok_seen p O). set_solver.
Qed.

(** The entry of a connection on no channel may change. *)
Lemma chan_entry ws ss cs en c e :
  chan_ok ws ss cs en → (∀ w, (w, c) ∉ ss) → (∀ w, cs !! w ≠ Some (Some c)) →
  chan_ok ws ss cs (<[c := e]> en).
Proof.
  intros [K1 K2 K3 K4] H1 H2. split; [done|done| |].
  - intros w c' H. destruct (decide (c' = c)) as [->|Nc]; [by apply H1 in H|].
    rewrite lookup_insert_ne by done. by apply K3.
  - intros w c' H. destruct (decide (c' = c)) as [->|Nc]; [by apply H2 in H|].
    rewrite lookup_insert_ne by done. by apply (K4 w).
Qed.
(** A connection at one place is at no other. *)
Lemma elsewhere p c q : place_ok p → at_place p c q →
  ∀ pl, pl ≠ q → ¬ at_place p c pl.
Proof. intros O A pl N Hp. apply N. by apply (only_of p c q O A). Qed.

(** Everything a negative fact about the places of [c] says. *)
Ltac places HN :=
  pose proof (HN Pooled); pose proof (HN Given); pose proof (HN Shut);
  pose proof (λ t, HN (Taken t)); pose proof (λ w, HN (Sending w));
  pose proof (λ w, HN (Buffered w)); cbn in *.
Ltac at_c c' c := destruct (decide (c' = c)) as [->|]; simplify_map_eq.

Lemma park_ok c p : pool_ok p → c ∉ seen p → pool_ok (park c p).
Proof.
  intros (O & C & N & K) H.
  assert (∀ pl, ¬ at_place p c pl) as HN by (intros pl; by apply fresh_nowhere).
  assert (entries p !! c = None) as HE.
  { apply eq_None_not_Some. intros ?%(en_seen p N). done. }
  places HN. unfold park. case_match eqn:E1; [|case_match eqn:E2].
  - split; [|split; [|split]]; [|by destruct C|destruct N; split; cbn; set_solver|done].
    apply (moved_at p _ c Shut); [done| | |done|apply O].
    + intros c' pl Nc. destruct pl; cbn; set_solver.
    + intros pl. destruct pl; cbn; set_solver.
  - apply orb_false_iff in E1 as [E1 E3%Nat.leb_gt].
    split; [|split; [|split]].
    + apply (moved_at p _ c Pooled); [done| | |done|apply O].
      * intros c' pl Nc. destruct pl; cbn; set_solver.
      * intros pl. destruct pl; cbn; set_solver.
    + split; cbn; [|by right|congruence]. rewrite size_union by set_solver.
      rewrite size_singleton. lia.
    + destruct N as [S1 S2 S3 S4]. split; cbn.
      * intros c'. at_c c' c; set_solver.
      * intros c'. at_c c' c; set_solver.
      * intros t c'. at_c c' c; [naive_solver|eauto].
      * intros c'. at_c c' c; [done|eauto].
    + by apply chan_entry.
  - split; [|split; [|split]].
    + apply (moved_at p _ c (Sending n)); [done| | |done|apply O].
      * intros c' pl Nc. destruct pl; cbn; set_solver.
      * intros pl. destruct pl; cbn; set_solver.
    + destruct C as [C1 [C2|C2] C3]; [|congruence]. split; cbn; [done|by left|done].
    + destruct N; split; cbn; set_solver.
    + destruct K as [K1 K2 K3 K4]. apply NoDup_cons in K1 as [K0 K1]. split; cbn; [done| | |done].
      * intros w Hw. destruct (K2 w) as [E W]; [by right|]. split; [done|].
        intros c' [[= -> ->]|?]%elem_of_cons; [done|by apply (W c')].
      * destruct (K2 n) as [E W]; [left|].
        intros w c' [[= -> ->]|Hc]%elem_of_cons.
        -- split; [done|]. split; [done|]. intros c' [[= ->]|Hx]%elem_of_cons; [done|by apply W in Hx].
        -- destruct (K3 w c' Hc) as (F1 & F2 & F3). split; [done|]. split; [done|].
           intros c'' [[= -> ->]|?]%elem_of_cons; [by apply W in Hc|by apply F3].
Qed.

Lemma moved p p' c q0 q :
  place_ok p → at_place p c q0 → frame p p' c → only p' c q → seen p' = seen p →
  NoDup (given p') → place_ok p'.
Proof.
  intros O A F Q E HD. apply (moved_at p p' c q); [done|done|done| |done].
  rewrite E. apply (ok_seen p O) in A. set_solver.
Qed.
Ltac places_of O A := let HN := fresh in pose proof (elsewhere _ _ _ O A) as HN; places HN.
(** [frame] and [only], by the places' definitions. *)
Ltac place_cases := 
  repeat match goal with
  | |- frame _ _ _ => intros ? pl ?; destruct pl; cbn
  | |- only _ _ _ => intros pl; destruct pl; cbn
  end; rewrite ?list_elem_of_filter;
  repeat match goal with
  | |- context [<[?a := _]> _ !! ?b] => destruct (decide (b = a)); simplify_map_eq
  | |- context [delete ?a _ !! ?b] => destruct (decide (b = a)); simplify_map_eq
  | |- context [partial_alter _ ?a _ !! ?b] => destruct (decide (b = a)) as [->|];
      [rewrite lookup_partial_alter_eq|rewrite lookup_partial_alter_ne by done]
  end.

Lemma send_ok w c p p' : pool_ok p → (w, c) ∈ sends p → send w c p = Some p' → pool_ok p'.
Proof.
  intros (O & C & N & K) Hs. unfold send. repeat case_match; intros [= <-].
  assert (at_place p c (Sending w)) as A by done.
  destruct (ch_send _ _ _ _ K w c Hs) as (E1 & E2 & E3).
  places_of O A.
  split; [|split; [|split]]; [|by destruct C|by destruct N|].
  - eapply (moved p _ c (Sending w) (Buffered w)); [done|done| | |done|apply O].
    + place_cases; naive_solver.
    + place_cases; naive_solver.
  - destruct K as [K1 K2 K3 K4]. split; cbn; [done| | |].
    + intros w' Hw'. destruct (K2 w' Hw') as [F1 F2].
      assert (w' ≠ w) by naive_solver. simplify_map_eq. split; [done|].
      intros c'. rewrite list_elem_of_filter. naive_solver.
    + intros w' c' [Hn Hc]%list_elem_of_filter. destruct (K3 w' c' Hc) as (F1 & F2 & F3).
      assert (w' ≠ w) by naive_solver. simplify_map_eq. split; [done|]. split; [done|].
      intros c''. rewrite list_elem_of_filter. naive_solver.
    + intros w' c'. destruct (decide (w' = w)) as [->|]; simplify_map_eq; naive_solver.
Qed.

Lemma set_pop_ok t s p : pool_ok p → (∀ c, pops p !! t ≠ Some (Took c)) →
  (∀ c, s ≠ Some (Took c)) → pool_ok (set_pop t s p).
Proof.
  intros (O & C & N & K) H Hs. split; [|split; [|split]]; [|by destruct C| |done].
  - assert (∀ c pl, at_place (set_pop t s p) c pl ↔ at_place p c pl) as F.
    { intros c pl. destruct pl; cbn; try done.
      destruct (decide (t0 = t)) as [->|].
      - rewrite lookup_partial_alter_eq. split; intros E; [by apply Hs in E|by apply H in E].
      - by rewrite lookup_partial_alter_ne. }
    destruct O as [O1 O2 O3]. split; [| |done].
    + intros c (q & Hq)%O1. exists q. intros pl. by rewrite F.
    + intros c pl. rewrite F. apply O2.
  - destruct N. split; try done. intros t' c. cbn. destruct (decide (t' = t)) as [->|].
    + rewrite lookup_partial_alter_eq. intros E; by apply Hs in E.
    + rewrite lookup_partial_alter_ne by done. eauto.
Qed.

Lemma watch_ok c n timeout e p : pool_ok p → entries p !! c = Some e → done_ e = false →
  pool_ok (watch c n timeout p).
Proof.
  intros (O & C & N & K) E Hd. unfold watch. rewrite E.
  assert (∀ w, (w, c) ∉ sends p) as Hs.
  { intros w (_ & F & _)%(ch_send _ _ _ _ K). congruence. }
  assert (∀ w, chans p !! w ≠ Some (Some c)) as Hb.
  { intros w F%(ch_buf _ _ _ _ K). congruence. }
  pose proof (chan_entry _ _ _ _ c
    (Parked (handoff e) ((0 <? n)%nat || negb timeout) true) K Hs Hb) as K'.
  assert (c ∉ given p) as Hg.
  { intros [F|F]%(en_given p N); congruence || (rewrite E in F; injection F as ->; done). }
  assert (c ∈ seen p) as Hseen by (apply (en_seen p N); by rewrite E).
  destruct (handoff e) eqn:Hh.
  - assert (c ∉ conns p) as Hc by (intros F%(en_pooled p N); rewrite E in F; injection F as ->; done).
    split; [|split; [|split]]; [by destruct O|by destruct C| |done].
    destruct N as [S1 S2 S3 S4]. split; cbn.
    + intros c'. at_c c' c; set_solver.
    + intros c'. at_c c' c; set_solver.
    + intros t c' F. at_c c' c; [eauto|eauto].
    + intros c'. at_c c' c; set_solver.
  - assert (∀ t, pops p !! t ≠ Some (Took c)) as Ht.
    { intros t (e' & F & ?)%(en_took p N). congruence. }
    split; [|split; [|split]]; [| | |done].
    + destruct (ok_at p O c Hseen) as (q & A%only_at).
      assert (q = Pooled ∨ q = Shut) as Hq.
      { destruct q; cbn in A; naive_solver. }
      places_of O A.
      eapply (moved p _ c q Shut); [done|done| | |done|apply O].
      * place_cases; set_solver.
      * place_cases; set_solver.
    + destruct C as [C1 C2 C3]. split; cbn.
      * etrans; [|exact C1]. apply subseteq_size. set_solver.
      * destruct C2; [left; set_solver|by right].
      * intros ?%C3. set_solver.
    + destruct N as [S1 S2 S3 S4]. split; cbn.
      * intros c'. at_c c' c; set_solver.
      * intros c'. at_c c' c; set_solver.
      * intros t c' F. at_c c' c; [by apply Ht in F|eauto].
      * intros c'. at_c c' c; set_solver.
Qed.

Lemma pop_top_ok t pick w p : pool_ok p → pops p !! t = Some Looping →
  match pick with
  | Some c => c ∈ conns p
  | None => conns p = ∅ ∧ chans p !! w = None
  end → pool_ok (pop_top t pick w p).
Proof.
  intros I Ht Hp. unfold pop_top. destruct (closed p) eqn:Hcl.
  { apply set_pop_ok; [done|congruence|done]. }
  destruct I as (O & C & N & K). destruct pick as [c|].
  - assert (at_place p c Pooled) as A by done. places_of O A.
    pose proof (en_pooled p N c Hp) as E. rewrite E. cbn.
    split; [|split; [|split]].
    + eapply (moved p _ c Pooled (Taken t)); [done|done| | |done|apply O].
      * place_cases; set_solver.
      * place_cases; set_solver.
    + destruct C as [C1 C2 C3]. split; cbn.
      * etrans; [|exact C1]. apply subseteq_size. set_solver.
      * destruct C2; [left; set_solver|by right].
      * done.
    + destruct N as [S1 S2 S3 S4]. split; cbn.
      * intros c'. at_c c' c; [|auto]. intros _. by apply (ok_seen p O c Pooled).
      * intros c'. at_c c' c; set_solver.
      * intros t' c'. destruct (decide (t' = t)) as [->|]; simplify_map_eq.
        -- rewrite lookup_partial_alter_eq. intros [= ->]. eexists. by rewrite lookup_insert_eq.
        -- rewrite lookup_partial_alter_ne by done. intros F. at_c c' c; eauto.
      * intros c'. at_c c' c; set_solver.
    + apply chan_entry; [done|naive_solver|naive_solver].
  - destruct Hp as [H0 Hw]. apply set_pop_ok; [|cbn; congruence|done].
    assert (∀ c w', (w', c) ∈ sends p → w' ≠ w) as Hs.
    { intros c w' (F & _)%(ch_send _ _ _ _ K) ->. congruence. }
    split; [|split; [|split]].
    + destruct O as [O1 O2 O3].
      assert (∀ c w', <[w:=None]> (chans p) !! w' = Some (Some c) ↔ chans p !! w' = Some (Some c)) as F.
      { intros c w'. destruct (decide (w' = w)) as [->|]; simplify_map_eq; naive_solver. }
      split; cbn; [| |done].
      * intros c (q & Hq)%O1. exists q. intros pl. rewrite <- (Hq pl). destruct pl; cbn; rewrite ?F; done.
      * intros c pl Hpl. apply (O2 c pl). destruct pl; cbn in *; rewrite ?F in Hpl; done.
    + destruct C. split; cbn; [done|by left|done].
    + by destruct N.
    + destruct K as [K1 K2 K3 K4]. split; cbn.
      * apply NoDup_app. split; [done|]. split; [|apply NoDup_singleton].
        intros w' (F & _)%K2 Fw%list_elem_of_singleton. congruence.
      * intros w' [Hw'|Hw'%list_elem_of_singleton]%elem_of_app; [|subst w'].
        -- destruct (K2 w' Hw') as [F1 F2]. assert (w' ≠ w) by congruence. by simplify_map_eq.
        -- simplify_map_eq. split; [done|]. intros c Hc. by apply Hs in Hc.
      * intros w' c Hc. pose proof (Hs c w' Hc). simplify_map_eq. by apply K3.
      * intros w' c F. destruct (decide (w' = w)) as [->|]; simplify_map_eq. by apply (K4 w').
Qed.

Lemma pop_took_ok t c e live p : pool_ok p → pops p !! t = Some (Took c) →
  entries p !! c = Some e → done_ e = true → pool_ok (pop_took t c live p).
Proof.
  intros (O & C & N & K) Ht E Hd. unfold pop_took. rewrite E.
  assert (at_place p c (Taken t)) as A by done. places_of O A.
  destruct (en_took p N t c Ht) as (e' & E' & Hh). simplify_eq.
  case_match eqn:Hb.
  - split; [|split; [|split]]; [|by destruct C| |done].
    + eapply (moved p _ c (Taken t) Shut); [done|done| | |done|apply O].
      * place_cases; set_solver.
      * place_cases; naive_solver set_solver.
    + destruct N as [S1 S2 S3 S4]. split; cbn; [done|done| |done].
      intros t' c'. destruct (decide (t' = t)) as [->|];
        [by rewrite lookup_partial_alter_eq|rewrite lookup_partial_alter_ne by done; eauto].
  - apply orb_false_iff in Hb as [Hb _]. 
    split; [|split; [|split]]; [|by destruct C| |done].
    + eapply (moved p _ c (Taken t) Given); [done|done| | |done|].
      * place_cases; set_solver.
      * place_cases; naive_solver set_solver.
      * cbn. apply NoDup_cons. split; [naive_solver|apply O].
    + destruct N as [S1 S2 S3 S4]. split; cbn; [done|done| |].
      * intros t' c' F. destruct (decide (t' = t)) as [->|]; simplify_map_eq. eauto.
      * intros c' [->|?]%elem_of_cons; [|eauto]. right. rewrite E. destruct e; cbn in *. congruence.
Qed.

Lemma recv_ok t w c p : pool_ok p → pops p !! t = Some (Waiting w) ∨ pops p !! t = Some (TimedOut w) →
  chans p !! w = Some (Some c) → pool_ok (recv t w c p).
Proof.
  intros (O & C & N & K) Ht E.
  assert (at_place p c (Buffered w)) as A by done. places_of O A.
  split; [|split; [|split]]; [|by destruct C| |].
  - eapply (moved p _ c (Buffered w) Given); [done|done| | |done|].
    + place_cases; set_solver.
    + place_cases; set_solver.
    + cbn. apply NoDup_cons. split; [naive_solver|apply O].
  - destruct N as [S1 S2 S3 S4]. split; cbn; [done|done| |].
    + intros t' c' F. destruct (decide (t' = t)) as [->|]; simplify_map_eq. eauto.
    + intros c' [->|?]%elem_of_cons; [|eauto]. left. by apply (ch_buf _ _ _ _ K w).
  - destruct K as [K1 K2 K3 K4]. split; cbn; [done| | |].
    + intros w' Hw'. destruct (K2 w' Hw') as [F1 F2]. assert (w' ≠ w) by congruence. by simplify_map_eq.
    + intros w' c' Hc. destruct (K3 w' c' Hc) as [F1 F2]. assert (w' ≠ w) by congruence. by simplify_map_eq.
    + intros w' c' F. destruct (decide (w' = w)) as [->|]; simplify_map_eq. by apply (K4 w').
Qed.

Lemma pop_timeout_ok t w p : pool_ok p → pops p !! t = Some (Waiting w) → pool_ok (pop_timeout t w p).
Proof.
  intros (O & C & N & K) Ht. apply set_pop_ok; [|cbn; congruence|done].
  split; [|split; [|split]]; [by destruct O| |by destruct N|].
  - destruct C as [C1 C2 C3]. split; cbn; [done| |done].
    destruct C2 as [?|E]; [by left|right; by rewrite E].
  - destruct K as [K1 K2 K3 K4]. split; cbn; [by apply list.NoDup_filter| |done|done].
    intros w' [_ ?]%list_elem_of_filter. auto.
Qed.

Lemma pop_last_ok t w p : pool_ok p → pops p !! t = Some (TimedOut w) → pool_ok (pop_last t w p).
Proof.
  intros I Ht. unfold pop_last. repeat case_match.
  - by apply recv_ok; [|right|].
  - by apply set_pop_ok; [|congruence|].
  - by apply set_pop_ok; [|congruence|].
Qed.

Lemma close_ok p : pool_ok p → pool_ok (close p).
Proof.
  intros (O & C & N & K). split; [|split; [|split]]; [| | |done].
  - destruct O as [O1 O2 O3]. split; cbn; [| |done].
    + intros c (q & Hq)%O1. exists (match q with Pooled => Shut | _ => q end).
      intros pl. pose proof (Hq Pooled) as F1. pose proof (Hq Shut) as F2. specialize (Hq pl).
      destruct pl; cbn in *; rewrite ?elem_of_empty, ?elem_of_union; destruct q; naive_solver.
    + intros c pl. destruct pl; cbn; [set_solver|apply (O2 c (Taken t))|apply (O2 c (Sending w))
        |apply (O2 c (Buffered w))|apply (O2 c Given)|].
      intros [?|?]%elem_of_union; [by apply (O2 c Pooled)|by apply (O2 c Shut)].
  - destruct C. split; cbn; [rewrite size_empty; lia|by left|done].
  - destruct N. split; cbn; [done|set_solver|done|done].
Qed.

Lemma step_ok p p' : pool_ok p → step p p' → pool_ok p'.
Proof.
  intros I []; eauto using park_ok, send_ok, watch_ok, pop_took_ok, recv_ok, pop_timeout_ok,
    pop_last_ok, close_ok.
  - apply set_pop_ok; [done|congruence|done].
  - by apply pop_top_ok.
  - by apply pop_top_ok.
Qed.
Lemma pool_reachable_ok p : reachable p → pool_ok p.
Proof.
  apply reach_invariant; [|intros ?? _; apply step_ok]. intros ? ->.
  split; [|split; [|split]]; split; cbn; try set_solver; try (by intros c []).
  - intros c pl. destruct pl; cbn; set_solver.
  - constructor.
  - rewrite size_empty. lia.
  - constructor.
Qed.

(** ** Properties *)

(** C18: every connection parked is, at every moment, in exactly one place:
    pooled, taken by one pop, on its way to one waiting pop's channel, in
    that channel, returned by a pop, or closed. So no pop ever returns a
    connection another pop returned, or one the pool closed, and none is
    both returned and still pooled. *)
Theorem pool_exactly_once p :
  reachable p →
  (∀ c, c ∈ seen p → ∃ pl, at_place p c pl ∧ ∀ pl', at_place p c pl' → pl' = pl) ∧
  NoDup (given p) ∧
  (∀ c, c ∈ given p → (c ∉ shut p) ∧ (c ∉ conns p)).
Proof.
  intros (O & _ & _ & _)%pool_reachable_ok. split; [|split; [apply O|]].
  - intros c (q & Hq)%(ok_at p O). exists q. split; [by apply Hq|]. intros pl. by apply Hq.
  - intros c Hc. pose proof (elsewhere p c Given O Hc) as HN.
    split; [by apply (HN Shut)|by apply (HN Pooled)].
Qed.

(** The pool's hand-over. It never holds more than [poolCap] connections
    and none after it closed; no pop waits while a connection is pooled;
    every pooled connection has a watchdog reading it, and every returned one
    has none left: its watchdog finished before and saw nothing but the poke,
    or it never had one, so no watchdog can eat the first byte of the flow.
    The send that delivers to a waiting pop never blocks. *)
Theorem pool_handover p :
  reachable p →
  (size (conns p) ≤ poolCap)%nat ∧ (closed p = true → conns p = ∅) ∧
  (waiters p ≠ [] → conns p = ∅) ∧
  (∀ c, c ∈ conns p → entries p !! c = Some (Parked false false false)) ∧
  (∀ c, c ∈ given p → entries p !! c = None ∨ entries p !! c = Some (Parked true false true)) ∧
  (∀ w c, (w, c) ∈ sends p → is_Some (send w c p)).
Proof.
  intros (_ & C & N & K)%pool_reachable_ok. destruct C as [C1 C2 C3], N as [S1 S2 S3 S4].
  repeat split; try done.
  - by destruct C2.
  - intros w c (E & _)%(ch_send _ _ _ _ K). unfold send. rewrite E. by eexists.
Qed.

(** A run: conn 1 is parked, popped, found live and returned. *)
Definition ex_pool : pool :=
  pop_took 0 1 true (watch 1 0 true (pop_top 0 (Some 1%nat) 0 (set_pop 0 (Some Looping) (park 1 newDialPool)))).
Lemma ex_pool_reachable : reachable ex_pool.
Proof.
  eapply reach_step; [|eapply (step_took _ 0 1 (Parked true false true)); reflexivity].
  eapply reach_step; [|eapply (step_watch _ 1 0 true (Parked true false false)); reflexivity].
  eapply reach_step; [|apply (step_top _ 0 1); [reflexivity|apply (bool_decide_unpack _); vm_compute; done]].
  eapply reach_step; [|apply step_pop; reflexivity].
  eapply reach_step; [by apply reach_init|apply step_park].
  apply (bool_decide_unpack _). vm_compute. done.
Qed.
Lemma pool_exactly_once_witness : given ex_pool = [1%nat] ∧ 1%nat ∉ shut ex_pool.
Proof.
  assert (given ex_pool = [1%nat]) as E by (vm_compute; reflexivity). split; [exact E|].
  apply (pool_exactly_once ex_pool); [apply ex_pool_reachable|]. rewrite E. left.
Defined.
Lemma pool_handover_witness :
  given ex_pool = [1%nat] ∧
  (entries ex_pool !! 1%nat = None ∨ entries ex_pool !! 1%nat = Some (Parked true false true)).
Proof.
  assert (given ex_pool = [1%nat]) as E by (vm_compute; reflexivity). split; [exact E|].
  apply (pool_handover ex_pool); [apply ex_pool_reachable|]. rewrite E. left.
Defined.

(** A pop that times out between [park] taking its channel and the send loses
    the connection: the pop has returned an error, every goroutine is gone,
    and the connection sits, open, in a channel nobody reads. *)
Lemma pop_timeout_leaks :
  ∃ p, reachable p ∧ pops p = ∅ ∧ sends p = [] ∧ waiters p = [] ∧ conns p = ∅ ∧
    at_place p 1 (Buffered 0) ∧ given p = [] ∧ (1%nat ∉ shut p).
Proof.
  pose (p1 := park 1 (pop_top 0 None 0 (set_pop 0 (Some Looping) newDialPool))).
  pose (p2 := pop_last 0 0 (pop_timeout 0 0 p1)).
  assert (∃ p, send 0 1 p2 = Some p) as [p E] by (eexists; vm_compute; reflexivity).
  exists p. split.
  - eapply reach_step; [|apply (step_send p2 0 1); [|exact E]].
    + eapply reach_step; [|apply step_last; reflexivity].
      eapply reach_step; [|apply step_timeout; reflexivity].
      eapply reach_step; [|apply step_park; apply (bool_decide_unpack _); vm_compute; done].
      eapply reach_step; [|apply step_wait; [reflexivity|reflexivity|reflexivity]].
      eapply reach_step; [by apply reach_init|apply step_pop; reflexivity].
    + apply (bool_decide_unpack _). vm_compute. done.
  - vm_compute in E. injection E as <-.
    split; [|split; [|split; [|split; [|split; [|split]]]]]; try reflexivity.
    apply (bool_decide_unpack _). vm_compute. done.
Qed.
