(* ===== verification/Seccomp.v ===== *)
(** * The seccomp user-notification machinery

    [internal/seccomp]: the bind-only filter, the notification and response
    layouts, the sockaddr read from the target and the classification of its
    socket ([seccomp.go], [seccomp_amd64.go], [seccomp_arm64.go], [tgid.go],
    [netns.go]). The kernel is a parameter: what it answers to an ioctl, a
    poll, a [pidfd_open], and how it runs a classic BPF program. *)

From S2P Require Import Prelude Wire GoStr NetIP.

Open Scope string_scope.
Open Scope list_scope.
Open Scope Z_scope.

(** ** Per-architecture constants *)
Inductive goarch := amd64 | arm64.
Definition auditArch (g : goarch) : Z := match g with amd64 => 0xC000003E | arm64 => 0xC00000B7 end.
Definition nrBind (g : goarch) : Z := match g with amd64 => 49 | arm64 => 200 end.
(** [bindNrs]: bind(2) under every ABI of the architecture; a missing key is
    the empty list. *)
Definition bindNrs (g : goarch) (arch : Z) : list Z :=
  match g with
  | amd64 => if arch =? 0xC000003E then [49; Z.lor 49 0x40000000]
             else if arch =? 0x40000003 then [361] else []
  | arm64 => if arch =? 0xC00000B7 then [200]
             else if arch =? 0x40000028 then [282] else []
  end.
Fixpoint IsBind_loop (ns : list Z) (nr : Z) : bool :=
  match ns with
  | [] => false
  | n :: ns => if n =? nr then true else IsBind_loop ns nr
  end.
Definition IsBind (g : goarch) (arch nr : Z) : bool := IsBind_loop (bindNrs g arch) nr.

(** ** The filter *)
Record sockFilter := SockFilter { f_code : Z; f_jt : nat; f_jf : nat; f_k : Z }.
Definition retAllow : Z := 0x7fff0000.
Definition retUserNotif : Z := 0x7fc00000.
Definition bpfLdWAbs : Z := 0x20.
Definition bpfJmpJeq : Z := 0x15.
Definition bpfRetK : Z := 0x06.
(** The program of [InstallBindFilter]. *)
Definition bind_filter (g : goarch) : list sockFilter :=
  [SockFilter bpfLdWAbs 0 0 4;
   SockFilter bpfJmpJeq 1 0 (auditArch g);
   SockFilter bpfRetK 0 0 retAllow;
   SockFilter bpfLdWAbs 0 0 0;
   SockFilter bpfJmpJeq 1 0 (nrBind g);
   SockFilter bpfRetK 0 0 retAllow;
   SockFilter bpfRetK 0 0 retUserNotif].

(** What the kernel documents of the opcodes used, for an execution
    [run prog data pc a]: a word load at an offset inside the data, a
    conditional jump on the accumulator and a return. *)
Class CBPF (run : list sockFilter → bytes → nat → Z → option Z) : Prop := {
  run_ld prog d pc a i : prog !! pc = Some i → f_code i = bpfLdWAbs →
    0 <= f_k i → (Z.to_nat (f_k i) + 4 <= length d)%nat →
    run prog d pc a = run prog d (S pc) (le32 (drop (Z.to_nat (f_k i)) d));
  run_jeq prog d pc a i : prog !! pc = Some i → f_code i = bpfJmpJeq →
    run prog d pc a = run prog d (S pc + (if (a =? f_k i)%Z then f_jt i else f_jf i))%nat a;
  run_ret prog d pc a i : prog !! pc = Some i → f_code i = bpfRetK →
    run prog d pc a = Some (f_k i) }.

(** An interpreter of that kind. Programs jump forward only, so the length
    of the program is enough fuel. *)
Fixpoint bpf_go (fuel : nat) (prog : list sockFilter) (d : bytes) (pc : nat) (a : Z) : option Z :=
  match fuel, prog !! pc with
  | S fuel, Some i =>
      if f_code i =? bpfLdWAbs then bpf_go fuel prog d (S pc) (le32 (drop (Z.to_nat (f_k i)) d))
      else if f_code i =? bpfJmpJeq then
        bpf_go fuel prog d (S pc + (if (a =? f_k i)%Z then f_jt i else f_jf i))%nat a
      else if f_code i =? bpfRetK then Some (f_k i) else None
  | _, _ => None
  end.
Definition bpf_run (prog : list sockFilter) (d : bytes) (pc : nat) (a : Z) : option Z :=
  bpf_go (length prog - pc) prog d pc a.

(** [struct seccomp_data]: nr s32, arch u32, instruction pointer, six args. *)
Definition seccomp_data (nr arch ip : Z) (args : list Z) : bytes :=
  le_split 4 nr ++ le_split 4 arch ++ le_split 8 ip ++ (args ≫= le_split 8).

(** ** Notifications and responses *)
Definition wrap (n z : Z) : Z := z mod 2 ^ n.
Definition signed (n z : Z) : Z := if 2 ^ (n - 1) <=? wrap n z then wrap n z - 2 ^ n else wrap n z.
Definition le64 (l : bytes) : Z := le_join (take 8 l).

Record Notif := MkNotif { nf_id : Z; nf_pid : Z; nf_nr : Z; nf_arch : Z; nf_args : list Z }.
(** The fields of [Recv]'s buffer. *)
Definition notif_of (buf : bytes) : Notif :=
  MkNotif (le64 buf) (le32 (drop 8 buf)) (signed 32 (le32 (drop 16 buf))) (le32 (drop 20 buf))
    (map (λ i, le64 (drop (32 + 8 * i) buf)) (seq 0 6)).
(** The size of its buffer, from [SECCOMP_GET_NOTIF_SIZES]. *)
Definition notif_size (sizes_notif : nat) : nat := if (sizes_notif <? 80)%nat then 80%nat else sizes_notif.
(** [Recv]: the ioctl either fails with an errno or fills the buffer. *)
Definition Recv (sizes_notif : nat) (ioctl : nat → Z + bytes) : result Z Notif :=
  match ioctl (notif_size sizes_notif) with
  | inl errno => Err errno
  | inr buf => Ok (notif_of buf)
  end.
(** [struct seccomp_notif], as the kernel fills it. *)
Definition seccomp_notif (id pid flags : Z) (data : bytes) : bytes :=
  le_split 8 id ++ le_split 4 pid ++ le_split 4 flags ++ data.

(** [send]: the response buffer, [n] bytes long. *)
Definition resp_size (sizes_resp : nat) : nat := if (sizes_resp <? 24)%nat then 24%nat else sizes_resp.
Definition send_buf (sizes_resp : nat) (id sysErr flags : Z) : bytes :=
  le_split 8 id ++ le_split 8 0 ++ le_split 4 (wrap 32 sysErr) ++ le_split 4 flags ++
  replicate (resp_size sizes_resp - 24) (z2b 0).
Definition userNotifFlagContinue : Z := 1.
Definition EADDRINUSE : Z := 98.
Definition SendErrno (sizes_resp : nat) (id errno : Z) : bytes := send_buf sizes_resp id (- errno) 0.
Definition SendContinue (sizes_resp : nat) (id : Z) : bytes :=
  send_buf sizes_resp id 0 userNotifFlagContinue.
(** [struct seccomp_notif_resp], as the kernel reads it: id, val, error, flags. *)
Definition notif_resp (buf : bytes) : Z * Z * Z * Z :=
  (le64 buf, signed 64 (le64 (drop 8 buf)), signed 32 (le32 (drop 16 buf)), le32 (drop 20 buf)).

(** ** The target's sockaddr *)
Definition AF_INET : Z := 2.
Definition AF_INET6 : Z := 10.
Record BindAddr := MkBind { ba_family : Z; ba_port : Z; ba_addr : addr }.
Inductive sockaddr_err := LenOutOfRange | MemRead | ShortSockaddr.
(** [ReadBindAddr]; [mem pid off n] is the [n] bytes at [off] of the task's
    memory, if they can all be read. *)
Definition ReadBindAddr (mem : Z → Z → nat → option bytes) (pid ptr len : Z)
  : result sockaddr_err BindAddr :=
  if (len <? 8) || (128 <? len) then Err LenOutOfRange
  else match mem pid (signed 64 ptr) (Z.to_nat len) with
  | None => Err MemRead
  | Some buf =>
      let family := le16 buf in
      if family =? AF_INET then
        if len <? 8 then Err ShortSockaddr
        else Ok (MkBind family (be16 (drop 2 buf)) (AddrFrom4 (take 4 (drop 4 buf))))
      else if family =? AF_INET6 then
        if len <? 24 then Err ShortSockaddr
        else Ok (MkBind family (be16 (drop 2 buf)) (Unmap (AddrFrom16 (take 16 (drop 8 buf)))))
      else Ok (MkBind family 0 AddrZero)
  end.
(** [struct sockaddr_in] and [sockaddr_in6]. *)
Definition sockaddr_in (port : Z) (ip : bytes) : bytes :=
  le_split 2 AF_INET ++ put_be16 port ++ ip.
Definition sockaddr_in6 (port flow : Z) (ip : bytes) : bytes :=
  le_split 2 AF_INET6 ++ put_be16 port ++ le_split 4 flow ++ ip.

(** ** The target's socket *)
Inductive tgid_err := NoStatus | NoTgid | BadTgid.
Fixpoint tgid_lines (ls : list string) : result tgid_err Z :=
  match ls with
  | [] => Err NoTgid
  | line :: ls =>
      match CutPrefix "Tgid:" line with
      | Some rest => match Atoi (TrimSpace rest) with Ok n => Ok n | Err _ => Err BadTgid end
      | None => tgid_lines ls
      end
  end.
Definition parseTgid (status : string) : result tgid_err Z := tgid_lines (Split "010"%char status).

Definition EINVAL : Z := 22.
Definition ENOENT : Z := 2.
Definition ESRCH : Z := 3.
Definition SOCK_STREAM : Z := 1.

(** What the kernel answers about a task: [pidfd_open] and, on the fd it
    returns, [pidfd_getfd] with the two socket options; the status document;
    the network namespace links. *)
Record kernel := Kernel {
  PidfdOpen : Z → result Z Z;
  PidfdGetfd : Z → Z → result Z Z;
  SoType : Z → result Z Z;
  SoDomain : Z → result Z Z;
  status : Z → option string;
  self_netns : option string;
  netns : Z → option string }.

Inductive pidfd_err := PidfdErrno (e : Z) | TgidErr (e : tgid_err) | GetFd | GetType | GetDomain.
Definition tgidOf (K : kernel) (tid : Z) : result tgid_err Z :=
  match status K tid with None => Err NoStatus | Some s => parseTgid s end.
Definition openPidfd (K : kernel) (pid : Z) : result pidfd_err Z :=
  match PidfdOpen K pid with
  | Ok fd => Ok fd
  | Err e =>
      if negb ((e =? EINVAL) || (e =? ENOENT) || (e =? ESRCH)) then Err (PidfdErrno e)
      else match tgidOf K pid with
      | Err te => Err (TgidErr te)
      | Ok tgid =>
          if tgid =? pid then Err (PidfdErrno e)
          else match PidfdOpen K tgid with Ok fd => Ok fd | Err e2 => Err (PidfdErrno e2) end
      end
  end.
(** [int(sockfd)] of a 64-bit argument. *)
Definition IsInetStream (K : kernel) (pid sockfd : Z) : result pidfd_err bool :=
  match openPidfd K pid with
  | Err e => Err e
  | Ok pidfd =>
      match PidfdGetfd K pidfd (signed 64 sockfd) with
      | Err _ => Err GetFd
      | Ok fd =>
          match SoType K fd with
          | Err _ => Err GetType
          | Ok typ =>
              match SoDomain K fd with
              | Err _ => Err GetDomain
              | Ok dom => Ok ((typ =? SOCK_STREAM) && ((dom =? AF_INET) || (dom =? AF_INET6)))
              end
          end
      end
  end.
(** [SameNetNS]; an unreadable link is the error. *)
Definition SameNetNS (K : kernel) (pid : Z) : option bool :=
  match self_netns K with
  | None => None
  | Some self => match netns K pid with None => None | Some other => Some (String.eqb self other) end
  end.

(** ** Facts *)
Lemma le32_app n rest : le32 (le_split 4 n ++ rest) = wrap 32 n.
Proof.
  unfold le32. rewrite take_app_length' by by rewrite length_le_split. apply le_join_split.
Qed.
Lemma le64_app n rest : le64 (le_split 8 n ++ rest) = wrap 64 n.
Proof.
  unfold le64. rewrite take_app_length' by by rewrite length_le_split. apply le_join_split.
Qed.
Lemma le16_app n rest : le16 (le_split 2 n ++ rest) = n mod 65536.
Proof.
  unfold le16. rewrite take_app_length' by by rewrite length_le_split. apply le_join_split.
Qed.

(** Dropping past whole fields. *)
Lemma drop_field n k z rest : drop (n + k) (le_split n z ++ rest) = drop k rest.
Proof.
  rewrite drop_app_add'; [done|by rewrite length_le_split].
Qed.
Lemma signed_wrap n z : 0 < n → signed n (wrap n z) = signed n z.
Proof. intros. unfold signed, wrap. by rewrite Z.mod_mod by lia. Qed.
Lemma signed_small n z : 0 < n → - 2 ^ (n - 1) <= z < 2 ^ (n - 1) → signed n z = z.
Proof.
  intros Hn Hz. unfold signed, wrap.
  assert (2 ^ n = 2 * 2 ^ (n - 1)) as E by (rewrite <- Z.pow_succ_r by lia; f_equal; lia).
  destruct (Z.lt_ge_cases z 0).
  - replace (z mod 2 ^ n) with (z + 2 ^ n).
    + rewrite (proj2 (Z.leb_le _ _)); lia.
    + rewrite <- (Z_mod_plus_full z 1), Z.mul_1_l. by rewrite Z.mod_small by lia.
  - rewrite Z.mod_small by lia. by rewrite (proj2 (Z.leb_gt _ _)) by lia.
Qed.

Lemma bpf_go_fuel prog d f1 : ∀ f2 pc a,
  (length prog - pc <= f1)%nat → (length prog - pc <= f2)%nat →
  bpf_go f1 prog d pc a = bpf_go f2 prog d pc a.
Proof.
  induction f1 as [|f1 IH]; intros f2 pc a H1 H2.
  - destruct f2 as [|f2]; [done|]. cbn.
    by rewrite (proj2 (lookup_ge_None prog pc)) by lia.
  - destruct f2 as [|f2]; cbn.
    + by rewrite (proj2 (lookup_ge_None prog pc)) by lia.
    + destruct (prog !! pc) as [i|] eqn:E; [|done]. apply lookup_lt_Some in E.
      repeat case_match; (done || apply IH; lia).
Qed.
Lemma bpf_run_unfold prog d pc a i : prog !! pc = Some i →
  ∃ f, bpf_run prog d pc a = bpf_go (S f) prog d pc a ∧ (length prog - S pc <= f)%nat.
Proof.
  intros E%lookup_lt_Some. exists (length prog - S pc)%nat. split; [|lia].
  apply bpf_go_fuel; lia.
Qed.
#[export] Instance bpf_run_CBPF : CBPF bpf_run.
Proof.
  split.
  - intros prog d pc a i E Ec _ _. destruct (bpf_run_unfold prog d pc a i E) as (f & -> & Hf).
    cbn. rewrite E, Ec. apply bpf_go_fuel; lia.
  - intros prog d pc a i E Ec. destruct (bpf_run_unfold prog d pc a i E) as (f & -> & Hf).
    cbn. rewrite E, Ec. apply bpf_go_fuel; lia.
  - intros prog d pc a i E Ec. destruct (bpf_run_unfold prog d pc a i E) as (f & -> & Hf).
    cbn. by rewrite E, Ec.
Qed.

Lemma IsBind_elem g arch nr : IsBind g arch nr = true ↔ nr ∈ bindNrs g arch.
Proof.
  unfold IsBind. induction (bindNrs g arch) as [|n ns IH]; cbn; [set_solver|].
  rewrite elem_of_cons. destruct (Z.eqb_spec n nr); naive_solver.
Qed.

(** ** Properties *)

(** C21: on any machine that runs the three opcodes as documented, the filter
    notifies exactly bind(2) under the native ABI and lets everything else
    through; and what it notifies, the supervisor's [IsBind] recognises. *)
Theorem filter_notifies_bind run `{!CBPF run} g nr arch ip args :
  length args = 6%nat → 0 <= arch < 2 ^ 32 → - 2 ^ 31 <= nr < 2 ^ 31 →
  run (bind_filter g) (seccomp_data nr arch ip args) 0%nat 0 =
    Some (if bool_decide (arch = auditArch g ∧ nr = nrBind g) then retUserNotif else retAllow) ∧
  (run (bind_filter g) (seccomp_data nr arch ip args) 0%nat 0 = Some retUserNotif →
   IsBind g arch nr = true).
Proof.
  intros HL Ha Hn.
  assert (length (seccomp_data nr arch ip args) = 64%nat) as L.
  { unfold seccomp_data. rewrite !length_app, !length_le_split.
    do 7 (destruct args; try discriminate). reflexivity. }
  assert (run (bind_filter g) (seccomp_data nr arch ip args) 0%nat 0 =
    Some (if bool_decide (arch = auditArch g ∧ nr = nrBind g) then retUserNotif else retAllow)) as E.
  { rewrite (run_ld _ _ 0%nat _ (SockFilter bpfLdWAbs 0 0 4)) by (done || (rewrite L; cbn; lia)).
    rewrite (run_jeq _ _ 1 _ (SockFilter bpfJmpJeq 1 0 (auditArch g))) by done.
    replace (le32 _) with arch; [cbn [f_k f_jt f_jf]|].
    2:{ unfold seccomp_data. change (Z.to_nat (f_k _)) with (4 + 0)%nat. rewrite drop_field.
        rewrite drop_0, le32_app. unfold wrap. by rewrite Z.mod_small. }
    destruct (Z.eqb_spec arch (auditArch g)) as [->|Na]; cbn [Nat.add].
    2:{ rewrite (run_ret _ _ 2 _ (SockFilter bpfRetK 0 0 retAllow)) by done.
        by rewrite bool_decide_eq_false_2 by tauto. }
    rewrite (run_ld _ _ 3 _ (SockFilter bpfLdWAbs 0 0 0)) by (done || (rewrite L; cbn; lia)).
    rewrite (run_jeq _ _ 4 _ (SockFilter bpfJmpJeq 1 0 (nrBind g))) by done.
    replace (le32 _) with (wrap 32 nr); [cbn [f_k f_jt f_jf]|symmetry; apply le32_app].
    destruct (Z.eqb_spec (wrap 32 nr) (nrBind g)) as [Hw|Hw]; cbn [Nat.add].
    - rewrite (run_ret _ _ 6 _ (SockFilter bpfRetK 0 0 retUserNotif)) by done.
      rewrite bool_decide_eq_true_2; [done|]. split; [done|].
      rewrite <- (signed_small 32 nr), <- signed_wrap, Hw by lia. by destruct g.
    - rewrite (run_ret _ _ 5 _ (SockFilter bpfRetK 0 0 retAllow)) by done.
      rewrite bool_decide_eq_false_2; [done|]. intros [_ ->]. by destruct g. }
  split; [exact E|]. rewrite E. intros [= H]. case_bool_decide as Hb; [|done].
  destruct Hb as [-> ->]. by destruct g.
Qed.
Lemma filter_notifies_bind_witness :
  bpf_run (bind_filter arm64) (seccomp_data 200 0xC00000B7 0 [0; 0; 0; 0; 0; 0]) 0%nat 0 = Some retUserNotif ∧
  IsBind arm64 0xC00000B7 200 = true.
Proof.
  assert (bpf_run (bind_filter arm64) (seccomp_data 200 0xC00000B7 0 [0; 0; 0; 0; 0; 0]) 0%nat 0 = Some retUserNotif) as E
    by (vm_compute; reflexivity).
  split; [exact E|].
  apply (filter_notifies_bind bpf_run arm64 200 0xC00000B7 0 [0; 0; 0; 0; 0; 0]); [reflexivity|lia|lia|exact E].
Defined.

(** The word a field holds, when it fits. *)
Lemma le64_field z rest : 0 <= z < 2 ^ 64 → le64 (le_split 8 z ++ rest) = z.
Proof. intros. rewrite le64_app. by apply Z.mod_small. Qed.
Lemma le32_field z rest : 0 <= z < 2 ^ 32 → le32 (le_split 4 z ++ rest) = z.
Proof. intros. rewrite le32_app. by apply Z.mod_small. Qed.
Ltac fields := 
  repeat match goal with
  | |- context [drop ?m (le_split ?n ?z ++ ?r)] =>
      let k := eval vm_compute in (m - n)%nat in
      replace (drop m (le_split n z ++ r)) with (drop k r)
        by exact (eq_sym (drop_field n k z r))
  end; rewrite ?drop_0.

Lemma notif_of_struct id pid flags nr arch ip args pad :
  0 <= id < 2 ^ 64 → 0 <= pid < 2 ^ 32 → - 2 ^ 31 <= nr < 2 ^ 31 → 0 <= arch < 2 ^ 32 →
  length args = 6%nat → Forall (λ x, 0 <= x < 2 ^ 64) args →
  notif_of (seccomp_notif id pid flags (seccomp_data nr arch ip args) ++ pad) =
  MkNotif id pid nr arch args.
Proof.
  intros H1 H2 H3 H4 HL HF.
  do 6 (destruct args as [|? args]; [done|]). destruct args; [|done]. clear HL.
  repeat (apply list.Forall_cons in HF as [? HF]).
  unfold notif_of, seccomp_notif, seccomp_data.
  cbn [mbind list_bind]. rewrite <- !(assoc_L (++)).
  f_equal.
  - by rewrite le64_field.
  - fields. by rewrite le32_field.
  - fields. rewrite le32_app, signed_wrap by lia. by apply signed_small.
  - fields. by rewrite le32_field.
  - cbn [seq map Nat.add Nat.mul]. fields. by rewrite !le64_field.
Qed.

(** The notification and response layouts agree with the kernel's
    structures: [Recv] reads back every field of the [struct seccomp_notif]
    the ioctl filled, the syscall number with its sign, whatever follows it;
    the kernel reads the buffers of [SendErrno] and [SendContinue], which are
    as long as it demands, as that errno, or the continue flag, for that
    notification. *)
Theorem notif_layout sn sr ioctl id pid flags nr arch ip args pad errno :
  0 <= id < 2 ^ 64 → 0 <= pid < 2 ^ 32 → - 2 ^ 31 <= nr < 2 ^ 31 → 0 <= arch < 2 ^ 32 →
  length args = 6%nat → Forall (λ x, 0 <= x < 2 ^ 64) args → 0 <= errno < 4096 →
  ioctl (notif_size sn) = inr (seccomp_notif id pid flags (seccomp_data nr arch ip args) ++ pad) →
  Recv sn ioctl = Ok (MkNotif id pid nr arch args) ∧
  notif_resp (SendErrno sr id errno) = (id, 0, - errno, 0) ∧
  notif_resp (SendContinue sr id) = (id, 0, 0, userNotifFlagContinue) ∧
  length (SendErrno sr id errno) = resp_size sr ∧
  length (SendContinue sr id) = resp_size sr.
Proof.
  intros H1 H2 H3 H4 HL HF He Hi. unfold Recv. rewrite Hi. rewrite notif_of_struct by done.
  assert (∀ e f, - 4096 < e <= 0 → 0 <= f < 2 ^ 32 →
    notif_resp (send_buf sr id e f) = (id, 0, e, f)) as HR.
  { intros e f Hr Hf. unfold notif_resp, send_buf. fields.
    rewrite !le64_field, (le32_field f) by lia. rewrite le32_app.
    by rewrite !signed_wrap, (signed_small 32 e) by lia. }
  assert (∀ e f, length (send_buf sr id e f) = resp_size sr) as HN.
  { intros e f. unfold send_buf. rewrite !length_app, !length_le_split, length_replicate.
    unfold resp_size. destruct (Nat.ltb_spec sr 24); lia. }
  split; [done|]. unfold SendErrno, SendContinue.
  rewrite !HR, !HN by (unfold userNotifFlagContinue; lia). done.
Qed.
Lemma notif_layout_witness :
  Recv 80 (λ n, inr (seccomp_notif 7 1234 0 (seccomp_data (-1) 0xC000003E 0 [3; 4096; 16; 0; 0; 0]))) =
  Ok (MkNotif 7 1234 (-1) 0xC000003E [3; 4096; 16; 0; 0; 0]).
Proof.
  apply (notif_layout 80 24 (λ n, inr (seccomp_notif 7 1234 0 (seccomp_data (-1) 0xC000003E 0 [3; 4096; 16; 0; 0; 0])))
    7 1234 0 (-1) 0xC000003E 0 [3; 4096; 16; 0; 0; 0] [] 98); try lia; try reflexivity.
  repeat constructor; lia.
Defined.

(** The sockaddr read from the target is the one the kernel would bind:
    for a [sockaddr_in] or [sockaddr_in6] the task passed with any admissible
    length, its port and its address, an IPv4-mapped one as IPv4; a length
    outside 8..128, an IPv6 address cut short and unreadable memory are
    errors, and any other family comes back with no address. *)
Theorem bind_addr_read mem pid ptr len buf :
  0 <= len → (∀ n b, mem pid (signed 64 ptr) n = Some b → length b = n) →
  mem pid (signed 64 ptr) (Z.to_nat len) = buf →
  (∀ port ip pad, 0 <= port < 65536 → length ip = 4%nat → 8 <= len <= 128 →
     buf = Some (sockaddr_in port ip ++ pad) →
     ReadBindAddr mem pid ptr len = Ok (MkBind AF_INET port (AddrFrom4 ip))) ∧
  (∀ port flow ip pad, 0 <= port < 65536 → length ip = 16%nat → 24 <= len <= 128 →
     buf = Some (sockaddr_in6 port flow ip ++ pad) →
     ReadBindAddr mem pid ptr len = Ok (MkBind AF_INET6 port (Unmap (AddrFrom16 ip)))) ∧
  (¬ 8 <= len <= 128 → ReadBindAddr mem pid ptr len = Err LenOutOfRange) ∧
  (8 <= len <= 128 → buf = None → ReadBindAddr mem pid ptr len = Err MemRead) ∧
  (∀ r, ReadBindAddr mem pid ptr len = Ok r → ba_family r = AF_INET6 → 24 <= len).
Proof.
  intros H0 HM <-. unfold ReadBindAddr.
  assert (∀ l : Z, (l <? 8) || (128 <? l) = false ↔ 8 <= l <= 128) as HB by (intros; rewrite orb_false_iff, !Z.ltb_ge; lia).
  split; [|split; [|split; [|split]]].
  - intros port ip pad Hp Hi HL E. apply HB in HL as HL'. rewrite HL', E.
    unfold sockaddr_in. rewrite <- !(assoc_L (++)), le16_app. change (AF_INET mod 65536 =? AF_INET) with true.
    cbn [negb]. rewrite (proj2 (Z.ltb_ge _ _)) by lia.
    fields. rewrite be16_put by done. unfold put_be16.
    rewrite (drop_app_length' (be_split 2 port)) by by rewrite length_be_split.
    by rewrite take_app_length' by done.
  - intros port flow ip pad Hp Hi HL E. assert (8 <= len <= 128) as HL' by lia.
    apply HB in HL'. rewrite HL', E.
    unfold sockaddr_in6. rewrite <- !(assoc_L (++)), le16_app. 
    change (AF_INET6 mod 65536 =? AF_INET) with false. change (AF_INET6 mod 65536 =? AF_INET6) with true.
    rewrite (proj2 (Z.ltb_ge len 24)) by lia.
    fields. rewrite be16_put by done. unfold put_be16.
    assert (∀ r, drop 6 (be_split 2 port ++ r) = drop 4 r) as ->.
    { intros r. by rewrite drop_app_ge, length_be_split by (rewrite length_be_split; lia). }
    fields. by rewrite take_app_length' by done.
  - intros HL. destruct ((len <? 8) || (128 <? len)) eqn:E; [done|]. by apply HB in E.
  - intros HL E. apply HB in HL as ->. by rewrite E.
  - intros r. destruct ((len <? 8) || (128 <? len)); [discriminate|].
    destruct (mem pid (signed 64 ptr) (Z.to_nat len)) as [b|]; [|discriminate]. cbv zeta.
    destruct (Z.eqb_spec (le16 b) AF_INET) as [E1|E1].
    { destruct (len <? 8); [discriminate|]. intros H F. apply (f_equal (λ x, ba_family <$> match x with Ok a => Some a | Err _ => None end)) in H.
      injection H as H. rewrite <- H, E1 in F. discriminate. }
    destruct (Z.eqb_spec (le16 b) AF_INET6) as [E2|E2].
    { destruct (Z.ltb_spec len 24); [discriminate|]. lia. }
    intros H F. injection H as H. rewrite <- H in F. contradiction.
Qed.
Definition ex_mem (_ _ : Z) (n : nat) : option bytes :=
  if (n <=? 128)%nat then
    Some (take n (sockaddr_in 8080 (map z2b [127; 0; 0; 1]) ++ replicate 120 (z2b 0)))
  else None.
Lemma bind_addr_read_witness :
  ReadBindAddr ex_mem 1 0 16 = Ok (MkBind AF_INET 8080 (AddrFrom4 (map z2b [127; 0; 0; 1]))).
Proof.
  apply (bind_addr_read ex_mem 1 0 16 (ex_mem 1 0 16)) with (pad := replicate 8 (z2b 0)); try lia; try reflexivity.
  intros n b. unfold ex_mem. destruct (Nat.leb_spec n 128) as [Hn|]; [|done]. intros [= <-].
  rewrite length_take. cbn. lia.
Defined.

(** [parseTgid] on a status document: the lines before the field are skipped,
    the ones after it are never looked at. *)
Lemma parseTgid_doc pre post n :
  0 <= n < 2 ^ 63 →
  Forall (λ l, has_byte "010"%char l = false ∧ CutPrefix "Tgid:" l = None) pre →
  Forall (λ l, has_byte "010"%char l = false) post →
  parseTgid (Join (pre ++ ("Tgid:" +:+ String "009"%char (Itoa n)) :: post) (String "010"%char "")) = Ok n.
Proof.
  intros Hn Hpre Hpost. unfold parseTgid. rewrite Split_Join.
  - induction Hpre as [|l pre [_ E] _ IH]; cbn [app tgid_lines]; [|by rewrite E].
    rewrite (proj2 (CutPrefix_Some _ _ _) eq_refl), TrimSpace_cons by done.
    by rewrite TrimSpace_Itoa, Atoi_Itoa by lia.
  - by destruct pre.
  - apply list.Forall_app. split; [by eapply list.Forall_impl; [exact Hpre|intros ? []]|].
    apply list.Forall_cons. split; [|done]. rewrite has_byte_app. cbn.
    by apply (str_forall_has is_dec); [apply Itoa_dec; lia|].
Qed.

(** A thread is classified as its process. Where [pidfd_open] takes only
    group leaders, the supervisor's answer about a socket of any thread is
    the answer for the leader its status document names; a pid it refuses for
    another reason is an error, and never one of another process. *)
Theorem thread_classified K tid tgid e pre post fd :
  0 <= tgid < 2 ^ 31 → tid ≠ tgid →
  PidfdOpen K tid = Err e → is_ok (PidfdOpen K tgid) = true →
  Forall (λ l, has_byte "010"%char l = false ∧ CutPrefix "Tgid:" l = None) pre →
  Forall (λ l, has_byte "010"%char l = false) post →
  status K tid = Some (Join (pre ++ ("Tgid:" +:+ String "009"%char (Itoa tgid)) :: post) (String "010"%char "")) →
  (e = EINVAL ∨ e = ENOENT ∨ e = ESRCH → IsInetStream K tid fd = IsInetStream K tgid fd) ∧
  (¬ (e = EINVAL ∨ e = ENOENT ∨ e = ESRCH) → IsInetStream K tid fd = Err (PidfdErrno e)).
Proof.
  intros Ht Hn HE HO Hpre Hpost HS.
  assert (tgidOf K tid = Ok tgid) as HT.
  { unfold tgidOf. rewrite HS. apply parseTgid_doc; [lia|done|done]. }
  assert (negb ((e =? EINVAL) || (e =? ENOENT) || (e =? ESRCH)) = false ↔
    e = EINVAL ∨ e = ENOENT ∨ e = ESRCH) as HB.
  { rewrite negb_false_iff, !orb_true_iff, !Z.eqb_eq. tauto. }
  unfold IsInetStream, openPidfd. rewrite HE. split; intros Hc.
  - apply HB in Hc. rewrite Hc, HT. rewrite (proj2 (Z.eqb_neq _ _)) by done.
    by destruct (PidfdOpen K tgid).
  - destruct (negb ((e =? EINVAL) || (e =? ENOENT) || (e =? ESRCH))); [done|]. by destruct (Hc (proj1 HB eq_refl)).
Qed.
(** A machine whose only leader is task 10, with a TCP socket as fd 3. *)
Definition ex_kernel : kernel :=
  Kernel (λ p, if p =? 10 then Ok 77 else Err ENOENT)
    (λ _ fd, if fd =? 3 then Ok 4 else Err 9) (λ _, Ok SOCK_STREAM) (λ _, Ok AF_INET6)
    (λ p, if p =? 11 then Some (Join ["Name:x"; "Tgid:" +:+ String "009"%char (Itoa 10); "Pid: 11"] (String "010"%char "")) else None)
    (Some "net:[1]") (λ _, Some "net:[1]").
Lemma thread_classified_witness :
  IsInetStream ex_kernel 11 3 = Ok true ∧ IsInetStream ex_kernel 11 3 = IsInetStream ex_kernel 10 3.
Proof.
  split; [vm_compute; reflexivity|].
  apply (thread_classified ex_kernel 11 10 ENOENT ["Name:x"] ["Pid: 11"] 3); try reflexivity; try lia.
  - repeat constructor.
  - repeat constructor.
Defined.
