(* ===== verification/FdStore.v ===== *)
(** * The systemd fd store

    [internal/fdstore/fdstore.go] and the naming of [internal/agent/fdstore.go]:
    the datagrams that park and drop a notify fd under a name, and the
    [LISTEN_*] environment through which a restarted agent gets its fds back. *)

From S2P Require Import Prelude GoStr.

Open Scope string_scope.
Open Scope list_scope.
Open Scope Z_scope.

Definition Prefix : string := "notify-".
Definition MaxNameLen : nat := 255.
(** The characters [ValidName] refuses; the check runs over runes, and a rune
    above 0x7f has none of these bytes. *)
Definition bad_name_char (c : ascii) : bool :=
  Ascii.eqb c ":" || (code c <? 0x20) || (code c =? 0x7f).
Inductive name_err := EmptyName | LongName | BadChar.
Definition ValidName (name : string) : option name_err :=
  if String.eqb name "" then Some EmptyName
  else if (MaxNameLen <? String.length name)%nat then Some LongName
  else if str_forall (λ c, negb (bad_name_char c)) name then None else Some BadChar.

Definition newline : string := String "010"%char "".
Definition StoreMessage (name : string) : result name_err string :=
  match ValidName name with
  | Some e => Err e
  | None => Ok ("FDSTORE=1" +:+ newline +:+ "FDNAME=" +:+ name +:+ newline)
  end.
Definition RemoveMessage (name : string) : result name_err string :=
  match ValidName name with
  | Some e => Err e
  | None => Ok ("FDSTOREREMOVE=1" +:+ newline +:+ "FDNAME=" +:+ name +:+ newline)
  end.

Record Inherited := MkInherited { in_fd : Z; in_name : string }.
Definition ListenFdStart : Z := 3.
Inductive listen_err := BadListenPid | BadListenFds | BadListenNames.
(** [ParseListenEnv]; an unset variable reads as the empty string. *)
Definition ParseListenEnv (getenv : string → string) (pid : Z) : result listen_err (list Inherited) :=
  let pidStr := getenv "LISTEN_PID" in
  let fdsStr := getenv "LISTEN_FDS" in
  if String.eqb pidStr "" || String.eqb fdsStr "" then Ok []
  else match Atoi pidStr with
  | Err _ => Err BadListenPid
  | Ok lp =>
      if negb (lp =? pid) then Ok []
      else match Atoi fdsStr with
      | Err _ => Err BadListenFds
      | Ok n =>
          if n <? 0 then Err BadListenFds
          else if n =? 0 then Ok []
          else
            let raw := getenv "LISTEN_FDNAMES" in
            match (if String.eqb raw "" then Some (replicate (Z.to_nat n) "unknown")
                   else let parts := Split ":"%char raw in
                        if negb (Z.of_nat (length parts) =? n) then None else Some parts) with
            | None => Err BadListenNames
            | Some names => Ok (imap (λ i name, MkInherited (ListenFdStart + Z.of_nat i) name) names)
            end
      end
  end.
Definition IsNotifyName (name : string) : bool := HasPrefix name Prefix.

(** The name [notifyStore.add] gives the [seq]th fd of a process started at
    [nonce]. *)
Definition store_name (nonce seq : Z) : string :=
  Prefix +:+ FormatUint nonce 16 +:+ "-" +:+ Itoa seq.

(** ** Facts *)
Lemma ValidName_char name c : ValidName name = None → bad_name_char c = true → has_byte c name = false.
Proof.
  unfold ValidName. repeat case_match; try done. intros _ Hc.
  eapply str_forall_has; [eassumption|]. cbn. by rewrite Hc.
Qed.
Lemma ValidName_nonempty name : ValidName name = None → name ≠ "".
Proof. unfold ValidName. destruct (String.eqb_spec name ""); done. Qed.

Lemma utoa_go_length fuel base n acc :
  (String.length (utoa_go fuel base n acc) <= fuel + String.length acc)%nat.
Proof.
  revert n acc. induction fuel as [|fuel IH]; intros n acc; cbn [utoa_go]; [done|].
  case_match; [cbn; lia|]. etrans; [apply IH|]. cbn. lia.
Qed.
Lemma FormatUint_length n base : 0 <= n < 2 ^ 64 → (String.length (FormatUint n base) <= 64)%nat.
Proof.
  intros Hn. unfold FormatUint. etrans; [apply utoa_go_length|]. cbn [String.length].
  assert (Z.log2 n < 64); [|lia]. destruct (Z.eq_dec n 0) as [->|]; [done|].
  apply Z.log2_lt_pow2; lia.
Qed.

(** Hexadecimal text. *)
Definition is_hex (c : ascii) : bool := is_dec c || (97 <=? code c) && (code c <=? 102).
Lemma digit_chr_hex d : 0 <= d < 16 → is_hex (digit_chr d) = true.
Proof.
  intros Hd. unfold is_hex, is_dec, digit_chr, code.
  rewrite N_ascii_embedding by (case_match; lia).
  destruct (Z.ltb_spec d 10); rewrite Z2N.id by lia; lia.
Qed.
Lemma utoa_go_hex fuel n acc :
  0 <= n → str_forall is_hex acc = true → str_forall is_hex (utoa_go fuel 16 n acc) = true.
Proof.
  revert n acc. induction fuel as [|fuel IH]; intros n acc Hn HA; cbn [utoa_go]; [done|].
  assert (str_forall is_hex (String (digit_chr (n mod 16)) acc) = true) as HB.
  { cbn. rewrite HA, digit_chr_hex; [done|]. apply Z.mod_pos_bound. lia. }
  case_match; [done|]. apply IH; [by apply Z.div_pos|done].
Qed.
Lemma hex_good c : is_hex c = true → negb (bad_name_char c) = true.
Proof.
  unfold is_hex, is_dec, bad_name_char. destruct (Ascii.eqb_spec c ":") as [->|]; [done|]. lia.
Qed.
Lemma store_name_inj n s n' s' :
  0 <= n < 2 ^ 64 → 0 <= n' < 2 ^ 64 → 0 <= s < 2 ^ 64 → 0 <= s' < 2 ^ 64 →
  store_name n s = store_name n' s' → n = n' ∧ s = s'.
Proof.
  intros Hn Hn' Hs Hs' E. unfold store_name in E.
  apply (f_equal (CutPrefix Prefix)) in E.
  rewrite !(proj2 (CutPrefix_Some _ _ _) eq_refl) in E. injection E as E.
  assert (∀ m, 0 <= m → has_byte "-" (FormatUint m 16) = false) as HF.
  { intros m Hm. apply (str_forall_has is_hex); [|done]. by apply utoa_go_hex. }
  apply (f_equal (Cut "-")) in E.
  pose proof (Cut_fresh "-"%char "" (FormatUint n 16) (Itoa s) (HF n ltac:(lia))) as C1.
  pose proof (Cut_fresh "-"%char "" (FormatUint n' 16) (Itoa s') (HF n' ltac:(lia))) as C2.
  pose proof (eq_trans (eq_sym C1) (eq_trans E C2)) as E'. injection E' as E1 E2.
  apply (f_equal (λ t, ParseUint t 16 64)) in E1. apply (f_equal (λ t, ParseUint t 10 64)) in E2.
  rewrite !ParseUint_Format in E1 by lia. rewrite !ParseUint_Itoa in E2 by lia. by simplify_eq.
Qed.
Lemma store_name_valid n s :
  0 <= n < 2 ^ 64 → 0 <= s < 2 ^ 64 → ValidName (store_name n s) = None.
Proof.
  intros Hn Hs. unfold ValidName, store_name, Prefix.
  assert (HL : (String.length ("notify-" +:+ FormatUint n 16 +:+ "-" +:+ Itoa s) <= 255)%nat).
  { rewrite !append_length. pose proof (FormatUint_length n 16 Hn).
    pose proof (FormatUint_length s 10 Hs). unfold Itoa. cbn [String.length]. lia. }
  destruct (String.eqb_spec ("notify-" +:+ FormatUint n 16 +:+ "-" +:+ Itoa s) "") as [E|_]; [done|].
  rewrite (proj2 (Nat.ltb_ge _ _)) by done.
  rewrite !str_forall_app.
  rewrite (str_forall_impl is_hex _ (FormatUint n 16) hex_good) by (apply utoa_go_hex; [lia|done]).
  rewrite (str_forall_impl is_hex _ (Itoa s) hex_good); [done|].
  eapply str_forall_impl; [|apply (Itoa_dec s); lia]. intros c Hc. unfold is_hex. by rewrite Hc.
Qed.

(** ** Properties *)

(** The names the agent parks fds under are acceptable to the store,
    carry the adoption prefix, and no two fds of this process, or of any
    process started at another time, share one, so removing one name never
    drops another container's fd. *)
Theorem store_names nonce seq :
  0 <= nonce < 2 ^ 64 → 0 <= seq < 2 ^ 64 →
  IsNotifyName (store_name nonce seq) = true ∧
  is_ok (StoreMessage (store_name nonce seq)) = true ∧
  is_ok (RemoveMessage (store_name nonce seq)) = true ∧
  (∀ nonce' seq', 0 <= nonce' < 2 ^ 64 → 0 <= seq' < 2 ^ 64 →
     store_name nonce seq = store_name nonce' seq' → nonce = nonce' ∧ seq = seq').
Proof.
  intros Hn Hs. unfold StoreMessage, RemoveMessage. rewrite store_name_valid by done.
  split; [|split; [done|split; [done|]]].
  - unfold IsNotifyName, HasPrefix, store_name. by rewrite (proj2 (CutPrefix_Some _ _ _) eq_refl).
  - intros n' s' Hn' Hs'. by apply store_name_inj.
Qed.
Lemma store_names_witness : IsNotifyName (store_name 255 3) = true ∧ store_name 255 3 = "notify-ff-3".
Proof. split; [apply store_names; lia|vm_compute; reflexivity]. Defined.

(** The restart hand-over. Fds stored under valid names come back in
    order, numbered from 3, each with its name; an environment addressed to
    another process adopts nothing; a names list of the wrong length is an
    error and adopts nothing. *)
Theorem listen_env names pid getenv :
  0 <= pid < 2 ^ 63 → names ≠ [] → Z.of_nat (length names) < 2 ^ 63 →
  Forall (λ w, ValidName w = None) names →
  getenv "LISTEN_PID" = Itoa pid → getenv "LISTEN_FDNAMES" = Join names ":" →
  (getenv "LISTEN_FDS" = Itoa (Z.of_nat (length names)) →
     ParseListenEnv getenv pid = Ok (imap (λ i w, MkInherited (3 + Z.of_nat i) w) names)) ∧
  (∀ other, other ≠ pid → ParseListenEnv getenv other = Ok []) ∧
  (∀ n, 0 < n < 2 ^ 63 → n ≠ Z.of_nat (length names) → getenv "LISTEN_FDS" = Itoa n →
     ParseListenEnv getenv pid = Err BadListenNames).
Proof.
  intros Hp Hne Hlen HV EP EN.
  assert (∀ z, 0 <= z → String.eqb (Itoa z) "" = false) as HI.
  { intros z Hz. destruct (String.eqb_spec (Itoa z) ""); [|done]. by destruct (Itoa_dec z Hz). }
  assert (String.eqb (Join names ":") "" = false) as HJ.
  { destruct names as [|w ws]; [done|]. apply list.Forall_cons in HV as [Hw _].
    apply ValidName_nonempty in Hw. destruct w; [done|]. by destruct ws. }
  assert (Split ":"%char (Join names ":") = names) as HS.
  { apply Split_Join; [done|]. eapply list.Forall_impl; [exact HV|].
    intros w Hw. by apply ValidName_char. }
  assert (0 < Z.of_nat (length names)) as Hpos by (destruct names; [done|cbn; lia]).
  split; [|split].
  - intros EF. unfold ParseListenEnv. rewrite EP, EF, EN, !HI by lia. cbn [orb].
    rewrite !Atoi_Itoa by lia. rewrite Z.eqb_refl. cbn [negb].
    rewrite (proj2 (Z.ltb_ge _ _)), (proj2 (Z.eqb_neq _ 0)) by lia.
    by rewrite HJ, HS, Z.eqb_refl.
  - intros other Ho. unfold ParseListenEnv. rewrite EP, HI by lia.
    destruct (String.eqb (getenv "LISTEN_FDS") ""); [done|]. cbn [orb].
    rewrite Atoi_Itoa by lia. by rewrite (proj2 (Z.eqb_neq pid other)).
  - intros n Hn Hneq EF. unfold ParseListenEnv. rewrite EP, EF, EN, !HI by lia. cbn [orb].
    rewrite !Atoi_Itoa by lia. rewrite Z.eqb_refl. cbn [negb].
    rewrite (proj2 (Z.ltb_ge _ _)), (proj2 (Z.eqb_neq _ 0)) by lia.
    rewrite HJ, HS. by rewrite (proj2 (Z.eqb_neq _ n)).
Qed.
Definition ex_env (v : string) : string :=
  if String.eqb v "LISTEN_PID" then Itoa 41
  else if String.eqb v "LISTEN_FDS" then Itoa 2
  else if String.eqb v "LISTEN_FDNAMES" then "notify-a-1:notify-a-2" else "".
Lemma listen_env_witness :
  ParseListenEnv ex_env 41 = Ok [MkInherited 3 "notify-a-1"; MkInherited 4 "notify-a-2"].
Proof.
  apply (listen_env ["notify-a-1"; "notify-a-2"] 41 ex_env); try reflexivity; try lia; try done.
  repeat constructor.
Defined.
