(* ===== verification/Notify.v ===== *)
(** * The bind supervisor

    [internal/agent]: how a blocked bind is answered and how long a notify fd
    is supervised ([notify.go]), the account of the fds under supervision
    ([notifycap.go]), the two hand-off sockets ([notify.go], [ociseccomp.go])
    and the re-adoption of stored fds ([fdstore.go]). *)

From S2P Require Import Prelude Wire GoStr NetIP Seccomp FdStore TransportAuth AgentPorts.

Open Scope string_scope.
Open Scope list_scope.
Open Scope Z_scope.

(** ** Answering a bind *)

(** What is sent back for a notification: nothing when its syscall is no
    longer blocked. *)
Inductive answer := NoAnswer | Continue | Errno (e : Z).
#[export] Instance answer_eq_dec : EqDecision answer.
Proof. solve_decision. Defined.

Section answer.
(** The architecture, the kernel's view of the task, its memory, whether the
    notification is still pending, and [ReservePort]'s answer. *)
Variable g : goarch.
Variable K : kernel.
Variable mem : Z → Z → nat → option bytes.
Variable idvalid : Z → bool.
Variable reserve : string → Z → string → reserve_answer.

Definition mirrorableA (a : addr) : bool :=
  bool_decide (a = v4Loopback) || bool_decide (a = IPv4Unspecified) ||
  bool_decide (a = IPv6Unspecified) || bool_decide (a = v6Loopback).

(** [answerBind], with the reservation it asked for, if it got that far. *)
Definition answerBind (nf : Notif) : answer * option (Z * addr) :=
  if negb (IsBind g (nf_arch nf) (nf_nr nf)) then (Continue, None)
  else match ReadBindAddr mem (nf_pid nf) (nth 1 (nf_args nf) 0) (nth 2 (nf_args nf) 0) with
  | Err _ => (Continue, None)
  | Ok ba =>
      if negb (ba_family ba =? AF_INET) && negb (ba_family ba =? AF_INET6) then (Continue, None)
      else if (ba_port ba =? 0) || negb (mirrorableA (ba_addr ba)) then (Continue, None)
      else match SameNetNS K (nf_pid nf) with
      | Some true =>
          match IsInetStream K (nf_pid nf) (nth 0 (nf_args nf) 0) with
          | Ok true =>
              if negb (idvalid (nf_id nf)) then (NoAnswer, None)
              else
                let asked := Some (ba_port ba, ba_addr ba) in
                match reserve "tcp" (ba_port ba) (addr_string (ba_addr ba)) with
                | RespInUse => (Errno EADDRINUSE, asked)
                | RespOK | RespUnknown => (Continue, asked)
                end
          | _ => (Continue, None)
          end
      | _ => (Continue, None)
      end
  end.

(** The binds that are the Mac's business: a stream socket of a host-netns
    task, bound to a port and a scope the Mac mirrors. *)
Definition arbitrated (nf : Notif) (ba : BindAddr) : Prop :=
  IsBind g (nf_arch nf) (nf_nr nf) = true ∧
  ReadBindAddr mem (nf_pid nf) (nth 1 (nf_args nf) 0) (nth 2 (nf_args nf) 0) = Ok ba ∧
  (ba_family ba = AF_INET ∨ ba_family ba = AF_INET6) ∧
  ba_port ba ≠ 0 ∧
  (ba_addr ba = v4Loopback ∨ ba_addr ba = IPv4Unspecified ∨
   ba_addr ba = IPv6Unspecified ∨ ba_addr ba = v6Loopback) ∧
  SameNetNS K (nf_pid nf) = Some true ∧
  IsInetStream K (nf_pid nf) (nth 0 (nf_args nf) 0) = Ok true.

Lemma mirrorableA_iff a : mirrorableA a = true ↔
  a = v4Loopback ∨ a = IPv4Unspecified ∨ a = IPv6Unspecified ∨ a = v6Loopback.
Proof. unfold mirrorableA. rewrite !orb_true_iff, !bool_decide_eq_true. tauto. Qed.
Lemma answerBind_cases nf :
  (∃ ba, arbitrated nf ba ∧
    answerBind nf =
      if idvalid (nf_id nf) then
        (match reserve "tcp" (ba_port ba) (addr_string (ba_addr ba)) with
         | RespInUse => Errno EADDRINUSE | _ => Continue end, Some (ba_port ba, ba_addr ba))
      else (NoAnswer, None)) ∨
  ((∀ ba, ¬ arbitrated nf ba) ∧ answerBind nf = (Continue, None)).
Proof.
  unfold answerBind, arbitrated.
  destruct (IsBind g (nf_arch nf) (nf_nr nf)); cbn [negb]; [|right; naive_solver].
  destruct (ReadBindAddr mem _ _ _) as [ba|] eqn:E; [|right; naive_solver].
  destruct (negb (ba_family ba =? AF_INET) && negb (ba_family ba =? AF_INET6)) eqn:EF.
  { right. split; [|done]. apply andb_true_iff in EF as [F1%negb_true_iff F2%negb_true_iff].
    apply Z.eqb_neq in F1, F2. naive_solver. }
  destruct ((ba_port ba =? 0) || negb (mirrorableA (ba_addr ba))) eqn:EP.
  { right. split; [|done]. intros ba' (_ & [= <-] & _ & Hp & Ha & _).
    apply mirrorableA_iff in Ha. rewrite Ha in EP. cbn in EP. rewrite orb_false_r in EP. lia. }
  apply orb_false_iff in EP as [EP EA%negb_false_iff%mirrorableA_iff]. apply Z.eqb_neq in EP.
  assert (ba_family ba = AF_INET ∨ ba_family ba = AF_INET6) as EF'.
  { apply andb_false_iff in EF as [F%negb_false_iff%Z.eqb_eq|F%negb_false_iff%Z.eqb_eq]; tauto. }
  destruct (SameNetNS K (nf_pid nf)) as [[]|]; [|right; naive_solver|right; naive_solver].
  destruct (IsInetStream K _ _) as [[]|]; [|right; naive_solver|right; naive_solver].
  left. exists ba. split; [done|].
  destruct (idvalid (nf_id nf)); [|done]. by destruct (reserve _ _ _).
Qed.

(** ** A notify fd's life *)

(** One poll(2): interrupted, failed, no event, or the events it reports. *)
Inductive poll_res := PEintr | PFail | PNone | PReady (inn hup : bool).
(** [PollNotif] over the polls to come, with those left; [None] while they
    have not said anything. *)
Fixpoint PollNotif (polls : list poll_res) : option (option (bool * bool) * list poll_res) :=
  match polls with
  | [] => None
  | PEintr :: polls | PNone :: polls => PollNotif polls
  | PFail :: polls => Some (None, polls)
  | PReady inn hup :: polls => Some (Some (inn, hup), polls)
  end.

(** How a supervision ends, or where it is blocked. *)
Inductive outcome := FilterGone | PollFailed | RecvFailed | BlockedInPoll | BlockedInRecv | OutOfFuel.
#[export] Instance outcome_eq_dec : EqDecision outcome.
Proof. solve_decision. Defined.
(** [runSupervision] over the polls and receives to come: how it ends, and
    the notifications it answered. *)
Fixpoint runSupervision (fuel : nat) (polls : list poll_res) (recvs : list (result Z Notif))
  : outcome * list (Notif * answer) :=
  match fuel with
  | O => (OutOfFuel, [])
  | S fuel =>
      match PollNotif polls with
      | None => (BlockedInPoll, [])
      | Some (None, _) => (PollFailed, [])
      | Some (Some (inn, hup), polls) =>
          if negb inn then
            if hup then (FilterGone, []) else runSupervision fuel polls recvs
          else match recvs with
          | [] => (BlockedInRecv, [])
          | Err e :: recvs =>
              if e =? ENOENT then runSupervision fuel polls recvs else (RecvFailed, [])
          | Ok nf :: recvs =>
              let '(o, l) := runSupervision fuel polls recvs in (o, (nf, (answerBind nf).1) :: l)
          end
      end
  end.

(** The polls that said a notification is ready. *)
Definition is_ready (p : poll_res) : bool := match p with PReady true _ => true | _ => false end.
(** The answers to what was received. *)
Definition answers (recvs : list (result Z Notif)) : list (Notif * answer) :=
  omap (λ r, match r with Ok nf => Some (nf, (answerBind nf).1) | Err _ => None end) recvs.

(** A poll after which a supervisor polls again or receives, and an outcome of
    a receive after which it polls again. *)
Definition goes_on (p : poll_res) : bool :=
  match p with PFail | PReady false true => false | _ => true end.
Definition received (r : result Z Notif) : bool :=
  match r with Ok _ => true | Err e => e =? ENOENT end.
(** Where a supervision stands once what it polled and received is [left] and
    [rest]: each way to be there, with what the poll or the receive said. *)
Definition stands (o : outcome) (left : list poll_res) (rest : list (result Z Notif)) : Prop :=
  match o with
  | FilterGone => ∃ ps, left = PReady false true :: ps
  | PollFailed => ∃ ps, left = PFail :: ps
  | RecvFailed => ∃ hup ps e rs, left = PReady true hup :: ps ∧ rest = Err e :: rs ∧ e ≠ ENOENT
  | BlockedInPoll => left = []
  | BlockedInRecv => ∃ hup ps, left = PReady true hup :: ps ∧ rest = []
  | OutOfFuel => False
  end.
(** How far a supervision came: past [seen], all of which go on, having
    received once for every notification they announced. *)
Record stretch (polls : list poll_res) (recvs : list (result Z Notif))
    (seen left : list poll_res) (taken rest : list (result Z Notif)) : Prop := {
  st_polls : polls = seen ++ left;
  st_recvs : recvs = taken ++ rest;
  st_seen : Forall (λ p, goes_on p = true) seen;
  st_taken : Forall (λ r, received r = true) taken;
  st_each : length taken = count is_ready seen }.

Lemma stretch_quiet p polls recvs seen left taken rest :
  goes_on p = true → is_ready p = false →
  stretch polls recvs seen left taken rest → stretch (p :: polls) recvs (p :: seen) left taken rest.
Proof. intros Hg Hr [-> -> H3 H4 H5]. split; try done; [by constructor|]. by rewrite count_cons, Hr. Qed.
Lemma stretch_recv hup r polls recvs seen left taken rest :
  received r = true → stretch polls recvs seen left taken rest →
  stretch (PReady true hup :: polls) (r :: recvs) (PReady true hup :: seen) left (r :: taken) rest.
Proof.
  intros Hr [-> -> H3 H4 H5]. split; try done; [by constructor..|]. rewrite count_cons. cbn. by rewrite H5.
Qed.
Lemma stretch_nil polls recvs : stretch polls recvs [] polls [] recvs.
Proof. by split. Qed.

(** [PollNotif] skips the polls that say nothing. *)
Lemma PollNotif_None polls : PollNotif polls = None →
  Forall (λ p, p = PEintr ∨ p = PNone) polls.
Proof. induction polls as [|[| | |] polls IH]; cbn; intros H; try done; constructor; auto. Qed.
Lemma PollNotif_Some polls r rest : PollNotif polls = Some (r, rest) →
  ∃ quiet, Forall (λ p, p = PEintr ∨ p = PNone) quiet ∧
    polls = quiet ++ match r with None => PFail | Some (inn, hup) => PReady inn hup end :: rest.
Proof.
  induction polls as [|p polls IH]; [done|].
  assert (p = PEintr ∨ p = PNone → PollNotif polls = Some (r, rest) → ∃ quiet,
    Forall (λ p, p = PEintr ∨ p = PNone) quiet ∧
    p :: polls = quiet ++ match r with None => PFail | Some (inn, hup) => PReady inn hup end :: rest) as HQ.
  { intros Hp (q & Hq & E)%IH. exists (p :: q). split; [by constructor|]. cbn. by rewrite <- E. }
  destruct p as [| | |i h]; cbn [PollNotif]; intros H; [by apply HQ; auto| |by apply HQ; auto|];
    by injection H as <- <-; exists [].
Qed.
Lemma stretch_quiets quiet polls recvs seen left taken rest :
  Forall (λ p, p = PEintr ∨ p = PNone) quiet → stretch polls recvs seen left taken rest →
  stretch (quiet ++ polls) recvs (quiet ++ seen) left taken rest.
Proof.
  induction 1 as [|p quiet Hp _ IH]; cbn [app]; [done|]. intros HS.
  apply stretch_quiet; [by destruct Hp as [-> | ->]..|auto].
Qed.

Lemma runSupervision_spec fuel polls recvs :
  (length polls < fuel)%nat →
  let '(o, l) := runSupervision fuel polls recvs in
  ∃ seen left taken rest, stretch polls recvs seen left taken rest ∧ stands o left rest ∧
    l = answers taken.
Proof.
  revert polls recvs. induction fuel as [|fuel IH]; intros polls recvs Hf; [lia|].
  cbn [runSupervision]. destruct (PollNotif polls) as [[r rest]|] eqn:E.
  2:{ apply PollNotif_None in E. exists polls, [], [], recvs.
      pose proof (stretch_quiets polls [] recvs [] [] [] recvs E (stretch_nil _ _)) as HS.
      rewrite app_nil_r in HS. by split_and!. }
  apply PollNotif_Some in E as (quiet & Hq & ->). rewrite length_app in Hf. cbn [length] in Hf.
  assert (∀ o p, stands o (p :: rest) recvs → ∃ seen left taken rest',
    stretch (quiet ++ p :: rest) recvs seen left taken rest' ∧ stands o left rest' ∧ [] = answers taken)
    as HEnd.
  { intros o p Ho. exists (quiet ++ []), (p :: rest), [], recvs. split_and!; [|done..].
    by apply stretch_quiets; [|apply stretch_nil]. }
  destruct r as [[[] hup]|]; cbn [negb]; [| |apply HEnd; by eexists].
  - destruct recvs as [|r recvs]; [by apply HEnd; eexists _, _|].
    specialize (IH rest recvs ltac:(lia)).
    assert (∀ o l, (∃ seen left taken rest', stretch rest recvs seen left taken rest' ∧
        stands o left rest' ∧ l = answers taken) → received r = true →
      ∃ seen left taken rest', stretch (quiet ++ PReady true hup :: rest) (r :: recvs) seen left taken rest' ∧
        stands o left rest' ∧ (match r with Ok nf => [(nf, (answerBind nf).1)] | Err _ => [] end) ++ l =
        answers taken) as HRec.
    { intros o l (seen & left & taken & rest' & HS & Ho & ->) Hr.
      exists (quiet ++ PReady true hup :: seen), left, (r :: taken), rest'.
      split_and!; [by apply stretch_quiets, stretch_recv|done|by destruct r]. }
    destruct r as [nf|e]; [|destruct (e =? ENOENT) eqn:Ee].
    + destruct (runSupervision fuel rest recvs) as [o l]. by apply (HRec o l).
    + destruct (runSupervision fuel rest recvs) as [o l]. by apply (HRec o l).
    + apply HEnd. eexists _, _, _, _. split_and!; [done..|]. by apply Z.eqb_neq.
  - destruct hup; [by apply HEnd; eexists|].
    specialize (IH rest recvs ltac:(lia)). destruct (runSupervision fuel rest recvs) as [o l].
    destruct IH as (seen & left & taken & rest' & HS & Ho & ->).
    exists (quiet ++ PReady false false :: seen), left, taken, rest'.
    split_and!; [|done..]. by apply stretch_quiets; [|apply stretch_quiet].
Qed.

(** With a notification for every poll that announces one, no receive blocks,
    and a poll that finds the filter gone is not passed over. *)
Lemma stretch_ready polls recvs seen left taken rest : stretch polls recvs seen left taken rest →
  count is_ready polls = (length taken + count is_ready left)%nat ∧
  length recvs = (length taken + length rest)%nat ∧
  (PReady false true ∈ polls → PReady false true ∈ left).
Proof.
  intros [-> -> H3 _ H5]. rewrite count_app, length_app, <- H5. split_and!; [done..|].
  intros [Hin|?]%elem_of_app; [|done]. rewrite list.Forall_forall in H3. by apply H3 in Hin.
Qed.
End answer.

(** ** The account of supervised fds *)

Definition maxSupervisedNotifyFds : Z := 4096.

(** [superviseCap]: the capped count and its bound, the trusted count and the
    fds under supervision. The mutex orders every operation that reads [fds];
    the counters are atomic. *)
Record superviseCap := Cap { c_max : Z; c_n : Z; c_trusted : Z; c_fds : gset nat }.
Definition acquire (c : superviseCap) : bool * superviseCap :=
  if c_max c <? c_n c + 1 then (false, c)
  else (true, Cap (c_max c) (c_n c + 1) (c_trusted c) (c_fds c)).
Definition release (c : superviseCap) : superviseCap :=
  Cap (c_max c) (c_n c - 1) (c_trusted c) (c_fds c).
Definition acquireTrusted (c : superviseCap) : Z * superviseCap :=
  (c_trusted c + 1, Cap (c_max c) (c_n c) (c_trusted c + 1) (c_fds c)).
Definition releaseTrusted (c : superviseCap) : superviseCap :=
  Cap (c_max c) (c_n c) (c_trusted c - 1) (c_fds c).
Definition track (fd : nat) (c : superviseCap) : superviseCap :=
  Cap (c_max c) (c_n c) (c_trusted c) ({[fd]} ∪ c_fds c).
Definition untrack (fd : nat) (c : superviseCap) : superviseCap :=
  Cap (c_max c) (c_n c) (c_trusted c) (c_fds c ∖ {[fd]}).

Inductive admitVerdict := Admitted_ | AdmitDuplicate | AdmitFull.
#[export] Instance admitVerdict_eq_dec : EqDecision admitVerdict.
Proof. solve_decision. Defined.
Definition admitProbe (fd : nat) (same : nat → nat → bool) (c : superviseCap)
  : admitVerdict * superviseCap :=
  if existsb (same fd) (elements (c_fds c)) then (AdmitDuplicate, c)
  else let '(ok, c) := acquire c in
       if negb ok then (AdmitFull, c) else (Admitted_, track fd c).
Definition admitTrusted (fd : nat) (c : superviseCap) : Z * superviseCap :=
  acquireTrusted (track fd c).

(** [peerLimiter.allow]: the throttle of the transport refusals, per uid. *)
Definition refusalLogEvery : Z := 10 * 10 ^ 9.
Definition allow (uid now : Z) (last : gmap Z Z) : bool * gmap Z Z := Allow refusalLogEvery now uid last.

(** ** The supervisors of a process *)

(** Which release a supervisor's slot goes back through. *)
Inductive bucket := Capped | Trusted.
#[export] Instance bucket_eq_dec : EqDecision bucket.
Proof. solve_decision. Defined.

(** The process: its account; its fd table, as the open file behind each fd
    number; the supervisors that run, by fd, and the deferred steps of those
    that ended: the close of an untracked fd, the release of the slot of a
    closed one (how many of either bucket are still to come); and the adopted fds whose goroutine has not started. *)
Record proc := Proc {
  cap : superviseCap;
  open : gmap nat nat;
  running : gmap nat bucket;
  closing : gmap nat bucket;
  rel_capped : nat;
  rel_trusted : nat;
  adopting : gset nat }.
Definition proc0 : proc :=
  Proc (Cap maxSupervisedNotifyFds 0 0 ∅) ∅ ∅ ∅ 0 0 ∅.

Section hand_off.
(** Whether an open file is a seccomp listener, and whether the kernel
    allows kcmp. *)
Variable listener : nat → bool.
Variable kcmp : bool.
Definition IsListener (p : proc) (fd : nat) : bool :=
  match open p !! fd with Some file => listener file | None => false end.
(** [sameOpenFile]: without kcmp no two fds are known to be the same file. *)
Definition sameOpenFile (p : proc) (a b : nat) : bool :=
  kcmp && match open p !! a, open p !! b with
          | Some f, Some f' => (f =? f')%nat
          | _, _ => false
          end.

Definition set_cap (c : superviseCap) (p : proc) : proc :=
  Proc c (open p) (running p) (closing p) (rel_capped p) (rel_trusted p) (adopting p).
Definition closefd (fd : nat) (p : proc) : proc :=
  Proc (cap p) (delete fd (open p)) (running p) (closing p) (rel_capped p) (rel_trusted p) (adopting p).
Definition close_all (fds : list nat) (p : proc) : proc := foldl (λ p fd, closefd fd p) p fds.
Definition supervise (fd : nat) (b : bucket) (p : proc) : proc :=
  Proc (cap p) (open p) (<[fd := b]> (running p)) (closing p) (rel_capped p) (rel_trusted p) (adopting p).

(** [acceptProbeFd]: it starts a supervisor, or closes the fd. *)
Definition acceptProbeFd (fd : nat) (p : proc) : bool * proc :=
  if negb (IsListener p fd) then (false, closefd fd p)
  else
    let '(v, c) := admitProbe fd (sameOpenFile p) (cap p) in
    match v with
    | AdmitDuplicate | AdmitFull => (false, closefd fd p)
    | Admitted_ => (true, supervise fd Capped (set_cap c p))
    end.
(** [acceptOCIFd]: a listener is never refused; the trusted count, 0 when it
    is no listener. *)
Definition acceptOCIFd (fd : nat) (p : proc) : Z * proc :=
  if negb (IsListener p fd) then (0, closefd fd p)
  else let '(n, c) := admitTrusted fd (cap p) in (n, supervise fd Trusted (set_cap c p)).

(** The message installs its fds in the table before it is looked at. *)
Definition install (fds : list (nat * nat)) (p : proc) : proc :=
  Proc (cap p) (foldl (λ m '(fd, file), <[fd := file]> m) (open p) fds)
    (running p) (closing p) (rel_capped p) (rel_trusted p) (adopting p).
(** [recvNotifyFd] on the rights of its message: the first is the hand-off,
    the others are closed. *)
Definition recvNotifyFd (fds : list nat) (p : proc) : bool * proc :=
  match fds with
  | [] => (false, p)
  | fd :: extra => acceptProbeFd fd (close_all extra p)
  end.
(** [recvOCIState] on the rights of a complete state and its [fds] names. *)
Definition seccompFdName : string := "seccompFd".
Fixpoint Index (w : string) (ws : list string) : option nat :=
  match ws with
  | [] => None
  | x :: ws => if String.eqb x w then Some 0%nat else S <$> Index w ws
  end.
Definition recvOCIState (names : list string) (fds : list nat) (p : proc) : Z * proc :=
  match Index seccompFdName names with
  | None => (0, close_all fds p)
  | Some idx =>
      match fds !! idx with
      | None => (0, close_all fds p)
      | Some fd => acceptOCIFd fd (close_all (take idx fds ++ drop (S idx) fds) p)
      end
  end.

(** [AdoptStoredFds] for one inherited fd: closed, or left to its goroutine. *)
Definition adopt (i : Inherited) (p : proc) : bool * proc :=
  let fd := Z.to_nat (in_fd i) in
  if negb (IsNotifyName (in_name i)) then (false, closefd fd p)
  else if negb (IsListener p fd) then (false, closefd fd p)
  else
    let '(ok, c) := acquire (cap p) in
    if negb ok then (false, closefd fd p)
    else (true, Proc c (open p) (running p) (closing p) (rel_capped p) (rel_trusted p) ({[fd]} ∪ adopting p)).
(** [superviseStored]: the capped slot is traded for a trusted one. *)
Definition superviseStored (fd : nat) (p : proc) : proc :=
  let c := release (cap p) in
  let '(_, c) := admitTrusted fd c in
  Proc c (open p) (<[fd := Trusted]> (running p)) (closing p) (rel_capped p) (rel_trusted p) (adopting p ∖ {[fd]}).

(** The deferred calls of [supervise], in the order they run. *)
Definition end_untrack (fd : nat) (b : bucket) (p : proc) : proc :=
  Proc (untrack fd (cap p)) (open p) (delete fd (running p)) (<[fd := b]> (closing p))
    (rel_capped p) (rel_trusted p) (adopting p).
Definition end_close (fd : nat) (b : bucket) (p : proc) : proc :=
  Proc (cap p) (delete fd (open p)) (running p) (delete fd (closing p))
    (match b with Capped => S (rel_capped p) | Trusted => rel_capped p end)
    (match b with Capped => rel_trusted p | Trusted => S (rel_trusted p) end) (adopting p).
Definition end_release (b : bucket) (p : proc) : proc :=
  match b with
  | Capped => Proc (release (cap p)) (open p) (running p) (closing p)
                (pred (rel_capped p)) (rel_trusted p) (adopting p)
  | Trusted => Proc (releaseTrusted (cap p)) (open p) (running p) (closing p)
                (rel_capped p) (pred (rel_trusted p)) (adopting p)
  end.

(** The kernel names new fds by free numbers. *)
Definition fresh_fds (fds : list (nat * nat)) (p : proc) : Prop :=
  NoDup fds.*1 ∧ ∀ fd, fd ∈ fds.*1 → open p !! fd = None.

Inductive pstep (p : proc) : proc → Prop :=
| s_probe fds : fresh_fds fds p → pstep p (recvNotifyFd fds.*1 (install fds p)).2
| s_oci names fds : fresh_fds fds p → pstep p (recvOCIState names fds.*1 (install fds p)).2
| s_adopt i file : fresh_fds [(Z.to_nat (in_fd i), file)] p →
    pstep p (adopt i (install [(Z.to_nat (in_fd i), file)] p)).2
| s_stored fd : fd ∈ adopting p → pstep p (superviseStored fd p)
| s_untrack fd b : running p !! fd = Some b → pstep p (end_untrack fd b p)
| s_close fd b : closing p !! fd = Some b → pstep p (end_close fd b p)
| s_release b : (match b with Capped => rel_capped p | Trusted => rel_trusted p end ≠ 0)%nat →
    pstep p (end_release b p).
Definition preachable : proc → Prop := reach (λ p, p = proc0) pstep.

(** ** Facts *)

(** How many supervisors of a bucket a map holds. *)
Definition slots (b : bucket) (m : gmap nat bucket) : nat :=
  size (filter (λ kv, kv.2 = b) m).
Lemma slots_insert b b' k m : m !! k = None →
  slots b (<[k := b']> m) = (slots b m + if decide (b' = b) then 1 else 0)%nat.
Proof.
  intros Hk. unfold slots. rewrite map_filter_insert. cbn. case_decide.
  - rewrite map_size_insert_None; [lia|]. by apply map_lookup_filter_None_2; left.
  - rewrite delete_id by done. lia.
Qed.
Lemma slots_delete b b' k m : m !! k = Some b' →
  slots b m = (slots b (delete k m) + if decide (b' = b) then 1 else 0)%nat.
Proof.
  intros Hk. rewrite <- (slots_insert b b' k) by apply lookup_delete_eq.
  by rewrite insert_delete_id.
Qed.

Record account_ok (p : proc) : Prop := {
  ac_max : c_max (cap p) = maxSupervisedNotifyFds;
  ac_n : c_n (cap p) = Z.of_nat (slots Capped (running p) + slots Capped (closing p) +
           rel_capped p + size (adopting p));
  ac_trusted : c_trusted (cap p) = Z.of_nat (slots Trusted (running p) + slots Trusted (closing p) +
           rel_trusted p);
  ac_bound : c_n (cap p) <= maxSupervisedNotifyFds }.
Record table_ok (p : proc) : Prop := {
  tb_fds : c_fds (cap p) = dom (running p);
  tb_open : ∀ fd, is_Some (open p !! fd) ↔
    is_Some (running p !! fd) ∨ is_Some (closing p !! fd) ∨ fd ∈ adopting p;
  tb_run : ∀ fd, is_Some (running p !! fd) → closing p !! fd = None ∧ fd ∉ adopting p;
  tb_close : ∀ fd, is_Some (closing p !! fd) → fd ∉ adopting p;
  tb_listener : ∀ fd, is_Some (running p !! fd) ∨ fd ∈ adopting p → IsListener p fd = true;
  tb_dup : kcmp = true → ∀ a b, running p !! a = Some Capped → running p !! b = Some Capped →
    open p !! a = open p !! b → a = b }.
Definition proc_ok (p : proc) : Prop := account_ok p ∧ table_ok p.

(** A process with one more open fd, not yet anyone's. *)
Definition with_open (m : gmap nat nat) (p : proc) : proc :=
  Proc (cap p) m (running p) (closing p) (rel_capped p) (rel_trusted p) (adopting p).
Lemma close_all_open fds p : close_all fds p = with_open (open (close_all fds p)) p ∧
  ∀ x, open (close_all fds p) !! x = if bool_decide (x ∈ fds) then None else open p !! x.
Proof.
  unfold close_all. revert p. induction fds as [|fd fds IH]; intros p; cbn [foldl].
  - split; [by destruct p|]. intros x. by rewrite bool_decide_eq_false_2 by set_solver.
  - destruct (IH (closefd fd p)) as [E L]. split.
    + rewrite E at 1. done.
    + intros x. rewrite L. cbn. destruct (decide (x ∈ fds)) as [H|H].
      * by rewrite !bool_decide_eq_true_2 by set_solver.
      * rewrite bool_decide_eq_false_2 by done. destruct (decide (x = fd)) as [->|Hn].
        -- rewrite bool_decide_eq_true_2 by set_solver. apply lookup_delete_eq.
        -- rewrite bool_decide_eq_false_2 by set_solver. by apply lookup_delete_ne.
Qed.
Lemma install_open fds p x : x ∉ fds.*1 → open (install fds p) !! x = open p !! x.
Proof.
  cbn. generalize (open p). induction fds as [|[fd file] fds IH]; intros m; cbn; [done|].
  intros H. rewrite IH by set_solver. apply lookup_insert_ne. set_solver.
Qed.
Lemma install_open_in fds p x : x ∈ fds.*1 → ∃ f, open (install fds p) !! x = Some f.
Proof.
  intros H. cbn. revert H. generalize (open p). induction fds as [|[fd file] fds IH] using rev_ind; intros m; [set_solver|].
  rewrite fmap_app, foldl_app. cbn. destruct (decide (x = fd)) as [->|Hn].
  - intros _. exists file. apply lookup_insert_eq.
  - intros [H|H]%elem_of_app; [|set_solver]. rewrite lookup_insert_ne by done. by apply IH.
Qed.
Lemma with_open_id p : with_open (open p) p = p.
Proof. by destruct p. Qed.
Lemma keep_none fds p : fresh_fds fds p → close_all fds.*1 (install fds p) = p.
Proof.
  intros [_ HF]. destruct (close_all_open fds.*1 (install fds p)) as [-> L].
  transitivity (with_open (open p) p); [|by apply with_open_id]. unfold with_open. cbn. f_equal.
  apply map_eq. intros x. rewrite L. case_bool_decide as Hx; [by rewrite HF|by apply install_open].
Qed.
Lemma keep_one fds others fd p : fresh_fds fds p → fd ∈ fds.*1 →
  (∀ x, x ∈ others ↔ x ∈ fds.*1 ∧ x ≠ fd) →
  ∃ f, close_all others (install fds p) = with_open (<[fd := f]> (open p)) p ∧ open p !! fd = None.
Proof.
  intros [_ HF] Hfd HO. destruct (install_open_in fds p fd Hfd) as [f Hf]. exists f.
  split; [|by apply HF].
  destruct (close_all_open others (install fds p)) as [-> L].
  unfold with_open. cbn. f_equal. apply map_eq. intros x. rewrite L.
  destruct (decide (x = fd)) as [->|Hn].
  - rewrite bool_decide_eq_false_2 by naive_solver. by rewrite Hf, lookup_insert_eq.
  - rewrite lookup_insert_ne by done. case_bool_decide as Hx.
    + symmetry. apply HF. naive_solver.
    + apply install_open. naive_solver.
Qed.
Lemma closefd_fresh fd f p : open p !! fd = None → closefd fd (with_open (<[fd := f]> (open p)) p) = p.
Proof.
  intros H. unfold closefd, with_open. cbn. rewrite delete_insert_id by done. by destruct p.
Qed.

Lemma supervise_ok b fd f c p :
  proc_ok p → open p !! fd = None → listener f = true →
  c_max c = maxSupervisedNotifyFds → c_fds c = {[fd]} ∪ c_fds (cap p) →
  c_n c = c_n (cap p) + (if decide (b = Capped) then 1 else 0) →
  c_trusted c = c_trusted (cap p) + (if decide (b = Trusted) then 1 else 0) →
  c_n c <= maxSupervisedNotifyFds →
  (b = Capped → kcmp = true → ∀ t, is_Some (running p !! t) → open p !! t ≠ Some f) →
  proc_ok (supervise fd b (set_cap c (with_open (<[fd := f]> (open p)) p))).
Proof.
  intros [A T] Ho Hl Hm Hf Hn Ht Hb Hd.
  assert (running p !! fd = None ∧ closing p !! fd = None ∧ fd ∉ adopting p) as (R & C & D).
  { pose proof (tb_open p T fd) as H. rewrite !eq_None_not_Some.
    assert (¬ is_Some (open p !! fd)) by (by rewrite Ho; intros []). tauto. }
  destruct A as [A1 A2 A3 A4], T as [T1 T2 T3 T4 T5 T6]. split; split; cbn.
  - done.
  - rewrite Hn, A2, slots_insert by done. repeat case_decide; subst; done || lia.
  - rewrite Ht, A3, slots_insert by done. repeat case_decide; subst; done || lia.
  - done.
  - rewrite Hf, T1, dom_insert_L. done.
  - intros x. destruct (decide (x = fd)) as [->|]; simplify_map_eq; [naive_solver|apply T2].
  - intros x. destruct (decide (x = fd)) as [->|]; simplify_map_eq; [done|apply T3].
  - done.
  - intros x. unfold IsListener. cbn. destruct (decide (x = fd)) as [->|]; simplify_map_eq; [done|apply T5].
  - intros Hk x y.
    destruct (decide (x = fd)) as [->|Hx]; destruct (decide (y = fd)) as [->|Hy];
      rewrite ?lookup_insert_eq, ?(lookup_insert_ne _ fd x), ?(lookup_insert_ne _ fd y) by done.
    + done.
    + intros [= ->] Ry Ex. exfalso. apply (Hd eq_refl Hk y); [by eexists|done].
    + intros Rx [= ->] Ex. exfalso. apply (Hd eq_refl Hk x); [by eexists|done].
    + by apply T6.
Qed.

(** The verdict of a probe hand-off, on the process that has just received
    file [f] as [fd]. *)
Lemma dup_iff fd f p : table_ok p → open p !! fd = None →
  existsb (sameOpenFile (with_open (<[fd := f]> (open p)) p) fd) (elements (c_fds (cap p))) = true ↔
  kcmp = true ∧ ∃ t, is_Some (running p !! t) ∧ open p !! t = Some f.
Proof.
  intros T Ho. rewrite existsb_exists. unfold sameOpenFile. cbn. rewrite lookup_insert_eq.
  assert (∀ t, is_Some (running p !! t) → t ≠ fd) as HN.
  { intros t Ht ->. assert (is_Some (open p !! fd)) as [? ?] by (apply (tb_open p T); auto). congruence. }
  split.
  - intros (t & Ht & HS). apply list_elem_of_In, elem_of_elements in Ht.
    rewrite (tb_fds p T) in Ht. apply elem_of_dom in Ht.
    rewrite lookup_insert_ne in HS by (symmetry; by apply HN).
    apply andb_true_iff in HS as [-> HS]. split; [done|]. exists t. split; [done|].
    destruct (open p !! t) as [f'|]; [|done]. apply Nat.eqb_eq in HS as ->. done.
  - intros (Hk & t & Ht & Hf). exists t. split.
    + apply list_elem_of_In, elem_of_elements. rewrite (tb_fds p T). by apply elem_of_dom.
    + rewrite lookup_insert_ne by (symmetry; by apply HN). rewrite Hf, Nat.eqb_refl, Hk. done.
Qed.
Lemma acceptProbeFd_cases fd f p :
  proc_ok p → open p !! fd = None →
  let q := with_open (<[fd := f]> (open p)) p in
  (listener f = true ∧ (kcmp = true → ∀ t, is_Some (running p !! t) → open p !! t ≠ Some f) ∧
   c_n (cap p) < maxSupervisedNotifyFds ∧
   acceptProbeFd fd q = (true, supervise fd Capped
     (set_cap (track fd (Cap (c_max (cap p)) (c_n (cap p) + 1) (c_trusted (cap p)) (c_fds (cap p)))) q))) ∨
  ((listener f = false ∨ (kcmp = true ∧ ∃ t, is_Some (running p !! t) ∧ open p !! t = Some f) ∨
    c_n (cap p) = maxSupervisedNotifyFds) ∧ acceptProbeFd fd q = (false, p)).
Proof.
  intros [A T] Ho q. unfold acceptProbeFd.
  assert (IsListener q fd = listener f) as -> by (unfold IsListener, q; cbn; by rewrite lookup_insert_eq).
  assert (closefd fd q = p) as -> by by apply closefd_fresh.
  destruct (listener f); cbn [negb]; [|right; tauto].
  unfold admitProbe. pose proof (dup_iff fd f p T Ho) as HD. fold q in HD.
  change (cap q) with (cap p).
  destruct (existsb _ _) eqn:E.
  { right. split; [|done]. right. left. by apply HD. }
  unfold acquire. rewrite (ac_max p A). pose proof (ac_bound p A) as HB.
  destruct (Z.ltb_spec maxSupervisedNotifyFds (c_n (cap p) + 1)); cbn [negb].
  - right. split; [|done]. right. right. lia.
  - left. split; [done|]. split; [|split; [lia|done]].
    intros Hk t Ht Hf. assert (false = true) by (apply HD; eauto). done.
Qed.
Lemma acceptProbeFd_ok fd f p :
  proc_ok p → open p !! fd = None →
  proc_ok (acceptProbeFd fd (with_open (<[fd := f]> (open p)) p)).2.
Proof.
  intros I Ho. destruct (acceptProbeFd_cases fd f p I Ho) as [(Hl & Hd & Hn & ->)|[_ ->]]; [|done].
  apply supervise_ok; try done; cbn; try (case_decide; done || lia); [apply I|lia].
Qed.
Lemma acceptOCIFd_cases fd f p :
  proc_ok p → open p !! fd = None →
  let q := with_open (<[fd := f]> (open p)) p in
  acceptOCIFd fd q =
    if listener f then
      (c_trusted (cap p) + 1, supervise fd Trusted
        (set_cap (Cap (c_max (cap p)) (c_n (cap p)) (c_trusted (cap p) + 1) ({[fd]} ∪ c_fds (cap p))) q))
    else (0, p).
Proof.
  intros I Ho q. unfold acceptOCIFd.
  assert (IsListener q fd = listener f) as -> by (unfold IsListener, q; cbn; by rewrite lookup_insert_eq).
  assert (closefd fd q = p) as -> by by apply closefd_fresh.
  by destruct (listener f).
Qed.
Lemma acceptOCIFd_ok fd f p :
  proc_ok p → open p !! fd = None →
  proc_ok (acceptOCIFd fd (with_open (<[fd := f]> (open p)) p)).2.
Proof.
  intros I Ho. rewrite acceptOCIFd_cases by done. destruct (listener f) eqn:E; [|done].
  apply supervise_ok; try done; cbn; try (case_decide; done || lia); apply I.
Qed.

Lemma recvNotifyFd_cases fds p : proc_ok p → fresh_fds fds p →
  fds = [] ∨ ∃ fd f, head fds.*1 = Some fd ∧ open p !! fd = None ∧
    recvNotifyFd fds.*1 (install fds p) = acceptProbeFd fd (with_open (<[fd := f]> (open p)) p).
Proof.
  intros I HF. destruct fds as [|[fd f0] fds]; [by left|]. right.
  destruct (keep_one ((fd, f0) :: fds) fds.*1 fd p HF) as (f & E & Ho).
  - cbn. set_solver.
  - destruct HF as [HN _]. cbn in HN |- *. apply NoDup_cons in HN as [HN _].
    intros x. rewrite elem_of_cons. split; [|naive_solver]. intros Hx. split; [by right|]. by intros ->.
  - exists fd, f. split; [done|]. split; [done|]. cbn [fmap list_fmap fst recvNotifyFd]. by rewrite E.
Qed.
Lemma recvOCIState_cases names fds p : proc_ok p → fresh_fds fds p →
  recvOCIState names fds.*1 (install fds p) = (0, p) ∨
  ∃ idx fd f, Index seccompFdName names = Some idx ∧ fds.*1 !! idx = Some fd ∧ open p !! fd = None ∧
    recvOCIState names fds.*1 (install fds p) = acceptOCIFd fd (with_open (<[fd := f]> (open p)) p).
Proof.
  intros I HF. unfold recvOCIState.
  destruct (Index seccompFdName names) as [idx|] eqn:EI; [|left; by rewrite keep_none].
  destruct (fds.*1 !! idx) as [fd|] eqn:EF; [|left; by rewrite keep_none].
  right. destruct (keep_one fds (take idx fds.*1 ++ drop (S idx) fds.*1) fd p HF) as (f & E & Ho).
  - by eapply list_elem_of_lookup_2.
  - destruct HF as [HN _]. intros x. pose proof (take_drop_middle _ _ _ EF) as ET.
    rewrite <- ET in HN. apply NoDup_app in HN as (_ & N1 & N2). apply NoDup_cons in N2 as [N2 _].
    rewrite <- ET at 3. rewrite !elem_of_app, elem_of_cons.
    split; [|naive_solver]. intros Hx. split; [naive_solver|]. intros ->.
    destruct Hx as [Hx|Hx]; [|done]. apply (N1 fd Hx). left.
  - exists idx, fd, f. rewrite E. done.
Qed.

Lemma adopt_ok i f p : proc_ok p → open p !! Z.to_nat (in_fd i) = None →
  proc_ok (adopt i (with_open (<[Z.to_nat (in_fd i) := f]> (open p)) p)).2.
Proof.
  intros I Ho. unfold adopt. set (fd := Z.to_nat (in_fd i)) in *.
  rewrite closefd_fresh by done. destruct (negb (IsNotifyName _)); [done|].
  destruct (IsListener _ fd) eqn:EL; cbn [negb]; [|done].
  destruct I as [A T]. unfold acquire. cbn [cap with_open]. rewrite (ac_max p A).
  destruct (Z.ltb_spec maxSupervisedNotifyFds (c_n (cap p) + 1)); [by split|]. cbn [negb snd].
  assert (running p !! fd = None ∧ closing p !! fd = None ∧ fd ∉ adopting p) as (R & C & D).
  { pose proof (tb_open p T fd) as H'. rewrite !eq_None_not_Some.
    assert (¬ is_Some (open p !! fd)) by (by rewrite Ho; intros []). tauto. }
  destruct A as [A1 A2 A3 A4], T as [T1 T2 T3 T4 T5 T6]. split; split; cbn.
  - done.
  - rewrite A2, size_union, size_singleton by set_solver. lia.
  - done.
  - lia.
  - done.
  - intros x. destruct (decide (x = fd)) as [->|]; simplify_map_eq; [set_solver|].
    rewrite T2. set_solver.
  - intros x Hx. assert (x ≠ fd) by (intros ->; rewrite R in Hx; by destruct Hx).
    destruct (T3 x Hx). set_solver.
  - intros x Hx. assert (x ≠ fd) by (intros ->; rewrite C in Hx; by destruct Hx).
    pose proof (T4 x Hx). set_solver.
  - intros x Hx. destruct (decide (x = fd)) as [->|]; [exact EL|].
    unfold IsListener. cbn. rewrite lookup_insert_ne by done. apply T5. set_solver.
  - intros Hk x y Hx Hy. assert (x ≠ fd) by congruence. assert (y ≠ fd) by congruence.
    rewrite !lookup_insert_ne by done. by apply T6.
Qed.

Lemma superviseStored_ok fd p : proc_ok p → fd ∈ adopting p → proc_ok (superviseStored fd p).
Proof.
  intros [A T] Hfd.
  assert (running p !! fd = None ∧ closing p !! fd = None) as [R C].
  { split; apply eq_None_not_Some; intros H; [by apply (tb_run p T fd)|by apply (tb_close p T fd)]. }
  destruct A as [A1 A2 A3 A4], T as [T1 T2 T3 T4 T5 T6].
  assert (size (adopting p) = S (size (adopting p ∖ {[fd]}))) as HS.
  { assert ({[fd]} ⊆ adopting p) as Hsub by set_solver.
    rewrite size_difference by done. apply subseteq_size in Hsub. rewrite size_singleton in *. lia. }
  split; split; cbn.
  - done.
  - rewrite A2, HS, slots_insert by done. rewrite decide_False by done. lia.
  - rewrite A3, slots_insert by done. rewrite decide_True by done. lia.
  - lia.
  - by rewrite T1, dom_insert_L.
  - intros x. destruct (decide (x = fd)) as [->|]; simplify_map_eq; [naive_solver|].
    rewrite T2. set_solver.
  - intros x. destruct (decide (x = fd)) as [->|]; simplify_map_eq; [set_solver|].
    intros ?%T3. set_solver.
  - intros x ?%T4. set_solver.
  - intros x. unfold IsListener. cbn. destruct (decide (x = fd)) as [->|]; simplify_map_eq.
    + intros _. apply T5. by right.
    + intros ?. apply T5. set_solver.
  - intros Hk x y. destruct (decide (x = fd)) as [->|Hx]; destruct (decide (y = fd)) as [->|Hy];
      rewrite ?lookup_insert_eq, ?(lookup_insert_ne _ fd x), ?(lookup_insert_ne _ fd y) by done; try done.
    by apply T6.
Qed.

(** A supervisor's end, step by step. *)
Lemma end_untrack_ok fd b p : proc_ok p → running p !! fd = Some b → proc_ok (end_untrack fd b p).
Proof.
  intros [A T] R. destruct A as [A1 A2 A3 A4], T as [T1 T2 T3 T4 T5 T6].
  destruct (T3 fd) as [C D]; [by eexists|].
  assert (∀ b', slots b' (running p) + slots b' (closing p) =
    slots b' (delete fd (running p)) + slots b' (<[fd := b]> (closing p)))%nat as HS.
  { intros b'. rewrite (slots_delete b' b fd), slots_insert by done. lia. }
  split; split; cbn.
  - done.
  - rewrite A2, <- HS. done.
  - rewrite A3, <- HS. done.
  - done.
  - by rewrite T1, dom_delete_L.
  - intros x. destruct (decide (x = fd)) as [->|]; simplify_map_eq; [rewrite T2, R; naive_solver|apply T2].
  - intros x. destruct (decide (x = fd)) as [->|]; simplify_map_eq; [by intros []|apply T3].
  - intros x. destruct (decide (x = fd)) as [->|]; simplify_map_eq; [done|apply T4].
  - intros x [Hx|Hx]; apply T5; [left|by right].
    destruct Hx as [b' [_ Hb]%lookup_delete_Some]. by exists b'.
  - intros Hk x y [_ Rx]%lookup_delete_Some [_ Ry]%lookup_delete_Some. by apply T6.
Qed.
Lemma end_close_ok fd b p : proc_ok p → closing p !! fd = Some b → proc_ok (end_close fd b p).
Proof.
  intros [A T] C. destruct A as [A1 A2 A3 A4], T as [T1 T2 T3 T4 T5 T6].
  assert (running p !! fd = None) as R.
  { apply eq_None_not_Some. intros [F _]%T3. congruence. }
  assert (fd ∉ adopting p) as D by (apply T4; by eexists).
  pose proof (slots_delete Capped b fd (closing p) C) as S1.
  pose proof (slots_delete Trusted b fd (closing p) C) as S2.
  split; split; cbn.
  - done.
  - rewrite A2, S1. destruct b; [rewrite decide_True by done|rewrite decide_False by done]; lia.
  - rewrite A3, S2. destruct b; [rewrite decide_False by done|rewrite decide_True by done]; lia.
  - done.
  - done.
  - intros x. destruct (decide (x = fd)) as [->|]; simplify_map_eq; [|apply T2].
    rewrite R. split; [by intros []|]. intros [[]|[[]|]]; done.
  - intros x Hx. destruct (T3 x Hx). split; [|done]. by apply lookup_delete_None; right.
  - intros x. destruct (decide (x = fd)) as [->|]; simplify_map_eq; [by intros []|apply T4].
  - intros x Hx. pose proof (T5 x Hx) as HL. unfold IsListener in *. cbn.
    destruct (decide (x = fd)) as [->|]; [|by rewrite lookup_delete_ne].
    rewrite R in Hx. by destruct Hx as [[]|].
  - intros Hk x y Rx Ry. assert (x ≠ fd) by congruence. assert (y ≠ fd) by congruence.
    rewrite !lookup_delete_ne by done. by apply T6.
Qed.
Lemma end_release_ok b p : proc_ok p →
  (match b with Capped => rel_capped p | Trusted => rel_trusted p end ≠ 0)%nat → proc_ok (end_release b p).
Proof.
  intros [A T] HR. destruct A as [A1 A2 A3 A4], T as [T1 T2 T3 T4 T5 T6].
  destruct b; (split; [|by split]); split; cbn; try done; lia.
Qed.

Lemma pstep_ok p p' : proc_ok p → pstep p p' → proc_ok p'.
Proof.
  intros I [fds HF|names fds HF|i f HF|fd Hfd|fd b H|fd b H|b H].
  - destruct (recvNotifyFd_cases fds p I HF) as [->|(fd & f & _ & Ho & ->)];
      [by destruct p|by apply acceptProbeFd_ok].
  - destruct (recvOCIState_cases names fds p I HF) as [->|(idx & fd & f & _ & _ & Ho & ->)];
      [done|by apply acceptOCIFd_ok].
  - destruct HF as [_ HF]. apply adopt_ok; [done|]. apply HF. set_solver.
  - by apply superviseStored_ok.
  - by apply end_untrack_ok.
  - by apply end_close_ok.
  - by apply end_release_ok.
Qed.
Lemma preachable_ok p : preachable p → proc_ok p.
Proof.
  apply reach_invariant; [|intros ?? _; apply pstep_ok]. intros ? ->.
  split; split; cbn; try done; try set_solver; intros fd; rewrite ?lookup_empty.
  - rewrite !is_Some_alt. set_solver.
  - by intros [].
Qed.
End hand_off.

(** ** Properties *)

(** C22: a supervisor's whole run over its polls and receives, whatever they
    say. It goes past every poll that was interrupted, timed out or reported
    nothing, receives exactly once for every one that announced a notification
    and goes past a receive whose task was signalled away; everything it
    received it answers, in order, each by [answerBind]. It ends only where it
    stands: at a poll that reports the filter gone with nothing announced, at
    one that fails, or at a receive that fails otherwise; it waits in a poll
    only when none said anything, and in a receive only one the poll announced.
    So as long as every announced notification is there, it never blocks in a
    receive, and once a poll reports the filter gone the supervision ends. *)
Theorem supervision_runs g K mem idvalid reserve polls recvs :
  let r := runSupervision g K mem idvalid reserve (S (length polls)) polls recvs in
  (∃ seen left taken rest,
     polls = seen ++ left ∧ recvs = taken ++ rest ∧
     Forall (λ p, p ≠ PFail ∧ p ≠ PReady false true) seen ∧
     Forall (λ x, ∀ e, x = Err e → e = ENOENT) taken ∧
     length taken = count is_ready seen ∧
     r.2 = answers g K mem idvalid reserve taken ∧
     match r.1 with
     | FilterGone => ∃ ps, left = PReady false true :: ps
     | PollFailed => ∃ ps, left = PFail :: ps
     | RecvFailed => ∃ hup ps e rs, left = PReady true hup :: ps ∧ rest = Err e :: rs ∧ e ≠ ENOENT
     | BlockedInPoll => left = []
     | BlockedInRecv => ∃ hup ps, left = PReady true hup :: ps ∧ rest = []
     | OutOfFuel => False
     end) ∧
  ((count is_ready polls <= length recvs)%nat → r.1 ≠ BlockedInRecv) ∧
  ((count is_ready polls <= length recvs)%nat → PReady false true ∈ polls →
     r.1 = FilterGone ∨ r.1 = PollFailed ∨ r.1 = RecvFailed).
Proof.
  pose proof (runSupervision_spec g K mem idvalid reserve (S (length polls)) polls recvs ltac:(lia)) as H.
  cbn zeta. destruct (runSupervision _ _ _ _ _ _ _ _) as [o l]. cbn [fst snd].
  destruct H as (seen & left & taken & rest & HS & Ho & ->).
  destruct (stretch_ready _ _ _ _ _ _ HS) as (C1 & C2 & C3).
  assert ((count is_ready polls <= length recvs)%nat → o ≠ BlockedInRecv) as HB.
  { intros Hl ->. destruct Ho as (hup & ps & -> & ->). rewrite C1, C2, count_cons in Hl. cbn in Hl. lia. }
  split_and!; [|done|].
  - destruct HS as [H1 H2 H3 H4 H5]. exists seen, left, taken, rest. split_and!; try done.
    + eapply list.Forall_impl; [exact H3|]. intros p Hp. by split; intros ->.
    + eapply list.Forall_impl; [exact H4|]. intros x Hx e ->. by apply Z.eqb_eq.
  - intros Hl Hin%C3. specialize (HB Hl). destruct o; auto; try done. cbn in Ho. subst left. set_solver.
Qed.
Definition ex_notif : Notif := MkNotif 7 10 200 0xC00000B7 [3; 4096; 16; 0; 0; 0].
Lemma supervision_runs_witness :
  let r := runSupervision arm64 ex_kernel ex_mem (λ _, true) (λ _ _ _, RespInUse) 4
             [PEintr; PReady true false; PReady false true] [Ok ex_notif] in
  r = (FilterGone, [(ex_notif, Errno EADDRINUSE)]) ∧
  (r.1 = FilterGone ∨ r.1 = PollFailed ∨ r.1 = RecvFailed).
Proof.
  cbn zeta. split; [vm_compute; reflexivity|].
  apply (supervision_runs arm64 ex_kernel ex_mem (λ _, true) (λ _ _ _, RespInUse)
    [PEintr; PReady true false; PReady false true] [Ok ex_notif]); [cbn; lia|].
  right. right. left.
Defined.

(** C10: the account of supervised fds, in every state of the hand-offs, the
    adoptions and the supervisors' ends: the capped count is the number of
    capped slots held and stays within its bound, the trusted count the
    number of trusted ones; the tracked fds are those of the running
    supervisors, every one an open listener; no two capped supervisors watch
    one open file; and every fd that is open belongs to a supervisor, one
    that is ending or one about to start, so none leaks. *)
Theorem supervise_account listener kcmp p :
  preachable listener kcmp p →
  c_n (cap p) = Z.of_nat (slots Capped (running p) + slots Capped (closing p) +
                  rel_capped p + size (adopting p)) ∧
  c_n (cap p) <= maxSupervisedNotifyFds ∧
  c_trusted (cap p) = Z.of_nat (slots Trusted (running p) + slots Trusted (closing p) + rel_trusted p) ∧
  c_fds (cap p) = dom (running p) ∧
  (∀ fd, is_Some (running p !! fd) → IsListener listener p fd = true) ∧
  (kcmp = true → ∀ a b, running p !! a = Some Capped → running p !! b = Some Capped →
     open p !! a = open p !! b → a = b) ∧
  (∀ fd, is_Some (open p !! fd) →
     is_Some (running p !! fd) ∨ is_Some (closing p !! fd) ∨ fd ∈ adopting p).
Proof.
  intros [A T]%preachable_ok. destruct A as [A1 A2 A3 A4], T as [T1 T2 T3 T4 T5 T6].
  repeat split; try done.
  - intros fd Hfd. apply T5. by left.
  - intros fd. apply T2.
Qed.
(** A probe listener handed over as fd 5, with a pipe as fd 6 beside it. *)
Definition ex_proc : proc :=
  (recvNotifyFd (λ f, (f =? 1)%nat) true [5%nat; 6%nat] (install [(5, 1); (6, 2)]%nat proc0)).2.
Lemma supervise_account_witness :
  c_n (cap ex_proc) = 1 ∧ c_fds (cap ex_proc) = dom (running ex_proc).
Proof.
  split; [vm_compute; reflexivity|].
  apply (supervise_account (λ f, (f =? 1)%nat) true).
  eapply reach_step; [by apply reach_init|]. apply (s_probe _ _ _ [(5, 1); (6, 2)]%nat).
  split; [apply (bool_decide_unpack _); vm_compute; done|]. intros fd _. reflexivity.
Defined.

(** Who is let in. A probe hand-off goes under supervision exactly when
    its first fd is a listener whose file no running supervisor watches and
    the cap has room, an OCI hand-off exactly when the fd its state names is
    a listener, whatever the cap; any other hand-off leaves the process as it
    was, with every fd it brought closed. *)
Theorem hand_off_admission listener kcmp p fd f :
  preachable listener kcmp p → open p !! fd = None →
  let q := with_open (<[fd := f]> (open p)) p in
  ((acceptProbeFd listener kcmp fd q).1 = true ↔
     listener f = true ∧
     ¬ (kcmp = true ∧ ∃ t, is_Some (running p !! t) ∧ open p !! t = Some f) ∧
     c_n (cap p) < maxSupervisedNotifyFds) ∧
  ((acceptProbeFd listener kcmp fd q).1 = true →
     running (acceptProbeFd listener kcmp fd q).2 = <[fd := Capped]> (running p)) ∧
  ((acceptProbeFd listener kcmp fd q).1 = false → (acceptProbeFd listener kcmp fd q).2 = p) ∧
  (listener f = true →
     running (acceptOCIFd listener fd q).2 = <[fd := Trusted]> (running p)) ∧
  (listener f = false → acceptOCIFd listener fd q = (0, p)) ∧
  (∀ fds, fresh_fds fds p → ∀ names,
     (Index seccompFdName names = None ∨
      (∃ i, Index seccompFdName names = Some i ∧ (length fds <= i)%nat)) →
     recvOCIState listener names fds.*1 (install fds p) = (0, p)).
Proof.
  intros I%preachable_ok Ho q.
  pose proof (acceptOCIFd_cases listener kcmp fd f p I Ho) as HO. cbn zeta in HO. fold q in HO.
  split; [|split; [|split; [|split; [|split]]]].
  1-3: destruct (acceptProbeFd_cases listener kcmp fd f p I Ho) as [(H1 & H2 & H3 & E)|[H E]]; fold q in E; rewrite E; cbn.
  - split; [|done]. intros _. split; [done|]. split; [|done]. intros (Hk & t & Ht & Hf). by apply (H2 Hk t).
  - split; [done|]. intros (H1 & H2 & H3). destruct H as [H|[H|H]]; [congruence|by destruct H2|lia].
  - done.
  - done.
  - done.
  - done.
  - intros Hl. by rewrite HO, Hl.
  - intros Hl. by rewrite HO, Hl.
  - intros fds HF names HN. unfold recvOCIState.
    destruct HN as [->|(i & -> & Hi)]; [by rewrite keep_none|].
    rewrite lookup_ge_None_2 by by rewrite length_fmap. by rewrite keep_none.
Qed.
Lemma hand_off_admission_witness :
  (acceptProbeFd (λ f, (f =? 1)%nat) true 5 (with_open (<[5%nat := 1%nat]> (open proc0)) proc0)).1 = true.
Proof.
  apply (hand_off_admission (λ f, (f =? 1)%nat) true proc0 5 1).
  - by apply reach_init.
  - reflexivity.
  - split; [reflexivity|]. split; [|reflexivity]. intros (_ & t & [b Ht] & _). discriminate Ht.
Defined.

(** An adopted fd is tracked only when its goroutine runs: a probe hand-off
    of the same listener before that is admitted, and one listener has two
    supervisors. *)
Lemma adopted_twice :
  ∃ p, preachable (λ f, (f =? 1)%nat) true p ∧
    running p = {[3%nat := Trusted; 5%nat := Capped]} ∧ open p !! 3%nat = open p !! 5%nat.
Proof.
  pose (L := λ f, (f =? 1)%nat).
  pose (p1 := (adopt L (MkInherited 3 "notify-a-1") (install [(3, 1)]%nat proc0)).2).
  pose (p2 := (recvNotifyFd L true [5%nat] (install [(5, 1)]%nat p1)).2).
  exists (superviseStored 3 p2). split; [|split; [vm_compute; reflexivity|vm_compute; reflexivity]].
  eapply reach_step; [|apply s_stored; apply (bool_decide_unpack _); vm_compute; done].
  eapply reach_step; [|apply (s_probe _ _ _ [(5, 1)]%nat)].
  - eapply reach_step; [by apply reach_init|apply (s_adopt _ _ _ (MkInherited 3 "notify-a-1") 1)].
    split; [apply NoDup_singleton|]. intros fd _. reflexivity.
  - split; [apply NoDup_singleton|]. intros fd ->%list_elem_of_singleton. reflexivity.
Qed.
