(* ===== verification/OciRuntime.v ===== *)
(** * The OCI runtime wrapper

    [internal/ociruntime] and [cmd/drawbridge-runc]: which runtime a wrapper
    stands in for and how it reads its command line ([dispatch.go]), and the
    rewriting of a bundle's [config.json] that adds the bind arbitration
    ([mutate.go]). *)

From S2P Require Import Prelude GoStr.

Open Scope string_scope.
Open Scope list_scope.
Open Scope Z_scope.

(** ** Decoded JSON

    A [map[string]any] as Go decodes it. Objects are association lists with
    one binding per key; the first binding of a key is the one it has. *)
#[warnings="-register-all"]
Inductive json :=
| JNull
| JBool (b : bool)
| JNum (text : string)
| JStr (s : string)
| JArr (l : list json)
| JObj (o : list (string * json)).
Abbreviation obj := (list (string * json)).

(** [m[key]], nothing when it is absent. *)
Fixpoint get (k : string) (o : obj) : option json :=
  match o with
  | [] => None
  | (k', v) :: o => if String.eqb k' k then Some v else get k o
  end.
(** [m[key] = v] *)
Fixpoint set (k : string) (v : json) (o : obj) : obj :=
  match o with
  | [] => [(k, v)]
  | (k', v') :: o => if String.eqb k' k then (k, v) :: o else (k', v') :: set k v o
  end.
(** The type assertions; a failed one yields the zero value, for a map and a
    slice nil. *)
Definition as_map (v : option json) : option obj := match v with Some (JObj o) => Some o | _ => None end.
Definition as_arr (v : option json) : list json := match v with Some (JArr l) => l | _ => [] end.
Definition as_str (v : option json) : string := match v with Some (JStr s) => s | _ => "" end.

(** ** [mutate.go] *)
Definition OptOutAnnotation : string := "dev.drawbridge.arbitrate".
Definition actAllow : string := "SCMP_ACT_ALLOW".
Definition actLog : string := "SCMP_ACT_LOG".
Definition actNotify : string := "SCMP_ACT_NOTIFY".

Definition notifyRule : obj := [("names", JArr [JStr "bind"]); ("action", JStr actNotify)].
Definition syscallRules (sec : obj) : list json := as_arr (get "syscalls" sec).
Definition namesContain (rule : obj) (name : string) : bool :=
  existsb (λ n, String.eqb (as_str (Some n)) name) (as_arr (get "names" rule)).

(** Why a bundle is left alone. *)
Inductive reason :=
| OptOut | PrivateNetns | HasListener | UsesNotify | DefaultNotify
| BindAction (act : string) | BindArgs | DefaultAction (act : string).
#[export] Instance reason_eq_dec : EqDecision reason.
Proof. solve_decision. Defined.

(** The scan of [seccompOf] for rules that notify. *)
Fixpoint uses_notify (rules : list json) : bool :=
  match rules with
  | [] => false
  | r :: rules =>
      match as_map (Some r) with
      | None => uses_notify rules
      | Some rule => if String.eqb (as_str (get "action" rule)) actNotify then true else uses_notify rules
      end
  end.
(** Its scan of the bind rules: how many there are, or the first one that
    does not simply allow. *)
Fixpoint bind_rules (rules : list json) (n : nat) : reason + nat :=
  match rules with
  | [] => inr n
  | r :: rules =>
      match as_map (Some r) with
      | None => bind_rules rules n
      | Some rule =>
          if negb (namesContain rule "bind") then bind_rules rules n
          else if negb (String.eqb (as_str (get "action" rule)) actAllow) then
            inl (BindAction (as_str (get "action" rule)))
          else match as_arr (get "args" rule) with
          | _ :: _ => inl BindArgs
          | [] => bind_rules rules (S n)
          end
      end
  end.
(** [seccompOf]: the profile, none when the container is unconfined, or the
    reason to refuse. *)
Definition seccompOf (spec : obj) : reason + option obj :=
  match as_map (get "linux" spec) with
  | None => inr None
  | Some linux =>
      match as_map (get "seccomp" linux) with
      | None => inr None
      | Some sec =>
          if negb (String.eqb (as_str (get "listenerPath" sec)) "") then inl HasListener
          else if uses_notify (syscallRules sec) then inl UsesNotify
          else
            let da := as_str (get "defaultAction" sec) in
            if String.eqb da actNotify then inl DefaultNotify
            else match bind_rules (syscallRules sec) 0 with
            | inl r => inl r
            | inr n =>
                if (n =? 0)%nat && negb (String.eqb da actAllow) && negb (String.eqb da actLog)
                then inl (DefaultAction da) else inr (Some sec)
            end
      end
  end.

(** [stripBind] on the rules: "bind" leaves every rule's names, and a rule
    left without a name is dropped. *)
Fixpoint strip_rules (rules : list json) : list json :=
  match rules with
  | [] => []
  | r :: rules =>
      match as_map (Some r) with
      | None => r :: strip_rules rules
      | Some rule =>
          if negb (namesContain rule "bind") then r :: strip_rules rules
          else
            let rest := List.filter (λ n, negb (String.eqb (as_str (Some n)) "bind"))
                          (as_arr (get "names" rule)) in
            match rest with
            | [] => strip_rules rules
            | _ => JObj (set "names" (JArr rest) rule) :: strip_rules rules
            end
      end
  end.
Definition stripBind (sec : obj) : obj := set "syscalls" (JArr (strip_rules (syscallRules sec))) sec.

Fixpoint has_network (nss : list json) : bool :=
  match nss with
  | [] => false
  | ns :: nss =>
      match as_map (Some ns) with
      | None => has_network nss
      | Some m => if String.eqb (as_str (get "type" m)) "network" then true else has_network nss
      end
  end.
Definition hasNetworkNamespace (spec : obj) : bool :=
  match as_map (get "linux" spec) with
  | None => false
  | Some linux => has_network (as_arr (get "namespaces" linux))
  end.
Definition annotation (spec : obj) (key : string) : option string :=
  match as_map (get "annotations" spec) with
  | None => None
  | Some anns => match get key anns with Some (JStr v) => Some v | _ => None end
  end.
(** [ensureMap], with the map it leaves. *)
Definition ensureMap (m : obj) (key : string) : obj * obj :=
  match as_map (get key m) with
  | Some sub => (sub, m)
  | None => ([], set key (JObj []) m)
  end.

(** The profile an injection leaves in [linux.seccomp]. *)
Definition injected_profile (listenerPath listenerMetadata : string) (sec : option obj) : obj :=
  match sec with
  | None => [("defaultAction", JStr actAllow); ("syscalls", JArr [JObj notifyRule]);
             ("listenerPath", JStr listenerPath); ("listenerMetadata", JStr listenerMetadata)]
  | Some sec =>
      let sec := stripBind sec in
      let sec := set "syscalls" (JArr (syscallRules sec ++ [JObj notifyRule])) sec in
      set "listenerMetadata" (JStr listenerMetadata) (set "listenerPath" (JStr listenerPath) sec)
  end.
(** The decision on a decoded object: refused for a reason, or the new one. *)
Definition mutate_spec (listenerPath listenerMetadata : string) (spec : obj) : reason + obj :=
  if bool_decide (annotation spec OptOutAnnotation = Some "false") then inl OptOut
  else if hasNetworkNamespace spec then inl PrivateNetns
  else match seccompOf spec with
  | inl r => inl r
  | inr sec =>
      let '(linux, spec) := ensureMap spec "linux" in
      inr (set "linux"
        (JObj (set "seccomp" (JObj (injected_profile listenerPath listenerMetadata sec)) linux)) spec)
  end.

(** What [json.Unmarshal] makes of the bytes as a map: an error, the nil map
    of a [null] document, or an object. *)
Inductive decoded := DecodeErr | DecodeNull | DecodeObj (o : obj).
(** [MutateConfig]'s results: [Panicked] is the assignment to a nil map. *)
Inductive mutated (B : Type) := Undecodable | Untouched (r : reason) | Injected (out : B) | Panicked.
Arguments Undecodable {B}.
Arguments Untouched {B} _.
Arguments Injected {B} _.
Arguments Panicked {B}.
Definition MutateConfig {B} (Unmarshal : B → decoded) (Marshal : obj → B) (raw : B)
    (listenerPath listenerMetadata : string) : mutated B :=
  match Unmarshal raw with
  | DecodeErr => Undecodable
  | DecodeNull => Panicked
  | DecodeObj spec =>
      match mutate_spec listenerPath listenerMetadata spec with
      | inl r => Untouched r
      | inr spec => Injected (Marshal spec)
      end
  end.

(** ** [dispatch.go] *)
Definition RuntimeRunc : string := "runc".
Definition RuntimeCrun : string := "crun".
Definition WrapperPrefix : string := "drawbridge-".
Record Runtime := MkRuntime {
  rt_name : string; EnvOverride : list string; Probe : list string; ValueFlags : list string }.
Definition runcRuntime : Runtime :=
  MkRuntime RuntimeRunc ["DRAWBRIDGE_RUNTIME"; "DRAWBRIDGE_RUNC"]
    ["/usr/sbin/runc"; "/usr/bin/runc"; "/usr/local/sbin/runc"]
    ["--log"; "--log-format"; "--root"; "--criu"; "--rootless"].
Definition crunRuntime : Runtime :=
  MkRuntime RuntimeCrun ["DRAWBRIDGE_RUNTIME"]
    ["/usr/bin/crun"; "/usr/local/sbin/crun"; "/usr/sbin/crun"; "/usr/local/bin/crun"]
    ["--root"; "--log"; "--log-format"; "--log-level"; "--cgroup-manager"].

(** [filepath.Base] *)
Definition Base (path : string) : string :=
  if String.eqb path "" then "."
  else
    let p := trim_right (λ c, Ascii.eqb c "/") path in
    let b := match LastIndexByte "/"%char p with Some i => str_drop (S i) p | None => p end in
    if String.eqb b "" then "/" else b.
Definition RuntimeFor (argv0 : string) : Runtime :=
  match CutPrefix WrapperPrefix (Base argv0) with
  | Some name => if String.eqb name RuntimeCrun then crunRuntime else runcRuntime
  | None => runcRuntime
  end.

Definition value_flag (rt : Runtime) (a : string) : bool := existsb (String.eqb a) (ValueFlags rt).
(** [Subcommand]; the skip of a flag's value may step past the end. *)
Fixpoint Subcommand (rt : Runtime) (args : list string) : string * list string :=
  match args with
  | [] => ("", [])
  | a :: args =>
      match a with
      | String "-" _ =>
          if value_flag rt a then
            match args with [] => ("", []) | _ :: args => Subcommand rt args end
          else Subcommand rt args
      | _ => (a, args)
      end
  end.

Fixpoint Override (vars : list string) (getenv : string → string) : string :=
  match vars with
  | [] => ""
  | k :: vars =>
      let v := TrimSpace (getenv k) in
      if String.eqb v "" then Override vars getenv else v
  end.
(** [Pick]'s walk over the probes. *)
Fixpoint pick_probe (probes : list string) (me : string) (canon : string → string) : string :=
  match probes with
  | [] => ""
  | p :: probes =>
      let real := canon p in
      if String.eqb real "" then pick_probe probes me canon
      else if negb (String.eqb me "") && String.eqb real me then pick_probe probes me canon
      else p
  end.
Definition Pick (rt : Runtime) (override self : string) (canon : string → string) : string :=
  if negb (String.eqb override "") then override else pick_probe (Probe rt) (canon self) canon.
(** [Real]: [Pick] over the environment and the file system. *)
Definition Real (rt : Runtime) (getenv : string → string) (self : string) (canon : string → string) : string :=
  Pick rt (Override (EnvOverride rt) getenv) self canon.

(** ** The wrapper's [main] *)

(** [createBundle]'s loop; the word after [--bundle] is read as one of the
    following arguments too, as the loop does. *)
Fixpoint bundle_of (rest : list string) (bundle : string) : string :=
  match rest with
  | [] => bundle
  | a :: rest =>
      let bundle :=
        if String.eqb a "--bundle" || String.eqb a "-b" then
          match rest with b :: _ => b | [] => bundle end
        else match CutPrefix "--bundle=" a with
        | Some (String c v) => String c v
        | _ => match CutPrefix "-b=" a with Some (String c v) => String c v | _ => bundle end
        end in
      bundle_of rest bundle
  end.
Definition createBundle (rt : Runtime) (args : list string) : option string :=
  let '(sub, rest) := Subcommand rt args in
  if String.eqb sub "create" || String.eqb sub "run" then Some (bundle_of rest ".") else None.

(** [tryInject] over the bundle's [config.json]: what reading it gave,
    whether the agent's socket answers, and whether each file operation
    succeeds; the bytes the file holds afterwards, or the panic. *)
Record fsenv := FsEnv { agent_up : bool; stat_ok : bool; write_ok : bool; rename_ok : bool }.
Definition tryInject {B} (Unmarshal : B → decoded) (Marshal : obj → B) (e : fsenv)
    (sock meta : string) (cfg : option B) : option (option B) :=
  match cfg with
  | None => Some None
  | Some raw =>
      match MutateConfig Unmarshal Marshal raw sock meta with
      | Undecodable | Untouched _ => Some cfg
      | Panicked => None
      | Injected out =>
          if agent_up e && stat_ok e && write_ok e && rename_ok e then Some (Some out) else Some cfg
      end
  end.

(** ** Facts *)
Definition del (k : string) (o : obj) : obj := List.filter (λ kv, negb (String.eqb kv.1 k)) o.
Lemma get_set_eq k v o : get k (set k v o) = Some v.
Proof.
  induction o as [|[k' v'] o IH]; cbn; [by rewrite String.eqb_refl|].
  destruct (String.eqb k' k) eqn:E; cbn; [by rewrite String.eqb_refl|by rewrite E].
Qed.
Lemma get_set_ne k k' v o : k ≠ k' → get k (set k' v o) = get k o.
Proof.
  intros Hn. induction o as [|[k1 v1] o IH]; cbn.
  - by rewrite (proj2 (String.eqb_neq k' k)).
  - destruct (String.eqb_spec k1 k') as [->|]; cbn; [|by rewrite IH].
    by rewrite (proj2 (String.eqb_neq k' k)).
Qed.
Lemma del_set k v o : del k (set k v o) = del k o.
Proof.
  unfold del. induction o as [|[k' v'] o IH]; cbn; [by rewrite String.eqb_refl|].
  destruct (String.eqb_spec k' k) as [->|]; cbn.
  - by rewrite String.eqb_refl.
  - rewrite (proj2 (String.eqb_neq k' k)) by done. cbn. by rewrite IH.
Qed.

(** The rules that name a syscall, without their names: all a runtime can
    make of it, besides the default action. *)
Definition rule_for (s : string) (r : json) : option obj :=
  match as_map (Some r) with
  | Some rule => if namesContain rule s then Some (del "names" rule) else None
  | None => None
  end.
Definition rules_for (s : string) (sec : obj) : list obj := omap (rule_for s) (syscallRules sec).
(** A rule that only allows. *)
Definition plain_allow (rule : obj) : Prop :=
  as_str (get "action" rule) = actAllow ∧ as_arr (get "args" rule) = [].

(** A rule that notifies, and a namespace entry that gives a container a
    network of its own, as a runtime reads them. *)
Definition notifies (r : json) : Prop :=
  ∃ rule, as_map (Some r) = Some rule ∧ as_str (get "action" rule) = actNotify.
Definition private_net (ns : json) : Prop :=
  ∃ m, as_map (Some ns) = Some m ∧ as_str (get "type" m) = "network".

Lemma uses_notify_false rules : uses_notify rules = false ↔ Forall (λ r, ¬ notifies r) rules.
Proof.
  induction rules as [|r rules IH]; cbn [uses_notify]; [done|]. rewrite Forall_cons, <- IH.
  unfold notifies. destruct (as_map (Some r)) as [rule|]; [|naive_solver].
  destruct (String.eqb_spec (as_str (get "action" rule)) actNotify); naive_solver.
Qed.
Lemma has_network_false nss : has_network nss = false ↔ Forall (λ ns, ¬ private_net ns) nss.
Proof.
  induction nss as [|ns nss IH]; cbn [has_network]; [done|]. rewrite Forall_cons, <- IH.
  unfold private_net. destruct (as_map (Some ns)) as [m|]; [|naive_solver].
  destruct (String.eqb_spec (as_str (get "type" m)) "network"); naive_solver.
Qed.
Lemma strip_rules_notify rules :
  Forall (λ r, ¬ notifies r) rules → Forall (λ r, ¬ notifies r) (strip_rules rules).
Proof.
  induction 1 as [|r rules Hr _ IH]; cbn [strip_rules]; [done|].
  destruct (as_map (Some r)) as [rule|] eqn:E; [|by constructor].
  destruct (namesContain rule "bind"); cbn [negb]; [|by constructor].
  destruct (List.filter _ _) as [|n rest]; [done|]. constructor; [|done].
  intros (rule' & [= <-] & Ha). apply Hr. exists rule. split; [done|].
  by rewrite get_set_ne in Ha.
Qed.

Lemma syscallRules_set l sec : syscallRules (set "syscalls" (JArr l) sec) = l.
Proof. unfold syscallRules. by rewrite get_set_eq. Qed.
Lemma existsb_filter_ne s (l : list json) : s ≠ "bind" →
  existsb (λ n, String.eqb (as_str (Some n)) s)
    (List.filter (λ n, negb (String.eqb (as_str (Some n)) "bind")) l) =
  existsb (λ n, String.eqb (as_str (Some n)) s) l.
Proof.
  intros Hs. induction l as [|n l IH]; cbn -[as_str]; [done|].
  destruct (String.eqb_spec (as_str (Some n)) "bind") as [E|]; cbn -[as_str]; rewrite IH; [|done].
  by rewrite E, (proj2 (String.eqb_neq "bind" s)).
Qed.
Lemma existsb_filter_bind (l : list json) :
  existsb (λ n, String.eqb (as_str (Some n)) "bind")
    (List.filter (λ n, negb (String.eqb (as_str (Some n)) "bind")) l) = false.
Proof.
  induction l as [|n l IH]; cbn -[as_str]; [done|].
  destruct (String.eqb (as_str (Some n)) "bind") eqn:E; cbn -[as_str]; [done|]. by rewrite E.
Qed.
Lemma strip_rules_for s rules : s ≠ "bind" →
  omap (rule_for s) (strip_rules rules) = omap (rule_for s) rules.
Proof.
  intros Hs. induction rules as [|r rules IH]; [done|]. cbn [strip_rules].
  destruct (as_map (Some r)) as [rule|] eqn:E; [|cbn [omap list_omap]; by rewrite IH].
  destruct (namesContain rule "bind"); cbn [negb]; [|cbn [omap list_omap]; by rewrite IH].
  pose proof (existsb_filter_ne s (as_arr (get "names" rule)) Hs) as HF.
  unfold rule_for at 2. cbn [omap list_omap]. rewrite E.
  destruct (List.filter _ _) as [|n rest] eqn:EF.
  - unfold namesContain. rewrite <- HF. cbn. by rewrite IH.
  - cbn [omap list_omap]. unfold rule_for at 1. cbn [as_map].
    unfold namesContain. rewrite get_set_eq. cbn [as_arr]. rewrite HF, del_set, IH. done.
Qed.
Lemma strip_rules_bind rules : omap (rule_for "bind") (strip_rules rules) = [].
Proof.
  induction rules as [|r rules IH]; [done|]. cbn [strip_rules].
  destruct (as_map (Some r)) as [rule|] eqn:E; cbn [omap list_omap].
  2:{ unfold rule_for at 1. by rewrite E, IH. }
  destruct (namesContain rule "bind") eqn:EN; cbn [negb].
  2:{ cbn [omap list_omap]. unfold rule_for at 1. by rewrite E, EN, IH. }
  pose proof (existsb_filter_bind (as_arr (get "names" rule))) as HF.
  destruct (List.filter _ _) as [|n rest]; [done|].
  cbn [omap list_omap]. unfold rule_for at 1. cbn [as_map].
  unfold namesContain. rewrite get_set_eq. cbn [as_arr]. by rewrite HF, IH.
Qed.
Lemma rules_for_app s l1 l2 sec :
  rules_for s (set "syscalls" (JArr (l1 ++ l2)) sec) = omap (rule_for s) l1 ++ omap (rule_for s) l2.
Proof. unfold rules_for. rewrite syscallRules_set. apply omap_app. Qed.

Lemma bind_rules_plain rules n m : bind_rules rules n = inr m →
  Forall plain_allow (omap (rule_for "bind") rules) ∧
  m = (n + length (omap (rule_for "bind") rules))%nat.
Proof.
  revert n. induction rules as [|r rules IH]; intros n; cbn [bind_rules omap list_omap].
  { intros [= <-]. split; [done|cbn; lia]. }
  unfold rule_for at 1 4. destruct (as_map (Some r)) as [rule|]; [|apply IH].
  destruct (namesContain rule "bind"); cbn [negb]; [|apply IH].
  destruct (String.eqb_spec (as_str (get "action" rule)) actAllow) as [Ea|]; cbn [negb]; [|done].
  destruct (as_arr (get "args" rule)) eqn:Eg; [|done].
  intros [HF ->]%IH. split; [|cbn; lia]. constructor; [|done].
  unfold plain_allow.
  assert (∀ k, k ≠ "names" → get k (del "names" rule) = get k rule) as Hd.
  { intros k Hk. unfold del. clear -Hk.
    induction rule as [|[k' v] rule IHr]; cbn [List.filter fst get]; [done|].
    destruct (String.eqb_spec k' "names") as [->|]; cbn [negb get]; rewrite IHr; [|done].
    by rewrite (proj2 (String.eqb_neq "names" k)). }
  rewrite !Hd by done. done.
Qed.
Lemma seccompOf_allowed spec sec : seccompOf spec = inr (Some sec) →
  ∃ linux, as_map (get "linux" spec) = Some linux ∧ as_map (get "seccomp" linux) = Some sec ∧
    as_str (get "listenerPath" sec) = "" ∧
    Forall (λ r, ¬ notifies r) (syscallRules sec) ∧
    as_str (get "defaultAction" sec) ≠ actNotify ∧
    Forall plain_allow (rules_for "bind" sec) ∧
    (rules_for "bind" sec = [] →
       as_str (get "defaultAction" sec) = actAllow ∨ as_str (get "defaultAction" sec) = actLog).
Proof.
  unfold seccompOf. destruct (as_map (get "linux" spec)) as [linux|]; [|done].
  destruct (as_map (get "seccomp" linux)) as [sec'|] eqn:Es; [|done].
  destruct (String.eqb_spec (as_str (get "listenerPath" sec')) "") as [El|]; cbn [negb]; [|done].
  destruct (uses_notify _) eqn:Eu; [done|]. apply uses_notify_false in Eu.
  destruct (String.eqb_spec (as_str (get "defaultAction" sec')) actNotify) as [|En]; [done|].
  destruct (bind_rules (syscallRules sec') 0) as [|n] eqn:Eb; [done|].
  destruct ((n =? 0)%nat && _ && _) eqn:Ed; [done|]. intros [= <-].
  apply bind_rules_plain in Eb as [HF ->].
  exists linux. split_and!; [done..|exact HF|].
  intros E. unfold rules_for in E. rewrite E in Ed. cbn in Ed.
  destruct (String.eqb_spec (as_str (get "defaultAction" sec')) actAllow); [by left|].
  destruct (String.eqb_spec (as_str (get "defaultAction" sec')) actLog); [by right|done].
Qed.

Lemma rule_for_notify s : s ≠ "bind" → rule_for s (JObj notifyRule) = None.
Proof.
  intros Hs. unfold rule_for. cbn [as_map].
  assert (namesContain notifyRule s = String.eqb "bind" s || false) as -> by reflexivity.
  by rewrite (proj2 (String.eqb_neq "bind" s)).
Qed.

(** The one rule an injected profile notifies by, over a profile with none. *)
Lemma injected_profile_notifies lp lm sec r :
  (∀ o, sec = Some o → Forall (λ r, ¬ notifies r) (syscallRules o)) →
  r ∈ syscallRules (injected_profile lp lm sec) → notifies r → r = JObj notifyRule.
Proof.
  intros HN. destruct sec as [sec|]; cbn [injected_profile].
  - unfold syscallRules at 1. rewrite !(get_set_ne "syscalls") by done. rewrite get_set_eq.
    cbn [as_arr]. unfold stripBind at 1. rewrite syscallRules_set.
    intros [Hr|Hr]%elem_of_app Hn; [|by apply list_elem_of_singleton in Hr].
    specialize (HN sec eq_refl). apply strip_rules_notify in HN.
    rewrite list.Forall_forall in HN. by apply HN in Hr.
  - intros Hr _. by apply list_elem_of_singleton in Hr.
Qed.

(** The profile an injection writes. *)
Lemma injected_profile_rules lp lm sec :
  as_str (get "listenerPath" (injected_profile lp lm sec)) = lp ∧
  as_str (get "listenerMetadata" (injected_profile lp lm sec)) = lm ∧
  rules_for "bind" (injected_profile lp lm sec) = [del "names" notifyRule] ∧
  (∀ s, s ≠ "bind" → rules_for s (injected_profile lp lm sec) = from_option (rules_for s) [] sec) ∧
  (∀ k, k ∉ ["syscalls"; "listenerPath"; "listenerMetadata"] →
     get k (injected_profile lp lm sec) =
     match sec with Some sec => get k sec | None => get k [("defaultAction", JStr actAllow)] end).
Proof.
  destruct sec as [sec|]; cbn [injected_profile from_option].
  - assert (∀ s, rules_for s (set "listenerMetadata" (JStr lm) (set "listenerPath" (JStr lp)
      (set "syscalls" (JArr (syscallRules (stripBind sec) ++ [JObj notifyRule])) (stripBind sec)))) =
      omap (rule_for s) (strip_rules (syscallRules sec)) ++ omap (rule_for s) [JObj notifyRule]) as HR.
    { intros s. unfold rules_for, syscallRules at 1. rewrite !(get_set_ne "syscalls") by done.
      rewrite get_set_eq. cbn [as_arr]. rewrite omap_app. unfold stripBind at 1. by rewrite syscallRules_set. }
    split; [by rewrite get_set_ne, get_set_eq|]. split; [by rewrite get_set_eq|].
    split; [by rewrite HR, strip_rules_bind|]. split.
    + intros s Hs. rewrite HR, strip_rules_for by done. cbn [omap list_omap].
      rewrite rule_for_notify by done. by rewrite app_nil_r.
    + intros k Hk. unfold stripBind. rewrite !get_set_ne by set_solver. done.
  - split; [done|]. split; [done|]. split; [done|]. split.
    + intros s Hs. transitivity (omap (rule_for s) [JObj notifyRule]); [reflexivity|].
      cbn [omap list_omap]. by rewrite rule_for_notify.
    + intros k Hk. cbn [get]. destruct (String.eqb "defaultAction" k); [done|].
      rewrite !(proj2 (String.eqb_neq _ k)) by set_solver. done.
Qed.
Lemma mutate_spec_inr lp lm spec spec' : mutate_spec lp lm spec = inr spec' →
  ∃ sec, seccompOf spec = inr sec ∧ annotation spec OptOutAnnotation ≠ Some "false" ∧
    hasNetworkNamespace spec = false ∧
    let linux := default [] (as_map (get "linux" spec)) in
    let linux' := set "seccomp" (JObj (injected_profile lp lm sec)) linux in
    get "linux" spec' = Some (JObj linux') ∧
    (∀ k, k ≠ "linux" → get k spec' = get k spec).
Proof.
  unfold mutate_spec. case_bool_decide as H1; [done|].
  destruct (hasNetworkNamespace spec) eqn:H2; [done|].
  destruct (seccompOf spec) as [|sec] eqn:H3; [done|].
  unfold ensureMap. destruct (as_map (get "linux" spec)) as [linux|]; intros [= <-]; exists sec;
    (split; [done|]); (split; [done|]); (split; [done|]); cbn [default]; split.
  - by rewrite get_set_eq.
  - intros k Hk. by rewrite get_set_ne.
  - by rewrite get_set_eq.
  - intros k Hk. by rewrite !get_set_ne.
Qed.

(** The profile and the namespaces a rewritten config had. *)
Lemma seccompOf_sec spec sec : seccompOf spec = inr sec →
  as_map (get "seccomp" (default [] (as_map (get "linux" spec)))) = sec.
Proof.
  unfold seccompOf. destruct (as_map (get "linux" spec)) as [linux|]; cbn [default from_option id].
  - destruct (as_map (get "seccomp" linux)); [|by intros [= <-]]. repeat case_match; congruence.
  - by intros [= <-].
Qed.
Lemma host_network spec : hasNetworkNamespace spec = false →
  has_network (as_arr (get "namespaces" (default [] (as_map (get "linux" spec))))) = false.
Proof. unfold hasNetworkNamespace. by destruct (as_map (get "linux" spec)). Qed.

(** ** Properties *)

(** C8: an injection never weakens or widens a profile. A config is rewritten
    only when its annotation does not opt out, no entry of its namespaces gives
    it a network of its own, and its profile, if it has one, has no listener,
    notifies by no rule and not by default, and simply lets bind through, by
    every rule that names it or, with none of them, by the default. Everything
    outside [linux.seccomp] is then as it was; in the profile every syscall
    but bind keeps its rules, and the default action and all other fields stay;
    bind is left with the one notify rule, every rule that notifies names bind
    and nothing else, the default does not notify, and the agent's socket is
    the listener. A second pass over the rewritten config leaves it alone. *)
Theorem injection_safe lp lm spec spec' :
  mutate_spec lp lm spec = inr spec' →
  let linux := default [] (as_map (get "linux" spec)) in
  let sec := as_map (get "seccomp" linux) in
  annotation spec OptOutAnnotation ≠ Some "false" ∧
  (∀ ns, ns ∈ as_arr (get "namespaces" linux) → ¬ private_net ns) ∧
  (∀ o, sec = Some o →
     as_str (get "listenerPath" o) = "" ∧
     (∀ r, r ∈ syscallRules o → ¬ notifies r) ∧ as_str (get "defaultAction" o) ≠ actNotify ∧
     Forall plain_allow (rules_for "bind" o) ∧
     (rules_for "bind" o = [] →
      as_str (get "defaultAction" o) = actAllow ∨ as_str (get "defaultAction" o) = actLog)) ∧
  ∃ linux' sec', as_map (get "linux" spec') = Some linux' ∧ as_map (get "seccomp" linux') = Some sec' ∧
    (∀ k, k ≠ "linux" → get k spec' = get k spec) ∧
    (∀ k, k ≠ "seccomp" → get k linux' = get k linux) ∧
    (∀ k, k ∉ ["syscalls"; "listenerPath"; "listenerMetadata"] →
       get k sec' = match sec with Some sec => get k sec
                    | None => get k [("defaultAction", JStr actAllow)] end) ∧
    (∀ s, s ≠ "bind" → rules_for s sec' = from_option (rules_for s) [] sec) ∧
    rules_for "bind" sec' = [del "names" notifyRule] ∧
    (∀ r rule, r ∈ syscallRules sec' → as_map (Some r) = Some rule →
       as_str (get "action" rule) = actNotify → ∀ s, namesContain rule s = true ↔ s = "bind") ∧
    as_str (get "defaultAction" sec') ≠ actNotify ∧
    as_str (get "listenerPath" sec') = lp ∧
    (lp ≠ "" → ∀ lp' lm', mutate_spec lp' lm' spec' = inl HasListener).
Proof.
  intros (sec & E & HA & HN & HL & HK)%mutate_spec_inr. cbn zeta in *.
  set (linux := default [] (as_map (get "linux" spec))) in *.
  assert (as_map (get "seccomp" linux) = sec) as Hsec by (by apply seccompOf_sec).
  pose proof (λ o (Ho : sec = Some o), seccompOf_allowed spec o (eq_trans E (f_equal inr Ho))) as HO.
  destruct (injected_profile_rules lp lm sec) as (P1 & P2 & P3 & P4 & P5).
  rewrite Hsec. split_and!; [done| | |].
  { intros ns Hns. revert ns Hns. apply list.Forall_forall, has_network_false. by apply host_network. }
  { intros o (l & _ & _ & H1 & H2 & H3 & H4 & H5)%HO. rewrite list.Forall_forall in H2. by split_and!. }
  exists (set "seccomp" (JObj (injected_profile lp lm sec)) linux), (injected_profile lp lm sec).
  rewrite HL, get_set_eq. split_and!; try done.
  - intros k Hk. by rewrite get_set_ne.
  - intros r rule Hr Er Ha s. apply (injected_profile_notifies lp lm sec) in Hr as ->.
    + injection Er as <-. change (String.eqb "bind" s || false = true ↔ s = "bind").
      rewrite orb_false_r, String.eqb_eq. by split.
    + intros o Ho. by destruct (HO o Ho) as (_ & _ & _ & _ & ? & _).
    + by exists rule.
  - rewrite P5 by set_solver. destruct sec as [o|]; [|done].
    by destruct (HO o eq_refl) as (_ & _ & _ & _ & _ & ? & _).
  - intros Hlp lp' lm'. unfold mutate_spec, annotation. rewrite HK by done.
    fold (annotation spec OptOutAnnotation). rewrite bool_decide_eq_false_2 by done.
    unfold hasNetworkNamespace, seccompOf. rewrite HL. cbn [as_map]. rewrite get_set_ne by done.
    unfold linux. rewrite (host_network spec HN), get_set_eq. cbn [as_map].
    rewrite P1. by rewrite (proj2 (String.eqb_neq lp "")).
Qed.
Definition ex_spec : obj :=
  [("ociVersion", JStr "1.1.0");
   ("linux", JObj [("seccomp", JObj
      [("defaultAction", JStr "SCMP_ACT_ERRNO");
       ("syscalls", JArr [JObj [("names", JArr [JStr "read"; JStr "bind"]); ("action", JStr actAllow)];
                          JObj [("names", JArr [JStr "bind"]); ("action", JStr actAllow)]])])])].
Lemma injection_safe_witness :
  ∃ spec', mutate_spec "/run/s" "m" ex_spec = inr spec' ∧
    mutate_spec "/run/s" "m" spec' = inl HasListener.
Proof.
  destruct (mutate_spec "/run/s" "m" ex_spec) as [|spec'] eqn:E; [discriminate E|].
  exists spec'. split; [reflexivity|].
  destruct (injection_safe "/run/s" "m" ex_spec spec' E)
    as (_ & _ & _ & l & s & _ & _ & _ & _ & _ & _ & _ & _ & _ & _ & H).
  apply H. discriminate.
Defined.

(** A probe [Pick] may return. *)
Definition usable (self : string) (canon : string → string) (p : string) : Prop :=
  canon p ≠ "" ∧ (canon self = "" ∨ canon p ≠ canon self).
Lemma pick_probe_spec self canon ps : canon "" = "" →
  let p := pick_probe ps (canon self) canon in
  (p = "" ∧ Forall (λ q, ¬ usable self canon q) ps) ∨
  (usable self canon p ∧ ∃ l1 l2, ps = l1 ++ p :: l2 ∧ Forall (λ q, ¬ usable self canon q) l1).
Proof.
  intros H0. induction ps as [|q ps IH]; cbn [pick_probe]; [by left|].
  assert (¬ usable self canon q →
    let p := pick_probe ps (canon self) canon in
    (p = "" ∧ Forall (λ q, ¬ usable self canon q) (q :: ps)) ∨
    (usable self canon p ∧ ∃ l1 l2, q :: ps = l1 ++ p :: l2 ∧ Forall (λ q, ¬ usable self canon q) l1)) as HS.
  { intros Hq. destruct IH as [[E HF]|(U & l1 & l2 & E & HF)].
    - left. split; [done|]. by constructor.
    - right. split; [done|]. exists (q :: l1), l2. split; [exact (f_equal (cons q) E)|]. by constructor. }
  destruct (String.eqb_spec (canon q) "") as [Ec|Ec]; [apply HS; by intros []|].
  destruct (negb (String.eqb (canon self) "") && String.eqb (canon q) (canon self)) eqn:E.
  - apply HS. apply andb_true_iff in E as [E1%negb_true_iff%String.eqb_neq E2%String.eqb_eq].
    by intros [_ []].
  - right. split; [|exists [], ps; done]. split; [done|].
    apply andb_false_iff in E as [E%negb_false_iff%String.eqb_eq|E%String.eqb_neq]; [by left|by right].
Qed.
(** A group of words that is one global flag. *)
Definition global_flag (rt : Runtime) (g : list string) : Prop :=
  match g with
  | [a] => HasPrefix a "-" = true ∧ value_flag rt a = false
  | [a; _] => HasPrefix a "-" = true ∧ value_flag rt a = true
  | _ => False
  end.
Lemma HasPrefix_dash a : HasPrefix a "-" = true → ∃ s, a = String "-" s.
Proof.
  unfold HasPrefix. destruct (CutPrefix "-" a) as [s|] eqn:E; [|done].
  apply CutPrefix_Some in E as ->. by exists s.
Qed.
Lemma Subcommand_word rt a args : HasPrefix a "-" = false → Subcommand rt (a :: args) = (a, args).
Proof.
  destruct a as [|c a]; [done|]. intros H.
  destruct c as [[] [] [] [] [] [] [] []]; (reflexivity || discriminate H).
Qed.
Lemma Subcommand_globals rt globals sub rest :
  Forall (global_flag rt) globals → HasPrefix sub "-" = false →
  Subcommand rt (concat globals ++ sub :: rest) = (sub, rest).
Proof.
  intros HF Hs. induction HF as [|g gs Hg _ IH]; cbn [concat app]; [by apply Subcommand_word|].
  destruct g as [|a [|b [|]]]; try done; destruct Hg as [(s & ->)%HasPrefix_dash Hv];
    cbn [app Subcommand]; by rewrite Hv.
Qed.

(** The wrapper never execs itself, and finds the subcommand. With no
    override it runs the first probe that resolves to a regular file other
    than its own, and none only when there is none such. On a command line of
    global flags, each a word of its own or one that takes the next word, and
    a subcommand, it reads exactly that subcommand and the words after it. *)
Theorem wrapper_dispatch rt self canon :
  canon "" = "" →
  (∀ p, Pick rt "" self canon = p → p ≠ "" →
     (canon self ≠ "" → canon p ≠ canon self) ∧ usable self canon p ∧
     ∃ l1 l2, Probe rt = l1 ++ p :: l2 ∧ Forall (λ q, ¬ usable self canon q) l1) ∧
  (Pick rt "" self canon = "" → Forall (λ q, ¬ usable self canon q) (Probe rt)) ∧
  (∀ globals sub rest, Forall (global_flag rt) globals → HasPrefix sub "-" = false →
     Subcommand rt (concat globals ++ sub :: rest) = (sub, rest)).
Proof.
  intros H0. destruct (pick_probe_spec self canon (Probe rt) H0) as [[E HF]|(U & l1 & l2 & E & HF)].
  - split; [by intros p <-|]. split; [done|]. by apply Subcommand_globals.
  - split; [|split; [|by apply Subcommand_globals]].
    + intros p <- _. split; [by destruct U as [_ []]|]. split; [done|]. by exists l1, l2.
    + intros Ep. unfold Pick in Ep. cbn in Ep. rewrite Ep in U. by destruct U as [U _].
Qed.
Definition ex_canon (p : string) : string :=
  if String.eqb p "/usr/bin/crun" then "/usr/local/bin/drawbridge-crun"
  else if String.eqb p "/usr/local/bin/drawbridge-crun" then p
  else if String.eqb p "/usr/sbin/crun" then p else "".
Lemma wrapper_dispatch_witness :
  Pick crunRuntime "" "/usr/local/bin/drawbridge-crun" ex_canon = "/usr/sbin/crun" ∧
  Subcommand crunRuntime ["--root"; "/run/crun"; "--debug"; "create"; "-b"; "x"] = ("create", ["-b"; "x"]).
Proof.
  split; [vm_compute; reflexivity|].
  apply (wrapper_dispatch crunRuntime "/usr/local/bin/drawbridge-crun" ex_canon) with
    (globals := [["--root"; "/run/crun"]; ["--debug"]]); [reflexivity| |reflexivity].
  repeat constructor.
Defined.

(** A [config.json] that is the JSON [null] decodes without an error to a nil
    map, and the injection's first store into it panics. *)
Lemma null_config_panics (Marshal : obj → string) e sock meta :
  tryInject (λ raw, if String.eqb raw "null" then DecodeNull else DecodeErr) Marshal e sock meta
    (Some "null") = None.
Proof. reflexivity. Qed.
