(* ===== verification/Leases.v ===== *)
(** * Resolving the guest's address

    [internal/limaaddr]: the DHCP lease database as a source of addresses
    ([leases.go]) and the choice of the endpoint to dial ([limaaddr.go]). The
    probes, limactl's output and the lease file are the environment; the
    sentences of the notes are not modelled, what they report is. *)

From S2P Require Import Prelude GoStr NetIP.

Open Scope string_scope.
Open Scope list_scope.
Open Scope Z_scope.

(** ** The lease database *)
Definition maxLeaseCandidates : nat := 4.
Record lease := Lease { ls_name : string; ls_ip : string; ls_hw : string; ls_expiry : Z }.
Definition lease0 : lease := Lease "" "" "" 0.
#[export] Instance lease_eq_dec : EqDecision lease.
Proof. solve_decision. Defined.

Definition parseLeaseTime (v : string) : Z :=
  let s := TrimSpace v in
  let r := match CutPrefix "0x" (ToLower s) with
           | Some h => ParseInt h 16 64
           | None => ParseInt s 10 64
           end in
  match r with Ok n => if n <? 0 then 0 else n | Err _ => 0 end.

(** One line inside a record. *)
Definition lease_line (line : string) (cur : lease) : lease :=
  match Cut "=" line with
  | None => cur
  | Some (key, val) =>
      let key := TrimSpace key in
      let val := TrimSpace val in
      if String.eqb key "name" then Lease val (ls_ip cur) (ls_hw cur) (ls_expiry cur)
      else if String.eqb key "ip_address" then Lease (ls_name cur) val (ls_hw cur) (ls_expiry cur)
      else if String.eqb key "hw_address" then Lease (ls_name cur) (ls_ip cur) val (ls_expiry cur)
      else if String.eqb key "lease" then Lease (ls_name cur) (ls_ip cur) (ls_hw cur) (parseLeaseTime val)
      else cur
  end.
Definition TrimSuffix_cr (s : string) : string :=
  match LastIndexByte "013"%char s with
  | Some i => if (S i =? String.length s)%nat then str_take i s else s
  | None => s
  end.
(** The loop of [parseLeases]: the record being read, if any, and the rest. *)
Fixpoint parse_lines (lines : list string) (cur : option lease) : list lease :=
  match lines with
  | [] => []
  | raw :: lines =>
      let line := TrimSpace (TrimSuffix_cr raw) in
      if String.eqb line "{" then parse_lines lines (Some lease0)
      else if String.eqb line "}" then
        match cur with
        | Some l =>
            if negb (String.eqb (ls_name l) "") && negb (String.eqb (ls_ip l) "")
            then l :: parse_lines lines None else parse_lines lines None
        | None => parse_lines lines None
        end
      else match cur with
      | None => parse_lines lines None
      | Some l => parse_lines lines (Some (if String.eqb line "" then l else lease_line line l))
      end
  end.
Definition parseLeases (text : string) : list lease := parse_lines (Split "010"%char text) None.

(** [%02x] of a byte. *)
Definition hex2 (v : Z) : string :=
  String (digit_chr (v / 16)) (String (digit_chr (v mod 16)) "").
Definition parse_octet16 (p : string) : option Z :=
  match ParseUint p 16 8 with
  | Ok v => if (String.length p =? 0)%nat || (2 <? String.length p)%nat then None else Some v
  | Err _ => None
  end.
Definition normalizeHWAddr (s : string) : option string :=
  let s := TrimSpace s in
  s ← match IndexByte ","%char s with
      | Some i =>
          let t := str_take i s in
          if String.eqb t "" || negb (str_forall is_dec t) then None else Some (str_drop (S i) s)
      | None => Some s
      end;
  let parts := Split ":"%char s in
  if negb (length parts =? 6)%nat then None
  else vs ← mapM parse_octet16 parts; Some (Join (map hex2 vs) ":").

Definition usableGuestIPv4 (s : string) : bool :=
  match ParseAddr s with
  | None => false
  | Some a =>
      if hasZone a || negb (Is4 (Unmap a)) || negb (IsPrivate a) then false
      else negb (HasPrefix s "192.168.5.")
  end.

(** ** The target *)
Record Target := MkTarget {
  VM : string; Provider : string; LeaseName : string; Subnet : prefix; HWAddr : string }.
Definition providerLima : string := "lima".
Definition loopbackHost : string := "127.0.0.1".
Definition defaultSubnet : prefix := Prefix (Addr4 0xc0a84000) 24.
Definition mayUseLoopbackForward (t : Target) : bool :=
  String.eqb (Provider t) "" || String.eqb (Provider t) providerLima.
Definition leaseName (t : Target) : string :=
  if String.eqb (LeaseName t) "" then "lima-" +:+ VM t else LeaseName t.
Definition subnet (t : Target) : prefix :=
  if PrefixIsValid (Subnet t) then Masked (Subnet t) else defaultSubnet.

(** Why lease records were refused: how many, and the first one. *)
Inductive note := BadHWPin (given : string) | OffSubnet (n : nat) (first : string)
| HWMismatch (n : nat) (first : lease).

(** One record against the gates. *)
Inductive gate := NotOurs | OffNet | BadHW | Pass.
#[export] Instance gate_eq_dec : EqDecision gate.
Proof. solve_decision. Defined.
Definition gate_of (t : Target) (wantHW : option string) (l : lease) : gate :=
  if negb (String.eqb (ls_name l) (leaseName t)) || negb (usableGuestIPv4 (ls_ip l)) then NotOurs
  else match ParseAddr (ls_ip l) with
  | None => OffNet
  | Some ip =>
      if negb (PrefixContains (subnet t) ip) then OffNet
      else match wantHW with
      | None => Pass
      | Some hw => if bool_decide (normalizeHWAddr (ls_hw l) = Some hw) then Pass else BadHW
      end
  end.
Definition gated (g : gate) (t : Target) (wantHW : option string) (ls : list lease) : list lease :=
  List.filter (λ l, bool_decide (gate_of t wantHW l = g)) ls.
Definition notes_of (t : Target) (wantHW : option string) (ls : list lease) : list note :=
  match gated OffNet t wantHW ls with [] => [] | l :: _ as off => [OffSubnet (length off) (ls_ip l)] end ++
  match gated BadHW t wantHW ls with [] => [] | l :: _ as bad => [HWMismatch (length bad) l] end.

(** [sort.SliceStable] by expiry, newest first. *)
Fixpoint insert_lease (x : lease) (ls : list lease) : list lease :=
  match ls with
  | [] => [x]
  | y :: ls => if ls_expiry x <? ls_expiry y then y :: insert_lease x ls else x :: y :: ls
  end.
Definition sort_leases (ls : list lease) : list lease := foldr insert_lease [] ls.
(** The addresses of the sorted records, each once, at most [n] of them. *)
Fixpoint take_ips (ls : list lease) (seen : list string) (n : nat) : list string :=
  match n, ls with
  | O, _ | _, [] => []
  | S n', l :: ls =>
      if bool_decide (ls_ip l ∈ seen) then take_ips ls seen n
      else ls_ip l :: take_ips ls (ls_ip l :: seen) n'
  end.
Definition leaseCandidatesFrom (text : string) (t : Target) : list string * list note :=
  match (if String.eqb (HWAddr t) "" then Some None else Some <$> normalizeHWAddr (HWAddr t)) with
  | None => ([], [BadHWPin (HWAddr t)])
  | Some wantHW =>
      let ls := parseLeases text in
      (take_ips (sort_leases (gated Pass t wantHW ls)) [] maxLeaseCandidates, notes_of t wantHW ls)
  end.

(** ** The endpoint *)
Inductive source := VZNATDirect | VZNATLeases | SSHForwarder | Unresolved.
#[export] Instance source_eq_dec : EqDecision source.
Proof. solve_decision. Defined.

(** Section variable [E]: the errors of a failed probe or file read. *)
Section resolve.
Context {E : Type}.
Inductive diagnosis := NoLeases (e : E) | NoGuestIP | ProbeFailed (addr : string) (e : E).
Record Resolution := MkResolution {
  Endpoint : string; Source : source; Diag : option diagnosis; LeaseNotes : list note }.

(** [guestIP] over limactl's output, if it ran. *)
Fixpoint first_usable (fs : list string) : option string :=
  match fs with
  | [] => None
  | f :: fs => if usableGuestIPv4 f then Some f else first_usable fs
  end.
Definition guestIP (out : option string) : option string := o ← out; first_usable (Fields o).

(** The candidates in probing order, an address once. *)
Definition add_cand (ip : string) (src : source) (cands : list (string * source)) : list (string * source) :=
  if String.eqb ip "" || bool_decide (ip ∈ cands.*1) then cands else cands ++ [(ip, src)].
Definition candidates (direct : option string) (leased : list string) : list (string * source) :=
  let cands := match direct with Some ip => add_cand ip VZNATDirect [] | None => [] end in
  foldl (λ cs ip, add_cand ip VZNATLeases cs) cands leased.

(** The probes in order: the first address that answers, or the first
    failure. *)
Fixpoint probe_all (probe : string → option E) (port : string) (cands : list (string * source))
    (firstErr : option (string * E)) : (string * source) + option (string * E) :=
  match cands with
  | [] => inr firstErr
  | (ip, src) :: cands =>
      let addr := JoinHostPort ip port in
      match probe addr with
      | None => inl (addr, src)
      | Some e => probe_all probe port cands (match firstErr with None => Some (addr, e) | f => f end)
      end
  end.

Definition fallback (t : Target) (port : string) (d : diagnosis) (notes : list note) : Resolution :=
  if mayUseLoopbackForward t then
    MkResolution ("tcp://" +:+ JoinHostPort loopbackHost port) SSHForwarder (Some d) notes
  else MkResolution "" Unresolved (Some d) notes.
(** [ResolveTarget]: [limactl] is the command's output when it ran, [leases]
    the lease file or the error reading it, [probe] the dial's error. *)
Definition ResolveTarget (limactl : option string) (leases : result E string)
    (probe : string → option E) (t : Target) (port : Z) : Resolution :=
  let p := Itoa port in
  let '(leased, notes) := match leases with Ok text => leaseCandidatesFrom text t | Err _ => ([], []) end in
  let cands := candidates (guestIP limactl) leased in
  match cands with
  | [] => fallback t p (match leases with Err e => NoLeases e | Ok _ => NoGuestIP end) notes
  | _ =>
      match probe_all probe p cands None with
      | inl (addr, src) => MkResolution ("tcp://" +:+ addr) src None notes
      | inr (Some (addr, e)) => fallback t p (ProbeFailed addr e) notes
      | inr None => fallback t p NoGuestIP notes
      end
  end.
End resolve.
Arguments diagnosis : clear implicits.
Arguments Resolution : clear implicits.

Definition ParseHWAddr (s : string) : option string := normalizeHWAddr s.
Inductive subnet_err := SubnetSyntax | SubnetNot4 | SubnetPublic.
Definition ParseSubnet (s : string) : result subnet_err prefix :=
  match ParsePrefix (TrimSpace s) with
  | None => Err SubnetSyntax
  | Some p =>
      if negb (Is4 (pfx_ip p)) then Err SubnetNot4
      else if negb (IsPrivate (pfx_ip p)) then Err SubnetPublic
      else Ok (Masked p)
  end.

(** ** Facts *)
Definition newer (x y : lease) : Prop := ls_expiry y <= ls_expiry x.
#[export] Instance newer_trans : Transitive newer.
Proof. intros x y z. unfold newer. lia. Qed.

Lemma insert_lease_perm x ls : insert_lease x ls ≡ₚ x :: ls.
Proof.
  induction ls as [|y ls IH]; cbn; [done|]. destruct (ls_expiry x <? ls_expiry y); [|done].
  rewrite IH. constructor.
Qed.
Lemma sort_leases_perm ls : sort_leases ls ≡ₚ ls.
Proof. induction ls as [|x ls IH]; cbn; [done|]. by rewrite insert_lease_perm, IH. Qed.
Lemma insert_lease_sorted x ls : StronglySorted newer ls → StronglySorted newer (insert_lease x ls).
Proof.
  induction 1 as [|y ls HS IH HF]; cbn; [repeat constructor|].
  destruct (Z.ltb_spec (ls_expiry x) (ls_expiry y)).
  - constructor; [done|]. rewrite insert_lease_perm. constructor; [unfold newer; lia|done].
  - constructor; [by constructor|]. constructor; [done|].
    eapply list.Forall_impl; [exact HF|]. unfold newer. intros z. cbn. lia.
Qed.
Lemma sort_leases_sorted ls : StronglySorted newer (sort_leases ls).
Proof. induction ls as [|x ls IH]; cbn; [constructor|by apply insert_lease_sorted]. Qed.

Lemma take_ips_sound ls seen n :
  let r := take_ips ls seen n in
  (length r <= n)%nat ∧ NoDup r ∧ ∀ ip, ip ∈ r → (ip ∉ seen) ∧ ∃ l, l ∈ ls ∧ ls_ip l = ip.
Proof.
  revert seen n. induction ls as [|l ls IH]; intros seen n; cbn zeta.
  { destruct n; cbn; (split; [lia|]; split; [constructor|set_solver]). }
  destruct n as [|n]; [cbn; split; [lia|]; split; [constructor|set_solver]|]. cbn [take_ips].
  case_bool_decide as Hs.
  - destruct (IH seen (S n)) as (H1 & H2 & H3). split; [done|]. split; [done|].
    intros ip (Hn & l' & Hl & E)%H3. split; [done|]. exists l'. split; [by right|done].
  - destruct (IH (ls_ip l :: seen) n) as (H1 & H2 & H3). split; [cbn; lia|]. split.
    + constructor; [|done]. intros (Hn & _)%H3. set_solver.
    + intros ip [->|(Hn & l' & Hl & E)%H3]%elem_of_cons.
      * split; [done|]. exists l. split; [by left|done].
      * split; [set_solver|]. exists l'. split; [by right|done].
Qed.
Lemma take_ips_complete ls seen n l :
  StronglySorted newer ls → l ∈ ls →
  let r := take_ips ls seen n in
  ls_ip l ∈ seen ∨ ls_ip l ∈ r ∨
  (length r = n ∧ ∀ ip, ip ∈ r → ∃ l', l' ∈ ls ∧ ls_ip l' = ip ∧ newer l' l).
Proof.
  intros HS. revert seen n. induction HS as [|x ls HS IH HF]; intros seen n Hl; [set_solver|].
  cbn zeta. destruct n as [|n]; [right; right; split; [done|set_solver]|]. cbn [take_ips].
  apply elem_of_cons in Hl as [->|Hl].
  { case_bool_decide; [by left|right; left; by left]. }
  rewrite list.Forall_forall in HF.
  case_bool_decide as Hs.
  - destruct (IH seen (S n) Hl) as [?|[?|[E H]]]; [by left|by right; left|].
    right. right. split; [done|]. intros ip (l' & Hl' & Hip & Hn)%H.
    exists l'. split; [by right|done].
  - destruct (IH (ls_ip x :: seen) n Hl) as [[E|?]%elem_of_cons|[?|[E H]]].
    + right. left. rewrite E. left.
    + by left.
    + right. left. by right.
    + right. right. split; [cbn; by rewrite E|]. intros ip [->|(l' & Hl' & Hip & Hn)%H]%elem_of_cons.
      * exists x. split; [left|]. split; [done|]. by apply HF.
      * exists l'. split; [by right|done].
Qed.

(** One address is to be tried before another: every record of the other is
    matched by one of its own that is as new or newer. *)
Definition fresher (ls : list lease) (x y : string) : Prop :=
  ∀ l, l ∈ ls → ls_ip l = y → ∃ l', l' ∈ ls ∧ ls_ip l' = x ∧ newer l' l.
Lemma fresher_skip l ls x y : ls_ip l ≠ y → fresher ls x y → fresher (l :: ls) x y.
Proof.
  intros Hn HF z [->|Hz]%elem_of_cons Ey; [done|]. destruct (HF z Hz Ey) as (l' & ? & ? & ?).
  exists l'. split; [by right|done].
Qed.
Lemma StronglySorted_mono {A} (R S : A → A → Prop) l :
  (∀ x y, y ∈ l → R x y → S x y) → StronglySorted R l → StronglySorted S l.
Proof.
  intros HRS HS. induction HS as [|x l HS IH HF]; [constructor|]. constructor.
  - apply IH. intros y z Hz. apply HRS. by right.
  - rewrite list.Forall_forall in HF |- *. intros y Hy. apply HRS; [by right|auto].
Qed.
Lemma take_ips_sorted ls seen n :
  StronglySorted newer ls → StronglySorted (fresher ls) (take_ips ls seen n).
Proof.
  intros HS. revert seen n. induction HS as [|l ls HS IH HF]; intros seen n.
  { destruct n; constructor. }
  destruct n as [|n]; [constructor|]. cbn [take_ips].
  assert (∀ seen n, ls_ip l ∈ seen → StronglySorted (fresher (l :: ls)) (take_ips ls seen n)) as HT.
  { intros seen' n' Hl. eapply StronglySorted_mono; [|apply IH]. intros x y Hy. apply fresher_skip.
    intros <-. destruct (take_ips_sound ls seen' n') as (_ & _ & H). by apply H in Hy as [? _]. }
  case_bool_decide; [by apply HT|]. constructor; [apply HT; left|].
  apply list.Forall_forall. intros y _ z Hz _. exists l. split; [left|]. split; [done|].
  rewrite list.Forall_forall in HF. apply elem_of_cons in Hz as [->|?]; [unfold newer; lia|by apply HF].
Qed.

Lemma elem_of_gated g t hw ls l : l ∈ gated g t hw ls ↔ l ∈ ls ∧ gate_of t hw l = g.
Proof. unfold gated. rewrite !list_elem_of_In, filter_In, bool_decide_eq_true. done. Qed.
Lemma gate_Pass t hw l : gate_of t hw l = Pass ↔
  ls_name l = leaseName t ∧ usableGuestIPv4 (ls_ip l) = true ∧
  (∃ a, ParseAddr (ls_ip l) = Some a ∧ PrefixContains (subnet t) a = true) ∧
  (∀ h, hw = Some h → normalizeHWAddr (ls_hw l) = Some h).
Proof.
  unfold gate_of.
  destruct (String.eqb_spec (ls_name l) (leaseName t)); cbn [negb orb];
    [|split; [discriminate|by intros (? & _)]].
  destruct (usableGuestIPv4 (ls_ip l)); cbn [negb]; [|split; [discriminate|by intros (_ & ? & _)]].
  destruct (ParseAddr (ls_ip l)) as [a|]; [|split; [discriminate|by intros (_ & _ & (? & ? & _) & _)]].
  destruct (PrefixContains (subnet t) a) eqn:Ec; cbn [negb].
  2:{ split; [discriminate|]. intros (_ & _ & (a' & [= <-] & E) & _). congruence. }
  assert (∃ a', Some a = Some a' ∧ PrefixContains (subnet t) a' = true) as Ha by eauto.
  destruct hw as [h|]; [case_bool_decide as Hh|].
  - split; [|done]. intros _. repeat split; try done. by intros h' [= <-].
  - split; [discriminate|]. intros (_ & _ & _ & H). by destruct Hh; apply H.
  - split; [|done]. intros _. by repeat split.
Qed.

(** The gate a target's pin asks for. *)
Definition pin (t : Target) : option (option string) :=
  if String.eqb (HWAddr t) "" then Some None else Some <$> normalizeHWAddr (HWAddr t).

(** ** Properties *)

(** C29: what the lease database may name. Every address taken from it is in a
    record with the target's lease name, is a private IPv4 inside the
    target's subnet and, when a hardware address is pinned, belongs to that
    hardware address in either spelling; an unreadable pin trusts no record.
    They come newest first: every record of an address that passes the gates
    has one as new or newer, that passes them too, of each address before it.
    There are at most four, each once, and a record that passes the gates is
    left out only for four, each with a record of its age or newer that passes
    them. *)
Theorem lease_gates t text :
  let ips := (leaseCandidatesFrom text t).1 in
  (length ips <= 4)%nat ∧ NoDup ips ∧
  (∀ ip, ip ∈ ips → ∃ l a, l ∈ parseLeases text ∧ ls_ip l = ip ∧ ls_name l = leaseName t ∧
     usableGuestIPv4 ip = true ∧ ParseAddr ip = Some a ∧ PrefixContains (subnet t) a = true ∧
     (HWAddr t ≠ "" → ∃ hw, normalizeHWAddr (HWAddr t) = Some hw ∧ normalizeHWAddr (ls_hw l) = Some hw)) ∧
  (pin t = None → ips = []) ∧
  (∀ hw, pin t = Some hw →
     let passes l := l ∈ parseLeases text ∧ gate_of t hw l = Pass in
     StronglySorted (λ x y, ∀ l, passes l → ls_ip l = y →
       ∃ l', passes l' ∧ ls_ip l' = x ∧ ls_expiry l <= ls_expiry l') ips ∧
     (∀ l, passes l → ls_ip l ∈ ips ∨
        (length ips = 4%nat ∧ ∀ ip, ip ∈ ips → ∃ l', passes l' ∧ ls_ip l' = ip ∧
           ls_expiry l <= ls_expiry l'))).
Proof.
  unfold leaseCandidatesFrom. fold (pin t). cbn zeta.
  destruct (pin t) as [hw|] eqn:Ep; cbn [fst].
  2:{ split; [cbn; lia|]. split; [constructor|]. split; [set_solver|]. done. }
  set (ls := gated Pass t hw (parseLeases text)).
  assert (∀ l, l ∈ sort_leases ls ↔ l ∈ parseLeases text ∧ gate_of t hw l = Pass) as Hls.
  { intros l. rewrite sort_leases_perm. apply elem_of_gated. }
  destruct (take_ips_sound (sort_leases ls) [] maxLeaseCandidates) as (H1 & H2 & H3).
  split; [done|]. split; [done|]. split; [|split; [done|]].
  - intros ip (_ & l & [Hl (Hn & Hu & (a & Ea & Ec) & Hh)%gate_Pass]%Hls & <-)%H3.
    exists l, a. repeat split; try done. intros HW. unfold pin in Ep.
    destruct (String.eqb_spec (HWAddr t) ""); [done|].
    destruct (normalizeHWAddr (HWAddr t)) as [h|]; [|done]. injection Ep as <-.
    exists h. split; [done|]. by apply Hh.
  - intros hw' [= <-]. split.
    + eapply StronglySorted_mono; [|apply (take_ips_sorted _ [] maxLeaseCandidates), sort_leases_sorted].
      intros x y _ HF l Hl%Hls Ey. destruct (HF l Hl Ey) as (l' & ?%Hls & ? & ?). by exists l'.
    + intros l Hl%Hls.
      destruct (take_ips_complete (sort_leases ls) [] maxLeaseCandidates l (sort_leases_sorted ls) Hl)
        as [?|[?|[E H]]]; [set_solver|by left|].
      right. split; [done|]. intros ip (l' & ?%Hls & Hip & Hn)%H. by exists l'.
Qed.
Definition nl : string := String "010"%char "".
Definition ex_leases : string := Join
  ["{"; "name=lima-dev"; "ip_address=192.168.64.5"; "hw_address=1,52:55:55:a5:e:d2"; "lease=0x6a6c420d"; "}";
   "{"; "name=lima-dev"; "ip_address=192.168.64.9"; "hw_address=1,2:0:0:0:0:1"; "lease=0x7fffffff"; "}"] nl.
Definition ex_target : Target := MkTarget "dev" "" "" PrefixZero "52:55:55:A5:0E:D2".
Example newest_first :
  (leaseCandidatesFrom ex_leases (MkTarget "dev" "" "" PrefixZero "")).1 = ["192.168.64.9"; "192.168.64.5"].
Proof. vm_compute. reflexivity. Qed.
Lemma lease_gates_witness :
  (leaseCandidatesFrom ex_leases ex_target).1 = ["192.168.64.5"] ∧
  ∃ l a, l ∈ parseLeases ex_leases ∧ ls_ip l = "192.168.64.5" ∧ ls_name l = leaseName ex_target ∧
     usableGuestIPv4 "192.168.64.5" = true ∧ ParseAddr "192.168.64.5" = Some a ∧
     PrefixContains (subnet ex_target) a = true ∧
     (HWAddr ex_target ≠ "" → ∃ hw, normalizeHWAddr (HWAddr ex_target) = Some hw ∧ normalizeHWAddr (ls_hw l) = Some hw).
Proof.
  assert ((leaseCandidatesFrom ex_leases ex_target).1 = ["192.168.64.5"]) as E by (vm_compute; reflexivity).
  split; [exact E|]. apply (lease_gates ex_target ex_leases). rewrite E. left.
Defined.

Section resolve_facts.
Context {E : Type}.
Implicit Types (probe : string → option E) (limactl : option string) (leases : result E string).

Lemma first_usable_Some fs ip : first_usable fs = Some ip → usableGuestIPv4 ip = true ∧ ip ∈ fs.
Proof.
  induction fs as [|f fs IH]; cbn; [done|]. destruct (usableGuestIPv4 f) eqn:Eu.
  - intros [= <-]. split; [done|left].
  - intros [? ?]%IH. split; [done|by right].
Qed.
Lemma guestIP_usable out ip : guestIP out = Some ip → usableGuestIPv4 ip = true.
Proof. destruct out as [o|]; cbn; [|done]. by intros [? _]%first_usable_Some. Qed.

(** The resolver's two inputs. *)
Definition leased_of (leases : result E string) (t : Target) : list string :=
  match leases with Ok text => (leaseCandidatesFrom text t).1 | Err _ => [] end.
Lemma elem_of_add_cand ip src cands c :
  c ∈ add_cand ip src cands → c ∈ cands ∨ c = (ip, src).
Proof. unfold add_cand. case_match; [by left|]. rewrite elem_of_app, list_elem_of_singleton. done. Qed.
Lemma elem_of_candidates direct leased ip src :
  (ip, src) ∈ candidates direct leased →
  (src = VZNATDirect ∧ direct = Some ip) ∨ (src = VZNATLeases ∧ ip ∈ leased).
Proof.
  unfold candidates.
  assert (∀ cs, (ip, src) ∈ foldl (λ cs ip, add_cand ip VZNATLeases cs) cs leased →
    (ip, src) ∈ cs ∨ (src = VZNATLeases ∧ ip ∈ leased)) as HF.
  { induction leased as [|x leased IH]; cbn; intros cs H; [by left|].
    apply IH in H as [H|[? ?]]; [|right; split; [done|by right]].
    apply elem_of_add_cand in H as [?|[= -> ->]]; [by left|right; split; [done|left]]. }
  intros [H|?]%HF; [|by right]. destruct direct as [d|]; [|set_solver].
  apply elem_of_add_cand in H as [?|[= -> ->]]; [set_solver|by left].
Qed.
Lemma probe_all_inl probe port cands first addr src :
  probe_all probe port cands first = inl (addr, src) →
  ∃ l1 ip l2, cands = l1 ++ (ip, src) :: l2 ∧ addr = JoinHostPort ip port ∧ probe addr = None ∧
    Forall (λ c, probe (JoinHostPort c.1 port) ≠ None) l1.
Proof.
  revert first. induction cands as [|[ip s] cands IH]; intros first; cbn; [done|].
  destruct (probe (JoinHostPort ip port)) as [e|] eqn:Ep.
  - intros (l1 & ip' & l2 & -> & H1 & H2 & H3)%IH. exists ((ip, s) :: l1), ip', l2.
    repeat split; try done. constructor; [cbn; congruence|done].
  - intros [= <- <-]. exists [], ip, cands. done.
Qed.
Lemma probe_all_inr probe port cands first f :
  probe_all probe port cands first = inr f →
  Forall (λ c, probe (JoinHostPort c.1 port) ≠ None) cands ∧
  match first with
  | Some x => f = Some x
  | None => match cands with
            | [] => f = None
            | (ip, _) :: _ => ∃ e, probe (JoinHostPort ip port) = Some e ∧ f = Some (JoinHostPort ip port, e)
            end
  end.
Proof.
  revert first f. induction cands as [|[ip s] cands IH]; intros first f; cbn.
  { intros [= <-]. split; [constructor|]. by destruct first. }
  destruct (probe (JoinHostPort ip port)) as [e|] eqn:Ep; [|done].
  intros [HF HM]%IH. split; [constructor; [cbn; congruence|done]|].
  destruct first; [done|]. exists e. done.
Qed.
End resolve_facts.

(** Which endpoint is dialed. An address is chosen only if it answered
    its probe, from the source it is reported under, and every candidate
    before it failed; otherwise nothing answered, the cause is the first
    candidate's failure, or what kept there from being any, and only a Lima
    target falls back to the loopback forward: any other resolves to no
    endpoint. Every address chosen is a private guest IPv4, so no other
    provider's target is ever sent to loopback. *)
Theorem resolve_target {E} limactl leases (probe : string → option E) t port :
  let leased := leased_of leases t in
  let cands := candidates (guestIP limactl) leased in
  let R := ResolveTarget limactl leases probe t port in
  (∃ l1 ip l2, cands = l1 ++ (ip, Source R) :: l2 ∧ Endpoint R = "tcp://" +:+ JoinHostPort ip (Itoa port) ∧
     probe (JoinHostPort ip (Itoa port)) = None ∧
     Forall (λ c, probe (JoinHostPort c.1 (Itoa port)) ≠ None) l1 ∧
     usableGuestIPv4 ip = true ∧ Diag R = None ∧
     (Source R = VZNATDirect ∧ guestIP limactl = Some ip ∨ Source R = VZNATLeases ∧ ip ∈ leased)) ∨
  (Forall (λ c, probe (JoinHostPort c.1 (Itoa port)) ≠ None) cands ∧
   (match cands with
    | [] => Diag R = Some (match leases with Err e => NoLeases e | Ok _ => NoGuestIP end)
    | (ip, _) :: _ => ∃ e, probe (JoinHostPort ip (Itoa port)) = Some e ∧
                       Diag R = Some (ProbeFailed (JoinHostPort ip (Itoa port)) e)
    end) ∧
   (if mayUseLoopbackForward t
    then Source R = SSHForwarder ∧ Endpoint R = "tcp://" +:+ JoinHostPort loopbackHost (Itoa port)
    else Source R = Unresolved ∧ Endpoint R = "")).
Proof.
  cbn zeta. unfold ResolveTarget.
  assert ((match leases with Ok text => leaseCandidatesFrom text t | Err _ => ([], []) end).1 = leased_of leases t) as EL
    by by destruct leases.
  destruct (match leases with Ok text => leaseCandidatesFrom text t | Err _ => ([], []) end) as [leased notes].
  cbn [fst] in EL. subst leased.
  assert (∀ ip src, (ip, src) ∈ candidates (guestIP limactl) (leased_of leases t) → usableGuestIPv4 ip = true) as HU.
  { intros ip src [[_ H]|[_ H]]%elem_of_candidates; [by eapply guestIP_usable|].
    destruct leases as [text|]; [|set_solver]. unfold leased_of, leaseCandidatesFrom in H.
    fold (pin t) in H. destruct (pin t); [|set_solver].
    apply take_ips_sound in H as (_ & l & Hl & <-). rewrite sort_leases_perm in Hl.
    apply elem_of_gated in Hl as [_ (_ & ? & _)%gate_Pass]. done. }
  pose proof (elem_of_candidates (guestIP limactl) (leased_of leases t)) as HC.
  set (cands := candidates _ _) in *.
  assert (∀ d : diagnosis E, let R := fallback t (Itoa port) d notes in Diag R = Some d ∧
    (if mayUseLoopbackForward t
     then Source R = SSHForwarder ∧ Endpoint R = "tcp://" +:+ JoinHostPort loopbackHost (Itoa port)
     else Source R = Unresolved ∧ Endpoint R = "")) as HFb.
  { intros d. unfold fallback. by destruct (mayUseLoopbackForward t). }
  destruct cands as [|c cs] eqn:Ec.
  { right. split; [constructor|]. apply HFb. }
  rewrite <- Ec in *. destruct (probe_all probe (Itoa port) cands None) as [[addr src]|f] eqn:Ep.
  - left. apply probe_all_inl in Ep as (l1 & ip & l2 & El & -> & H1 & H2).
    assert ((ip, src) ∈ cands) as Hin by (rewrite El; set_solver).
    exists l1, ip, l2. cbn. repeat split; try done; [by eapply HU|by apply HC].
  - right. apply probe_all_inr in Ep as [HF HM]. split; [done|]. rewrite Ec in HM; try rewrite Ec.
    destruct c as [ip s]. destruct HM as (e & He & ->).
    destruct (HFb (ProbeFailed (JoinHostPort ip (Itoa port)) e)) as [-> HE].
    split; [by exists e|done].
Qed.
