(* ===== verification/Listen.v ===== *)
(** * The agent's transport listeners

    [internal/agent/listen.go]: which interface address the transport binds,
    which peers may speak to it, and the life of the bound listeners with the
    vzNAT retry; [internal/agent/gvproxy.go]: the forward published for them.
    The interface list, the kernel's listen and accept and the HTTP answers of
    the gateway are the environment. *)

From S2P Require Import Prelude Wire GoStr NetIP Transport TransportAuth.

Open Scope string_scope.
Open Scope list_scope.
Open Scope Z_scope.

(** ** The interface to bind *)

Definition TransportAuto : string := "auto".
Definition DefaultTransportPort : Z := DefaultAgentPort.
Definition vznatFastDelay : Z := 2 * 10 ^ 9.
Definition vznatFastRetries : nat := 30.
Definition vznatSlowDelay : Z := 30 * 10 ^ 9.
Definition rejectLogEvery : Z := 60 * 10 ^ 9.
Definition usernet : prefix := Prefix (Addr4 0xc0a80500) 24.

Record ifaceAddr := IfaceAddr { ia_index : Z; ia_name : string; ia_prefix : prefix }.

Definition firstHost (p : prefix) : option addr :=
  let m := Masked p in
  if negb (PrefixIsValid m) then None
  else let h := Next (pfx_ip m) in if IsValid h then Some h else None.
Definition hostPrefix (ip : addr) : prefix := PrefixFrom ip (BitLen ip).

(** One pass of the loop over [best] and [bestIdx]. *)
Definition pick_one (st : prefix * Z) (a : ifaceAddr) : prefix * Z :=
  if negb (PrefixIsValid (ia_prefix a)) then st
  else
    let ip := Unmap (pfx_ip (ia_prefix a)) in
    if negb (Is4 ip) || negb (IsPrivate ip) || IsLoopback ip || IsLinkLocalUnicast ip then st
    else if PrefixContains usernet ip then st
    else if bool_decide (firstHost (ia_prefix a) = Some ip) then st
    else if negb (PrefixIsValid st.1) || (ia_index a <? st.2)
    then (PrefixFrom ip (pfx_bits (ia_prefix a)), ia_index a)
    else st.
Definition pickVZNAT (addrs : list ifaceAddr) : option prefix :=
  let best := (foldl pick_one (PrefixZero, 0) addrs).1 in
  if PrefixIsValid best then Some best else None.

(** The interface list: [net.IPNet] is an address and a mask, as bytes. *)
Inductive netaddr := IPNet (ip mask : bytes) | OtherAddr.
Record iface := Iface {
  if_index : Z; if_name : string; if_loopback : bool; if_up : bool;
  if_addrs : option (list netaddr) }.

Definition AddrFromSlice (b : bytes) : option addr :=
  if decide (length b = 4%nat) then Some (AddrFrom4 b)
  else if decide (length b = 16%nat) then Some (AddrFrom16 b) else None.
(** [IPMask.Size]: the leading ones, 0 when the mask is not canonical. *)
Definition mask_bits (m : bytes) : list bool :=
  m ≫= λ b, (λ i, Z.testbit (b2z b) i) <$> [7; 6; 5; 4; 3; 2; 1; 0].
Fixpoint leading_ones (l : list bool) : option Z :=
  match l with
  | true :: l => n ← leading_ones l; Some (n + 1)
  | l => if existsb id l then None else Some 0
  end.
Definition mask_size (m : bytes) : Z := default 0 (leading_ones (mask_bits m)).

Definition iface_addr (i : iface) (a : netaddr) : option ifaceAddr :=
  match a with
  | OtherAddr => None
  | IPNet ip mask =>
      ip ← AddrFromSlice ip;
      let ones := mask_size mask in
      let ip := Unmap ip in
      let ones := if Is4 ip && (32 <? ones) then ones - 96 else ones in
      Some (IfaceAddr (if_index i) (if_name i) (PrefixFrom ip ones))
  end.
Definition iface_addrs (i : iface) : list ifaceAddr :=
  if if_loopback i || negb (if_up i) then []
  else match if_addrs i with None => [] | Some l => omap (iface_addr i) l end.
Definition vznatPrefix (ifs : option (list iface)) : option prefix :=
  match ifs with
  | None => None
  | Some ifs => pickVZNAT (ifs ≫= iface_addrs)
  end.

(** ** Who may connect *)

Definition sourceAllow := list prefix.
Definition newSourceAllow (extra : list prefix) : sourceAllow := extra.
Definition sa_add (p : prefix) (s : sourceAllow) : sourceAllow :=
  if negb (PrefixIsValid p) then s
  else if bool_decide (p ∈ s) then s else s ++ [p].
Definition allowed (s : sourceAllow) (ip : addr) : bool :=
  let ip := Unmap ip in
  if negb (IsValid ip) then false
  else if IsLoopback ip then true
  else existsb (λ p, PrefixContains p ip) s.
Definition sa_string (s : sourceAllow) : string :=
  Join ("loopback" :: (prefix_string <$> s)) ",".

Fixpoint parse_cidrs (fs : list string) : result string (list prefix) :=
  match fs with
  | [] => Ok []
  | f :: fs =>
      let f := TrimSpace f in
      if String.eqb f "" then parse_cidrs fs
      else match ParsePrefix f with
           | Some p => out ← parse_cidrs fs; Ok (Masked p :: out)
           | None => match ParseAddr f with
                     | None => Err f
                     | Some ip => out ← parse_cidrs fs; Ok (hostPrefix (Unmap ip) :: out)
                     end
           end
  end.
Definition parseAllowCIDRs (spec : string) : result string (list prefix) :=
  parse_cidrs (Split "," spec).

(** An accepted connection: its identity and its remote address. *)
Inductive remote := TCPAddr (ip : bytes) | OtherRemote.
Definition peerIP (r : remote) : option addr :=
  match r with
  | TCPAddr ip => a ← AddrFromSlice ip; Some (Unmap a)
  | OtherRemote => None
  end.

(** [rejectLimiter.allow]: one line per source and minute. *)
Definition limiter_allow (ip : addr) (now : Z) (last : gmap addr Z) : bool * gmap addr Z :=
  Allow rejectLogEvery now ip last.

Section accept.
Context {E : Type}.

(** [guardedListener.Accept] over the outcomes of the listener's own accepts,
    each with the time it came: the result ([None] while it still waits), the
    connections closed, the sources a line was logged for, the limiter after. *)
Fixpoint Accept (allow : sourceAllow) (limit : gmap addr Z)
    (outs : list (result E (nat * remote) * Z))
    : option (result E nat) * list nat * list addr * gmap addr Z :=
  match outs with
  | [] => (None, [], [], limit)
  | (Err e, _) :: _ => (Some (Err e), [], [], limit)
  | (Ok (c, r), now) :: outs =>
      match peerIP r with
      | None => (Some (Ok c), [], [], limit)
      | Some ip =>
          if allowed allow ip then (Some (Ok c), [], [], limit)
          else
            let '(emit, limit) := limiter_allow ip now limit in
            let '(res, closed, logged, limit) := Accept allow limit outs in
            (res, c :: closed, (if emit then [ip] else []) ++ logged, limit)
      end
  end.
End accept.

(** ** The published forward *)

Definition DefaultGvproxyGateway : string := "http://192.168.127.1".
Definition gateway (g : string) : string :=
  if String.eqb (TrimSpace g) "" then DefaultGvproxyGateway else g.
Definition statusTail (b : string) : string :=
  let s := TrimSpace b in
  if String.eqb s "" then ""
  else ": " +:+ match IndexByte "010" s with Some i => str_take i s | None => s end.

(** A request's path and body; an answer is a status and the body's start. *)
Record request := Request { rq_url : string; rq_local : string; rq_remote : option string }.
Inductive post_err := PostIO | PostStatus (code : Z) (tail : string).
Definition post_url (g path : string) : string :=
  trim_right (λ c, bool_decide (c = "/"%char)) (gateway g) +:+ path.
Definition post (answer : option (Z * string)) : result post_err unit :=
  match answer with
  | None => Err PostIO
  | Some (code, body) =>
      if (code <? 200) || (300 <=? code) then Err (PostStatus code (statusTail body)) else Ok tt
  end.
Definition unexpose_req (g Local : string) : request :=
  Request (post_url g "/services/forwarder/unexpose") Local None.
Definition expose_req (g Local to : string) : request :=
  Request (post_url g "/services/forwarder/expose") Local (Some to).
(** [Publish]: the requests it makes and what it returns, from the answer to
    the second (the first one's is ignored). *)
Definition Publish (g Local to : string) (answer : option (Z * string))
    : list request * result post_err unit :=
  ([unexpose_req g Local; expose_req g Local to], post answer).

(** ** The life of the listeners *)

(** A bound listener: its descriptor, the endpoint it was bound for and the
    address it reports. *)
Record ln := Ln { ln_fd : nat; ln_ep : string; ln_addr : string }.

(** [TransportListeners] with its publisher's [remote]. *)
Record tl := Tl {
  allow : sourceAllow; lns : list ln; closed : bool; published : bool; pub_remote : string }.

(** The threads: the body of [ListenTransport], the vzNAT retry, the publish
    retry, and [Close]. [i] counts the passes of a retry loop. *)
Inductive main_pc := Binding (auto : bool) (eps : list string) | Ready | Failed.
Inductive auto_pc :=
| AutoNone | AutoTop (i : nat) | AutoBound (i : nat) (l : ln) | AutoStarted (a : string)
| AutoWait (i : nat) | AutoEnd.
Inductive pub_pc :=
| PubNone | PubTop (i : nat) (a : string) | PubSent (a : string) | PubWait (i : nat) (a : string)
| PubEnd.
Inductive close_pc := CloseIdle | CloseUnpub (fds : list nat) | CloseFds (fds : list nat).

(** The kernel and the gateway: the open sockets, the next descriptor, the
    forward the gateway holds; and the interface picks made so far. *)
Record world := World {
  opened : gset nat; next_fd : nat; exposed : option string;
  picks : list (list iface * prefix) }.

Record st := St {
  s_tl : tl; s_main : main_pc; s_auto : auto_pc; s_pub : pub_pc; s_close : close_pc;
  s_world : world }.

Definition retry_delay (i : nat) : Z :=
  if (vznatFastRetries <=? i)%nat then vznatSlowDelay else vznatFastDelay.

(** [start], but for the goroutine: false when closed. *)
Definition start (l : ln) (t : tl) : tl * bool :=
  if closed t then (t, false)
  else (Tl (allow t) (lns t ++ [l]) (closed t) (published t) (pub_remote t), true).

Definition publishable (a : string) : bool :=
  match SplitHostPort a with
  | Err _ => false
  | Ok (host, _) =>
      match ParseAddr host with
      | None => false
      | Some ip => IsValid ip && negb (IsLoopback ip) && negb (IsUnspecified ip)
      end
  end.
Definition publish (hasPub : bool) (a : string) (t : tl) (p : pub_pc) : tl * pub_pc :=
  if negb (publishable a) then (t, p)
  else if negb hasPub || published t || closed t then (t, p)
  else (Tl (allow t) (lns t) (closed t) true (pub_remote t), PubTop 0 a).

(** The allowlist after a pick: the Mac's address on that subnet. *)
Definition allow_pick (p : prefix) (s : sourceAllow) : sourceAllow :=
  match firstHost p with Some h => sa_add (hostPrefix h) s | None => s end.
Definition set_allow (s : sourceAllow) (t : tl) : tl :=
  Tl s (lns t) (closed t) (published t) (pub_remote t).
Definition set_remote (a : string) (t : tl) : tl :=
  Tl (allow t) (lns t) (closed t) (published t) a.
(** The first critical section of [Close]. *)
Definition close_lock (t : tl) : tl * list nat :=
  (Tl (allow t) [] true (published t) (pub_remote t), ln_fd <$> lns t).

Definition w_open (w : world) : nat * world :=
  (next_fd w, World ({[next_fd w]} ∪ opened w) (S (next_fd w)) (exposed w) (picks w)).
Definition w_close (fds : list nat) (w : world) : world :=
  World (opened w ∖ list_to_set fds) (next_fd w) (exposed w) (picks w).
Definition w_expose (e : option string) (w : world) : world :=
  World (opened w) (next_fd w) e (picks w).
Definition w_pick (ifs : list iface) (p : prefix) (w : world) : world :=
  World (opened w) (next_fd w) (exposed w) (picks w ++ [(ifs, p)]).

Definition loopback_ep : string := JoinHostPort "127.0.0.1" (Itoa DefaultTransportPort).
Definition vznat_ep (p : prefix) : string :=
  JoinHostPort (addr_string (pfx_ip p)) (Itoa DefaultTransportPort).

(** [ListenTransport] up to its first bind, with the interfaces it saw. *)
Definition ListenTransport (spec : string) (extra : list prefix) (ifs : option (list iface))
    (e : option string) : st :=
  let w := World ∅ 0 e [] in
  let a := newSourceAllow extra in
  let '(a, w) := match ifs, vznatPrefix ifs with
                 | Some ifs, Some p => (allow_pick p a, w_pick ifs p w)
                 | _, _ => (a, w)
                 end in
  let auto := String.eqb (TrimSpace spec) TransportAuto in
  St (Tl a [] false false "")
     (Binding auto (if auto then [loopback_ep] else Split "," spec))
     AutoNone PubNone CloseIdle w.

(** One step of one thread. [hasPub] is whether a publisher is set; the
    address a listener reports, the interfaces and the forward the gateway is
    left with by a failed request are the environment's. *)
Inductive lstep (hasPub : bool) : st → st → Prop :=
  | l_skip t ep eps a p c w :
      TrimSpace ep = "" →
      lstep hasPub (St t (Binding false (ep :: eps)) a p c w) (St t (Binding false eps) a p c w)
  | l_bind t au ep eps a p c w addr fd w' t' t'' p' b :
      TrimSpace ep ≠ "" → w_open w = (fd, w') →
      start (Ln fd (TrimSpace ep) addr) t = (t', b) →
      publish hasPub addr t' p = (t'', p') →
      lstep hasPub (St t (Binding au (ep :: eps)) a p c w)
        (St t'' (if au then Ready else Binding au eps) (if au then AutoTop 0 else a) p' c w')
  | l_bind_err_auto t eps a p c w :
      lstep hasPub (St t (Binding true eps) a p c w) (St t Failed a p c w)
  | l_bind_err t ep eps a p w t' fds :
      TrimSpace ep ≠ "" → close_lock t = (t', fds) →
      lstep hasPub (St t (Binding false (ep :: eps)) a p CloseIdle w)
        (St t' Failed a p (CloseUnpub fds) w)
  | l_return t a p c w :
      lstep hasPub (St t (Binding false []) a p c w)
        (St t (if decide (lns t = []) then Failed else Ready) a p c w)
  | l_auto_miss t m i p c w :
      lstep hasPub (St t m (AutoTop i) p c w) (St t m (AutoWait i) p c w)
  | l_auto_bind t m i p c w ifs q addr fd w' :
      vznatPrefix (Some ifs) = Some q → w_open w = (fd, w') →
      lstep hasPub (St t m (AutoTop i) p c w)
        (St (set_allow (allow_pick q (allow t)) t) m
           (AutoBound i (Ln fd (vznat_ep q) addr)) p c (w_pick ifs q w'))
  | l_auto_start t m i l p c w t' :
      start l t = (t', true) →
      lstep hasPub (St t m (AutoBound i l) p c w) (St t' m (AutoStarted (ln_addr l)) p c w)
  | l_auto_late t m i l p c w t' :
      start l t = (t', false) →
      lstep hasPub (St t m (AutoBound i l) p c w) (St t' m AutoEnd p c (w_close [ln_fd l] w))
  | l_auto_publish t m addr p c w t' p' :
      publish hasPub addr t p = (t', p') →
      lstep hasPub (St t m (AutoStarted addr) p c w) (St t' m AutoEnd p' c w)
  | l_auto_timer t m i p c w :
      lstep hasPub (St t m (AutoWait i) p c w) (St t m (AutoTop (S i)) p c w)
  | l_auto_quit t m i p c w :
      closed t = true →
      lstep hasPub (St t m (AutoWait i) p c w) (St t m AutoEnd p c w)
  | l_pub_ok t m a i addr c w g Local answer rqs :
      Publish g Local addr answer = (rqs, Ok tt) →
      lstep hasPub (St t m a (PubTop i addr) c w)
        (St t m a (PubSent addr) c (w_expose (Some addr) w))
  | l_pub_store t m a addr c w :
      lstep hasPub (St t m a (PubSent addr) c w) (St (set_remote addr t) m a PubEnd c w)
  | l_pub_err t m a i addr c w e g Local answer rqs er :
      Publish g Local addr answer = (rqs, Err er) →
      e ∈ [exposed w; None; Some addr] →
      lstep hasPub (St t m a (PubTop i addr) c w)
        (St t m a (PubWait i addr) c (w_expose e w))
  | l_pub_timer t m a i addr c w :
      lstep hasPub (St t m a (PubWait i addr) c w) (St t m a (PubTop (S i) addr) c w)
  | l_pub_quit t m a i addr c w :
      closed t = true →
      lstep hasPub (St t m a (PubWait i addr) c w) (St t m a PubEnd c w)
  | l_close t a p w t' fds :
      close_lock t = (t', fds) →
      lstep hasPub (St t Ready a p CloseIdle w) (St t' Ready a p (CloseUnpub fds) w)
  | l_unpub_none t m a p fds w :
      pub_remote t = "" →
      lstep hasPub (St t m a p (CloseUnpub fds) w) (St t m a p (CloseFds fds) w)
  | l_unpub t m a p fds w e :
      pub_remote t ≠ "" → e ∈ [None; exposed w] →
      lstep hasPub (St t m a p (CloseUnpub fds) w) (St t m a p (CloseFds fds) (w_expose e w))
  | l_close_fds t m a p fds w :
      lstep hasPub (St t m a p (CloseFds fds) w) (St t m a p CloseIdle (w_close fds w)).

(** The vzNAT retry in time: what it sees and whether a listen works at each
    moment is the environment's; when it binds, and what. *)
Fixpoint autoVZNAT (fuel : nat) (ifs : Z → option (list iface)) (listens : Z → prefix → bool)
    (i : nat) (now : Z) : option (Z * prefix) :=
  match fuel with
  | O => None
  | S fuel =>
      let again := autoVZNAT fuel ifs listens (S i) (now + retry_delay i) in
      match vznatPrefix (ifs now) with
      | Some p => if listens now p then Some (now, p) else again
      | None => again
      end
  end.

Definition lreach (hasPub : bool) (s0 : st) : st → Prop := reach (λ s, s = s0) (lstep hasPub).

(** ** Facts: the pick *)

(** A prefix the transport may be bound to. *)
Definition nic_ok (p : prefix) : bool :=
  PrefixIsValid p && Is4 (pfx_ip p) && IsPrivate (pfx_ip p) &&
  negb (PrefixContains usernet (pfx_ip p)) &&
  negb (bool_decide (firstHost p = Some (pfx_ip p))).

(** An interface that is up, is not the loopback, and has that address. *)
Definition has_nic (i : iface) (p : prefix) : Prop :=
  if_up i = true ∧ if_loopback i = false ∧ nic_ok p = true ∧
  ∃ l a, if_addrs i = Some l ∧ a ∈ l ∧ iface_addr i a = Some (IfaceAddr (if_index i) (if_name i) p).

Lemma private_scope n : IsPrivate (Addr4 n) = true →
  IsLoopback (Addr4 n) = false ∧ IsLinkLocalUnicast (Addr4 n) = false.
Proof.
  cbn. assert (Z.shiftr n 24 = Z.shiftr n 16 / 256) as ->
    by (rewrite (Z.shiftr_div_pow2 n 24), (Z.shiftr_div_pow2 n 16), Z.div_div by lia; done).
  assert (Z.shiftr n 20 = Z.shiftr n 16 / 16) as ->
    by (rewrite (Z.shiftr_div_pow2 n 20), (Z.shiftr_div_pow2 n 16), Z.div_div by lia; done).
  generalize (Z.shiftr n 16). intros m H. rewrite !orb_true_iff, !Z.eqb_eq in H.
  rewrite !Z.eqb_neq. Z.div_mod_to_equations. lia.
Qed.

(** The addresses [vznatPrefix] collects are unmapped, their prefixes made by
    [PrefixFrom]. *)
Definition proper (p : prefix) : Prop :=
  Unmap (pfx_ip p) = pfx_ip p ∧ PrefixFrom (pfx_ip p) (pfx_bits p) = p.

Lemma pick_one_spec st a : proper (ia_prefix a) →
  pick_one st a =
  if nic_ok (ia_prefix a) && (negb (PrefixIsValid st.1) || (ia_index a <? st.2))
  then (ia_prefix a, ia_index a) else st.
Proof.
  unfold pick_one, nic_ok. destruct a as [idx nm p]. cbn [ia_prefix ia_index].
  intros [-> Hp]. destruct (PrefixIsValid p); [|done]. cbn [negb andb].
  destruct (pfx_ip p) as [|n|n z] eqn:Ei; [done| |done]. cbn [Is4 negb orb andb].
  destruct (IsPrivate (Addr4 n)) eqn:Ep; [|done]. apply private_scope in Ep as [-> ->].
  cbn [negb orb andb]. destruct (PrefixContains usernet (Addr4 n)); [done|].
  destruct (bool_decide _) eqn:Ef; [done|]. cbn [negb andb]. by rewrite Hp.
Qed.

Lemma foldl_pick l st : Forall (λ a, proper (ia_prefix a)) l →
  (PrefixIsValid st.1 = true → nic_ok st.1 = true) →
  let r := foldl pick_one st l in
  (PrefixIsValid r.1 = true →
    nic_ok r.1 = true ∧ (r = st ∨ ∃ a, a ∈ l ∧ r = (ia_prefix a, ia_index a)) ∧
    (PrefixIsValid st.1 = true → r.2 <= st.2) ∧
    ∀ a, a ∈ l → nic_ok (ia_prefix a) = true → r.2 <= ia_index a) ∧
  (PrefixIsValid r.1 = false → r = st ∧ ∀ a, a ∈ l → nic_ok (ia_prefix a) = false).
Proof.
  revert st. induction l as [|a l IH]; intros st HF Hst; cbn.
  { split; [|intros _; split; [done|by intros ? []%not_elem_of_nil]]. intros Hv.
    split; [auto|]. split; [by left|]. split; [lia|]. by intros ? []%not_elem_of_nil. }
  apply Forall_cons in HF as [Ha HF].
  assert (nic_ok (ia_prefix a) = true → PrefixIsValid (ia_prefix a) = true) as Hval.
  { unfold nic_ok. rewrite !andb_true_iff. tauto. }
  rewrite (pick_one_spec st a Ha).
  destruct (nic_ok (ia_prefix a)) eqn:Eok; cbn [andb].
  - destruct (negb (PrefixIsValid st.1) || (ia_index a <? st.2)) eqn:Eb.
    + specialize (IH (ia_prefix a, ia_index a) HF (λ _, Eok)). cbn in IH.
      destruct IH as [IH1 IH2]. pose proof (Hval eq_refl) as Hav. split.
      * intros Hv. destruct (IH1 Hv) as (H1 & H2 & H3 & H4). split; [done|]. split.
        { right. destruct H2 as [->|(b & ? & ->)].
          - exists a. by split; [left|].
          - exists b. by split; [right|]. }
        split; [intros Hs; rewrite Hs in Eb; cbn in Eb; apply Z.ltb_lt in Eb;
                specialize (H3 Hav); lia|].
        intros b [->|Hb]%elem_of_cons Hok; eauto.
      * intros Hv. destruct (IH2 Hv) as [Hr _]. rewrite Hr in Hv. cbn in Hv. congruence.
    + apply orb_false_iff in Eb as [Ev Ei]. apply negb_false_iff in Ev. apply Z.ltb_ge in Ei.
      destruct (IH st HF Hst) as [IH1 IH2]. split.
      * intros Hv. destruct (IH1 Hv) as (H1 & H2 & H3 & H4). split; [done|].
        split; [destruct H2 as [|(b & ? & ?)]; [by left|right; exists b; by split; [right|]]|].
        split; [done|]. intros b [->|Hb]%elem_of_cons Hok; [specialize (H3 Ev); lia|eauto].
      * intros Hv. destruct (IH2 Hv) as [Hr _]. by rewrite Hr, Ev in Hv.
  - destruct (IH st HF Hst) as [IH1 IH2]. split.
    + intros Hv. destruct (IH1 Hv) as (H1 & H2 & H3 & H4). split; [done|].
      split; [destruct H2 as [|(b & ? & ?)]; [by left|right; exists b; by split; [right|]]|].
      split; [done|]. intros b [->|Hb]%elem_of_cons Hok; [congruence|eauto].
    + intros Hv. destruct (IH2 Hv) as [Hr Hn]. split; [done|].
      intros b [->|Hb]%elem_of_cons; [done|eauto].
Qed.

Lemma PrefixFrom_proper ip b : Unmap ip = ip → hasZone ip = false → proper (PrefixFrom ip b).
Proof.
  intros Hu Hz. unfold proper, PrefixFrom. cbn [pfx_ip pfx_bits].
  assert (withoutZone ip = ip) as ->.
  { destruct ip as [| |n z]; try done. cbn in Hz. apply negb_false_iff, String.eqb_eq in Hz.
    cbn. by rewrite Hz. }
  split; [done|]. f_equal.
  { destruct ip as [| |n z]; try done. cbn in Hz. apply negb_false_iff, String.eqb_eq in Hz.
    cbn. by rewrite Hz. }
  destruct (IsValid ip && (0 <=? b) && (b <=? BitLen ip)) eqn:E; [by rewrite E|].
  by rewrite andb_false_r.
Qed.

Lemma iface_addr_proper i a x : iface_addr i a = Some x →
  proper (ia_prefix x) ∧ ia_index x = if_index i ∧ ia_name x = if_name i.
Proof.
  destruct a as [ip mask|]; [|done]. cbn. intros (b & Hb & [= <-])%bind_Some. cbn.
  split; [|done]. apply PrefixFrom_proper; [apply Unmap_idemp|].
  unfold AddrFromSlice in Hb. case_decide; [by injection Hb as <-|].
  case_decide; [|done]. injection Hb as <-. unfold Unmap, AddrFrom16. by destruct (Is4In6 _).
Qed.

Lemma elem_of_iface_addrs i x : x ∈ iface_addrs i ↔
  if_up i = true ∧ if_loopback i = false ∧
  ∃ l a, if_addrs i = Some l ∧ a ∈ l ∧ iface_addr i a = Some x.
Proof.
  unfold iface_addrs. destruct (if_loopback i), (if_up i); cbn;
    try (split; [by intros []%not_elem_of_nil|by intros (? & ? & ?)]).
  destruct (if_addrs i) as [l|].
  - rewrite elem_of_omap. split; [intros (a & ? & ?); eauto 10|].
    intros (_ & _ & l' & a & [= <-] & ? & ?). eauto.
  - split; [by intros []%not_elem_of_nil|]. by intros (_ & _ & ? & ? & ? & _).
Qed.

(** What [vznatPrefix] promises: the private address of the usable interface
    with the lowest index, if there is one. *)
Lemma vznatPrefix_spec ifs :
  match vznatPrefix (Some ifs) with
  | Some p => ∃ i, i ∈ ifs ∧ has_nic i p ∧ ∀ j q, j ∈ ifs → has_nic j q → if_index i <= if_index j
  | None => ∀ j q, j ∈ ifs → ¬ has_nic j q
  end.
Proof.
  cbn. set (l := ifs ≫= iface_addrs).
  assert (∀ x, x ∈ l ↔ ∃ i, i ∈ ifs ∧ x ∈ iface_addrs i) as Hl.
  { intros x. unfold l. rewrite list_elem_of_bind. naive_solver. }
  assert (Forall (λ a, proper (ia_prefix a)) l) as HF.
  { apply Forall_forall. intros x (i & _ & (_ & _ & ? & a & _ & _ & Ha)%elem_of_iface_addrs)%Hl.
    by apply iface_addr_proper in Ha as [? _]. }
  destruct (foldl_pick l (PrefixZero, 0) HF ltac:(done)) as [H1 H2].
  unfold pickVZNAT. destruct (PrefixIsValid _) eqn:Ev.
  - destruct (H1 eq_refl) as (Hok & Ho & _ & Hmin).
    destruct Ho as [E|(x & (i & Hi & Hx)%Hl & E)]; [by rewrite E in Ev|].
    rewrite E in *. cbn in *. pose proof Hx as (? & ? & ls & a & ? & ? & Ha)%elem_of_iface_addrs.
    pose proof (iface_addr_proper _ _ _ Ha) as (_ & Hix & Hnm). exists i. split; [done|].
    split.
    { split_and!; try done. exists ls, a. split_and!; try done.
      rewrite Ha, <- Hix, <- Hnm. by destruct x. }
    intros j q Hj (? & ? & Hq & ls' & a' & ? & ? & Ha'). rewrite <- Hix.
    apply (Hmin (IfaceAddr (if_index j) (if_name j) q)); [|done].
    apply Hl. exists j. split; [done|]. apply elem_of_iface_addrs. eauto 10.
  - destruct (H2 eq_refl) as [_ Hno]. intros j q Hj (? & ? & Hq & ls' & a' & ? & ? & Ha').
    enough (nic_ok q = false) by congruence.
    apply (Hno (IfaceAddr (if_index j) (if_name j) q)).
    apply Hl. exists j. split; [done|]. apply elem_of_iface_addrs. eauto 10.
Qed.

(** ** Facts: the listeners *)

(** The descriptors somebody holds. *)
Definition auto_fds (a : auto_pc) : list nat :=
  match a with AutoBound _ l => [ln_fd l] | _ => [] end.
Definition close_fds (c : close_pc) : list nat :=
  match c with CloseIdle => [] | CloseUnpub fds | CloseFds fds => fds end.
Definition fds_of (s : st) : list nat :=
  (ln_fd <$> lns (s_tl s)) ++ auto_fds (s_auto s) ++ close_fds (s_close s).
Definition acct (fds : list nat) (w : world) : Prop :=
  opened w = list_to_set fds ∧ NoDup fds ∧ ∀ fd, fd ∈ fds → (fd < next_fd w)%nat.

Lemma acct_perm l1 l2 w : l1 ≡ₚ l2 → acct l1 w → acct l2 w.
Proof.
  intros E (Ho & Hn & Hb). split_and!.
  - rewrite Ho. by rewrite E.
  - by rewrite <- E.
  - intros fd. rewrite <- E. apply Hb.
Qed.
Lemma acct_open fds w fd w' : w_open w = (fd, w') → acct fds w → acct (fd :: fds) w'.
Proof.
  intros [= <- <-] (Ho & Hn & Hb). split_and!; cbn.
  - by rewrite Ho.
  - constructor; [|done]. intros Hin%Hb. lia.
  - intros fd [->|Hin%Hb]%elem_of_cons; lia.
Qed.
Lemma acct_close l fds w : acct (l ++ fds) w → acct fds (w_close l w).
Proof.
  intros (Ho & (Hl & Hd & Hn)%NoDup_app & Hb). split_and!; cbn.
  - rewrite Ho, list_to_set_app_L. apply set_eq. intros x.
    rewrite elem_of_difference, elem_of_union, !elem_of_list_to_set. naive_solver.
  - done.
  - intros fd Hin. apply Hb, elem_of_app. by right.
Qed.

Lemma start_spec l t t' b : start l t = (t', b) →
  b = negb (closed t) ∧ allow t' = allow t ∧ closed t' = closed t ∧ published t' = published t ∧
  pub_remote t' = pub_remote t ∧ lns t' = if b then lns t ++ [l] else lns t.
Proof. unfold start. destruct (closed t) eqn:Ec; intros [= <- <-]; by rewrite ?Ec. Qed.
Lemma publish_spec hasPub a t p t' p' : publish hasPub a t p = (t', p') →
  allow t' = allow t ∧ closed t' = closed t ∧ lns t' = lns t ∧ pub_remote t' = pub_remote t ∧
  ((published t' = published t ∧ p' = p) ∨
   (publishable a = true ∧ hasPub = true ∧ published t = false ∧ closed t = false ∧
    published t' = true ∧ p' = PubTop 0 a)).
Proof.
  unfold publish. destruct (publishable a) eqn:E; [|intros [= <- <-]; auto 10].
  destruct (negb hasPub || published t || closed t) eqn:Eb; cbn; intros [= <- <-]; [auto 10|].
  rewrite !orb_false_iff, negb_false_iff in Eb. cbn. tauto.
Qed.

Section listeners.
Variable hasPub : bool.
Variable spec : string.
Variable extra : list prefix.
Variable ifs0 : option (list iface).
Variable e0 : option string.

Definition auto0 : bool := String.eqb (TrimSpace spec) TransportAuto.
Definition eps0 : list string := if auto0 then [loopback_ep] else Split "," spec.
Definition s0 : st := ListenTransport spec extra ifs0 e0.

(** Every listener is of an endpoint asked for, or of a pick. *)
Definition ep_ok (w : world) (l : ln) : Prop :=
  (∃ ep, ep ∈ eps0 ∧ ln_ep l = TrimSpace ep) ∨
  (auto0 = true ∧ ∃ ifs p, (ifs, p) ∈ picks w ∧ ln_ep l = vznat_ep p).
Definition allow_ok (w : world) (q : prefix) : Prop :=
  q ∈ extra ∨ ∃ ifs p h, (ifs, p) ∈ picks w ∧ firstHost p = Some h ∧ q = hostPrefix h.

Record linv (s : st) : Prop := LInv {
  li_acct : acct (fds_of s) (s_world s);
  li_closed : closed (s_tl s) = true → lns (s_tl s) = [];
  li_picks : ∀ ifs p, (ifs, p) ∈ picks (s_world s) → vznatPrefix (Some ifs) = Some p;
  li_allow : ∀ q, q ∈ allow (s_tl s) → allow_ok (s_world s) q;
  li_lns : ∀ l, l ∈ lns (s_tl s) ∨ (∃ i, s_auto s = AutoBound i l) → ep_ok (s_world s) l;
  li_main : ∀ au eps, s_main s = Binding au eps →
    au = auto0 ∧ closed (s_tl s) = false ∧ s_close s = CloseIdle ∧ ∀ ep, ep ∈ eps → ep ∈ eps0;
  li_auto : s_auto s ≠ AutoNone → auto0 = true ∧ ∀ au eps, s_main s ≠ Binding au eps }.

(** What the publish thread may do, and what the gateway holds. *)
Record pinv (s : st) : Prop := PInv {
  pi_none : published (s_tl s) = false → s_pub s = PubNone;
  pi_has : published (s_tl s) = true → hasPub = true;
  pi_pc : match s_pub s with
          | PubTop _ a | PubSent a | PubWait _ a => publishable a = true
          | _ => True end;
  pi_remote : pub_remote (s_tl s) ≠ "" → s_pub s = PubEnd;
  pi_exposed : exposed (s_world s) ∈ [e0; None] ∨
    published (s_tl s) = true ∧ ∃ a, exposed (s_world s) = Some a ∧ publishable a = true }.

Lemma ep_ok_mono w w' l : (∀ x, x ∈ picks w → x ∈ picks w') → ep_ok w l → ep_ok w' l.
Proof. intros H [?|(? & ifs & p & ? & ?)]; [by left|right; eauto 10]. Qed.
Lemma allow_ok_mono w w' q : (∀ x, x ∈ picks w → x ∈ picks w') → allow_ok w q → allow_ok w' q.
Proof. intros H [?|(ifs & p & h & ? & ? & ?)]; [by left|right; eauto 10]. Qed.
Lemma allow_pick_in p s q : q ∈ allow_pick p s → q ∈ s ∨ ∃ h, firstHost p = Some h ∧ q = hostPrefix h.
Proof.
  unfold allow_pick, sa_add. destruct (firstHost p) as [h|]; [|by left].
  destruct (negb _); [by left|]. case_bool_decide; [by left|].
  rewrite elem_of_app, list_elem_of_singleton. intros [?| ->]; [by left|right; eauto].
Qed.

Lemma s0_linv : linv s0.
Proof.
  unfold s0, ListenTransport. set (d := match ifs0 with Some _ => _ | None => _ end).
  assert (∃ A W, d = (A, W) ∧ (∀ q, q ∈ A → allow_ok W q) ∧ opened W = ∅ ∧
    (∀ ifs p, (ifs, p) ∈ picks W → vznatPrefix (Some ifs) = Some p)) as (A & W & -> & HA & HW & HP).
  { subst d. destruct ifs0 as [ifs|].
    2: { eexists _, _. split; [done|]. split_and!; [by left|done|].
         intros ? ? []%not_elem_of_nil. }
    destruct (vznatPrefix (Some ifs)) as [p|] eqn:Ep.
    - eexists _, _. split; [done|]. split_and!; [|done|].
      + intros q [?|(h & ? & ?)]%allow_pick_in; [by left|]. right. exists ifs, p, h.
        split_and!; [by left|done|done].
      + intros i' p' [= -> ->]%list_elem_of_singleton. done.
    - eexists _, _. split; [done|]. split_and!; [by left|done|].
      intros ? ? []%not_elem_of_nil. }
  constructor; cbn; [..|done].
  - unfold fds_of. cbn. split_and!; [done|constructor|intros ? []%not_elem_of_nil].
  - done.
  - done.
  - done.
  - intros l [[]%not_elem_of_nil|(? & ?)]; done.
  - intros au eps [= <- <-]. done.
Qed.

Lemma s0_pinv : pinv s0.
Proof.
  unfold s0, ListenTransport. set (d := match ifs0 with Some _ => _ | None => _ end).
  assert (∃ A W, d = (A, W) ∧ exposed W = e0) as (A & W & -> & HW).
  { subst d. destruct ifs0; [|by eexists _, _]. destruct (vznatPrefix _); by eexists _, _. }
  constructor; cbn; try done. left. rewrite HW. left.
Qed.

(** Who holds a descriptor changes only where one is opened or closed. *)
Lemma lstep_acct s s' : lstep hasPub s s' → (closed (s_tl s) = true → lns (s_tl s) = []) →
  (∀ au eps, s_main s = Binding au eps → closed (s_tl s) = false ∧ s_auto s = AutoNone) →
  acct (fds_of s) (s_world s) → acct (fds_of s') (s_world s').
Proof.
  unfold fds_of.
  destruct 1 as [| |?|? ? ? ? ? ? ? ? ? Hl| | |? ? ? ? ? ? ? ? ? ? ? ? Hw|? ? ? ? ? ? ? ? Hs
    |? ? ? ? ? ? ? ? Hs|? ? ? ? ? ? ? ? Hp| | | | | | | |? ? ? ? ? ? Hl| | |];
    cbn; intros Hcl Hm HA; try exact HA.
  - match goal with H : start _ _ = _ |- _ => apply start_spec in H as (-> & _ & Hc & _ & _ & El) end.
    match goal with H : publish _ _ _ _ = _ |- _ => apply publish_spec in H as (_ & _ & -> & _) end.
    destruct (Hm _ _ eq_refl) as [Hc' ->]. rewrite Hc' in El. cbn in El. rewrite El, fmap_app. cbn.
    match goal with H : w_open _ = _ |- _ => eapply acct_open in HA; [|exact H] end.
    eapply acct_perm; [|exact HA]. cbn in HA |- *. destruct au; cbn; solve_Permutation.
  - injection Hl as <- <-. cbn. eapply acct_perm; [|exact HA]. solve_Permutation.
  - eapply acct_open in HA; [|exact Hw]. eapply acct_perm; [|exact HA]. cbn. solve_Permutation.
  - apply start_spec in Hs as (Hb & _ & _ & _ & _ & El). rewrite El, fmap_app. cbn.
    eapply acct_perm; [|exact HA]. solve_Permutation.
  - apply start_spec in Hs as (Hb & _ & _ & _ & _ & El). rewrite El.
    apply (acct_close [ln_fd l]). eapply acct_perm; [|exact HA]. cbn. solve_Permutation.
  - apply publish_spec in Hp as (_ & _ & -> & _). exact HA.
  - injection Hl as <- <-. cbn. eapply acct_perm; [|exact HA]. solve_Permutation.
  - apply acct_close. eapply acct_perm; [|exact HA]. solve_Permutation.
Qed.

Lemma linv_binding s au eps : linv s → s_main s = Binding au eps →
  closed (s_tl s) = false ∧ s_auto s = AutoNone.
Proof.
  intros I E. destruct (li_main _ I _ _ E) as (_ & ? & _). split; [done|].
  destruct (s_auto s) eqn:Ea; [done|..];
    (destruct (li_auto _ I) as [_ Hn]; [by rewrite Ea|by destruct (Hn _ _ E)]).
Qed.

(** The picks only grow, and every pick is the interfaces'. *)
Lemma lstep_picks s s' : lstep hasPub s s' →
  (∀ ifs p, (ifs, p) ∈ picks (s_world s) → vznatPrefix (Some ifs) = Some p) →
  (∀ x, x ∈ picks (s_world s) → x ∈ picks (s_world s')) ∧
  (∀ ifs p, (ifs, p) ∈ picks (s_world s') → vznatPrefix (Some ifs) = Some p).
Proof.
  destruct 1; cbn; intros HP; try by split.
  - match goal with H : w_open _ = _ |- _ => injection H as <- <- end. by split.
  - match goal with H : w_open _ = _ |- _ => injection H as <- <- end. cbn. split.
    + intros x ?. apply elem_of_app. by left.
    + intros i' p' [?|[= -> ->]%list_elem_of_singleton]%elem_of_app; [by apply HP|done].
Qed.

(** What the steps' own operations did. *)
Ltac tl_facts :=
  repeat match goal with
  | H : start _ _ = _ |- _ => apply start_spec in H as (? & ? & ? & ? & ? & ?)
  | H : publish _ _ _ _ = _ |- _ => apply publish_spec in H as (? & ? & ? & ? & ?)
  | H : close_lock _ = _ |- _ => injection H as <- <-
  | H : w_open _ = _ |- _ => injection H as <- <-
  end; cbn in *.

Lemma lstep_closed s s' : lstep hasPub s s' →
  (closed (s_tl s) = true → lns (s_tl s) = []) → closed (s_tl s') = true → lns (s_tl s') = [].
Proof.
  destruct 1; cbn; intros Hc; tl_facts; try done.
  - intros E. assert (closed t = true) as Ht by congruence. subst b. rewrite Ht in *. cbn in *.
    rewrite <- Hc by done. congruence.
  - intros E. assert (closed t = true) as Ht by congruence. by rewrite Ht in *.
  - intros E. rewrite <- Hc; congruence.
  - intros E. rewrite <- Hc; congruence.
Qed.

Lemma lstep_allow s s' q : lstep hasPub s s' → q ∈ allow (s_tl s') →
  q ∈ allow (s_tl s) ∨ ∃ ifs p h, (ifs, p) ∈ picks (s_world s') ∧
    firstHost p = Some h ∧ q = hostPrefix h.
Proof.
  destruct 1; cbn; intros Hq; tl_facts; try by left.
  - left. congruence.
  - apply allow_pick_in in Hq as [?|(h & ? & ?)]; [by left|]. right. exists ifs, q0, h.
    split_and!; [|done|done]. apply elem_of_app. right. by apply list_elem_of_singleton.
  - left. congruence.
  - left. congruence.
  - left. congruence.
Qed.

(** A listener new to the list or to the retry thread is of the endpoint being
    bound. *)
Lemma lstep_lns s s' l : lstep hasPub s s' → linv s →
  l ∈ lns (s_tl s') ∨ (∃ i, s_auto s' = AutoBound i l) →
  l ∈ lns (s_tl s) ∨ (∃ i, s_auto s = AutoBound i l) ∨ ep_ok (s_world s') l.
Proof.
  destruct 1; intros I Hl; tl_facts; try (destruct Hl as [?|[? ?]]; [by auto|by eauto || done]).
  - destruct (li_main _ I _ _ eq_refl) as (-> & _ & _ & Hsub).
    destruct Hl as [Hl|[i Hi]]; [|destruct auto0; [done|right; left; by exists i]].
    match goal with H : lns t'' = _, H' : lns t' = _ |- _ => rewrite H, H' in Hl end.
    destruct b; [|by left].
    apply elem_of_app in Hl as [?| ->%list_elem_of_singleton]; [by left|].
    right. right. left. exists ep. split; [apply Hsub; left|done].
  - destruct Hl as [[]%not_elem_of_nil|[? ?]]. eauto.
  - destruct Hl as [?|[? [= <- <-]]]; [by left|]. right. right. right.
    destruct (li_auto _ I) as [? _]; [done|]. split; [done|]. exists ifs, q.
    split; [|done]. apply elem_of_app. right. by apply list_elem_of_singleton.
  - destruct Hl as [Hl|[? ?]]; [|done].
    match goal with H : lns t' = _ |- _ => rewrite H in Hl end.
    apply elem_of_app in Hl as [?| ->%list_elem_of_singleton]; eauto.
  - destruct Hl as [Hl|[? ?]]; [|done]. left. congruence.
  - destruct Hl as [Hl|[? ?]]; [|done]. left. congruence.
  - destruct Hl as [[]%not_elem_of_nil|[? ?]]. eauto.
Qed.

Lemma lstep_main s s' au eps : lstep hasPub s s' → linv s → s_main s' = Binding au eps →
  au = auto0 ∧ closed (s_tl s') = false ∧ s_close s' = CloseIdle ∧ ∀ ep, ep ∈ eps → ep ∈ eps0.
Proof.
  destruct 1; intros I Hm; pose proof (li_main _ I) as Im; pose proof (li_auto _ I) as Iu;
    tl_facts; try (by destruct (Im _ _ Hm) as (? & ? & ? & ?)); try discriminate Hm.
  - injection Hm as <- <-. destruct (Im _ _ eq_refl) as (? & ? & ? & Hsub).
    split_and!; try done. intros x ?. apply Hsub. by right.
  - destruct (Im _ _ eq_refl) as (? & ? & ? & Hsub). destruct au0; [discriminate Hm|].
    injection Hm as <- <-. split_and!; [done|congruence|done|]. intros x ?. apply Hsub. by right.
  - by destruct (decide (lns t = [])).
  - destruct Iu as [_ Hn]; [done|]. by destruct (Hn _ _ Hm).
  - destruct Iu as [_ Hn]; [done|]. by destruct (Hn _ _ Hm).
  - destruct Iu as [_ Hn]; [done|]. by destruct (Hn _ _ Hm).
Qed.

Lemma lstep_auto s s' : lstep hasPub s s' → linv s → s_auto s' ≠ AutoNone →
  auto0 = true ∧ ∀ au eps, s_main s' ≠ Binding au eps.
Proof.
  destruct 1; intros I Hm; pose proof (li_main _ I) as Im; pose proof (li_auto _ I) as Iu;
    tl_facts; try (destruct (Iu Hm); by split); try (destruct Iu; [done|by split]).
  - destruct (Iu Hm) as [_ Hn]. by destruct (Hn false (ep :: eps)).
  - destruct (Im _ _ eq_refl) as (Hau & _). destruct au; [by split|].
    destruct (Iu Hm) as [_ Hn]. by destruct (Hn false (ep :: eps)).
  - destruct (Iu Hm) as [? Hn]. split; [done|]. by destruct (decide (lns t = [])).
Qed.

Lemma lstep_linv s s' : linv s → lstep hasPub s s' → linv s'.
Proof.
  intros I Hstep. pose proof (lstep_picks _ _ Hstep (li_picks _ I)) as [Hgrow Hpicks].
  constructor.
  - eapply lstep_acct; [done|apply I|intros ? ?; by apply linv_binding|apply I].
  - eapply lstep_closed; [done|apply I].
  - done.
  - intros q [?%(li_allow _ I)|?]%(lstep_allow _ _ _ Hstep); [by eapply allow_ok_mono|by right].
  - intros l [?|[?|?]]%(lstep_lns _ _ _ Hstep I); [..|done];
      (eapply ep_ok_mono; [exact Hgrow|]); apply (li_lns _ I); auto.
  - intros au eps. by eapply lstep_main.
  - by eapply lstep_auto.
Qed.

Lemma lreach_linv s : lreach hasPub s0 s → linv s.
Proof. induction 1 as [s ->|s s' _ IH Hs]; [apply s0_linv|by eapply lstep_linv]. Qed.

(** [publish] keeps the publish thread's invariant. *)
Lemma publish_pinv a t p t' p' m u c w : publish hasPub a t p = (t', p') →
  pinv (St t m u p c w) → pinv (St t' m u p' c w).
Proof.
  intros (_ & _ & _ & Hr & Hp)%publish_spec [I1 I2 I3 I4 I5]. cbn in *.
  destruct Hp as [[Hp ->]|(Ha & Hh & Hf & _ & Ht & ->)].
  - constructor; cbn; rewrite ?Hp, ?Hr; auto.
  - constructor; cbn; rewrite ?Hr; auto.
    + congruence.
    + intros E. specialize (I4 E). specialize (I1 Hf). congruence.
    + destruct I5 as [?|(? & ?)]; [by left|]. congruence.
Qed.
(** What the invariant does not look at. *)
Lemma pinv_frame t t' m m' u u' p c c' w w' :
  published t' = published t → pub_remote t' = pub_remote t → exposed w' = exposed w →
  pinv (St t m u p c w) → pinv (St t' m' u' p c' w').
Proof. intros E1 E2 E3 [I1 I2 I3 I4 I5]. constructor; cbn in *; by rewrite ?E1, ?E2, ?E3. Qed.

Lemma lstep_pinv s s' : lstep hasPub s s' → pinv s → pinv s'.
Proof.
  destruct 1 as [|? ? ? ? ? ? ? ? ? ? ? ? ? ? ? ? ? Hs Hp| | | | |? ? ? ? ? ? ? ? ? ? ? Hw|? ? ? ? ? ? ? ? Hs
    |? ? ? ? ? ? ? ? Hs|? ? ? ? ? ? ? ? Hp| | |? ? ? ? ? ? ? ? ? ? ? _|
    |? ? ? ? ? ? ? ? ? ? ? ? ? _ He| | | | |? ? ? ? ? ? ? ? He|];
    intros I; try (by eapply pinv_frame; [..|exact I]).
  - eapply publish_pinv; [exact Hp|]. tl_facts. by eapply pinv_frame; [..|exact I].
  - tl_facts. by eapply pinv_frame; [..|exact I].
  - tl_facts. by eapply pinv_frame; [..|exact I].
  - tl_facts. by eapply pinv_frame; [..|exact I].
  - tl_facts. by eapply pinv_frame; [..|exact I].
  - eapply publish_pinv; [exact Hp|]. by eapply pinv_frame; [..|exact I].
  - destruct I as [I1 I2 I3 I4 I5]. cbn in *. constructor; cbn; auto.
    + intros E. by specialize (I1 E).
    + intros E. by specialize (I4 E).
    + right. split; [|by eexists]. destruct (published t) eqn:E; [done|]. by specialize (I1 eq_refl).
  - destruct I as [I1 I2 I3 I4 I5]. cbn in *. constructor; cbn; auto.
    intros E. by specialize (I1 E).
  - destruct I as [I1 I2 I3 I4 I5]. cbn in *. constructor; cbn; auto.
    + intros E. by specialize (I1 E).
    + intros E. by specialize (I4 E).
    + assert (published t = true) as Ep
        by (destruct (published t) eqn:E; [done|by specialize (I1 eq_refl)]).
      apply elem_of_cons in He as [->|He]; [done|]. apply elem_of_cons in He as [->|He].
      * left. right. left.
      * apply list_elem_of_singleton in He as ->. right. eauto.
  - destruct I as [I1 I2 I3 I4 I5]. cbn in *. constructor; cbn; auto.
    + intros E. by specialize (I1 E).
    + intros E. by specialize (I4 E).
  - destruct I as [I1 I2 I3 I4 I5]. cbn in *. constructor; cbn; auto.
    intros E. by specialize (I1 E).
  - tl_facts. by eapply pinv_frame; [..|exact I].
  - destruct I as [I1 I2 I3 I4 I5]. cbn in *. constructor; cbn; auto.
    apply elem_of_cons in He as [->|He]; [left; right; left|].
    by apply list_elem_of_singleton in He as ->.
Qed.

Lemma lreach_pinv s : lreach hasPub s0 s → pinv s.
Proof. induction 1 as [s ->|s s' _ IH Hs]; [apply s0_pinv|by eapply lstep_pinv]. Qed.
End listeners.

(** Accepting: everything before the result was an address not allowed, and
    was closed. *)
Lemma Accept_spec {E} a limit (outs : list (result E (nat * remote) * Z)) :
  ∃ pre post, outs = pre ++ post ∧
    (Accept a limit outs).1.1.1 = (match post with [] => None | (r, _) :: _ => Some (fst <$> r) end) ∧
    (∀ c r now rest, post = (Ok (c, r), now) :: rest →
      match peerIP r with Some ip => allowed a ip = true | None => True end) ∧
    (Accept a limit outs).1.1.2 = omap (λ o, match o.1 with Ok (c, _) => Some c | Err _ => None end) pre ∧
    Forall (λ o, ∃ c r ip, o.1 = Ok (c, r) ∧ peerIP r = Some ip ∧ allowed a ip = false) pre.
Proof.
  revert limit. induction outs as [|[[[c r]|e] now] outs IH]; intros limit.
  - exists [], []. split_and!; try done.
  - cbn [Accept]. destruct (peerIP r) as [ip|] eqn:Ep.
    2: { exists [], ((Ok (c, r), now) :: outs). split_and!; try done.
         intros ? ? ? ? [= <- <- _ _]. by rewrite Ep. }
    destruct (allowed a ip) eqn:Ea.
    { exists [], ((Ok (c, r), now) :: outs). split_and!; try done.
      intros ? ? ? ? [= <- <- _ _]. by rewrite Ep. }
    destruct (limiter_allow ip now limit) as [emit limit'].
    destruct (IH limit') as (pre & post & -> & H1 & H2 & H3 & H4).
    destruct (Accept a limit' (pre ++ post)) as [[[res cl] lg] lim]. cbn in *.
    exists ((Ok (c, r), now) :: pre), post. split_and!; try done.
    + cbn. by rewrite H3.
    + constructor; [|done]. eauto 10.
  - exists [], ((Err e, now) :: outs). split_and!; try done.
Qed.

Lemma contains_host h ip : hasZone h = false → PrefixContains (hostPrefix h) ip = true → ip = h.
Proof.
  intros Hz. unfold PrefixContains, hostPrefix, PrefixFrom. destruct (negb _ || _) eqn:E; [done|].
  apply orb_false_iff in E as [_ E]. destruct h as [|n|n z], ip as [|m|m z']; cbn; try done.
  - rewrite !Z.shiftr_0_r. by intros ->%Z.eqb_eq.
  - cbn in Hz, E. apply negb_false_iff, String.eqb_eq in Hz as ->.
    apply negb_false_iff, String.eqb_eq in E as ->. rewrite !Z.shiftr_0_r. by intros ->%Z.eqb_eq.
Qed.
Lemma firstHost_no_zone p h : Is4 (pfx_ip p) = true → firstHost p = Some h → hasZone h = false.
Proof.
  unfold firstHost. destruct (negb _) eqn:E; [done|]. unfold Masked in *.
  destruct (pfx_ip p) as [|n|]; [done| |done]. intros _. destruct (_ && _) eqn:E'; [|done].
  cbn. destruct (_ =? _); [done|]. by intros [= <-].
Qed.

Lemma allowed_cases s ip : allowed s ip = true →
  IsLoopback ip = true ∨ ∃ p, p ∈ s ∧ PrefixContains p (Unmap ip) = true.
Proof.
  unfold allowed. destruct (negb _); [done|].
  assert (IsLoopback (Unmap ip) = IsLoopback ip) as -> by (unfold IsLoopback; by rewrite Unmap_idemp).
  destruct (IsLoopback ip); [by left|]. intros H. right.
  apply existsb_exists in H as (p & Hin & Hp). exists p. by rewrite list_elem_of_In.
Qed.

(** ** Properties *)

(** The address [p] is the choice among some interfaces: a private IPv4
    address outside Lima's usernet, not the gateway of its own subnet, of the
    lowest-numbered usable interface. *)
Definition chosen (p : prefix) : Prop :=
  ∃ (ifs : list iface) i, i ∈ ifs ∧ has_nic i p ∧ ∀ j q, j ∈ ifs → has_nic j q → if_index i <= if_index j.

(** Who the transport may talk to. *)
Definition peer_ok (extra : list prefix) (ip : addr) : Prop :=
  IsLoopback ip = true ∨ (∃ q, q ∈ extra ∧ PrefixContains q (Unmap ip) = true) ∨
  ∃ p, chosen p ∧ firstHost p = Some (Unmap ip).

(** C15: whatever the order of binds, retries, publishes and closes: with
    [-transport auto] the only listeners are the guest loopback's and those
    on a chosen interface address, and otherwise only the endpoints named;
    a connection a listener hands over comes from the loopback, from a range
    the operator added or from the first host of a chosen subnet, and every
    other was closed unread; once closed nothing is listed any more, and when
    its threads are done no socket is left open; and the gateway's forward is
    only ever pointed at a concrete address off the loopback. *)
Theorem transport_scope hasPub spec extra ifs e0 s :
  lreach hasPub (ListenTransport spec extra ifs e0) s →
  (∀ l, l ∈ lns (s_tl s) →
    if String.eqb (TrimSpace spec) TransportAuto
    then ln_ep l = "127.0.0.1:4777" ∨ ∃ p, chosen p ∧ ln_ep l = vznat_ep p
    else ∃ ep, ep ∈ Split "," spec ∧ ln_ep l = TrimSpace ep) ∧
  (∀ limit (outs : list (result unit (nat * remote) * Z)) c,
    (Accept (allow (s_tl s)) limit outs).1.1.1 = Some (Ok c) →
    ∃ pre r now post, outs = pre ++ (Ok (c, r), now) :: post ∧
      (∀ ip, peerIP r = Some ip → peer_ok extra ip) ∧
      (Accept (allow (s_tl s)) limit outs).1.1.2
      = omap (λ o, match o.1 with Ok (c, _) => Some c | Err _ => None end) pre) ∧
  (closed (s_tl s) = true → lns (s_tl s) = [] ∧
    (auto_fds (s_auto s) = [] → s_close s = CloseIdle → opened (s_world s) = ∅)) ∧
  (exposed (s_world s) = e0 ∨ exposed (s_world s) = None ∨
    hasPub = true ∧ ∃ a, exposed (s_world s) = Some a ∧ publishable a = true).
Proof.
  intros Hs. pose proof (lreach_linv _ _ _ _ _ _ Hs) as I. pose proof (lreach_pinv _ _ _ _ _ _ Hs) as P.
  assert (∀ i p, (i, p) ∈ picks (s_world s) → chosen p ∧ Is4 (pfx_ip p) = true) as Hch.
  { intros i p Hin. pose proof (vznatPrefix_spec i) as Hv. rewrite (li_picks _ _ _ I _ _ Hin) in Hv.
    destruct Hv as (j & Hj & Hn & Hmin). split; [by exists i, j|].
    destruct Hn as (_ & _ & Hn & _). unfold nic_ok in Hn. rewrite !andb_true_iff in Hn. tauto. }
  split_and!.
  - intros l Hl. pose proof (li_lns _ _ _ I l (or_introl Hl)) as Hep. unfold ep_ok, eps0, auto0 in Hep.
    destruct (String.eqb _ _).
    + destruct Hep as [(ep & ->%list_elem_of_singleton & ->)|(_ & i & p & Hin & ->)]; [by left|].
      right. exists p. split; [by eapply Hch|done].
    + destruct Hep as [?|[? _]]; done.
  - intros limit outs c HA. destruct (Accept_spec (allow (s_tl s)) limit outs)
      as (pre & [|[[[c' r]|e] now] post] & -> & H1 & H2 & H3 & _); rewrite H1 in HA; try done.
    injection HA as [= ->]. exists pre, r, now, post. split_and!; [done| |done].
    intros ip Hip. specialize (H2 _ _ _ _ eq_refl). rewrite Hip in H2.
    destruct (allowed_cases _ _ H2) as [?|(q & Hq & Hc)]; [by left|]. right.
    destruct (li_allow _ _ _ I q Hq) as [?|(i & p & h & Hin & Hf & ->)]; [by left; eauto|].
    right. destruct (Hch _ _ Hin) as [? H4]. exists p. split; [done|].
    by rewrite (contains_host h _ (firstHost_no_zone _ _ H4 Hf) Hc).
  - intros Hc. split; [by apply (li_closed _ _ _ I)|]. intros Ha Hi.
    destruct (li_acct _ _ _ I) as [-> _]. unfold fds_of.
    by rewrite (li_closed _ _ _ I Hc), Ha, Hi.
  - destruct (pi_exposed _ _ _ P) as [He|[Hp ?]].
    + apply elem_of_cons in He as [?|?%list_elem_of_singleton]; auto.
    + right. right. split; [by apply (pi_has _ _ _ P)|done].
Qed.

(** A guest with Lima's usernet, the vzNAT interface and a docker bridge. *)
Definition v4net (a b c d m1 m2 m3 m4 : Z) : netaddr :=
  IPNet (z2b <$> [a; b; c; d]) (z2b <$> [m1; m2; m3; m4]).
Definition ex_ifs : list iface :=
  [Iface 1 "lo" true true (Some [v4net 127 0 0 1 255 0 0 0]);
   Iface 2 "eth0" false true (Some [v4net 192 168 5 15 255 255 255 0]);
   Iface 3 "lima0" false true (Some [v4net 192 168 64 5 255 255 255 0]);
   Iface 4 "docker0" false true (Some [v4net 172 17 0 1 255 255 0 0])].
Definition ex_pick : prefix := Prefix (Addr4 0xc0a84005) 24.
Definition ex_addr : string := "192.168.64.5:4777".
Example ex_vznat : vznatPrefix (Some ex_ifs) = Some ex_pick ∧ vznat_ep ex_pick = ex_addr.
Proof. vm_compute. done. Qed.

Definition ex_extra : list prefix := [Prefix (Addr4 0x0a000000) 8].
Definition ex_s0 : st := ListenTransport "auto" ex_extra (Some ex_ifs) None.
Definition ex_allow : sourceAllow := allow_pick ex_pick ex_extra.
Definition ex_l0 : ln := Ln 0 loopback_ep loopback_ep.
Definition ex_l1 : ln := Ln 1 (vznat_ep ex_pick) ex_addr.
Definition ex_world n fds e : world := World fds n e [(ex_ifs, ex_pick); (ex_ifs, ex_pick)].

(** Both listeners up and the publish thread about to ask the gateway. *)
Definition ex_up : st :=
  St (Tl ex_allow [ex_l0; ex_l1] false true "") Ready AutoEnd (PubTop 0 ex_addr) CloseIdle
    (ex_world 2 {[1%nat; 0%nat]} None).
Lemma ex_up_reach : lreach true ex_s0 ex_up.
Proof.
  assert (lreach true ex_s0 (St (Tl ex_allow [ex_l0] false false "") Ready (AutoTop 0) PubNone CloseIdle
    (World {[0%nat]} 1 None [(ex_ifs, ex_pick)]))) as H.
  { eapply reach_step; [by apply reach_init|].
    assert (ex_s0 = St (Tl ex_allow [] false false "") (Binding true [loopback_ep]) AutoNone PubNone
      CloseIdle (World ∅ 0 None [(ex_ifs, ex_pick)])) as -> by (vm_compute; done).
    eapply (l_bind true _ true loopback_ep [] _ _ _ _ loopback_ep); [|done|done|];
      vm_compute; done. }
  set (t1 := Tl ex_allow [ex_l0] false false "") in H.
  set (t2 := Tl ex_allow [ex_l0; ex_l1] false false "").
  set (w := ex_world 2 {[1%nat; 0%nat]} None).
  eapply (reach_step _ _ (St t2 Ready (AutoStarted ex_addr) PubNone CloseIdle w)).
  - eapply (reach_step _ _ (St t1 Ready (AutoBound 0 ex_l1) PubNone CloseIdle w)).
    + eapply reach_step; [exact H|].
      assert (t1 = set_allow (allow_pick ex_pick (allow t1)) t1) as E by (vm_compute; done).
      rewrite E at 2. by apply (l_auto_bind true t1 Ready 0 PubNone CloseIdle
        (World {[0%nat]} 1 None [(ex_ifs, ex_pick)]) ex_ifs ex_pick ex_addr 1
        (World {[1%nat; 0%nat]} 2 None [(ex_ifs, ex_pick)]) ltac:(vm_compute; done)).
    + by apply l_auto_start.
  - apply (l_auto_publish true). vm_compute. done.
Qed.

Lemma transport_scope_witness :
  (Accept (E:=unit) (allow (s_tl ex_up)) ∅
     [(Ok (7%nat, TCPAddr (z2b <$> [172; 17; 0; 2])), 0);
      (Ok (8%nat, TCPAddr (z2b <$> [192; 168; 64; 9])), 0);
      (Ok (9%nat, TCPAddr (z2b <$> [192; 168; 64; 1])), 0)]).1.1 =
    (Some (Ok 9%nat), [7%nat; 8%nat]) ∧
  (∀ l, l ∈ lns (s_tl ex_up) →
    ln_ep l = "127.0.0.1:4777" ∨ ∃ p, chosen p ∧ ln_ep l = vznat_ep p).
Proof.
  split; [vm_compute; reflexivity|].
  exact (proj1 (transport_scope true "auto" ex_extra (Some ex_ifs) None ex_up ex_up_reach)).
Defined.

(** [Close] looks for a published forward once: a publish in flight finds
    nothing to stop it, and its forward is left behind on the gateway after
    every thread has ended. *)
Lemma late_publish : ∃ s,
  lreach true ex_s0 s ∧ closed (s_tl s) = true ∧ s_auto s = AutoEnd ∧ s_pub s = PubEnd ∧
  s_close s = CloseIdle ∧ opened (s_world s) = ∅ ∧ exposed (s_world s) = Some ex_addr.
Proof.
  pose proof (reach_step _ _ _ _ ex_up_reach (l_close true _ _ _ _ _ _ eq_refl)) as H.
  cbn in H. pose proof (reach_step _ _ _ _ H
    (l_unpub_none true (Tl ex_allow [] true true "") _ _ _ _ _ eq_refl)) as H1.
  pose proof (reach_step _ _ _ _ H1 (l_close_fds true _ _ _ _ _ _)) as H2.
  pose proof (reach_step _ _ _ _ H2
    (l_pub_ok true _ _ _ 0 _ _ _ "" "127.0.0.1:4777" (Some (200, "")) _ eq_refl)) as H3.
  pose proof (reach_step _ _ _ _ H3 (l_pub_store true _ _ _ _ _ _)) as H4.
  eexists. split; [exact H4|]. by split_and!.
Qed.

(** The times of the passes: two seconds apart for the first thirty, at least
    that after. *)
Definition pass_ok (t0 : Z) (i : nat) (now : Z) : Prop :=
  if (i <? vznatFastRetries)%nat then now = t0 + vznatFastDelay * Z.of_nat i
  else t0 + vznatFastDelay * Z.of_nat vznatFastRetries <= now.

Lemma pass_next t0 i now : pass_ok t0 i now → pass_ok t0 (S i) (now + retry_delay i).
Proof.
  unfold pass_ok, retry_delay, vznatFastRetries, vznatFastDelay, vznatSlowDelay.
  destruct (i <? 30)%nat eqn:E1, (S i <? 30)%nat eqn:E2, (30 <=? i)%nat eqn:E3;
    rewrite ?Nat.ltb_lt, ?Nat.ltb_ge, ?Nat.leb_le, ?Nat.leb_gt in *; lia.
Qed.

Lemma auto_binds_go ifs listens t0 T n : ∀ i now,
  (∀ t, T <= t → ∃ p, vznatPrefix (ifs t) = Some p ∧ listens t p = true) →
  T - now <= Z.of_nat n * vznatFastDelay → pass_ok t0 i now →
  now <= T + vznatSlowDelay → (T <= t0 + 60 * 10 ^ 9 → now <= T + vznatFastDelay) →
  ∃ fuel t p, autoVZNAT fuel ifs listens i now = Some (t, p) ∧ vznatPrefix (ifs t) = Some p ∧
    listens t p = true ∧ t <= T + vznatSlowDelay ∧ (T <= t0 + 60 * 10 ^ 9 → t <= T + vznatFastDelay).
Proof.
  induction n as [|n IH]; intros i now Hup Hn Hpass Hs Hf.
  { destruct (Hup now ltac:(lia)) as (p & Hp & Hl). exists 1%nat, now, p.
    cbn. rewrite Hp, Hl. by split_and!. }
  assert ((∃ p, vznatPrefix (ifs now) = Some p ∧ listens now p = true) ∨
    ¬ ∃ p, vznatPrefix (ifs now) = Some p ∧ listens now p = true) as [(p & Hp & Hl)|Hno].
  { destruct (vznatPrefix (ifs now)) as [q|]; [|right; by intros (? & ? & ?)].
    destruct (listens now q) eqn:El; [left; eauto|right; intros (? & [= <-] & ?); congruence]. }
  { exists 1%nat, now, p. cbn. rewrite Hp, Hl. by split_and!. }
  assert (now < T) by (apply Z.lt_nge; intros ?; by apply Hno, Hup).
  destruct (IH (S i) (now + retry_delay i)) as (fuel & t & p & Hrun & Hrest); try done.
  - assert (vznatFastDelay <= retry_delay i)
      by (unfold retry_delay, vznatFastDelay, vznatSlowDelay; case_match; lia). lia.
  - by apply pass_next.
  - unfold retry_delay, vznatFastDelay, vznatSlowDelay in *. case_match; lia.
  - intros HT. unfold retry_delay, pass_ok, vznatFastDelay, vznatFastRetries in *.
    destruct (30 <=? i)%nat eqn:E1, (i <? 30)%nat eqn:E2;
      rewrite ?Nat.ltb_lt, ?Nat.ltb_ge, ?Nat.leb_le, ?Nat.leb_gt in *; lia.
  - exists (S fuel), t, p. split; [|done]. cbn.
    destruct (vznatPrefix (ifs now)) as [q|] eqn:Eq; [|done].
    destruct (listens now q) eqn:El; [|done]. destruct Hno. eauto.
Qed.

(** Once the interface is there and can be bound, the retry binds it: at
    most 30 s later, and at most 2 s later within the first minute. *)
Theorem auto_binds ifs listens t0 T :
  t0 <= T → (∀ t, T <= t → ∃ p, vznatPrefix (ifs t) = Some p ∧ listens t p = true) →
  ∃ fuel t p, autoVZNAT fuel ifs listens 0 t0 = Some (t, p) ∧ vznatPrefix (ifs t) = Some p ∧
    listens t p = true ∧ t <= T + vznatSlowDelay ∧ (T <= t0 + 60 * 10 ^ 9 → t <= T + vznatFastDelay).
Proof.
  intros HT Hup. apply (auto_binds_go ifs listens t0 T (Z.to_nat (T - t0))); try done.
  - unfold vznatFastDelay. lia.
  - unfold pass_ok. cbn. lia.
  - unfold vznatSlowDelay. lia.
  - unfold vznatFastDelay. lia.
Qed.

(** The interface of [ex_ifs] comes up forty seconds in. *)
Definition ex_late (t : Z) : option (list iface) := if t <? 41 * 10 ^ 9 then None else Some ex_ifs.
Lemma auto_binds_witness :
  autoVZNAT 100 ex_late (λ _ _, true) 0 0 = Some (42 * 10 ^ 9, ex_pick) ∧
  ∃ fuel t p, autoVZNAT fuel ex_late (λ _ _, true) 0 0 = Some (t, p) ∧ t <= 43 * 10 ^ 9.
Proof.
  split; [vm_compute; reflexivity|].
  destruct (auto_binds ex_late (λ _ _, true) 0 (41 * 10 ^ 9)) as (f & t & p & H1 & _ & _ & _ & H2).
  - lia.
  - intros t Ht. exists ex_pick. split; [|done]. unfold ex_late.
    rewrite (proj2 (Z.ltb_ge _ _)) by exact Ht. apply ex_vznat.
  - exists f, t, p. split; [exact H1|]. exact (H2 ltac:(lia)).
Defined.
