(* ===== verification/Proxy.v ===== *)
(** * The gateway proxies

    [internal/acceptloop]: the accept loop every listener runs; and
    [internal/proxy]: relaying one TCP connection ([tcp.go], [splice.go]), the
    UDP proxy with one socket per client ([udp.go]) and the UDP proxy over one
    framed stream ([udpstream.go]). The sockets, the dialer and the clock are
    the environment. *)

From S2P Require Import Prelude Wire GoStr NetIP UdpFrame.

Open Scope string_scope.
Open Scope list_scope.
Open Scope Z_scope.

(** ** The accept loop *)
Module AcceptLoop.

Definition MinDelay : Z := 5 * 10 ^ 6.
Definition MaxDelay : Z := 10 ^ 9.

(** What [errors.Is] and [errors.As] find in an accept error. *)
Record accept_err := AcceptErr {
  is_closed : bool; is_emfile : bool; is_enfile : bool; net_temporary : option bool }.

Definition Retryable (e : option accept_err) : bool :=
  match e with
  | None => false
  | Some e =>
      if is_closed e then false
      else if is_emfile e || is_enfile e then true
      else match net_temporary e with Some b => b | None => false end
  end.

Definition Next (prev : Z) : Z :=
  if prev =? 0 then MinDelay
  else if MaxDelay / 2 <=? prev then MaxDelay
  else prev * 2.

(** [Serve] over the outcomes of [accept], in order: what it returns ([None]
    while it still accepts), the connections handled, the sleeps taken. *)
Section serve.
Context {C : Type}.
Fixpoint serve_loop (delay : Z) (outs : list (result accept_err C))
    : option accept_err * list C * list Z :=
  match outs with
  | [] => (None, [], [])
  | Err e :: outs =>
      if negb (Retryable (Some e)) then (Some e, [], [])
      else
        let delay := Next delay in
        let '(r, hs, ds) := serve_loop delay outs in (r, hs, delay :: ds)
  | Ok c :: outs =>
      let '(r, hs, ds) := serve_loop 0 outs in (r, c :: hs, ds)
  end.
Definition Serve (outs : list (result accept_err C)) : option accept_err * list C * list Z :=
  serve_loop 0 outs.
End serve.

(** The delay after the [n]-th failure in a row, counting from 0. *)
Fixpoint backoff (n : nat) : Z :=
  match n with O => MinDelay | S n => Next (backoff n) end.

Lemma backoff_doubles n : backoff n = Z.min (MinDelay * 2 ^ Z.of_nat n) MaxDelay.
Proof.
  induction n as [|n IH]; [done|]. cbn [backoff]. rewrite IH. unfold Next, MinDelay, MaxDelay.
  rewrite Nat2Z.inj_succ, Z.pow_succ_r by lia.
  pose proof (Z.pow_pos_nonneg 2 (Z.of_nat n) ltac:(lia) ltac:(lia)) as Hp.
  set (m := 2 ^ Z.of_nat n) in *. change (10 ^ 9 / 2) with (500 * 10 ^ 6).
  destruct (_ =? 0) eqn:E0; [bool_prop; lia|]. destruct (_ <=? _) eqn:E; bool_prop; [|lia].
  destruct (decide (n < 7)%nat) as [Hn|Hn].
  - subst m. do 7 (destruct n as [|n]; [vm_compute in E |- *; first [done|lia]|]). lia.
  - assert (2 ^ 7 <= m) by (apply Z.pow_le_mono_r; lia). lia.
Qed.

(** What [Serve] should sleep: doubling along a run of failures, from the start
    again after every accept. *)
Fixpoint sleeps {C} (n : nat) (outs : list (result accept_err C)) : list Z :=
  match outs with
  | [] => []
  | Err _ :: outs => Z.min (MinDelay * 2 ^ Z.of_nat n) MaxDelay :: sleeps (S n) outs
  | Ok _ :: outs => sleeps 0 outs
  end.
Definition fatal {C} (o : result accept_err C) : bool :=
  match o with Err e => negb (Retryable (Some e)) | Ok _ => false end.

Lemma serve_loop_spec {C} (outs : list (result accept_err C)) n delay :
  Next delay = backoff n →
  ∃ pre post, outs = pre ++ post ∧ Forall (λ o, fatal o = false) pre ∧
    serve_loop delay outs =
      (match post with Err e :: _ => Some e | _ => None end,
       omap (λ o, match o with Ok c => Some c | Err _ => None end) pre, sleeps n pre) ∧
    (post = [] ∨ ∃ e rest, post = Err e :: rest ∧ Retryable (Some e) = false).
Proof.
  revert n delay. induction outs as [|[c|e] outs IH]; intros n delay Hd.
  - exists [], []. by split_and!; [..|left].
  - destruct (IH 0%nat 0 eq_refl) as (pre & post & -> & HF & E & HP).
    exists (Ok c :: pre), post. split_and!; [done|by constructor| |done]. cbn [serve_loop]. by rewrite E.
  - cbn [serve_loop]. destruct (Retryable (Some e)) eqn:Er; cbn [negb].
    + destruct (IH (S n) (Next delay)) as (pre & post & -> & HF & E & HP); [by rewrite Hd|].
      exists (Err e :: pre), post. split_and!; [done| | |done].
      * constructor; [|done]. cbn [fatal]. by rewrite Er.
      * rewrite E. cbn [sleeps omap list_omap]. by rewrite Hd, backoff_doubles.
    + exists [], (Err e :: outs). split_and!; [done|constructor|done|]. right. eauto.
Qed.

(** The accept loop handles every connection accepted before the first
    error it cannot retry, in order, and returns exactly that error; after the
    [n]-th failure in a row it sleeps 5 ms doubled [n - 1] times, never over a
    second; and a closed listener always ends it, fd exhaustion never does. *)
Theorem serve_exact {C} (outs : list (result accept_err C)) :
  (∃ pre post, outs = pre ++ post ∧ Forall (λ o, fatal o = false) pre ∧
    Serve outs =
      (match post with Err e :: _ => Some e | _ => None end,
       omap (λ o, match o with Ok c => Some c | Err _ => None end) pre, sleeps 0 pre) ∧
    (post = [] ∨ ∃ e rest, post = Err e :: rest ∧ Retryable (Some e) = false)) ∧
  (∀ e, is_closed e = true → Retryable (Some e) = false) ∧
  (∀ e, is_closed e = false → is_emfile e || is_enfile e = true → Retryable (Some e) = true).
Proof.
  split_and!.
  - by apply serve_loop_spec.
  - intros e He. cbn. by rewrite He.
  - intros e He Hf. cbn. by rewrite He, Hf.
Qed.
End AcceptLoop.

(** ** Splicing two connections *)
Module Splice.

(** One direction of the copy: what the source still has to give, what was
    written to the destination, how many bytes the destination still takes
    before its writes fail, whether the copy ended, and whether the
    destination's write side was shut after it. *)
Record dir := Dir {
  unread : bytes; written : bytes; room : nat; ended : bool; shut : bool }.
Definition dir0 (input : bytes) (room : nat) : dir := Dir input [] room false false.

(** The two directions and whether both connections were closed. [can_shut]
    is whether a connection has [CloseWrite]. *)
Record splice := MkSplice { ab : dir; ba : dir; both_closed : bool }.

(** One [Read] and [Write] of [io.Copy], or its end. *)
Inductive dstep (can_shut : bool) : dir → dir → Prop :=
  | d_copy chunk rest w r s :
      chunk ≠ [] → (length chunk <= r)%nat →
      dstep can_shut (Dir (chunk ++ rest) w r false s)
        (Dir rest (w ++ chunk) (r - length chunk) false s)
  | d_fail chunk rest w r s :
      (r < length chunk)%nat →
      dstep can_shut (Dir (chunk ++ rest) w r false s)
        (Dir rest (w ++ take r chunk) 0 true can_shut)
  | d_eof w r s : dstep can_shut (Dir [] w r false s) (Dir [] w r true can_shut).

Inductive step (can_a can_b : bool) : splice → splice → Prop :=
  | s_ab d d' e c : dstep can_b d d' → step can_a can_b (MkSplice d e c) (MkSplice d' e c)
  | s_ba d e e' c : dstep can_a e e' → step can_a can_b (MkSplice d e c) (MkSplice d e' c)
  | s_close d e : ended d = true → ended e = true →
      step can_a can_b (MkSplice d e false) (MkSplice d e true).

Definition reachable can_a can_b (ia ib : bytes) (ra rb : nat) : splice → Prop :=
  reach (λ s, s = MkSplice (dir0 ia rb) (dir0 ib ra) false) (step can_a can_b).

(** A direction is faithful: what was written is a prefix of what there was to
    read, all of it when the destination took it all, and the write side is
    shut exactly when the copy ended. *)
Record dir_ok (can_shut : bool) (input : bytes) (r0 : nat) (d : dir) : Prop := {
  do_prefix : ∃ lost, input = written d ++ lost ++ unread d ∧ (ended d = false → lost = []);
  do_room : (length (written d) + room d)%nat = r0 ∨
            (ended d = true ∧ length (written d) = r0 ∧ (r0 < length input)%nat);
  do_end : ended d = true → shut d = can_shut ∧
           (written d = input ∨ (r0 < length input)%nat) }.

Lemma dstep_ok can_shut input r0 d d' :
  dir_ok can_shut input r0 d → dstep can_shut d d' → dir_ok can_shut input r0 d'.
Proof.
  intros [(lost & E & Hl) Hr He] Hs. destruct Hs as [chunk rest w r s Hc Hlen|chunk rest w r s Hlen|w r s];
    cbn in *; specialize (Hl eq_refl) as ->; cbn in E;
    destruct Hr as [Hr|[? _]]; try done; split; cbn; try done.
  - exists []. split; [|done]. by rewrite <- app_assoc.
  - left. rewrite length_app. lia.
  - exists (drop r chunk). split; [|done]. rewrite E. rewrite <- (take_drop r chunk) at 1.
    by rewrite <- !app_assoc.
  - right. rewrite length_app, length_take. subst input. rewrite !length_app. lia.
  - intros _. split; [done|]. right. subst input. rewrite !length_app. lia.
  - exists []. by rewrite !app_nil_r in *.
  - by left.
  - intros _. split; [done|]. left. by rewrite app_nil_r in E.
Qed.

(** What a splice does: each direction delivers a prefix of what its source
    sent, in order, all of it unless the destination's writes fail, then shuts
    the destination's write side; both connections are closed only when both
    directions have ended. *)
Theorem splice_faithful can_a can_b ia ib ra rb s :
  reachable can_a can_b ia ib ra rb s →
  dir_ok can_b ia rb (ab s) ∧ dir_ok can_a ib ra (ba s) ∧
  (both_closed s = true → ended (ab s) = true ∧ ended (ba s) = true).
Proof.
  induction 1 as [s ->|s s' _ (H1 & H2 & H3) Hs].
  - split_and!; [split; cbn..|done]; try done; try (by left); by exists [].
  - destruct Hs as [d d' e c Hd|d e e' c He|d e Hd He]; cbn in *; split_and!; try done.
    + by eapply dstep_ok.
    + intros Hc. destruct (H3 Hc) as [Hd' ?]. destruct Hd; cbn in Hd'; done.
    + by eapply dstep_ok.
    + intros Hc. destruct (H3 Hc) as [? He']. destruct He; cbn in He'; done.
Qed.

(** And it always can go on until both are closed: no step blocks for ever on
    sources that end. *)
Lemma splice_ends can_a can_b s : ∃ s', rtc (step can_a can_b) s s' ∧ both_closed s' = true.
Proof.
  assert (∀ can d, ∃ d', rtc (dstep can) d d' ∧ ended d' = true) as Hd.
  { intros can d. remember (length (unread d)) as n eqn:En. revert d En.
    induction (lt_wf n) as [n _ IH]. intros [u w r [] sh] ->; [by eexists|]. cbn.
    destruct u as [|b u]; [eexists; split; [apply rtc_once, d_eof|done]|].
    destruct r as [|r].
    - eexists. split; [eapply rtc_once, (d_fail _ [b] u)|done]. cbn. lia.
    - destruct (IH (length u)) with (d := Dir u (w ++ [b]) r false sh) as (d' & Hr & Hend);
        [cbn; lia|done|]. exists d'. split; [|done]. eapply rtc_l; [|exact Hr].
      pose proof (d_copy can [b] u w (S r) sh ltac:(done) ltac:(cbn; lia)) as Hc.
      cbn in Hc. by rewrite Nat.sub_0_r in Hc. }
  destruct s as [d e [|]]; [by eexists|].
  destruct (Hd can_b d) as (d' & Hd1 & Hd2). destruct (Hd can_a e) as (e' & He1 & He2).
  exists (MkSplice d' e' true). split; [|done].
  transitivity (MkSplice d' e false).
  { eapply (rtc_congruence (λ x, MkSplice x e false)); [|exact Hd1]. intros; by constructor. }
  transitivity (MkSplice d' e' false).
  { eapply (rtc_congruence (λ x, MkSplice d' x false)); [|exact He1]. intros; by constructor. }
  apply rtc_once. by constructor.
Qed.
End Splice.

(** ** The UDP proxy with one socket per client *)
Module UDP.

Record flow := Flow { relay : nat; lastSeen : Z }.

(** The proxy, the sockets open, whose each is; [gauge] and [packets] are its
    share of the counters; [pc] is the datagram the read loop holds between
    [flow] and [Write], [held] what the readers hold between [Read] and the
    reply; the rest records what came and went. *)
Record udp := MkUdp {
  flows : gmap addrport flow; closed : bool; ln_open : bool;
  socks : gset nat; owner : gmap nat addrport; next : nat; gauge : Z; packets : Z;
  pc : option (nat * bytes); held : list (nat * bytes);
  got : list (addrport * bytes); inbox : list (nat * bytes);
  sent : list (nat * bytes); out : list (addrport * bytes) }.

Definition udp0 : udp := MkUdp ∅ false true ∅ ∅ 0 0 0 None [] [] [] [] [].

Definition flow_of (now : Z) (dial_ok : bool) (client : addrport) (p : udp) : option nat * udp :=
  if closed p then (None, p)
  else match flows p !! client with
  | Some f =>
      (Some (relay f),
       MkUdp (<[client := Flow (relay f) now]> (flows p)) (closed p) (ln_open p) (socks p)
         (owner p) (next p) (gauge p) (packets p) (pc p) (held p) (got p) (inbox p) (sent p) (out p))
  | None =>
      if (MaxFlows <=? size (flows p))%nat then (None, p)
      else if negb dial_ok then (None, p)
      else
        let r := next p in
        (Some r,
         MkUdp (<[client := Flow r now]> (flows p)) (closed p) (ln_open p) ({[r]} ∪ socks p)
           (<[r := client]> (owner p)) (S r) (gauge p + 1) (packets p) (pc p) (held p) (got p)
           (inbox p) (sent p) (out p))
  end.

(** The read loop's turn. *)
Definition recv (now : Z) (dial_ok : bool) (client : addrport) (data : bytes) (p : udp) : udp :=
  let '(r, p) := flow_of now dial_ok client p in
  MkUdp (flows p) (closed p) (ln_open p) (socks p) (owner p) (next p) (gauge p) (packets p + 1)
    ((λ r, (r, data)) <$> r) (held p) ((client, data) :: got p) (inbox p) (sent p) (out p).
Definition write (p : udp) : udp :=
  match pc p with
  | None => p
  | Some (r, data) =>
      MkUdp (flows p) (closed p) (ln_open p) (socks p) (owner p) (next p) (gauge p) (packets p)
        None (held p) (got p) (inbox p)
        (if decide (r ∈ socks p) then (r, data) :: sent p else sent p) (out p)
  end.

(** A flow's reader: [Read]; then [lastSeen] through its own pointer to the
    flow, which the table may have dropped, and the reply. *)
Definition sock_read (r : nat) (data : bytes) (p : udp) : udp :=
  MkUdp (flows p) (closed p) (ln_open p) (socks p) (owner p) (next p) (gauge p) (packets p)
    (pc p) ((r, data) :: held p) (got p) ((r, data) :: inbox p) (sent p) (out p).
Definition touch (now : Z) (r : nat) (client : addrport) (m : gmap addrport flow) : gmap addrport flow :=
  match m !! client with
  | Some f => if (relay f =? r)%nat then <[client := Flow r now]> m else m
  | None => m
  end.
Definition reply (now : Z) (r : nat) (client : addrport) (data : bytes) (hs : list (nat * bytes))
    (p : udp) : udp :=
  MkUdp (touch now r client (flows p)) (closed p) (ln_open p) (socks p) (owner p) (next p)
    (gauge p) (packets p) (pc p) hs (got p) (inbox p) (sent p)
    (if ln_open p then (client, data) :: out p else out p).

Definition expired (cutoff : Z) (f : flow) : bool := lastSeen f <? cutoff.
Definition relays (m : gmap addrport flow) : gset nat := map_conns relay m.
Definition sweep (now : Z) (p : udp) : udp :=
  let cutoff := now - FlowIdleTimeout in
  let dead := filter (λ '(_, f), expired cutoff f = true) (flows p) in
  let keep := filter (λ '(_, f), expired cutoff f = false) (flows p) in
  MkUdp keep (closed p) (ln_open p) (socks p ∖ relays dead) (owner p) (next p)
    (gauge p - Z.of_nat (size dead)) (packets p) (pc p) (held p) (got p) (inbox p) (sent p) (out p).

(** [Close], its critical section and then the listener. *)
Definition close_flows (p : udp) : udp :=
  MkUdp ∅ true (ln_open p) (socks p ∖ relays (flows p)) (owner p) (next p)
    (gauge p - Z.of_nat (size (flows p))) (packets p) (pc p) (held p) (got p) (inbox p)
    (sent p) (out p).
Definition close_ln (p : udp) : udp :=
  MkUdp (flows p) (closed p) false (socks p) (owner p) (next p) (gauge p) (packets p) (pc p)
    (held p) (got p) (inbox p) (sent p) (out p).

Inductive step : udp → udp → Prop :=
  | st_recv now ok client data p : ln_open p = true → pc p = None → step p (recv now ok client data p)
  | st_write p : step p (write p)
  | st_sock_read r data p : r ∈ socks p → step p (sock_read r data p)
  | st_reply now r client data hs p :
      held p ≡ₚ (r, data) :: hs → owner p !! r = Some client →
      step p (reply now r client data hs p)
  | st_sweep now p : step p (sweep now p)
  | st_close p : step p (close_flows p)
  | st_close_ln p : closed p = true → step p (close_ln p).
Definition reachable : udp → Prop := reach (λ p, p = udp0) step.

(** The table, the sockets and the gauge agree. *)
Record tables_ok (p : udp) : Prop := {
  ok_owner c f : flows p !! c = Some f → owner p !! relay f = Some c;
  ok_socks : socks p = relays (flows p);
  ok_fresh r : is_Some (owner p !! r) → (r < next p)%nat;
  ok_cap : (size (flows p) <= MaxFlows)%nat;
  ok_gauge : gauge p = Z.of_nat (size (flows p));
  ok_closed : closed p = true → flows p = ∅ }.

(** The datagrams stay with their client. *)
Record demux_ok (p : udp) : Prop := {
  ok_packets : packets p = Z.of_nat (length (got p));
  ok_pc r d : pc p = Some (r, d) → ∃ c, owner p !! r = Some c ∧ (c, d) ∈ got p;
  ok_held r d : (r, d) ∈ held p → (r, d) ∈ inbox p;
  ok_sent r d : (r, d) ∈ sent p → ∃ c, owner p !! r = Some c ∧ (c, d) ∈ got p;
  ok_out c d : (c, d) ∈ out p → ∃ r, owner p !! r = Some c ∧ (r, d) ∈ inbox p }.

Lemma elem_of_relays m r : r ∈ relays m ↔ ∃ c f, m !! c = Some f ∧ relay f = r.
Proof. apply elem_of_map_conns. Qed.

(** Refreshing a flow changes neither the sockets nor the size. *)
Lemma relays_refresh m c r now f : m !! c = Some f → relay f = r →
  relays (<[c := Flow r now]> m) = relays m ∧ size (<[c := Flow r now]> m) = size m.
Proof.
  intros Hc <-. split; [|by rewrite map_size_insert, Hc].
  apply set_eq. intros x. rewrite !elem_of_relays. split; intros (c' & f' & Hf & <-).
  - apply lookup_insert_Some in Hf as [[<- <-]|[? ?]]; eauto.
  - destruct (decide (c' = c)) as [->|D].
    + exists c, (Flow (relay f) now). rewrite lookup_insert_eq. by simplify_eq.
    + exists c', f'. by rewrite lookup_insert_ne.
Qed.

Lemma flow_of_tables now ok c p : tables_ok p → tables_ok (flow_of now ok c p).2.
Proof.
  intros HI. pose proof HI as [H1 H2 H3 H4 H5 H6]. unfold flow_of.
  destruct (closed p) eqn:Ec; [exact HI|].
  destruct (flows p !! c) as [f|] eqn:Ef.
  - destruct (relays_refresh _ _ (relay f) now _ Ef eq_refl) as [E1 E2].
    split; cbn; rewrite ?E1, ?E2; try done.
    intros c' f' [[<- <-]|[? ?]]%lookup_insert_Some; cbn; by apply H1.
  - destruct (_ <=? _)%nat eqn:Em; [exact HI|].
    destruct (negb ok); [exact HI|]. bool_prop. split; cbn.
    + intros c' f' [[<- <-]|[? Hf]]%lookup_insert_Some; cbn; [by rewrite lookup_insert_eq|].
      apply H1 in Hf. rewrite lookup_insert_ne; [done|].
      intros E. pose proof (H3 (relay f') (ex_intro _ _ Hf)). lia.
    + rewrite H2. unfold relays. by rewrite map_conns_insert.
    + intros r [x [[<- _]|[_ Hx]]%lookup_insert_Some]; [lia|].
      specialize (H3 r (ex_intro _ _ Hx)). lia.
    + rewrite map_size_insert, Ef. lia.
    + rewrite map_size_insert, Ef. lia.
    + done.
Qed.

Lemma size_filter_split (m : gmap addrport flow) (P : flow → bool) :
  (size (filter (λ '(_, f), P f = true) m) + size (filter (λ '(_, f), P f = false) m) = size m)%nat.
Proof.
  rewrite <- !length_map_to_list.
  assert (∀ b, map_to_list (filter (λ '(_, f), P f = b) m) ≡ₚ
    filter (λ '(_, f), P f = b) (map_to_list m)) as E.
  { intros b. apply NoDup_Permutation.
    - apply NoDup_map_to_list.
    - apply list.NoDup_filter, NoDup_map_to_list.
    - intros [k v]. rewrite elem_of_map_to_list, map_lookup_filter_Some, list_elem_of_filter,
        elem_of_map_to_list. tauto. }
  rewrite !E. clear E. induction (map_to_list m) as [|[k v] l IH]; [done|].
  rewrite !filter_cons. repeat case_decide; cbn in *; rewrite ?length_cons; try lia;
    by destruct (P v).
Qed.

Lemma udp_step_tables p p' : tables_ok p → step p p' → tables_ok p'.
Proof.
  intros HI Hs. destruct Hs as [now ok c d p Hl Hp|p|r d p Hr|now r c d hs p Hh Ho|now p|p|p Hc].
  - pose proof (flow_of_tables now ok c p HI) as [H1 H2 H3 H4 H5 H6]. unfold recv.
    destruct (flow_of now ok c p) as [r p']. by split.
  - unfold write. destruct (pc p) as [[r d]|]; [|done]. by destruct HI; split.
  - by destruct HI; split.
  - pose proof HI as [H1 H2 H3 H4 H5 H6]. unfold reply, touch.
    destruct (flows p !! c) as [f|] eqn:Ef; [|by destruct HI; split].
    destruct (relay f =? r)%nat eqn:Er; [|by destruct HI; split]. apply Nat.eqb_eq in Er.
    destruct (relays_refresh _ _ r now _ Ef Er) as [E1 E2].
    split; cbn; rewrite ?E1, ?E2; try done.
    + intros c' f' [[<- <-]|[? ?]]%lookup_insert_Some; cbn; by auto.
    + intros E. apply H6 in E. by rewrite E in Ef.
  - destruct HI as [H1 H2 H3 H4 H5 H6].
    pose proof (size_filter_split (flows p) (expired (now - FlowIdleTimeout))) as Hsz.
    split; cbn; [| |done|lia|lia|].
    + intros c f [Hf _]%map_lookup_filter_Some. by apply H1.
    + rewrite H2. apply map_conns_split.
      intros c1 c2 f1 f2 E1%H1 E2%H1 E. rewrite E in E1. congruence.
    + intros E. rewrite (H6 E). apply map_filter_empty.
  - destruct HI as [H1 H2 H3 H4 H5 H6]. split; cbn; try done.
    + rewrite H2. unfold relays. rewrite map_conns_empty. set_solver.
    + rewrite map_size_empty. lia.
    + rewrite H5, map_size_empty. lia.
  - by destruct HI; split.
Qed.
Lemma udp_tables p : reachable p → tables_ok p.
Proof.
  induction 1 as [p ->|p p' _ IH Hs]; [|by eapply udp_step_tables].
  split; cbn; try done.
  - by intros r [? ?%lookup_empty_Some].
  - rewrite map_size_empty. lia.
Qed.

Lemma flow_of_fields now ok c p r p' : flow_of now ok c p = (r, p') →
  packets p' = packets p ∧ held p' = held p ∧ got p' = got p ∧ inbox p' = inbox p ∧
  sent p' = sent p ∧ out p' = out p ∧ pc p' = pc p ∧
  (tables_ok p → owner p ⊆ owner p' ∧ ∀ x, r = Some x → owner p' !! x = Some c).
Proof.
  unfold flow_of. destruct (closed p); [by intros [= <- <-]; split_and!|].
  destruct (flows p !! c) as [f|] eqn:Ef.
  - intros [= <- <-]. split_and!; try done. intros HT. split; [done|]. intros x [= <-].
    by apply (ok_owner _ HT).
  - destruct (_ <=? _)%nat; [by intros [= <- <-]; split_and!|].
    destruct (negb ok); [by intros [= <- <-]; split_and!|].
    intros [= <- <-]. split_and!; try done. intros HT. cbn. split.
    + apply insert_subseteq. destruct (owner p !! next p) eqn:Eo; [|done].
      pose proof (ok_fresh _ HT (next p) (ex_intro _ _ Eo)). lia.
    + intros x [= <-]. by rewrite lookup_insert_eq.
Qed.

Lemma udp_step_demux p p' : tables_ok p → demux_ok p → step p p' → demux_ok p'.
Proof.
  intros HT HI Hs.
  destruct Hs as [now ok c d p Hl Hp|p|r d p Hr|now r c d hs p Hh Ho|now p|p|p Hc];
    try (by destruct HI; split).
  - unfold recv. destruct (flow_of now ok c p) as [r p'] eqn:Ef.
    apply flow_of_fields in Ef as (E1 & E2 & E3 & E4 & E5 & E6 & E7 & HO).
    destruct (HO HT) as [Hsub Hr]. destruct HI as [H1 H2 H3 H4 H5]. split; cbn.
    + rewrite E1, E3, H1, Nat2Z.inj_succ. lia.
    + intros r0 d0 Hx. destruct r as [r'|]; [|done]. injection Hx as <- <-.
      exists c. split; [by apply Hr|left].
    + rewrite E2, E4. apply H3.
    + rewrite E5, E3. intros r0 d0 (c0 & Ho & Hg)%H4. exists c0.
      split; [by eapply lookup_weaken|by right].
    + rewrite E6, E4. intros c0 d0 (r0 & Ho & Hg)%H5. exists r0.
      split; [by eapply lookup_weaken|done].
  - unfold write. destruct (pc p) as [[r d]|] eqn:Ep; [|done].
    destruct HI as [H1 H2 H3 H4 H5]. split; cbn; try done.
    intros r0 d0. case_decide; [|apply H4]. intros [[= -> ->]|Hin]%elem_of_cons; auto.
  - destruct HI as [H1 H2 H3 H4 H5]. split; cbn; try done.
    + intros r0 d0 [[= -> ->]|Hin]%elem_of_cons; [left|right; auto].
    + intros c0 d0 (r0 & Ho & Hin)%H5. exists r0. split; [done|by right].
  - destruct HI as [H1 H2 H3 H4 H5]. split; cbn; try done.
    + intros r0 d0 Hin. apply H3. rewrite Hh. by right.
    + intros c0 d0. destruct (ln_open p); [|apply H5].
      intros [[= -> ->]|Hin]%elem_of_cons; [|auto].
      exists r. split; [done|]. apply H3. rewrite Hh. left.
Qed.
Lemma udp_demux p : reachable p → demux_ok p.
Proof.
  induction 1 as [p ->|p p' Hr IH Hs].
  - split; cbn; try done; by intros ? ? ?%not_elem_of_nil.
  - eapply udp_step_demux; [by apply udp_tables|done|done].
Qed.

(** What the proxy keeps: one socket per client in its table and no other, at
    most [MaxFlows], none once closed; the gauge is the size of the table; a
    datagram reaches the backend only through its own client's socket, and a
    reply only the client whose socket it came in on. *)
Theorem flow_table p : reachable p →
  socks p = relays (flows p) ∧ (size (flows p) <= MaxFlows)%nat ∧
  gauge p = Z.of_nat (size (flows p)) ∧ packets p = Z.of_nat (length (got p)) ∧
  (closed p = true → socks p = ∅ ∧ gauge p = 0) ∧
  (∀ c1 c2 f1 f2, flows p !! c1 = Some f1 → flows p !! c2 = Some f2 →
    relay f1 = relay f2 → c1 = c2) ∧
  (∀ r d, (r, d) ∈ sent p → ∃ c, owner p !! r = Some c ∧ (c, d) ∈ got p) ∧
  (∀ c d, (c, d) ∈ out p → ∃ r, owner p !! r = Some c ∧ (r, d) ∈ inbox p).
Proof.
  intros Hr. pose proof (udp_tables _ Hr) as [H1 H2 H3 H4 H5 H6].
  pose proof (udp_demux _ Hr) as [G1 _ _ G4 G5]. split_and!; try done.
  - intros Hc. rewrite H2, H5, (H6 Hc). unfold relays. by rewrite map_conns_empty, map_size_empty.
  - intros c1 c2 f1 f2 E1%H1 E2%H1 E. rewrite E in E1. congruence.
Qed.
End UDP.

(** ** The UDP proxy over one stream *)
Module UDPStream.

(** The streams are numbered as they are dialed. [reader] is the stream
    [ensure] gave the read loop and the datagram it holds for it; [pumps] are the
    streams whose reply pump runs; [dropping] the streams taken out of [cur]
    (or found out of it) whose [Close] is still to come. *)
Record proxy := MkProxy {
  cur : option nat; closed : bool; ln_open : bool;
  conns : gset nat; next : nat; reader : option (nat * (addrport * bytes));
  pumps : gset nat; dropping : gset nat }.
Definition proxy0 : proxy := MkProxy None false true ∅ 0 None ∅ ∅.

(** [ensure]; [dial_ok] is whether the dialer gave a connection. *)
Definition ensure (dial_ok : bool) (p : proxy) : option nat * proxy :=
  if closed p then (None, p)
  else match cur p with
  | Some s => (Some s, p)
  | None =>
      if negb dial_ok then (None, p)
      else
        let s := next p in
        (Some s,
         MkProxy (Some s) (closed p) (ln_open p) ({[s]} ∪ conns p) (S s) (reader p)
           ({[s]} ∪ pumps p) (dropping p))
  end.
Definition set_reader (r : option (nat * (addrport * bytes))) (p : proxy) : proxy :=
  MkProxy (cur p) (closed p) (ln_open p) (conns p) (next p) r (pumps p) (dropping p).
(** The critical section of [drop]. *)
Definition drop_cur (s : nat) (p : proxy) : proxy :=
  MkProxy (if decide (cur p = Some s) then None else cur p) (closed p) (ln_open p) (conns p)
    (next p) (reader p) (pumps p) ({[s]} ∪ dropping p).
Definition conn_close (s : nat) (p : proxy) : proxy :=
  MkProxy (cur p) (closed p) (ln_open p) (conns p ∖ {[s]}) (next p) (reader p) (pumps p)
    (dropping p ∖ {[s]}).
Definition end_pump (s : nat) (p : proxy) : proxy :=
  MkProxy (cur p) (closed p) (ln_open p) (conns p) (next p) (reader p) (pumps p ∖ {[s]}) (dropping p).
(** [Close], its critical section and then the listener. *)
Definition close_cur (p : proxy) : proxy :=
  MkProxy None true (ln_open p) (conns p) (next p) (reader p) (pumps p)
    (match cur p with Some s => {[s]} ∪ dropping p | None => dropping p end).
Definition close_ln (p : proxy) : proxy :=
  MkProxy (cur p) (closed p) false (conns p) (next p) (reader p) (pumps p) (dropping p).

Inductive step : proxy → proxy → Prop :=
  | st_recv ok d p r p' : ln_open p = true → reader p = None → ensure ok p = (r, p') →
      step p (set_reader ((., d) <$> r) p')
  | st_write s d f p : reader p = Some (s, d) → WriteFrame d.1 d.2 = Ok f → s ∈ conns p →
      step p (set_reader None p)
  | st_write_err s d p : reader p = Some (s, d) → step p (set_reader None (drop_cur s p))
  | st_pump_err s p : s ∈ pumps p → step p (end_pump s (drop_cur s p))
  | st_conn_close s p : s ∈ dropping p → step p (conn_close s p)
  | st_close p : step p (close_cur p)
  | st_close_ln p : closed p = true → step p (close_ln p).
Definition reachable : proxy → Prop := reach (λ p, p = proxy0) step.

Record inv (p : proxy) : Prop := {
  i_conns : conns p ⊆ (match cur p with Some s => {[s]} | None => ∅ end) ∪ dropping p;
  i_cur s : cur p = Some s → s ∈ conns p ∧ s ∈ pumps p ∧ (s ∉ dropping p) ∧ closed p = false;
  i_pumped s : s ∈ conns p → s ∈ pumps p ∨ s ∈ dropping p;
  i_reader s d : reader p = Some (s, d) → s ∈ conns p → s ∉ dropping p → cur p = Some s;
  i_fresh s : s ∈ conns p ∪ pumps p ∪ dropping p → (s < next p)%nat;
  i_fresh_reader s d : reader p = Some (s, d) → (s < next p)%nat }.

Lemma ensure_inv ok d p r p' : ensure ok p = (r, p') → reader p = None → inv p →
  inv (set_reader ((., d) <$> r) p') ∧ dropping p' = dropping p.
Proof.
  unfold ensure. intros E Hr I. pose proof I as [I1 I2 I3 I4 I5 I6].
  assert (inv (set_reader None p)) as IN by (destruct p; cbn in *; by subst).
  destruct (closed p) eqn:Ec; [injection E as <- <-; by split|].
  destruct (cur p) as [s|] eqn:Es.
  { injection E as <- <-. split; [|done]. split; cbn; rewrite ?Es; try done.
    - intros s' [= <-]. rewrite ?Ec. destruct (I2 s eq_refl) as (? & ? & ? & _). done.
    - by intros s' d' [= <- _].
    - intros s' d' [= <- _]. apply I5. destruct (I2 s eq_refl) as (? & _). set_solver. }
  destruct (negb ok); [injection E as <- <-; by split|].
  injection E as <- <-. split; [|done].
  assert (∀ s, s ∈ conns p ∪ pumps p ∪ dropping p → s ≠ next p) as Hne
    by (intros s Hs ->; apply I5 in Hs; lia).
  split; cbn.
  - set_solver.
  - intros s [= <-]. rewrite ?Ec. split_and!; [set_solver..| |done]. intros Hd. by apply (Hne (next p)); [set_solver|].
  - set_solver.
  - by intros s d' [= <- _].
  - intros s Hs. destruct (decide (s = next p)) as [->|]; [lia|].
    assert (s < next p)%nat by (apply I5; set_solver). lia.
  - intros s d' [= <- _]. lia.
Qed.

Lemma drop_inv s p : inv p → (s < next p)%nat → inv (drop_cur s p).
Proof.
  intros [I1 I2 I3 I4 I5 I6] Hs. unfold drop_cur. split; cbn.
  - intros x Hx. apply I1, elem_of_union in Hx as [Hx|?]; [|set_solver].
    destruct (cur p) as [c|] eqn:Ec; [|set_solver]. apply elem_of_singleton in Hx as ->.
    case_decide; set_solver.
  - intros s'. case_decide as D; [done|]. intros E. destruct (I2 _ E) as (? & ? & ? & ?).
    split_and!; try done. set_solver.
  - set_solver.
  - intros s' d' Er Hc Hd. rewrite decide_False; [eapply I4; [exact Er|done|set_solver]|].
    intros E. apply Hd. assert (cur p = Some s') as E' by (eapply I4; [exact Er|done|set_solver]).
    rewrite E in E'. injection E' as ->. set_solver.
  - intros s' Hin. destruct (decide (s' = s)) as [->|]; [done|]. apply I5. set_solver.
  - done.
Qed.

Lemma step_inv p p' : inv p → step p p' → inv p'.
Proof.
  intros I Hs. destruct Hs as [ok d p r p' Hl Hr E|s d f p Hr Hf Hc|s d p Hr|s p Hp|s p Hd|p|p Hc].
  - by eapply ensure_inv.
  - destruct I as [I1 I2 I3 I4 I5 I6]. by split.
  - assert (inv (drop_cur s p)) as [I1 I2 I3 I4 I5 I6] by (apply drop_inv; [done|by apply (i_fresh_reader _ I s d)]).
    by split.
  - assert (inv (drop_cur s p)) as [I1 I2 I3 I4 I5 I6].
    { apply drop_inv; [done|]. apply (i_fresh _ I). set_solver. }
    split; try done.
    + intros s' E. destruct (I2 _ E) as (? & ? & ? & ?). cbn in *. set_solver.
    + intros s' Hin. destruct (I3 _ Hin); cbn in *; [|by right].
      destruct (decide (s' = s)) as [->|]; [right|left]; set_solver.
    + intros s' Hin. apply I5. cbn in *. set_solver.
  - destruct I as [I1 I2 I3 I4 I5 I6]. split; cbn.
    + set_solver.
    + intros s' E. destruct (I2 _ E) as (? & ? & ? & ?). set_solver.
    + set_solver.
    + intros s' d Er Hin Hn. apply (I4 s' d); set_solver.
    + intros s' Hin. apply I5. set_solver.
    + done.
  - destruct I as [I1 I2 I3 I4 I5 I6]. split; cbn; try done.
    + clear -I1. destruct (cur p); set_solver.
    + intros s Hin. destruct (I3 _ Hin); [by left|]. right. destruct (cur p); set_solver.
    + intros s d Er Hin Hn. destruct Hn. destruct (cur p) as [c|] eqn:Ec.
      * destruct (decide (s ∈ dropping p)); [set_solver|].
        assert (Some c = Some s) as [= ->] by (by apply (I4 s d)). set_solver.
      * destruct (decide (s ∈ dropping p)); [done|]. by specialize (I4 _ _ Er Hin ltac:(done)).
    + intros s Hin. apply I5. destruct (cur p) as [c|] eqn:Ec; [|done].
      destruct (I2 c eq_refl) as (? & _). set_solver.
  - destruct I as [I1 I2 I3 I4 I5 I6]. by split.
Qed.
Lemma stream_inv p : reachable p → inv p.
Proof.
  induction 1 as [p ->|p p' _ IH Hs]; [|by eapply step_inv].
  split; cbn; try done; set_solver.
Qed.

(** The one step of a [drop] or a [Close] past its critical section. *)
Definition pending_close (p p' : proxy) : Prop := ∃ s, s ∈ dropping p ∧ p' = conn_close s p.
Lemma pending_close_step p p' : pending_close p p' → step p p'.
Proof. intros (s & Hs & ->). by apply st_conn_close. Qed.

(** The closes still to come can all be made, and change nothing else. *)
Lemma drains p : ∃ p', rtc pending_close p p' ∧ dropping p' = ∅ ∧ cur p' = cur p ∧
  closed p' = closed p ∧ conns p' = conns p ∖ dropping p.
Proof.
  remember (dropping p) as D eqn:HD. revert p HD. induction D as [|s D Hs IH] using set_ind_L; intros p HD.
  - exists p. split_and!; [done|done|done|done|set_solver].
  - destruct (IH (conn_close s p)) as (p' & Hr & H1 & H2 & H3 & H4); [cbn; rewrite <- HD; set_solver|].
    exists p'. split_and!; [|done|done|done|rewrite H4; cbn; set_solver].
    eapply rtc_l; [|exact Hr]. exists s. split; [rewrite <- HD; set_solver|done].
Qed.

(** The streams open are the one in use and those whose close is to come. *)
Lemma inv_conns p : inv p →
  conns p ∖ dropping p = match cur p with Some s => {[s]} | None => ∅ end ∧
  (closed p = true → cur p = None).
Proof.
  intros [I1 I2 _ _ _ _]. destruct (cur p) as [s|].
  - destruct (I2 s eq_refl) as (? & _ & ? & Hc). split; [set_solver|]. congruence.
  - split; [set_solver|done].
Qed.

(** Nothing opens a stream after [Close]. *)
Lemma stream_closed_step p p' : step p p' → closed p = true → closed p' = true ∧ conns p' ⊆ conns p.
Proof.
  intros Hs Hc. destruct Hs as [ok d p r p' Hl Hr E| | | | | |]; cbn; try by split; [|set_solver].
  unfold ensure in E. rewrite Hc in E. injection E as <- <-. by split; [|set_solver].
Qed.
Lemma stream_closed_run p p' : rtc step p p' → closed p = true → closed p' = true ∧ conns p' ⊆ conns p.
Proof.
  induction 1 as [p|p p1 p' Hs _ IH]; intros Hc; [done|].
  destruct (stream_closed_step _ _ Hs Hc) as [H1 H2]. destruct (IH H1). split; [done|]. set_solver.
Qed.

Lemma reachable_rtc p q : reachable p → rtc step p q → reachable q.
Proof. intros Hp Hs. induction Hs as [|p p1 q Hs _ IH]; [done|]. apply IH. by eapply reach_step. Qed.

(** C23: the proxy has at most one stream in use: it is open, its replies are
    being read and the proxy is not closed. Every other open stream is one a
    [drop] or [Close] has taken and is about to close, so that whenever no such
    close is to come the one in use is the only one open; and those closes can
    always be made, by themselves, leaving just that one. The critical section
    of [Close] takes the stream in use: from then on the proxy stays closed, no
    stream is opened, every one still open is one about to be closed, and with
    those closes, and no help of the readers, none is left. While the
    proxy is up, a datagram finds a stream that nobody is closing whenever one
    can be dialed. *)
Theorem stream_single p : reachable p →
  (∀ s, cur p = Some s → s ∈ conns p ∧ s ∈ pumps p ∧ (s ∉ dropping p) ∧ closed p = false) ∧
  (∀ s, s ∈ conns p → cur p = Some s ∨ s ∈ dropping p) ∧
  (dropping p = ∅ → conns p = match cur p with Some s => {[s]} | None => ∅ end) ∧
  (∃ p', rtc pending_close p p' ∧ dropping p' = ∅ ∧ cur p' = cur p ∧
    conns p' = match cur p with Some s => {[s]} | None => ∅ end) ∧
  (∀ s, cur p = Some s → s ∈ dropping (close_cur p)) ∧
  (closed (close_cur p) = true ∧ ∀ q, rtc step (close_cur p) q →
    closed q = true ∧ cur q = None ∧ conns q ⊆ conns p ∩ dropping q ∧
    (dropping q = ∅ → conns q = ∅) ∧
    ∃ q', rtc pending_close q q' ∧ conns q' = ∅) ∧
  (∀ r p', closed p = false → ensure true p = (r, p') →
    ∃ s, r = Some s ∧ cur p' = Some s ∧ s ∈ conns p' ∧ (s ∉ dropping p')).
Proof.
  intros Hr. pose proof (stream_inv _ Hr) as I. pose proof I as [I1 I2 I3 I4 I5 I6].
  destruct (inv_conns p I) as [HC HN].
  split_and!; [done| | | | |done| |].
  - intros s [H|?]%I1%elem_of_union; [left|by right]. destruct (cur p); set_solver.
  - intros HD. rewrite <- HC, HD. set_solver.
  - destruct (drains p) as (p' & Hs & H1 & H2 & H3 & H4). exists p'. by rewrite H4, HC.
  - intros s E. cbn. rewrite E. set_solver.
  - intros q Hq. assert (inv q) as IQ.
    { apply stream_inv. eapply reachable_rtc, Hq. eapply reach_step; [exact Hr|apply st_close]. }
    destruct (stream_closed_run _ _ Hq eq_refl) as [Hc Hsub]. cbn in Hsub.
    destruct (inv_conns q IQ) as [HQ HQN]. specialize (HQN Hc). rewrite HQN in HQ.
    assert (conns q ⊆ dropping q) as Hd by (clear -HQ; set_solver).
    split_and!; [done|done|clear -Hsub Hd; set_solver|intros E; rewrite E in Hd; clear -Hd; set_solver|].
    destruct (drains q) as (q' & Hs & _ & _ & _ & H4). exists q'. by rewrite H4, HQ.
  - intros r p' Hc. unfold ensure. rewrite Hc. destruct (cur p) as [s|] eqn:Es; cbn.
    + intros [= <- <-]. exists s. rewrite Es. destruct (I2 s eq_refl) as (? & _ & ? & _). done.
    + intros [= <- <-]. exists (next p). cbn. split_and!; [done|done|set_solver|].
      intros Hd. assert (next p < next p)%nat by (apply I5; set_solver). lia.
Qed.

(** A stream that dies under a write while its pump also notices, and the
    datagram after it. *)
Definition ex_d : addrport * bytes := (AddrPortFrom v4Loopback 5353, []).
Definition ex_p : proxy := MkProxy (Some 1%nat) false true {[1%nat; 0%nat]} 2 (Some (1%nat, ex_d))
  {[1%nat]} {[0%nat]}.
Lemma ex_p_reach : reachable ex_p.
Proof.
  set (p1 := set_reader (Some (0%nat, ex_d)) (ensure true proxy0).2).
  set (p2 := end_pump 0 (drop_cur 0 (set_reader None (drop_cur 0 p1)))).
  assert (ex_p = set_reader (Some (1%nat, ex_d)) (ensure true p2).2) as -> by (vm_compute; done).
  eapply (reach_step _ _ p2); [|eapply (st_recv true ex_d _ (Some _)); vm_compute; reflexivity].
  eapply (reach_step _ _ (set_reader None (drop_cur 0 p1))).
  - eapply (reach_step _ _ p1); [|by eapply st_write_err].
    eapply (reach_step _ _ proxy0); [by apply reach_init|eapply (st_recv true ex_d _ (Some _)); vm_compute; reflexivity].
  - apply st_pump_err. apply (bool_decide_unpack _). vm_compute. exact I.
Qed.
Lemma stream_single_witness :
  cur ex_p = Some 1%nat ∧ (∃ p', rtc pending_close ex_p p' ∧ conns p' = {[1%nat]}) ∧
  ∃ q, rtc pending_close (close_cur ex_p) q ∧ conns q = ∅.
Proof.
  split; [reflexivity|].
  destruct (stream_single ex_p ex_p_reach) as (_ & _ & _ & (p' & H1 & _ & _ & H2) & _ & (_ & H3) & _).
  split; [exists p'; split; [exact H1|exact H2]|].
  apply (H3 (close_cur ex_p)). apply rtc_refl.
Defined.

(** A datagram whose client port is 0 cannot be framed, and [readLoop] takes
    that for a dead stream: the only way on from there drops the stream every
    flow of the port shares. *)
Lemma zero_port_drops : ∃ p s d,
  reachable p ∧ cur p = Some s ∧ s ∈ conns p ∧ ap_port d.1 = 0 ∧ reader p = Some (s, d) ∧
  ∀ p', step p p' → reader p' = None → cur p' = None.
Proof.
  set (d := (AddrPortFrom v4Loopback 0, [] : bytes)).
  exists (set_reader (Some (0%nat, d)) (ensure true proxy0).2), 0%nat, d. split_and!; try done.
  - eapply reach_step; [by apply reach_init|].
    apply (st_recv true d proxy0 (Some 0%nat)); [done|done|]. vm_compute. reflexivity.
  - intros p' Hs Hn. inversion Hs; subst; try discriminate Hn; try done.
    + match goal with H : reader _ = Some _, H' : WriteFrame _ _ = Ok _ |- _ =>
        injection H as <- <-; discriminate H' end.
    + match goal with H : reader _ = Some _ |- _ => injection H as <- <- end. done.
Qed.
End UDPStream.
