(* ===== verification/System.v ===== *)
(** * The components together

    The paths that cross the transport: a guest bind decided by the agent's
    port table and the Mac's mirror client ([agent/notify.go],
    [agent/reserve.go], [mirror/mirror.go], [macsync/holder.go] as
    [cmd/drawbridged] wires them), and a Mac service as the guest comes to see
    it ([macsync/sync.go], [agent/macsync.go], [agent/dialpool.go]). *)

From S2P Require Import Prelude Wire GoStr NetIP TransportAuth Seccomp TrackerHub Mirror.
From S2P Require Import MacSync AgentPorts DialPool Notify.

Open Scope string_scope.
Open Scope list_scope.
Open Scope Z_scope.

(** ** A guest bind, end to end *)

(** The 'R' connection when the agent asks: none is parked or the request
    never arrives; the Mac handles it but its answer misses the deadline; or
    the answer comes back. *)
Inductive link := NoConn | LostReply | Answered.

Section bind.
Variable g : goarch.
Variable K : kernel.
Variable mem : Z → Z → nat → option bytes.
Variable idvalid : Z → bool.
Variable cfg : config.

(** The mirror client's outside, with the holder hook [drawbridged] sets. *)
Definition mac_env (t : Z) (poll : option (list MacListener)) (lst : mirrorKey → option bind_err) : env :=
  Env t (Some (HolderCheck "127.0.0.1" poll)) lst.

(** The Mac's half of a reservation, with the answer as the agent decodes it:
    the [ok] flag and whether the reason is "inuse". *)
Definition mac_reserve (e : env) (p : Z) (c : client) : (bool * bool) * client :=
  let '(r, c') := handleReserve cfg e (Req "reserve" "tcp" p) c in
  ((is_ok r, match r with Err InUse => true | _ => false end), c').

(** One notification answered with the agent in [a] and the Mac in [c]. *)
Definition guest_bind (contended : bool) (lk : link) (e : env) (nf : Notif) (a : agent) (c : client)
    : answer * client :=
  let rpc p := match lk with Answered => Some (mac_reserve e p c).1 | _ => None end in
  let reserve proto p (_ : string) := ReservePort contended (rpc p) proto p a in
  let '(ans, asked) := answerBind g K mem idvalid reserve nf in
  (ans,
   match asked with
   | None => c
   | Some (p, _) =>
       match macPortHeld contended "tcp" p a, lk with
       | (true, true), _ | _, NoConn => c
       | _, _ => (mac_reserve e p c).2
       end
   end).

(** The agent steers the port to the Mac. *)
Definition synced (contended : bool) (a : agent) (p : Z) : Prop :=
  contended = false ∧ is_Some (mac a !! (ProtoTCP, p)).
(** A native Mac listener holds the port on a wildcard that serves 127.0.0.1. *)
Definition wildcard_held (poll : option (list MacListener)) (p : Z) : Prop :=
  ∃ ls l, poll = Some ls ∧ l ∈ ls ∧ holds p v4Loopback l = true.

Lemma HolderCheck_held poll p t lst :
  macHeld (mac_env t poll lst) ("tcp", p) ≠ "" ↔ wildcard_held poll p.
Proof.
  unfold macHeld, mac_env, HolderCheck. cbn [MacHolder fst snd].
  assert (ParseAddr "127.0.0.1" = Some v4Loopback) as -> by (vm_compute; done).
  rewrite String.eqb_refl. cbn [negb]. unfold wildcard_held.
  destruct poll as [[|x ls]|].
  - split; [done|]. intros (ls & l & [= <-] & Hl & _). by apply not_elem_of_nil in Hl.
  - destruct (WildcardHolder (x :: ls) p v4Loopback) as [l|] eqn:E.
    + apply WildcardHolder_Some in E as [Hl Hh]. split; [|intros _; apply describeHolder_nonempty].
      intros _. exists (x :: ls), l. split_and!; [done|done|exact Hh].
    + rewrite WildcardHolder_None in E. split; [done|].
      intros (ls' & l & [= <-] & Hl & Hh). specialize (E l Hl).
      change (Unmap v4Loopback) with v4Loopback in E. congruence.
  - split; [done|]. by intros (ls & l & [=] & _).
Qed.

(** The Mac's side of a request for a port, decided. *)
Lemma mac_reserve_spec t poll lst p c : p ≠ 0 →
  let e := mac_env t poll lst in
  let r := mac_reserve e p c in
  (r.1 = (true, false) ∨ r.1 = (false, true) ∨ r.1 = (false, false)) ∧
  (r.1 = (false, true) ↔ (p ∉ Skip cfg) ∧ mirrors c !! ("tcp", p) = None ∧
     (wildcard_held poll p ∨ lst ("tcp", p) = Some Mirror.EADDRINUSE)) ∧
  (r.1 = (true, false) → p ∉ Skip cfg → is_Some (mirrors r.2 !! ("tcp", p))) ∧
  (r.1 = (false, false) → ∃ er, lst ("tcp", p) = Some er ∧ er ≠ Mirror.EADDRINUSE).
Proof.
  intros Hp. cbn zeta. pose proof (HolderCheck_held poll p t lst) as HH.
  set (e := mac_env t poll lst) in *. change lst with (listen e).
  unfold mac_reserve, handleReserve. cbv zeta. cbn [r_op r_proto r_port].
  rewrite !String.eqb_refl, (proj2 (Z.eqb_neq p 0)) by done. cbn [negb orb].
  unfold skipped. destruct (bool_decide_reflect (p ∈ Skip cfg)) as [Hs|Hs].
  { cbn. split_and!; try done; [by left|by split; [|intros (? & _)]]. }
  destruct (mirrors c !! ("tcp", p)) as [m|] eqn:Em.
  { cbn. rewrite Em. split_and!; try done; [by left|by split; [|intros (_ & ? & _)]]. }
  destruct (String.eqb_spec (macHeld e ("tcp", p)) "") as [Eh|Eh]; cbn [negb].
  2:{ cbn. split_and!; try done; [by right; left|]. split; [|done].
      intros _. split_and!; [done|done|]. left. by apply HH. }
  assert (¬ wildcard_held poll p) as Hnw by (rewrite <- HH; auto).
  change (listen e ("tcp", p)) with (lst ("tcp", p)).
  destruct (lst ("tcp", p)) as [[]|] eqn:El; cbn.
  - split_and!; try done; [by right; left|]. split; [|done]. by auto.
  - split_and!; try done; [by right; right|by split; [|intros (_ & _ & [?|?])]|by eexists].
  - split_and!; try done; [by right; right|by split; [|intros (_ & _ & [?|?])]|by eexists].
  - rewrite lookup_insert_eq. split_and!; try done; [by left|by split; [|intros (_ & _ & [?|?])]].
Qed.

Lemma macPortHeld_synced contended a p :
  macPortHeld contended "tcp" p a = (true, true) ↔ synced contended a p.
Proof.
  unfold macPortHeld, synced, protoNum. rewrite String.eqb_refl.
  destruct contended; [by split; [|intros [? _]]|]. rewrite pair_equal_spec, bool_decide_eq_true.
  tauto.
Qed.

(** [guest_bind] on a bind that is the Mac's business. *)
Lemma guest_bind_arb contended lk e nf ba a c :
  arbitrated g K mem nf ba → idvalid (nf_id nf) = true →
  guest_bind contended lk e nf a c =
    (match ReservePort contended (match lk with Answered => Some (mac_reserve e (ba_port ba) c).1
                                  | _ => None end) "tcp" (ba_port ba) a with
     | RespInUse => Errno Seccomp.EADDRINUSE | _ => Continue end,
     match macPortHeld contended "tcp" (ba_port ba) a, lk with
     | (true, true), _ | _, NoConn => c
     | _, _ => (mac_reserve e (ba_port ba) c).2
     end).
Proof.
  intros Harb Hid. unfold guest_bind. cbv zeta.
  match goal with |- context [answerBind g K mem idvalid ?r nf] => set (res := r) end.
  destruct (answerBind_cases g K mem idvalid res nf) as [(ba' & Harb' & E)|[Hn _]].
  2: by destruct (Hn ba).
  assert (ba' = ba) as -> by (destruct Harb' as (_ & H1 & _), Harb as (_ & H2 & _); congruence).
  rewrite Hid in E. by rewrite E.
Qed.
Lemma guest_bind_other contended lk e nf a c :
  (∀ ba, ¬ arbitrated g K mem nf ba) → guest_bind contended lk e nf a c = (Continue, c).
Proof.
  intros Hn. unfold guest_bind. cbv zeta.
  match goal with |- context [answerBind g K mem idvalid ?r nf] => set (res := r) end.
  destruct (answerBind_cases g K mem idvalid res nf) as [(ba' & Harb' & E)|[_ E]].
  { by destruct (Hn ba'). }
  by rewrite E.
Qed.
Lemma guest_bind_synced contended lk e nf ba a c :
  arbitrated g K mem nf ba → idvalid (nf_id nf) = true → synced contended a (ba_port ba) →
  guest_bind contended lk e nf a c = (Errno Seccomp.EADDRINUSE, c).
Proof.
  intros Harb Hid Hs. rewrite (guest_bind_arb _ _ _ _ ba) by done.
  apply macPortHeld_synced in Hs. unfold ReservePort. by rewrite Hs.
Qed.

(** What becomes of a bind of [p] that the agent leaves to the Mac, with the
    Mac in [c]: it goes ahead when no answer comes back, and is refused by one
    exactly when the Mac's own bind would meet a native listener. *)
Definition left_to_mac (lk : link) (poll : option (list MacListener)) (lst : mirrorKey → option bind_err)
    (p : Z) (c : client) (r : answer * client) : Prop :=
  match lk with
  | NoConn => r = (Continue, c)
  | LostReply => r.1 = Continue
  | Answered =>
      (r.1 = Errno Seccomp.EADDRINUSE ↔
         (p ∉ Skip cfg) ∧ mirrors c !! ("tcp", p) = None ∧
         (wildcard_held poll p ∨ lst ("tcp", p) = Some Mirror.EADDRINUSE)) ∧
      (r.1 = Errno Seccomp.EADDRINUSE ∨ r.1 = Continue)
  end.
Lemma guest_bind_left contended lk t poll lst nf ba a c :
  arbitrated g K mem nf ba → idvalid (nf_id nf) = true → ¬ synced contended a (ba_port ba) →
  left_to_mac lk poll lst (ba_port ba) c (guest_bind contended lk (mac_env t poll lst) nf a c).
Proof.
  intros Harb Hid Hsy. set (e := mac_env t poll lst).
  rewrite (guest_bind_arb _ _ _ _ ba) by done.
  assert (ba_port ba ≠ 0) as Hp by apply Harb. set (p := ba_port ba) in *.
  destruct (mac_reserve_spec t poll lst p c Hp) as (R0 & R1 & _). fold e in R0, R1.
  rewrite <- macPortHeld_synced in Hsy. unfold ReservePort.
  destruct (macPortHeld contended "tcp" p a) as [[] []]; [by destruct Hsy|..];
    destruct lk; cbn; try done; rewrite <- R1; destruct R0 as [R|[R|R]]; rewrite R; cbn;
    (split; [by split|by auto]).
Qed.

(** C2: the answer to a guest bind that is the Mac's business. It is refused
    with EADDRINUSE exactly when the agent steers that port to the Mac, or the
    Mac was asked and its own bind would meet a native listener (a wildcard
    holder its fresh poll shows, or the bind's own EADDRINUSE) on a port it
    neither skips nor mirrors already; every other bind goes ahead, whatever
    became of the question. One allowed by an answer of the Mac leaves the
    mirror's own socket holding the port there, unless the port is skipped or
    its bind failed in some other way; one refused for a synced port never
    reaches the Mac; and any bind that is not the Mac's business goes ahead
    untouched. *)
Theorem bind_arbitration contended lk t poll lst nf a c :
  let r := guest_bind contended lk (mac_env t poll lst) nf a c in
  (∀ ba, arbitrated g K mem nf ba → idvalid (nf_id nf) = true →
    let p := ba_port ba in
    let key := ("tcp", p) in
    (r.1 = Errno Seccomp.EADDRINUSE ↔ synced contended a p ∨
      lk = Answered ∧ (p ∉ Skip cfg) ∧ mirrors c !! key = None ∧
      (wildcard_held poll p ∨ lst key = Some Mirror.EADDRINUSE)) ∧
    (r.1 = Errno Seccomp.EADDRINUSE ∨ r.1 = Continue) ∧
    (r.1 = Continue → lk = Answered → p ∉ Skip cfg →
      is_Some (mirrors r.2 !! key) ∨ ∃ er, lst key = Some er ∧ er ≠ Mirror.EADDRINUSE) ∧
    (synced contended a p → r.2 = c)) ∧
  ((∀ ba, ¬ arbitrated g K mem nf ba) → r = (Continue, c)).
Proof.
  cbn zeta. set (e := mac_env t poll lst). split; [|by apply guest_bind_other].
  intros ba Harb Hid. rewrite (guest_bind_arb _ _ _ _ ba) by done. cbn [fst snd].
  assert (ba_port ba ≠ 0) as Hp by apply Harb. set (p := ba_port ba) in *.
  destruct (mac_reserve_spec t poll lst p c Hp) as (R0 & R1 & R2 & R3). fold e in R0, R1, R2, R3.
  pose proof (macPortHeld_synced contended a p) as HS.
  unfold ReservePort. destruct (macPortHeld contended "tcp" p a) as [h k] eqn:EH.
  destruct (decide (h = true ∧ k = true)) as [[-> ->]|Hhk].
  { assert (synced contended a p) as Hsy by by apply HS. split_and!; try done; [|by left].
    split; [by left|done]. }
  assert (¬ synced contended a p) as Hsy by (rewrite <- HS; intros [= -> ->]; by apply Hhk).
  assert (∀ (P Q : Prop), (P → False) → (Q → False) → (Continue = Errno Seccomp.EADDRINUSE ↔ P ∨ Q))
    as Hno by (intros P Q HP HQ; split; [done|by intros [?|?]]).
  enough (∀ h' k', h = h' → k = k' → ¬ (h' = true ∧ k' = true) → _) as Hall by by eapply (Hall h k).
  intros [] [] -> -> Hne; try (by destruct Hne); clear Hne; (destruct lk; cbn;
    [split_and!; [by apply Hno; [|intros (? & _)]|by right|done|done]..|]);
    destruct R0 as [R|[R|R]]; rewrite R; cbn;
    (split_and!;
      [first [by apply Hno; [|intros (_ & HQ); apply R1 in HQ; congruence]
             |split; [|done]; intros _; right; split; [done|]; by apply R1]
      |by auto
      |intros Hc _ Hs; first [done|by left; apply R2|by right; apply R3]
      |done]).
Qed.
End bind.

(** ** A Mac service, as the guest sees it *)

(** Every listener the sync advertises has the shape the agent decodes. *)
Lemma currentSet_wf Exclude ports poll cur l :
  currentSet Exclude ports poll = Some cur → l ∈ cur → wf_sync (mac_info l).
Proof.
  unfold currentSet. intros (ls & _ & [= <-])%bind_Some.
  rewrite elem_of_union, !elem_of_list_to_set, !elem_of_omap.
  intros [(x & _ & Hx)|(p & _ & Hp)].
  - unfold normalize in Hx. destruct (negb _ || _) eqn:E; [done|].
    apply orb_false_iff in E as [E%negb_false_iff%String.eqb_eq _].
    apply bind_Some in Hx as (b & Hb & Hx). destruct (Exclude _); [done|].
    injection Hx as <-. unfold wf_sync, mac_info. cbn. rewrite E. split; [by eexists|].
    destruct (decide (m_addr x = v4Loopback ∨ m_addr x = v4Any)) as [Ha|_].
    + injection Hb as <-. destruct Ha as [-> | ->]; [left|right]; by vm_compute.
    + destruct (decide (m_addr x = v6Any)); [|done]. destruct (m_v6only x); [done|].
      injection Hb as <-. right. by vm_compute.
  - destruct (_ || _); [done|]. injection Hp as <-. split; [by eexists|]. right. by vm_compute.
Qed.

(** Adding a synced port leaves the ones there, and registers its own when its
    gateway and the map take it. *)
Lemma addSyncPort_registers e i a :
  inv a → wf_sync i →
  let a' := addSyncPort e (i_proto i) (i_port i) (i_addr i) a in
  inv a' ∧ ∀ id, is_Some (mac a' !! id) ↔ is_Some (mac a !! id) ∨ id = id_of i ∧ opens (e id).
Proof.
  intros HI Hwf. destruct (wf_parse i Hwf) as (pn & b & Hpn & Hid & Hb & _ & _).
  destruct (addSyncPort_spec e (i_proto i) (i_port i) (i_addr i) a HI) as [HI' HS].
  cbn zeta in *. rewrite Hpn, Hb, <- Hid in HS. split; [done|]. intros id.
  destruct (mac a !! id_of i) as [m|] eqn:Em.
  { rewrite HS. split; [by left|]. intros [?|[-> _]]; [done|by eexists]. }
  destruct HS as [(-> & _ & Hn)|(_ & -> & Ho)].
  - split; [by left|]. by intros [?|[-> ?]].
  - rewrite lookup_insert_is_Some. destruct (decide (id_of i = id)) as [<-|]; naive_solver.
Qed.
Lemma adds_register e L a :
  inv a → (∀ id l, (id, l) ∈ L → wf_sync (info l) ∧ id_of (info l) = id) →
  let a' := foldl (λ a '(id, l), addSyncPort e (l_proto l) id.2 (addr_string (l_addr l)) a) a L in
  inv a' ∧ ∀ id, is_Some (mac a' !! id) ↔ is_Some (mac a !! id) ∨ id ∈ L.*1 ∧ opens (e id).
Proof.
  revert a. induction L as [|[id l] L IH]; intros a HI HL; cbn.
  { split; [done|]. set_solver. }
  destruct (HL id l) as [Hl <-]; [left|].
  destruct (addSyncPort_registers e (info l) a HI Hl) as [H1 H2].
  destruct (IH _ H1) as [G1 G2]; [intros ? ? ?; apply HL; by right|].
  split; [exact G1|]. intros id. rewrite G2. rewrite H2, elem_of_cons. naive_solver.
Qed.

(** A snapshot registers every port it names whose gateway and map key work,
    and no other that was not registered. *)
Lemma snapshot_registers e a ls :
  inv a → (∀ i, i ∈ ls → wf_sync i) →
  ∃ a', sync_event e (Snapshot ls) a = Some a' ∧ inv a' ∧
    ∀ i, i ∈ ls → is_Some (mac a' !! id_of i) ↔ is_Some (mac a !! id_of i) ∨ opens (e (id_of i)).
Proof.
  intros HI HW. destruct (decode_wf ls HW) as (ls' & E & EI).
  cbn. rewrite E. cbn. eexists. split; [done|]. unfold applySyncSnapshot.
  set (stale := filter _ _).
  assert (∀ x, x ∈ ls' → is_Some (protoNum (l_proto x)) ∧ info x ∈ ls) as HP.
  { intros x Hx. assert (info x ∈ ls) as Hi by (rewrite <- EI; apply list_elem_of_fmap; eauto).
    split; [|done]. by destruct (HW _ Hi) as [? _]. }
  assert (∀ x, x ∈ ls' → is_Some (protoNum (l_proto x))) as HP1 by (intros; by apply HP).
  destruct (remove_all_spec stale a HI) as (HI0 & _ & Hm0).
  { intros id [_ ?]%list_elem_of_filter. by apply elem_of_elements. }
  { apply list.NoDup_filter, NoDup_elements. }
  destruct (adds_register e (map_to_list (sync_want ls')) (remove_all stale a) HI0) as [G1 G2].
  { intros id l Hl%elem_of_map_to_list. destruct (sync_want_spec ls' id l HP1 Hl) as [Hin <-].
    split; [by apply HW, HP|done]. }
  split; [exact G1|]. intros i Hi. rewrite <- EI in Hi.
  apply list_elem_of_fmap in Hi as (l & -> & Hl).
  destruct (sync_want_all ls' l HP1 Hl) as [l' Hl'].
  rewrite G2, Hm0, decide_False.
  2:{ unfold stale. intros [Hn _]%list_elem_of_filter. congruence. }
  assert (id_of (info l) ∈ (map_to_list (sync_want ls')).*1); [|tauto].
  apply list_elem_of_fmap. exists (id_of (info l), l'). split; [done|]. by apply elem_of_map_to_list.
Qed.

(** The session's first message and what it may activate. *)
Lemma session_start_spec Exclude ports now poll s0 s :
  session_start Exclude ports now poll s0 = Some s →
  ∃ cur, currentSet Exclude ports poll = Some cur ∧
    sent s = [Snapshot (mac_info <$> elements cur)] ∧ advertised s = Some (adv_of cur).
Proof.
  unfold session_start. intros (cur & Hc & [= <-])%bind_Some. exists cur. split; [done|].
  match goal with |- context [setAdvertised now cur ?x] => set (sx := x) end.
  destruct (setAdvertised_fields now cur sx) as (E1 & E2 & E3 & E4).
  destruct (bool_decide (cur = ∅)); unfold record; cbn [sent advertised]; by rewrite E4, E1.
Qed.

(** The header the agent writes is the one the Mac reads. *)
Lemma activate_dial_header proto p rest s :
  0 <= proto < 256 → 0 < p < 65536 → isAdvertised proto p s = true →
  activate (dial_header proto p ++ rest) s =
    (if proto =? 6 then ActDialTCP p else if proto =? 17 then ActRelayUDP p else ActClosed, rest, s).
Proof.
  intros Hproto Hp Ha. rewrite activate_spec.
  assert (length (dial_header proto p) = 4%nat) as HL by reflexivity.
  rewrite (ReadFull_app' 4) by done. cbn zeta.
  assert (take 2 (drop 1 (dial_header proto p)) = put_be16 p) as -> by done.
  assert (byte_at 3 (dial_header proto p) = 0) as -> by done.
  assert (byte_at 0 (dial_header proto p) = proto) as ->.
  { change (byte_at 0 (dial_header proto p)) with (b2z (z2b proto)).
    rewrite b2z_z2b. by rewrite Z.mod_small. }
  rewrite be_join_put by lia. rewrite !bool_decide_eq_false_2 by lia. by rewrite Ha.
Qed.

(** What [normalize] keeps is a TCP listener of the same port, and one that
    holds 127.0.0.1 for as long as it is there unless it is bound to that
    address. *)
Lemma normalize_tcp Exclude l l' :
  normalize Exclude l = Some l' →
  m_proto l' = "tcp" ∧ m_port l' = m_port l ∧
  (m_addr l ≠ v4Loopback → holds (m_port l) v4Loopback l = true).
Proof.
  unfold normalize. intros Hn. destruct (negb _ || _) eqn:E; [done|].
  apply orb_false_iff in E as [E%negb_false_iff%String.eqb_eq E0].
  apply bind_Some in Hn as (b & Hb & Hx). destruct (Exclude _); [done|]. injection Hx as <-.
  split_and!; [done|done|]. intros Hlo. unfold holds. rewrite E, String.eqb_refl, Z.eqb_refl.
  destruct (decide (m_addr l = v4Loopback ∨ m_addr l = v4Any)) as [[?| ->]|_]; [done|by vm_compute|].
  destruct (decide (m_addr l = v6Any)) as [->|]; [|done]. by destruct (m_v6only l).
Qed.

(** C1: a TCP service that listens on the Mac's 127.0.0.1, 0.0.0.0 or [::]
    when a session starts, and is not one of the mirrors. The snapshot never
    ends the session, and a connection activated for the port is dialed to
    exactly that port on the Mac, its bytes intact. The agent [serves] the port
    once it has read the snapshot if it already had it, or its gateway listens
    and the map takes its key, whatever becomes of the other ports: then the
    map steers the port to a gateway proxy that listens, and if not it never
    steers it at all. Of a guest bind of the port that is the Mac's business:
    served, with the agent's table read without waiting, it is refused and
    the Mac is not asked; with the table contended, or the port not served, the
    agent leaves it to the Mac, and it goes ahead when the Mac does not answer
    and is refused when it answers that its own bind would meet a native
    listener. The service itself is one as long as the Mac's fresh poll shows
    it on a wildcard, so then an answered bind is refused either way, unless
    the Mac skips or already mirrors the port. *)
Theorem mac_service Exclude ports now ls s0 s e a l l' :
  preach a → session_start Exclude ports now (Some ls) s0 = Some s →
  l ∈ ls → normalize Exclude l = Some l' → m_port l < 65536 → 0 < m_port l →
  let p := m_port l in
  let id := (ProtoTCP, p) in
  let serves := is_Some (mac a !! id) ∨ proxy_ok (e id) = true ∧ put_ok (e id) = true in
  ∃ a', sync_events e (sent s) a = Some a' ∧
    (∀ rest, activate (dial_header ProtoTCP p ++ rest) s = (ActDialTCP p, rest, s)) ∧
    (serves → ∃ k pr, mac_ports a' !! k = Some 1 ∧ k_proto k = ProtoTCP ∧ k_port k = p ∧
       proxies a' !! pr = Some (ProtoTCP, p)) ∧
    (¬ serves → ∀ k, k_proto k = ProtoTCP → k_port k = p → mac_ports a' !! k = None) ∧
    (∀ g K mem idvalid cfg contended lk t poll lst nf ba c,
      arbitrated g K mem nf ba → idvalid (nf_id nf) = true → ba_port ba = p →
      let r := guest_bind g K mem idvalid cfg contended lk (mac_env t poll lst) nf a' c in
      (serves → contended = false → r = (Errno Seccomp.EADDRINUSE, c)) ∧
      (contended = true ∨ ¬ serves → left_to_mac cfg lk poll lst p c r) ∧
      (lk = Answered → p ∉ Skip cfg → mirrors c !! ("tcp", p) = None →
       m_addr l ≠ v4Loopback → (∃ now_ls, poll = Some now_ls ∧ l ∈ now_ls) →
       r.1 = Errno Seccomp.EADDRINUSE)).
Proof.
  intros Ha Hs Hl Hn Hp1 Hp0 p id serves. apply preach_inv in Ha.
  destruct (session_start_spec _ _ _ _ _ _ Hs) as (cur & Hcur & Hsent & Hadv).
  destruct (normalize_tcp _ _ _ Hn) as (Hpr & Hpo & Hheld).
  assert (l' ∈ cur) as Hin.
  { unfold currentSet in Hcur. cbn in Hcur. injection Hcur as <-.
    apply elem_of_union_l, elem_of_list_to_set, elem_of_omap. eauto. }
  destruct (snapshot_registers e a (mac_info <$> elements cur) Ha) as (a' & Hev & [HO _] & Hreg).
  { intros i (x & -> & Hx%elem_of_elements)%list_elem_of_fmap. by eapply currentSet_wf. }
  assert (is_Some (mac a' !! id) ↔ serves) as Hid.
  { assert (id_of (mac_info l') = id) as <-.
    { unfold id_of, mac_info. cbn [i_proto i_port]. by rewrite Hpr, Hpo. }
    apply Hreg, list_elem_of_fmap. exists l'. by rewrite elem_of_elements. }
  exists a'. split_and!.
  - rewrite Hsent. exact Hev.
  - intros rest. rewrite activate_dial_header; [done|done|lia|].
    unfold isAdvertised. rewrite Hadv. apply bool_decide_eq_true, adv_of_spec.
    exists l'. split; [done|]. unfold advKeyOf. by rewrite Hpr, Hpo.
  - intros [m Hm]%Hid. destruct (ok_entry _ HO _ _ Hm) as ([= E1 E2] & H1 & H2 & _). eauto 10.
  - intros Hns k Ek Ep. destruct (mac_ports a' !! k) as [v|] eqn:Ev; [|done]. destruct Hns.
    apply Hid. destruct (ok_map _ HO k v Ev) as (id' & m & Hm & <-).
    destruct (ok_entry _ HO _ _ Hm) as (E & _). rewrite Ek, Ep in E. unfold id. rewrite E. by eexists.
  - intros g K mem idvalid cfg contended lk t poll lst nf ba c Harb Hv Hp r.
    assert (serves → contended = false → r = (Errno Seccomp.EADDRINUSE, c)) as Hserved.
    { intros Hse Hc. eapply guest_bind_synced; [done|done|]. split; [done|]. rewrite Hp. by apply Hid. }
    assert (contended = true ∨ ¬ serves → left_to_mac cfg lk poll lst p c r) as Hleft.
    { intros Hc. rewrite <- Hp. apply guest_bind_left; [done|done|]. rewrite Hp.
      intros [? ?%Hid]. destruct Hc; [congruence|done]. }
    split_and!; [done|done|]. intros Hlk Hsk Hmi Hlo (ls' & Hpoll & Hl').
    assert (wildcard_held poll p) as Hw by (exists ls', l; auto).
    assert (serves ∧ contended = false ∨ contended = true ∨ ¬ serves) as [[? ?]|Hc].
    { rewrite <- Hid. destruct contended, (decide (is_Some (mac a' !! id))); auto. }
    { by rewrite Hserved. }
    specialize (Hleft Hc). rewrite Hlk in Hleft. apply Hleft; auto.
Qed.

(** A guest bind of 127.0.0.1:8080 against a Mac whose dual-stack listener has
    just taken the port. *)
Definition ex_held : option (list MacListener) := Some [MkMac "tcp" 8080 v6Any false].
Lemma ex_arbitrated : arbitrated arm64 ex_kernel ex_mem ex_notif (MkBind AF_INET 8080 v4Loopback).
Proof.
  unfold arbitrated. split_and!; [vm_compute; done|vm_compute; done|by left|done|by left
    |vm_compute; done|vm_compute; done].
Qed.
Lemma bind_arbitration_witness :
  (guest_bind arm64 ex_kernel ex_mem (λ _, true) ex_cfg false Answered
     (mac_env 0 ex_held (λ _, None)) ex_notif agent0 client0).1 = Errno Seccomp.EADDRINUSE.
Proof.
  destruct (bind_arbitration arm64 ex_kernel ex_mem (λ _, true) ex_cfg false Answered 0 ex_held
    (λ _, None) ex_notif agent0 client0) as [H _].
  destruct (H _ ex_arbitrated eq_refl) as (Hiff & _). apply Hiff. right.
  split; [reflexivity|]. split; [apply (bool_decide_unpack _); vm_compute; exact I|].
  split; [reflexivity|]. left. exists [MkMac "tcp" 8080 v6Any false], (MkMac "tcp" 8080 v6Any false).
  split; [reflexivity|]. split; [left|reflexivity].
Defined.

Lemma mac_service_witness :
  ∃ s a', session_start (λ _, false) [] 0 ex_held syncer0 = Some s ∧
    sync_events (λ _, ok_env) (sent s) agent0 = Some a' ∧
    guest_bind arm64 ex_kernel ex_mem (λ _, true) ex_cfg false NoConn
      (mac_env 0 None (λ _, None)) ex_notif a' client0 = (Errno Seccomp.EADDRINUSE, client0) ∧
    guest_bind arm64 ex_kernel ex_mem (λ _, true) ex_cfg true NoConn
      (mac_env 0 None (λ _, None)) ex_notif a' client0 = (Continue, client0) ∧
    (guest_bind arm64 ex_kernel ex_mem (λ _, true) ex_cfg true Answered
      (mac_env 0 ex_held (λ _, None)) ex_notif a' client0).1 = Errno Seccomp.EADDRINUSE.
Proof.
  destruct (session_start (λ _, false) [] 0 ex_held syncer0) as [s|] eqn:Es.
  2:{ assert (is_Some (session_start (λ _, false) [] 0 ex_held syncer0)) as [? E]
        by (apply (bool_decide_unpack _); vm_compute; exact I). congruence. }
  destruct (mac_service (λ _, false) [] 0 [MkMac "tcp" 8080 v6Any false] syncer0 s (λ _, ok_env) agent0
    (MkMac "tcp" 8080 v6Any false) (MkMac "tcp" 8080 v4Any false)) as (a' & H1 & _ & _ & _ & H2).
  - by apply reach_init.
  - exact Es.
  - left.
  - reflexivity.
  - cbn. lia.
  - cbn. lia.
  - pose proof (λ b lk poll, H2 arm64 ex_kernel ex_mem (λ _, true) ex_cfg b lk 0 poll (λ _, None) _ _
      client0 ex_arbitrated eq_refl eq_refl) as H.
    exists s, a'. split; [reflexivity|]. split; [exact H1|]. split; [|split].
    + apply (H false NoConn None); [right; split; reflexivity|reflexivity].
    + apply (H true NoConn None). left. reflexivity.
    + apply (H true Answered ex_held); [reflexivity| |reflexivity|discriminate|].
      * apply (bool_decide_unpack _). vm_compute. exact I.
      * exists [MkMac "tcp" 8080 v6Any false]. split; [reflexivity|left].
Defined.
