(* ===== verification/GoPath.v ===== *)
(** * GoPath: [filepath.Join], suffixes and trimming

    What the path-deriving code relies on of [path/filepath] and [strings]:
    joining a clean directory with a plain name keeps both, and a name with no
    separator is read back as the base. *)

From S2P Require Import Prelude GoStr TransportAuth OciRuntime.
Open Scope string_scope.
Open Scope list_scope.
Open Scope Z_scope.

(** [filepath.Join]: from the first non-empty element on, cleaned. *)
Fixpoint filepath_Join (elem : list string) : string :=
  match elem with
  | [] => ""
  | e :: rest => if String.eqb e "" then filepath_Join rest else Clean (Join elem "/")
  end.

(** [strings.HasSuffix], [strings.TrimSuffix], [strings.TrimPrefix] *)
Definition HasSuffix (s suffix : string) : bool :=
  (String.length suffix <=? String.length s)%nat &&
  String.eqb (str_drop (String.length s - String.length suffix) s) suffix.
Definition TrimSuffix (s suffix : string) : string :=
  if HasSuffix s suffix then str_take (String.length s - String.length suffix) s else s.
Definition TrimPrefix (s p : string) : string := match CutPrefix p s with Some r => r | None => s end.

(** ** Trimming *)

Lemma trim_left_idem f s : trim_left f (trim_left f s) = trim_left f s.
Proof. induction s as [|c s IH]; cbn; [done|]. destruct (f c) eqn:E; [done|]. cbn. by rewrite E. Qed.
Lemma trim_right_idem f s : trim_right f (trim_right f s) = trim_right f s.
Proof.
  induction s as [|c s IH]; cbn; [done|]. destruct (trim_right f s) as [|d t] eqn:E.
  - destruct (f c) eqn:F; cbn; [done|]. by rewrite F.
  - cbn [trim_right]. cbn [trim_right] in IH. by rewrite IH.
Qed.
Lemma trim_left_right f s : trim_left f s = s → trim_left f (trim_right f s) = trim_right f s.
Proof.
  destruct s as [|c s]; cbn; [done|]. destruct (f c) eqn:F.
  - intros E. exfalso. assert (String.length (trim_left f s) <= String.length s)%nat as H.
    { clear. induction s as [|c s IH]; cbn; [done|]. destruct (f c); cbn; lia. }
    rewrite E in H. cbn in H. lia.
  - intros _. destruct (trim_right f s); cbn; by rewrite F.
Qed.
Lemma TrimSpace_idem s : TrimSpace (TrimSpace s) = TrimSpace s.
Proof.
  unfold TrimSpace. rewrite (trim_left_right _ (trim_left is_space s)) by apply trim_left_idem.
  apply trim_right_idem.
Qed.
Lemma trim_right_tail f s t : trim_right f t = t → t ≠ "" → trim_right f (s +:+ t) = s +:+ t.
Proof.
  intros Ht H0. induction s as [|c s IH]; [done|]. cbn. rewrite IH.
  destruct (s +:+ t) as [|d u] eqn:E; [|done]. destruct s; [done|discriminate].
Qed.
Lemma TrimSpace_plain s : str_forall (λ c, negb (is_space c)) s = true → TrimSpace s = s.
Proof. intros H. unfold TrimSpace. by rewrite trim_left_none, trim_right_none. Qed.

(** ** Appending *)

Lemma append_inj_l s t u : s +:+ t = s +:+ u → t = u.
Proof. induction s as [|c s IH]; cbn; [done|]. intros [=]. auto. Qed.
Lemma append_inj_r s t u : s +:+ u = t +:+ u → s = t.
Proof.
  intros E. assert (String.length s = String.length t) as HL.
  { apply (f_equal String.length) in E. rewrite !append_length in E. lia. }
  rewrite <- (str_take_app s u), E, HL. apply str_take_app.
Qed.
Lemma Cut_inj c a b a' b' :
  has_byte c a = false → has_byte c a' = false →
  a +:+ String c b = a' +:+ String c b' → a = a' ∧ b = b'.
Proof.
  intros Ha Ha' E. change (String c b) with (String c "" +:+ b) in E. change (String c b') with (String c "" +:+ b') in E.
  apply (f_equal (Cut (String c ""))) in E. rewrite !Cut_fresh in E by done. by simplify_eq.
Qed.

Lemma HasPrefix_app p s : HasPrefix (p +:+ s) p = true.
Proof. unfold HasPrefix. by rewrite (proj2 (CutPrefix_Some p (p +:+ s) s) eq_refl). Qed.
Lemma TrimPrefix_app p s : TrimPrefix (p +:+ s) p = s.
Proof. unfold TrimPrefix. by rewrite (proj2 (CutPrefix_Some p (p +:+ s) s) eq_refl). Qed.
Lemma length_minus_suffix s t : (String.length (s +:+ t) - String.length t)%nat = String.length s.
Proof. rewrite append_length. lia. Qed.
Lemma HasSuffix_app s t : HasSuffix (s +:+ t) t = true.
Proof.
  unfold HasSuffix. rewrite length_minus_suffix, str_drop_app, String.eqb_refl, append_length.
  rewrite andb_true_r. apply Nat.leb_le. lia.
Qed.
Lemma TrimSuffix_app s t : TrimSuffix (s +:+ t) t = s.
Proof. unfold TrimSuffix. by rewrite HasSuffix_app, length_minus_suffix, str_take_app. Qed.

(** ** Names and paths *)

(** A file name: one element, not a dot entry. *)
Definition plain (n : string) : bool :=
  negb (has_byte "/" n) && negb (existsb (String.eqb n) [""; "."; ".."]).

Lemma plain_iff n : plain n = true ↔ has_byte "/" n = false ∧ n ≠ "" ∧ n ≠ "." ∧ n ≠ "..".
Proof. unfold plain. cbn. bool_prop. tauto. Qed.

Lemma Split_snoc d n : has_byte "/" n = false → Split "/" (d +:+ String "/" n) = Split "/" d ++ [n].
Proof.
  intros Hn. induction d as [|c d IH]; cbn -[Ascii.eqb].
  - by rewrite (Split_single "/" n) by done.
  - rewrite IH. destruct (Ascii.eqb "/" c); [done|]. destruct (Split_cons "/" d) as (w & ws & ->). done.
Qed.
Lemma clean_go_snoc rooted ws n acc :
  plain n = true → clean_go rooted (ws ++ [n]) acc = n :: clean_go rooted ws acc.
Proof.
  intros (_ & H0 & H1 & H2)%plain_iff. revert acc. induction ws as [|w ws IH]; intros acc; cbn [clean_go app].
  - rewrite !(proj2 (String.eqb_neq n _)) by done. done.
  - repeat case_match; apply IH.
Qed.
Lemma Join_snoc ws n sep : ws ≠ [] → Join (ws ++ [n]) sep = Join ws sep +:+ sep +:+ n.
Proof.
  induction ws as [|w ws IH]; [done|]. intros _. destruct ws as [|w' ws]; [done|].
  change (Join ((w :: w' :: ws) ++ [n]) sep) with (w +:+ sep +:+ Join ((w' :: ws) ++ [n]) sep).
  rewrite IH by done. change (Join (w :: w' :: ws) sep) with (w +:+ sep +:+ Join (w' :: ws) sep).
  by rewrite !append_assoc'.
Qed.

Definition kept (d : string) : list string := reverse (clean_go (HasPrefix d "/") (Split "/" d) []).
(** The directory part a plain name is appended to. *)
Definition dir_prefix (d : string) : string :=
  (if HasPrefix d "/" then "/" else "") +:+ match kept d with [] => "" | ws => Join ws "/" +:+ "/" end.

Lemma HasPrefix_slash d n : d ≠ "" → HasPrefix (d +:+ n) "/" = HasPrefix d "/".
Proof. destruct d as [|c d]; [done|]. intros _. unfold HasPrefix. cbn -[Ascii.eqb]. by destruct (Ascii.eqb _ c). Qed.

Lemma kept_snoc d n : d ≠ "" → plain n = true → kept (d +:+ String "/" n) = kept d ++ [n].
Proof.
  intros Hd Hn. pose proof Hn as (Hs & _)%plain_iff. unfold kept.
  by rewrite HasPrefix_slash, Split_snoc, clean_go_snoc, reverse_cons by done.
Qed.
Lemma Clean_snoc d n : d ≠ "" → plain n = true → Clean (d +:+ String "/" n) = dir_prefix d +:+ n.
Proof.
  intros Hd Hn. unfold Clean, dir_prefix. fold (kept (d +:+ String "/" n)).
  rewrite HasPrefix_slash, kept_snoc by done. destruct (kept d) as [|w ws].
  - by destruct (HasPrefix d "/").
  - rewrite Join_snoc by done. rewrite !append_assoc'.
    destruct (HasPrefix d "/"); [done|]. by destruct ((w :: ws) ++ [n]) eqn:E.
Qed.
Lemma Join2 d n : d ≠ "" → plain n = true → filepath_Join [d; n] = dir_prefix d +:+ n.
Proof.
  intros Hd Hn. cbn [filepath_Join]. rewrite (proj2 (String.eqb_neq d "")) by done. by apply Clean_snoc.
Qed.

(** A cleaned directory with at least one element is its own prefix. *)
Fixpoint good (rooted : bool) (acc : list string) : Prop :=
  match acc with
  | [] => True
  | w :: acc => has_byte "/" w = false ∧ w ≠ "" ∧ w ≠ "." ∧
      (w = ".." → rooted = false ∧ Forall (.= "..") acc) ∧ good rooted acc
  end.
Lemma good_go rooted ws acc :
  Forall (λ w, has_byte "/" w = false) ws → good rooted acc → good rooted (clean_go rooted ws acc).
Proof.
  intros HF. revert acc. induction HF as [|w ws Hw _ IH]; intros acc Ha; cbn [clean_go]; [done|].
  destruct (String.eqb_spec w ""); [by apply IH|]. destruct (String.eqb_spec w "."); [by apply IH|]. cbn [orb].
  destruct (String.eqb_spec w "..") as [->|].
  - destruct acc as [|a acc].
    + apply IH. destruct rooted; [done|]. cbn. by split_and!.
    + destruct (String.eqb_spec a "..") as [->|]; apply IH; [|by apply Ha].
      destruct Ha as (H1 & H2 & H3 & H4 & H5). destruct (H4 eq_refl) as [-> HF'].
      cbn. split_and!; try done. intros _. split; [done|]. by constructor.
  - apply IH. cbn. by split_and!.
Qed.
Lemma clean_go_good rooted ws acc : good rooted (reverse ws ++ acc) → clean_go rooted ws acc = reverse ws ++ acc.
Proof.
  revert acc. induction ws as [|w ws IH]; intros acc; cbn [clean_go]; [done|].
  rewrite reverse_cons, <- app_assoc. cbn [app]. intros Hg.
  assert (good rooted (w :: acc)) as (Hs & H0 & H1 & H2 & _).
  { clear IH. induction (reverse ws) as [|x l IHl]; [done|]. apply IHl. apply Hg. }
  rewrite !(proj2 (String.eqb_neq w _)) by done. cbn [orb].
  destruct (String.eqb_spec w "..") as [->|]; [|by apply IH].
  destruct (H2 eq_refl) as [-> HF]. destruct acc as [|a acc]; [by apply IH|].
  inversion HF; subst. cbn. by apply IH.
Qed.

Lemma good_words rooted l : good rooted l → Forall (λ w, has_byte "/" w = false) l.
Proof. induction l as [|w l IH]; cbn; [by constructor|]. intros (? & _ & _ & _ & ?). constructor; auto. Qed.
Lemma good_nonempty rooted l w : good rooted l → w ∈ l → w ≠ "".
Proof.
  induction l as [|x l IH]; [by intros _ ?%elem_of_nil|].
  intros (_ & H0 & _ & _ & Hg) [->|Hin]%elem_of_cons; [done|]. by apply IH.
Qed.
Lemma Split_words c s : Forall (λ w, has_byte c w = false) (Split c s).
Proof.
  induction s as [|d s IH]; cbn; [by repeat constructor|]. destruct (Ascii.eqb_spec c d).
  - by constructor.
  - destruct (Split_cons c s) as (w & ws & E). rewrite E in *. inversion IH; subst. constructor; [|done].
    cbn. rewrite (proj2 (Ascii.eqb_neq c d)) by done. done.
Qed.
Lemma Join_head w ws c : has_byte "/" w = false → w ≠ "" → HasPrefix (Join (w :: ws) c) "/" = false.
Proof.
  intros Hw H0. destruct w as [|d w]; [done|]. cbn in Hw. apply orb_false_iff in Hw as [Hd _].
  unfold HasPrefix. destruct ws; cbn -[Ascii.eqb]; by rewrite Hd.
Qed.

Lemma dir_prefix_clean d : kept d ≠ [] → dir_prefix (Clean d) = Clean d +:+ "/".
Proof.
  intros Hk. pose proof (good_go (HasPrefix d "/") (Split "/" d) [] (Split_words _ _) I) as Hg.
  assert (Clean d = (if HasPrefix d "/" then "/" else "") +:+ Join (kept d) "/") as EC.
  { unfold Clean. fold (kept d). destruct (HasPrefix d "/"); [done|]. by destruct (kept d). }
  assert (kept (Clean d) = kept d ∧ HasPrefix (Clean d) "/" = HasPrefix d "/") as [EK ER].
  { unfold kept in *. set (l := clean_go _ _ _) in *.
    assert (Forall (λ w, has_byte "/" w = false) (reverse l)) as HF.
    { apply Forall_reverse. by eapply good_words. }
    assert (HasPrefix (Clean d) "/" = HasPrefix d "/") as ER.
    { rewrite EC. destruct (HasPrefix d "/"); [done|]. cbn [String.append].
      destruct (reverse l) as [|w ws] eqn:E; [done|]. inversion HF; subst.
      apply Join_head; [done|].
      assert (w ∈ l) as Hin by (apply elem_of_reverse; rewrite E; left). by eapply good_nonempty. }
    split; [|done]. rewrite ER, EC.
    assert (Split "/" ((if HasPrefix d "/" then "/" else "") +:+ Join (reverse l) "/") =
      (if HasPrefix d "/" then [""] else []) ++ reverse l) as ->.
    { destruct (HasPrefix d "/"); cbn [String.append app].
      - cbn -[Join]. f_equal. by apply Split_Join.
      - by apply Split_Join. }
    assert (clean_go (HasPrefix d "/") ((if HasPrefix d "/" then [""] else []) ++ reverse l) [] =
      clean_go (HasPrefix d "/") (reverse l) []) as -> by by destruct (HasPrefix d "/").
    f_equal. rewrite clean_go_good; by rewrite reverse_involutive, app_nil_r. }
  unfold dir_prefix. rewrite EK, ER, EC. destruct (kept d); [done|]. by rewrite append_assoc'.
Qed.

(** [filepath.Base] of a path that ends in a name. *)
Lemma Base_snoc p n : has_byte "/" n = false → n ≠ "" → Base (p +:+ String "/" n) = n.
Proof.
  intros Hn H0. unfold Base.
  destruct (String.eqb_spec (p +:+ String "/" n) "") as [E|_]; [by destruct p|].
  assert (trim_right (λ c, Ascii.eqb c "/") (p +:+ String "/" n) = p +:+ String "/" n) as ->.
  { change (String "/" n) with ("/" +:+ n). rewrite <- append_assoc'. apply trim_right_tail; [|done].
    apply trim_right_none. clear H0. induction n as [|c n IH]; cbn in *; [done|].
    apply orb_false_iff in Hn as [Hc Hn]. rewrite Ascii.eqb_sym, Hc, IH by done. done. }
  rewrite LastIndexByte_app by done. change (String "/" n) with ("/" +:+ n).
  rewrite <- (Nat.add_1_r (String.length p)), str_drop_app_add. cbn.
  by rewrite (proj2 (String.eqb_neq n "")) by done.
Qed.
