(* ===== verification/Forwarding.v ===== *)
(** * Forwarding: which guest ports the provider's own forwarder claims

    [src/internal/vmprovider/forwarding.go] evaluates Lima's rule list over the
    port space, one evaluation per segment between rule boundaries;
    [src/internal/vmprovider/podmanforward.go] reads gvproxy's forward table.
    Both answer with a [PortSet], sorted merged intervals. *)

From S2P Require Import Prelude GoStr.
Open Scope string_scope.
Open Scope Z_scope.

(** ** Port sets *)

Definition minPort : Z := 1.
Definition maxPort : Z := 65535.
Definition guestLoopback : string := "127.0.0.1".
Definition guestWildcard : string := "0.0.0.0".

Record PortRange := MkRange { Lo : Z; Hi : Z }.
Definition PortSet : Type := list PortRange.

Definition in_range (p : Z) (r : PortRange) : bool := (Lo r <=? p) && (p <=? Hi r).
Definition Contains (s : PortSet) (port : Z) : bool := existsb (in_range port) s.

Definition Count (s : PortSet) : Z := foldl (λ n r, n + (Hi r - Lo r + 1)) 0 s.

Definition PortSet_String (s : PortSet) : string :=
  match s with
  | [] => "none"
  | _ => Join ((λ r, if Lo r =? Hi r then Itoa (Lo r) else Itoa (Lo r) +:+ "-" +:+ Itoa (Hi r)) <$> s) ","
  end.

(** [sort.Ints] *)
Definition sort_Ints (l : list Z) : list Z := merge_sort Z.le l.

(** The loop of [portSetOf] over the sorted ports; [out] has the interval
    appended last at its head. *)
Fixpoint merge_ports (ports : list Z) (out : list PortRange) : list PortRange :=
  match ports with
  | [] => out
  | p :: ports =>
      merge_ports ports
        match out with
        | r :: out' => if p <=? Hi r + 1 then MkRange (Lo r) (if Hi r <? p then p else Hi r) :: out'
                       else MkRange p p :: out
        | [] => [MkRange p p]
        end
  end.
Definition portSetOf (ports : list Z) : PortSet := reverse (merge_ports (sort_Ints ports) []).

(** ** Lima's rules *)

Record portForward := MkRule {
  GuestIP : string;
  GuestIPMustBeZero : bool;
  GuestPort : Z;
  GuestPortRange : Z * Z;
  Ignore : bool;
  GuestSocket : string
}.

Definition portRange (r : portForward) : Z * Z :=
  let '(lo, hi) := GuestPortRange r in
  if (lo =? 0) && (hi =? 0) then (GuestPort r, GuestPort r) else (lo, hi).

Definition rule_matches (r : portForward) (guestIP : string) (port : Z) : bool :=
  if negb (String.eqb (GuestSocket r) "") then false
  else
    let '(lo, hi) := portRange r in
    if (port <? lo) || (hi <? port) then false
    else if GuestIPMustBeZero r && negb (String.eqb guestIP guestWildcard) then false
    else if negb (String.eqb (GuestIP r) "") && negb (String.eqb (GuestIP r) guestWildcard)
            && negb (String.eqb (GuestIP r) guestIP) then false
    else true.

Fixpoint forwards (rules : list portForward) (guestIP : string) (port : Z) : bool :=
  match rules with
  | [] => true
  | r :: rules => if rule_matches r guestIP port then negb (Ignore r) else forwards rules guestIP port
  end.

(** A Go [int]: 64 bits, two's complement. *)
Definition int (z : Z) : Z := (z + 2 ^ 63) mod 2 ^ 64 - 2 ^ 63.

Definition add_bound (s : gset Z) (p : Z) : gset Z :=
  if (minPort <=? p) && (p <=? maxPort) then {[p]} ∪ s else s.
Definition bound_set (rules : list portForward) : gset Z :=
  foldl (λ s r, let '(lo, hi) := portRange r in add_bound (add_bound s lo) (int (hi + 1)))
    {[minPort]} rules.
Definition breakpoints (rules : list portForward) : list Z := sort_Ints (elements (bound_set rules)).

(** Appending a segment: adjacent ones merge. *)
Definition add_segment (lo hi : Z) (out : list PortRange) : list PortRange :=
  match out with
  | r :: out' => if Hi r =? lo - 1 then MkRange (Lo r) hi :: out' else MkRange lo hi :: out
  | [] => [MkRange lo hi]
  end.
(** The loop of [forwardedPorts], [out] with its last interval at the head. *)
Fixpoint segments (rules : list portForward) (guestIP : string) (bounds : list Z)
    (out : list PortRange) : list PortRange :=
  match bounds with
  | [] => out
  | lo :: rest =>
      let hi := match rest with [] => maxPort | b :: _ => b - 1 end in
      segments rules guestIP rest
        (if negb (forwards rules guestIP lo) then out else add_segment lo hi out)
  end.
Definition forwardedPorts (rules : list portForward) (guestIP : string) : PortSet :=
  reverse (segments rules guestIP (breakpoints rules) []).

(** ** An instance's forwarder *)

Record Forwarding := MkForwarding {
  fw_Instance : string;
  fw_Provider : string;
  HostAgent : bool;
  Loopback : PortSet;
  Wildcard : PortSet
}.

Definition Active (f : Forwarding) : bool :=
  HostAgent f && ((0 <? length (Loopback f))%nat || (0 <? length (Wildcard f))%nat).

(** The fields of [limactl list --json] this file reads. *)
Record limaJSON := MkLima {
  li_Name : string;
  li_Status : string;
  li_HostAgentPID : Z;
  li_PortForwards : list portForward
}.

(** [strings.EqualFold] against a word whose letters have no fold outside
    ASCII. *)
Definition running (li : limaJSON) : bool := String.eqb (ToLower (li_Status li)) "running".

Definition forwardingOf (li : limaJSON) : Forwarding :=
  MkForwarding (li_Name li) "" (running li && negb (li_HostAgentPID li =? 0))
    (forwardedPorts (li_PortForwards li) guestLoopback)
    (forwardedPorts (li_PortForwards li) guestWildcard).

Inductive fwd_err :=
| NoInstance | NoCurl | NoAnswer | UnexpectedAnswer | NotJSON.

(** [decodeList] past the decoder: records without a name are dropped. *)
Definition named (raw : list limaJSON) : list limaJSON :=
  List.filter (λ li, negb (String.eqb (li_Name li) "")) raw.

Definition Lima_Forwarding (raw : list limaJSON) (inst : string) : result fwd_err Forwarding :=
  match List.find (λ li, String.eqb (li_Name li) inst) (named raw) with
  | Some li => Ok (forwardingOf li)
  | None => Err NoInstance
  end.

(** ** gvproxy's forward table *)

Definition ProviderPodman : string := "podman".
Definition DefaultAgentPort : Z := 4777.
Record gvproxyForward := MkGv { gv_Local : string; gv_Remote : string }.

Definition hostPortOf (s : string) : option (string * Z) :=
  let s := TrimSpace s in
  if String.eqb s "" then None
  else match SplitHostPort s with
       | Err _ => None
       | Ok (h, p) =>
           match Atoi p with
           | Err _ => None
           | Ok n => if (n <? minPort) || (maxPort <? n) then None else Some (h, n)
           end
       end.
Definition portOf (hostport : string) : option Z := snd <$> hostPortOf hostport.

Definition is_wild (localAddr : string) : bool :=
  existsb (String.eqb localAddr) [""; "0.0.0.0"; "::"; "*"].

(** One entry: whether it adds to the wildcard ports or the others, and which
    port. *)
Definition classify (e : gvproxyForward) : option (bool * Z) :=
  match portOf (gv_Remote e) with
  | None => None
  | Some guestPort =>
      if (guestPort =? 22) || (guestPort =? DefaultAgentPort) then None
      else match hostPortOf (gv_Local e) with
           | None => None
           | Some (localAddr, localPort) => Some (is_wild localAddr, localPort)
           end
  end.
Definition ports_where (wild : bool) (entries : list gvproxyForward) : list Z :=
  omap (λ e, '(w, p) ← classify e; if Bool.eqb w wild then Some p else None) entries.

Section gvproxy.
(** [json.Unmarshal] into a list of entries. *)
Variable unmarshal : string → option (list gvproxyForward).

Definition ParseGvproxyForwards (inst out : string) : Forwarding * option fwd_err :=
  let f h l w := MkForwarding inst ProviderPodman h l w in
  let '(marker, body) := match Cut (String "010" "") out with Some mb => mb | None => (out, "") end in
  let m := TrimSpace marker in
  if String.eqb m "drawbridge-gvproxy=ok" then
    match unmarshal (TrimSpace body) with
    | None => (f false [] [], Some NotJSON)
    | Some entries =>
        (f true (portSetOf (ports_where false entries)) (portSetOf (ports_where true entries)), None)
    end
  else (f false [] [],
        Some (if String.eqb m "drawbridge-gvproxy=absent" then NoCurl
              else if String.eqb m "drawbridge-gvproxy=unreachable" then NoAnswer
              else UnexpectedAnswer)).
End gvproxy.

(** ** Canonical port sets *)

(** Non-empty intervals, in order, no two of them adjacent, all from [m] up:
    the shape [PortSet] promises. *)
Fixpoint canon_from (m : Z) (s : PortSet) : Prop :=
  match s with
  | [] => True
  | r :: s => m <= Lo r <= Hi r ∧ canon_from (Hi r + 2) s
  end.
Definition canon (s : PortSet) : Prop := canon_from minPort s.

(** The same of an accumulator, whose last interval comes first. *)
Fixpoint below (m b : Z) (out : list PortRange) : Prop :=
  match out with
  | [] => True
  | r :: out => m <= Lo r <= Hi r ∧ Hi r <= b ∧ below m (Lo r - 2) out
  end.

Lemma in_range_iff p r : in_range p r = true ↔ Lo r <= p <= Hi r.
Proof. unfold in_range. bool_prop. lia. Qed.
Lemma Contains_iff s p : Contains s p = true ↔ ∃ r, r ∈ s ∧ Lo r <= p <= Hi r.
Proof.
  unfold Contains. rewrite existsb_exists. setoid_rewrite in_range_iff.
  by setoid_rewrite list_elem_of_In.
Qed.
Lemma Contains_cons r s p : Contains (r :: s) p = in_range p r || Contains s p.
Proof. done. Qed.
Lemma Contains_reverse s p : Contains (reverse s) p = Contains s p.
Proof.
  apply eq_bool_prop_intro. rewrite !Is_true_true, !Contains_iff.
  by setoid_rewrite elem_of_reverse.
Qed.

Lemma below_mono m b b' out : b <= b' → below m b out → below m b' out.
Proof. destruct out as [|r out]; cbn; [done|]. intros ? (? & ? & ?). repeat split; [lia..|done]. Qed.
Lemma below_reverse m b out s :
  below m b out → m <= b + 2 → canon_from (b + 2) s → canon_from m (rev_append out s).
Proof.
  revert b s. induction out as [|r out IH]; cbn; intros b s.
  - intros _ Hm Hs. destruct s as [|r s]; cbn in *; [done|]. destruct Hs. split; [lia|done].
  - intros (Hr & Hb & Ho) _ Hs. apply (IH (Lo r - 2)); [done|lia|]. cbn. split; [lia|].
    destruct s as [|r' s]; cbn in *; [done|]. destruct Hs. split; [lia|done].
Qed.
Lemma below_canon m b out : below m b out → canon_from m (reverse out).
Proof. intros Hb. apply (below_reverse m (Z.max b m)); [|lia|done]. eapply below_mono; [|done]. lia. Qed.

Lemma canon_from_lower m s p : canon_from m s → Contains s p = true → m <= p.
Proof.
  revert m. induction s as [|r s IH]; cbn [canon_from]; intros m; [done|].
  intros [Hr Hs]. rewrite Contains_cons, orb_true_iff, in_range_iff.
  intros [?|Hp]; [lia|]. apply (IH _ Hs) in Hp. lia.
Qed.

(** A canonical set is determined by its ports. *)
Lemma canon_ext m s t :
  canon_from m s → canon_from m t → (∀ p, Contains s p = true ↔ Contains t p = true) → s = t.
Proof.
  revert m t. induction s as [|[a b] s IH]; intros m [|[a' b'] t]; cbn [canon_from Lo Hi];
    intros Hs Ht E.
  - done.
  - assert (Contains [] a' = true) by (apply E; rewrite Contains_cons, orb_true_iff, in_range_iff; cbn; lia). done.
  - assert (Contains [] a = true) by (apply E; rewrite Contains_cons, orb_true_iff, in_range_iff; cbn; lia). done.
  - destruct Hs as [Hr Hs], Ht as [Hr' Ht].
    assert (∀ p, a <= p <= b ∨ Contains s p = true ↔ a' <= p <= b' ∨ Contains t p = true) as E'.
    { intros p. specialize (E p). rewrite !Contains_cons, !orb_true_iff, !in_range_iff in E. done. }
    pose proof (λ p, canon_from_lower _ s p Hs) as Ls. pose proof (λ p, canon_from_lower _ t p Ht) as Lt.
    assert (a = a') as ->.
    { destruct (proj1 (E' a) ltac:(lia)) as [?|?%Lt]; destruct (proj2 (E' a') ltac:(lia)) as [?|?%Ls]; lia. }
    assert (b = b') as ->.
    { destruct (Z.lt_trichotomy b b') as [H|[H|H]]; [|done|].
      - destruct (proj2 (E' (b + 1)) ltac:(lia)) as [?|?%Ls]; lia.
      - destruct (proj1 (E' (b' + 1)) ltac:(lia)) as [?|?%Lt]; lia. }
    f_equal. apply (IH (b' + 2)); [done..|]. intros p. specialize (E' p). split; intros Hp.
    + pose proof (Ls _ Hp). destruct (proj1 E' ltac:(auto)); [lia|done].
    + pose proof (Lt _ Hp). destruct (proj2 E' ltac:(auto)); [lia|done].
Qed.

(** The ports a set stands for, in order. *)
Definition ports (s : PortSet) : list Z := s ≫= λ r, seqZ (Lo r) (Hi r - Lo r + 1).

Lemma elem_of_ports s p : p ∈ ports s ↔ Contains s p = true.
Proof.
  unfold ports. rewrite list_elem_of_bind, Contains_iff. setoid_rewrite elem_of_seqZ.
  split; intros (r & ? & ?); exists r; split; (done || lia).
Qed.
Lemma Count_ports m s : canon_from m s → Count s = Z.of_nat (length (ports s)) ∧ NoDup (ports s).
Proof.
  unfold Count. intros Hs.
  enough (∀ n, foldl (λ n r, n + (Hi r - Lo r + 1)) n s = n + Z.of_nat (length (ports s)) ∧ NoDup (ports s))
    as H by (destruct (H 0); split; [lia|done]).
  revert m Hs. induction s as [|r s IH]; intros m; cbn [canon_from].
  - intros _ n. cbn. split; [lia|constructor].
  - intros [Hr Hs] n. destruct (IH _ Hs (n + (Hi r - Lo r + 1))) as [E N]. split.
    + cbn [foldl]. rewrite E. unfold ports. cbn [mbind list_bind]. rewrite length_app, length_seqZ.
      fold (ports s). lia.
    + unfold ports. cbn [mbind list_bind]. fold (ports s). apply NoDup_app. split; [apply NoDup_seqZ|].
      split; [|done]. intros p Hp Hq%elem_of_ports%(canon_from_lower _ _ _ Hs).
      apply elem_of_seqZ in Hp. lia.
Qed.

(** ** The two loops build canonical sets *)

Lemma sort_Ints_sorted l : StronglySorted Z.le (sort_Ints l).
Proof. apply StronglySorted_merge_sort; apply _. Qed.
Lemma elem_of_sort_Ints l p : p ∈ sort_Ints l ↔ p ∈ l.
Proof. unfold sort_Ints. by rewrite merge_sort_Permutation. Qed.

Lemma merge_ports_spec m l out b :
  StronglySorted Z.le l → (∀ p, p ∈ l → m <= p ∧ b <= p) → below m b out →
  ∃ b', below m b' (merge_ports l out) ∧
    ∀ p, Contains (merge_ports l out) p = true ↔ Contains out p = true ∨ p ∈ l.
Proof.
  revert out b. induction l as [|q l IH]; intros out b Hl Hq Ho; cbn [merge_ports].
  - exists b. split; [done|]. intros p. rewrite elem_of_nil. tauto.
  - apply StronglySorted_inv in Hl as [Hl Hle]. rewrite Forall_forall in Hle.
    destruct (Hq q (list_elem_of_here _ _)) as [Hm Hb].
    assert (Hq' : ∀ p, p ∈ l → m <= p ∧ q <= p) by (intros p Hp; split; [apply Hq; by right|by apply Hle]).
    set (out' := match out with [] => [MkRange q q] | r :: o => _ end).
    assert (below m q out' ∧ ∀ p, Contains out' p = true ↔ Contains out p = true ∨ p = q) as [Ho' E'].
    { subst out'. destruct out as [|[lo hi] out]; cbn [below Lo Hi] in *.
      - split; [cbn; lia|]. intros p. rewrite Contains_cons, orb_true_iff, in_range_iff. cbn. lia.
      - destruct Ho as (? & ? & Ho). destruct (q <=? hi + 1) eqn:E; bool_prop.
        + assert ((if hi <? q then q else hi) = q) as -> by (case_match; bool_prop; lia).
          split; [cbn [below Lo Hi]; split_and!; (lia || done)|].
          intros p. rewrite !Contains_cons, !orb_true_iff, !in_range_iff. cbn [Lo Hi].
          assert (lo <= p <= q ↔ lo <= p <= hi ∨ p = q) by lia. tauto.
        + split; [cbn [below Lo Hi]; split_and!; (lia || done)|].
          intros p. rewrite !Contains_cons, !orb_true_iff, !in_range_iff. cbn [Lo Hi].
          assert (q <= p <= q ↔ p = q) by lia. tauto. }
    destruct (IH out' q Hl Hq' Ho') as (b' & Hb' & E). exists b'. split; [done|].
    intros p. rewrite E, E', elem_of_cons. tauto.
Qed.

Lemma portSetOf_spec m l :
  (∀ p, p ∈ l → m <= p) →
  canon_from m (portSetOf l) ∧ ∀ p, Contains (portSetOf l) p = true ↔ p ∈ l.
Proof.
  intros Hl. unfold portSetOf.
  destruct (merge_ports_spec m (sort_Ints l) [] m) as (b & Hb & E).
  - apply sort_Ints_sorted.
  - intros p ?%elem_of_sort_Ints%Hl. done.
  - done.
  - split; [by apply (below_canon m b)|]. intros p. rewrite Contains_reverse, E, elem_of_sort_Ints.
    cbn. intuition congruence.
Qed.

Definition is_int (z : Z) : Prop := - 2 ^ 63 <= z < 2 ^ 63.
(** The rule's numbers are Go [int]s, as decoded. *)
Definition wf_rule (r : portForward) : Prop := is_int (snd (portRange r)).

Lemma int_id z : is_int z → int z = z.
Proof. unfold is_int, int. intros. rewrite Z.mod_small by lia. lia. Qed.

Definition is_port (p : Z) : Prop := minPort <= p <= maxPort.

Lemma elem_of_add_bound s p q : p ∈ add_bound s q ↔ p ∈ s ∨ is_port q ∧ p = q.
Proof.
  unfold add_bound, is_port. destruct ((minPort <=? q) && (q <=? maxPort)) eqn:E; bool_prop; set_solver by lia.
Qed.
Lemma elem_of_bound_set rules b :
  b ∈ bound_set rules ↔ b = minPort ∨
    is_port b ∧ ∃ r, r ∈ rules ∧ (b = fst (portRange r) ∨ b = int (snd (portRange r) + 1)).
Proof.
  unfold bound_set.
  enough (∀ s, b ∈ foldl (λ s r, let '(lo, hi) := portRange r in add_bound (add_bound s lo) (int (hi + 1))) s rules ↔
    b ∈ s ∨ is_port b ∧ ∃ r, r ∈ rules ∧ (b = fst (portRange r) ∨ b = int (snd (portRange r) + 1))) as H.
  { rewrite H, elem_of_singleton. done. }
  induction rules as [|r rules IH]; intros s; cbn [foldl].
  - split; [auto|]. intros [?|(_ & r & []%elem_of_nil & _)]; done.
  - rewrite IH. destruct (portRange r) as [lo hi] eqn:E. rewrite !elem_of_add_bound. split.
    + intros [[[?|[? ->]]|[? ->]]|(? & r' & ? & ?)]; [auto|right; split; [done|]; exists r..|].
      * rewrite E. split; [left|auto].
      * rewrite E. split; [left|auto].
      * right. split; [done|]. exists r'. split; [by right|done].
    + intros [?|(? & r' & [->|?]%elem_of_cons & Hb)]; [auto| |right; eauto].
      rewrite E in Hb. cbn in Hb. destruct Hb; subst; auto.
Qed.

(** Between two boundaries the verdict does not change. *)
Lemma forwards_const rules ip lo p :
  Forall wf_rule rules → is_port lo → is_port p → lo <= p →
  (∀ b, b ∈ bound_set rules → b <= lo ∨ p < b) → forwards rules ip p = forwards rules ip lo.
Proof.
  intros Hwf Hlo Hp Hle Hb.
  assert (∀ r, r ∈ rules → rule_matches r ip p = rule_matches r ip lo) as Hm.
  { intros r Hr. rewrite Forall_forall in Hwf. pose proof (Hwf r Hr) as Hw. unfold wf_rule in Hw.
    pose proof (Hb (fst (portRange r))) as B1. pose proof (Hb (int (snd (portRange r) + 1))) as B2.
    rewrite elem_of_bound_set in B1, B2. unfold rule_matches.
    destruct (portRange r) as [l h] eqn:E. cbn [fst snd] in *.
    assert ((p <? l) || (h <? p) = ((lo <? l) || (h <? lo))) as ->; [|done].
    assert (l <= lo ∨ p < l) as Hl.
    { destruct (decide (is_port l)); [|unfold is_port in *; lia].
      apply B1. right. split; [done|]. exists r. rewrite E. auto. }
    assert (h < lo ∨ p <= h) as Hh.
    { destruct (decide (is_port (h + 1))); [|unfold is_port in *; lia].
      rewrite int_id in B2 by (unfold is_int, is_port, minPort, maxPort in *; lia).
      enough (h + 1 <= lo ∨ p < h + 1) by lia.
      apply B2. right. split; [done|]. exists r. rewrite E. cbn.
      rewrite int_id by (unfold is_int, is_port, minPort, maxPort in *; lia). auto. }
    apply eq_bool_prop_intro. rewrite !Is_true_true. bool_prop. lia. }
  clear -Hm. induction rules as [|r rules IH]; cbn; [done|].
  rewrite (Hm r) by left. rewrite IH by (intros; apply Hm; by right). done.
Qed.

Lemma add_segment_spec m lo hi out :
  m <= lo <= hi → below m (lo - 1) out →
  below m hi (add_segment lo hi out) ∧
  ∀ p, Contains (add_segment lo hi out) p = true ↔ Contains out p = true ∨ lo <= p <= hi.
Proof.
  intros Hm Ho. destruct out as [|[a b] out]; cbn [add_segment below Lo Hi] in *.
  - split; [lia|]. intros p. rewrite Contains_cons, orb_true_iff, in_range_iff. cbn. tauto.
  - destruct Ho as (? & ? & Ho). destruct (b =? lo - 1) eqn:E; bool_prop.
    + split; [cbn [below Lo Hi]; split_and!; (lia || done)|].
      intros p. rewrite !Contains_cons, !orb_true_iff, !in_range_iff. cbn [Lo Hi].
      assert (a <= p <= hi ↔ a <= p <= b ∨ lo <= p <= hi) by lia. tauto.
    + split; [cbn [below Lo Hi]; split_and!; (lia || done)|].
      intros p. rewrite !Contains_cons, !orb_true_iff, !in_range_iff. cbn [Lo Hi]. tauto.
Qed.

(** The ports below [m] that are forwarded are those collected so far. *)
Definition collected (rules : list portForward) (ip : string) (m : Z) (out : list PortRange) : Prop :=
  below minPort (m - 1) out ∧
  ∀ p, Contains out p = true ↔ minPort <= p < m ∧ forwards rules ip p = true.

(** One segment of the loop: [lo] and every port below the next boundary. *)
Lemma segment_step rules ip lo next out :
  Forall wf_rule rules → minPort <= lo < next → next <= maxPort + 1 →
  (∀ b, b ∈ bound_set rules → b <= lo ∨ next <= b) → collected rules ip lo out →
  collected rules ip next
    (if negb (forwards rules ip lo) then out else add_segment lo (next - 1) out).
Proof.
  intros Hwf Hlo Hn Hb [Ho E].
  assert (∀ p, lo <= p < next → forwards rules ip p = forwards rules ip lo) as Hc.
  { intros p ?. apply forwards_const; [done|unfold is_port; lia..|lia|]. intros b []%Hb; [by left|right; lia]. }
  destruct (add_segment_spec minPort lo (next - 1) out) as [Ha Ea]; [lia|done|].
  destruct (forwards rules ip lo) eqn:F; cbn [negb]; (split; [first [done | eapply below_mono; [|done]; lia]|]);
    intros p; rewrite ?Ea, E; split.
  - intros [[??]|?]; (split; [lia|]); [done|]. by rewrite Hc by lia.
  - intros [? Hf]. destruct (decide (p < lo)); [left; split; [lia|done]|right; lia].
  - intros [??]. split; [lia|done].
  - intros [? Hf]. split; [|done]. destruct (decide (p < lo)); [lia|].
    rewrite Hc in Hf by lia. congruence.
Qed.

Lemma segments_spec rules ip rest lo out :
  Forall wf_rule rules → StronglySorted Z.lt (lo :: rest) → (∀ b, b ∈ lo :: rest → is_port b) →
  (∀ b, b ∈ bound_set rules → b <= lo ∨ b ∈ rest) → collected rules ip lo out →
  collected rules ip (maxPort + 1) (segments rules ip (lo :: rest) out).
Proof.
  intros Hwf. revert lo out. induction rest as [|b rest IH]; intros lo out Hs Hp Hb Ho;
    apply StronglySorted_inv in Hs as [Hs Hlt]; rewrite Forall_forall in Hlt;
    pose proof (Hp lo (list_elem_of_here _ _)) as Hlo; unfold is_port in Hlo.
  - change (segments rules ip [lo] out) with
      (if negb (forwards rules ip lo) then out else add_segment lo (maxPort + 1 - 1) out).
    apply segment_step; [done|lia..| |done]. intros b [?|[]%elem_of_nil]%Hb. by left.
  - cbn [segments]. pose proof (Hlt b (list_elem_of_here _ _)).
    pose proof (Hp b ltac:(right; left)) as Hbp. unfold is_port in Hbp. apply IH.
    + done.
    + intros c Hin. apply Hp. by right.
    + intros c [?|[->|?]%elem_of_cons]%Hb; [left; lia|by left|by right].
    + apply segment_step; [done|lia..| |done].
      intros c [?|[->|Hin]%elem_of_cons]%Hb; [by left|by right|right].
      apply StronglySorted_inv in Hs as [_ Hs]. rewrite Forall_forall in Hs. apply Hs in Hin. lia.
Qed.

Lemma StronglySorted_lt l : NoDup l → StronglySorted Z.le l → StronglySorted Z.lt l.
Proof.
  induction 1 as [|x l Hx _ IH]; intros Hs; constructor; apply StronglySorted_inv in Hs as [Hs Hle]; [by apply IH|].
  rewrite Forall_forall in *. intros y Hy. specialize (Hle y Hy). assert (x ≠ y) by congruence. lia.
Qed.

(** The boundaries: strictly increasing from [minPort], all of them ports. *)
Lemma breakpoints_spec rules :
  ∃ rest, breakpoints rules = minPort :: rest ∧ StronglySorted Z.lt (minPort :: rest) ∧
    (∀ b, b ∈ minPort :: rest → is_port b) ∧ (∀ b, b ∈ bound_set rules → b <= minPort ∨ b ∈ rest).
Proof.
  assert (∀ b, b ∈ breakpoints rules ↔ b ∈ bound_set rules) as Hin.
  { intros b. unfold breakpoints. by rewrite elem_of_sort_Ints, elem_of_elements. }
  assert (StronglySorted Z.lt (breakpoints rules)) as Hs.
  { apply StronglySorted_lt; [|apply sort_Ints_sorted]. unfold breakpoints, sort_Ints.
    rewrite merge_sort_Permutation. apply NoDup_elements. }
  assert (∀ b, b ∈ breakpoints rules → is_port b) as Hp.
  { intros b Hb%Hin. apply elem_of_bound_set in Hb as [->|[? _]]; [|done]. unfold is_port, minPort, maxPort. lia. }
  assert (minPort ∈ breakpoints rules) as Hm by (apply Hin, elem_of_bound_set; by left).
  destruct (breakpoints rules) as [|lo rest]; [by apply elem_of_nil in Hm|].
  assert (lo = minPort) as ->.
  { apply elem_of_cons in Hm as [->|Hm]; [done|]. apply StronglySorted_inv in Hs as [_ Hlt].
    rewrite Forall_forall in Hlt. apply Hlt in Hm. pose proof (Hp lo (list_elem_of_here _ _)) as [? _]. lia. }
  exists rest. split_and!; [done..|]. intros b [->|?]%Hin%elem_of_cons; [left; lia|by right].
Qed.

Lemma forwardedPorts_spec rules ip :
  Forall wf_rule rules →
  canon (forwardedPorts rules ip) ∧
  ∀ p, Contains (forwardedPorts rules ip) p = true ↔ is_port p ∧ forwards rules ip p = true.
Proof.
  intros Hwf. unfold forwardedPorts. destruct (breakpoints_spec rules) as (rest & -> & Hs & Hp & Hb).
  destruct (segments_spec rules ip rest minPort [] Hwf Hs Hp Hb) as [Ho E].
  { split; [done|]. intros p. cbn. split; [done|]. lia. }
  split; [by eapply below_canon|]. intros p. rewrite Contains_reverse, E. unfold is_port.
  assert (minPort <= p < maxPort + 1 ↔ minPort <= p <= maxPort) as -> by lia. done.
Qed.

(** The loop the segments replace: every port of the space on its own. *)
Definition obvious (rules : list portForward) (ip : string) : PortSet :=
  portSetOf (List.filter (forwards rules ip) (seqZ minPort maxPort)).

Lemma obvious_ports rules ip p :
  p ∈ List.filter (forwards rules ip) (seqZ minPort maxPort) ↔ is_port p ∧ forwards rules ip p = true.
Proof.
  rewrite list_elem_of_In, List.filter_In, <- list_elem_of_In, elem_of_seqZ. unfold is_port, minPort, maxPort.
  assert (1 <= p < 1 + 65535 ↔ 1 <= p <= 65535) as -> by lia. done.
Qed.

(** C34: evaluating the rules once per segment between their boundaries gives
    exactly the set the loop over all 65535 ports would, whatever the rules say
    (reversed or out-of-range intervals and the largest [int] included): sorted,
    merged, and holding a port exactly when the first rule that matches it is
    not an ignore rule. *)
Theorem forwarded_exact rules ip :
  Forall wf_rule rules →
  forwardedPorts rules ip = obvious rules ip ∧
  canon (forwardedPorts rules ip) ∧
  (∀ p, Contains (forwardedPorts rules ip) p = true ↔ is_port p ∧ forwards rules ip p = true) ∧
  Count (forwardedPorts rules ip) =
    Z.of_nat (length (List.filter (forwards rules ip) (seqZ minPort maxPort))).
Proof.
  intros Hwf. destruct (forwardedPorts_spec rules ip Hwf) as [Hc Hp]. split_and!; [|done..|].
  - destruct (portSetOf_spec minPort (List.filter (forwards rules ip) (seqZ minPort maxPort))) as [Hc' E].
    { intros p [[??] _]%obvious_ports. done. }
    eapply canon_ext; [exact Hc|exact Hc'|]. intros p. unfold obvious. by rewrite Hp, E, obvious_ports.
  - destruct (Count_ports _ _ Hc) as [-> Hn]. f_equal. apply Permutation_length, NoDup_Permutation.
    + done.
    + apply NoDup_ListNoDup, List.NoDup_filter, NoDup_ListNoDup, NoDup_seqZ.
    + intros p. by rewrite elem_of_ports, Hp, obvious_ports.
Qed.

Definition ex_rules : list portForward :=
  [MkRule "127.0.0.1" false 4777 (4777, 4777) false "";
   MkRule "" true 0 (65000, 2 ^ 63 - 1) true "";
   MkRule "127.0.0.1" false 1 (1, 65535) true ""].
Lemma forwarded_exact_witness :
  PortSet_String (forwardedPorts ex_rules guestLoopback) = "4777" ∧
  PortSet_String (forwardedPorts ex_rules guestWildcard) = "1-64999" ∧
  forwardedPorts ex_rules guestWildcard = obvious ex_rules guestWildcard.
Proof.
  split; [vm_compute; reflexivity|]. split; [vm_compute; reflexivity|].
  refine (proj1 (forwarded_exact ex_rules guestWildcard _)).
  repeat constructor; unfold wf_rule, is_int; cbn; lia.
Defined.

(** A forwarder is reported exactly when its process holds the running
    instance and some port of either guest address is still forwarded. *)
Lemma canon_nonempty s : s ≠ [] ↔ ∃ p, canon s → Contains s p = true.
Proof.
  destruct s as [|r s]; split.
  - done.
  - intros [p H]. by specialize (H I).
  - intros _. exists (Lo r). intros [? _]. rewrite Contains_cons, orb_true_iff, in_range_iff. lia.
  - done.
Qed.
Theorem active_iff li :
  Forall wf_rule (li_PortForwards li) →
  Active (forwardingOf li) = true ↔
  ToLower (li_Status li) = "running" ∧ li_HostAgentPID li ≠ 0 ∧
  ∃ p ip, is_port p ∧ (ip = guestLoopback ∨ ip = guestWildcard) ∧ forwards (li_PortForwards li) ip p = true.
Proof.
  intros Hwf.
  assert (∀ ip, (0 <? length (forwardedPorts (li_PortForwards li) ip))%nat = true ↔
    ∃ p, is_port p ∧ forwards (li_PortForwards li) ip p = true) as H.
  { intros ip. destruct (forwardedPorts_spec _ ip Hwf) as [Hc Hp]. setoid_rewrite <- Hp. 
    rewrite Nat.ltb_lt. split.
    - intros Hl. destruct (proj1 (canon_nonempty (forwardedPorts (li_PortForwards li) ip))) as [p ?]; [|eauto].
      intros E. rewrite E in Hl. cbn in Hl. lia.
    - intros [p Hq]. destruct (forwardedPorts _ _); [done|cbn; lia]. }
  unfold Active, forwardingOf, running. cbn [HostAgent Loopback Wildcard]. rewrite !andb_true_iff, orb_true_iff, !H. bool_prop.
  split.
  - intros [[??] [(p & ?)|(p & ?)]]; (split_and!; [done..|]).
    + exists p, guestLoopback. tauto.
    + exists p, guestWildcard. tauto.
  - intros (? & ? & p & ip & ? & [-> | ->] & ?); (split; [done|]); eauto.
Qed.

(** ** What gvproxy's table says *)

(** An entry that is a publication of the user's: [p] is its Mac-side port. *)
Definition publishes (e : gvproxyForward) (wild : bool) (p : Z) : Prop :=
  ∃ g host, portOf (gv_Remote e) = Some g ∧ g ≠ 22 ∧ g ≠ DefaultAgentPort ∧
    hostPortOf (gv_Local e) = Some (host, p) ∧ is_wild host = wild.

Lemma hostPortOf_port s h p : hostPortOf s = Some (h, p) → is_port p.
Proof. unfold hostPortOf, is_port. intros H. repeat case_match; simplify_eq. bool_prop. lia. Qed.

Lemma classify_Some e w p : classify e = Some (w, p) ↔ publishes e w p.
Proof.
  unfold classify, publishes. split.
  - intros H. repeat case_match; simplify_eq. bool_prop. eexists _, _. split_and!; (done || lia).
  - intros (g & h & -> & H1 & H2 & -> & <-). apply Z.eqb_neq in H1, H2. by rewrite H1, H2.
Qed.
Lemma elem_of_ports_where w es p : p ∈ ports_where w es ↔ ∃ e, e ∈ es ∧ publishes e w p.
Proof.
  unfold ports_where. rewrite elem_of_omap. split; intros (e & He & H); exists e; (split; [done|]).
  - destruct (classify e) as [[w' q]|] eqn:E; [|done]. cbn in H. case_match; simplify_eq.
    apply eqb_prop in H0 as ->. by apply classify_Some.
  - apply classify_Some in H as ->. cbn. by rewrite eqb_reflx.
Qed.
Lemma ports_where_spec w es :
  canon (portSetOf (ports_where w es)) ∧
  ∀ p, Contains (portSetOf (ports_where w es)) p = true ↔ ∃ e, e ∈ es ∧ publishes e w p.
Proof.
  destruct (portSetOf_spec minPort (ports_where w es)) as [Hc Hp].
  - intros p (e & _ & g & h & _ & _ & _ & Hl & _)%elem_of_ports_where.
    apply hostPortOf_port in Hl. apply Hl.
  - split; [done|]. intros p. by rewrite Hp, elem_of_ports_where.
Qed.

(** Any answer but the table is an error with nothing forwarded; the table
    gives, sorted and merged, exactly the Mac-side ports of the publications
    that are neither podman's ssh nor the agent's own. *)
Theorem gvproxy_table unmarshal inst marker body :
  has_byte "010" marker = false →
  let '(f, err) := ParseGvproxyForwards unmarshal inst (marker +:+ String "010" body) in
  (HostAgent f = true ↔ err = None) ∧ canon (Loopback f) ∧ canon (Wildcard f) ∧
  match (if String.eqb (TrimSpace marker) "drawbridge-gvproxy=ok" then unmarshal (TrimSpace body) else None) with
  | None => err ≠ None ∧ Active f = false
  | Some es => err = None ∧
      ∀ p, (Contains (Wildcard f) p = true ↔ ∃ e, e ∈ es ∧ publishes e true p) ∧
           (Contains (Loopback f) p = true ↔ ∃ e, e ∈ es ∧ publishes e false p)
  end.
Proof.
  intros Hm. unfold ParseGvproxyForwards.
  change (String "010" body) with (String "010" "" +:+ body). rewrite Cut_fresh by done.
  destruct (String.eqb _ _); [|by split_and!]. destruct (unmarshal _) as [es|]; [|by split_and!].
  destruct (ports_where_spec true es) as [Hw Ew], (ports_where_spec false es) as [Hl El].
  by split_and!.
Qed.

(** Podman's ssh and the agent's publish are left out of what is reported. *)
Example ex_gvproxy :
  let table _ := Some [MkGv "127.0.0.1:50022" "192.168.127.2:22"; MkGv "127.0.0.1:4778" "192.168.127.2:4777";
                       MkGv ":8080" "192.168.127.2:80"; MkGv "0.0.0.0:8081" "192.168.127.2:81"] in
  let '(f, err) := ParseGvproxyForwards table "dev" ("drawbridge-gvproxy=ok" +:+ String "010" "[]") in
  (PortSet_String (Wildcard f), PortSet_String (Loopback f), err) = ("8080-8081", "none", None).
Proof. vm_compute. reflexivity. Qed.
