(* ===== verification/VmRef.v ===== *)
(** * VmRef: naming a VM, and the files derived from the name

    [src/internal/vmprovider/vmprovider.go] reads a [-vm] value into a [Ref];
    the transport secret ([transportauth/path.go]), the per-VM record
    ([vmrecord]) and the introspection socket ([introspect/paths.go]) are found
    under names derived from it. [src/cmd/drawbridge/guest.go] picks the VM
    [up] attaches to and spells it back. *)

From S2P Require Import Prelude GoStr OciRuntime GoPath.
Open Scope string_scope.
Open Scope list_scope.
Open Scope Z_scope.

(** ** Providers *)

Definition ProviderLima : string := "lima".
Definition ProviderColima : string := "colima".
Definition ProviderPodman : string := "podman".

Record Instance := MkInstance {
  i_Provider : string;
  i_Name : string;
  i_VMType : string;
  i_LeaseName : string;
  i_Running : bool;
  i_MACAddress : string;
  i_Attachable : bool
}.

(** [Attachability]; the note is a sentence and is left out. *)
Definition Attachability (provider vmType : string) : bool :=
  let t := ToLower (TrimSpace vmType) in
  if String.eqb provider ProviderPodman then String.eqb t "libkrun" || String.eqb t "applehv"
  else String.eqb t "vz".

Definition LeaseName (provider inst : string) : string :=
  if String.eqb provider ProviderColima then inst
  else if String.eqb provider ProviderPodman then ""
  else "lima-" +:+ inst.

Definition ColimaInstance (profile : string) : string :=
  if String.eqb profile "" || String.eqb profile "default" then "colima"
  else if String.eqb profile "colima" || HasPrefix profile "colima-" then profile
  else "colima-" +:+ profile.

(** ** Paths *)

Section env.
(** The environment, the user's home directory when there is one, and the
    directories that exist. *)
Variable getenv : string → string.
Variable dirExists : string → bool.

Definition limaSubdir : string := "_lima".
Definition LimaHome (home : option string) : string :=
  let h := TrimSpace (getenv "LIMA_HOME") in
  if negb (String.eqb h "") then h
  else match home with Some home => filepath_Join [home; ".lima"] | None => "" end.

Definition dir_exists (path : string) : bool := negb (String.eqb path "") && dirExists path.

Definition colimaHome (home : string) : string :=
  let xdg := TrimSpace (getenv "XDG_CONFIG_HOME") in
  let xdg := if String.eqb xdg "" && negb (String.eqb home "") then filepath_Join [home; ".config"] else xdg in
  let xdgHome := if String.eqb xdg "" then "" else filepath_Join [xdg; "colima"; limaSubdir] in
  let v := TrimSpace (getenv "COLIMA_HOME") in
  let candidates :=
    (if String.eqb v "" then [] else [filepath_Join [v; limaSubdir]]) ++
    (if String.eqb home "" then [] else [filepath_Join [home; ".colima"; limaSubdir]]) ++
    (if String.eqb xdgHome "" then [] else [xdgHome]) in
  match List.find dir_exists candidates with Some c => c | None => xdgHome end.
Definition ColimaHome (home : option string) : string := colimaHome (default "" home).
End env.

(** ** Refs *)

Record Ref := MkRef {
  r_Provider : string;
  r_Instance : string;
  r_LeaseName : string;
  r_LimaHome : string;
  r_Spec : string
}.

(** [instanceNameRE]: [^[A-Za-z0-9][A-Za-z0-9._-]*$] *)
Definition is_alnum (c : ascii) : bool :=
  let n := code c in
  ((65 <=? n) && (n <=? 90)) || ((97 <=? n) && (n <=? 122)) || ((48 <=? n) && (n <=? 57)).
Definition name_char (c : ascii) : bool := is_alnum c || existsb (Ascii.eqb c) ["."; "_"; "-"]%char.
Definition instanceNameRE (s : string) : bool :=
  match s with EmptyString => false | String c s => is_alnum c && str_forall name_char s end.
Definition maxNameLen : nat := 64.

Definition known_provider (p : string) : bool :=
  existsb (String.eqb p) [ProviderLima; ProviderColima; ProviderPodman].

Inductive ref_err := UnknownProvider | InvalidName.

Section parse.
(** [ColimaHome()] at the time of the call. *)
Variable colima_home : string.

Definition ParseRef (s : string) : result ref_err Ref :=
  let s := TrimSpace s in
  let '(provider, name) :=
    match Cut ":" s with Some (p, n) => (TrimSpace p, TrimSpace n) | None => (ProviderLima, s) end in
  if negb (known_provider provider) then Err UnknownProvider
  else if negb (instanceNameRE name) || (maxNameLen <? String.length name)%nat then Err InvalidName
  else
    let inst := if String.eqb provider ProviderColima then ColimaInstance name else name in
    Ok (MkRef provider inst (LeaseName provider inst)
          (if String.eqb provider ProviderColima then colima_home else "") s).

(** [cmd/drawbridge/inherit.go] *)
Definition sameVM (a b : string) : bool :=
  match ParseRef a, ParseRef b with
  | Ok ra, Ok rb => String.eqb (r_Provider ra) (r_Provider rb) && String.eqb (r_Instance ra) (r_Instance rb)
  | _, _ => false
  end.

(** ** Selection ([cmd/drawbridge/guest.go]) *)

Definition qualify (i : Instance) : string := i_Provider i +:+ ":" +:+ i_Name i.
Definition refFor (i : Instance) : result ref_err Ref := ParseRef (qualify i).
Definition eligible (insts : list Instance) : list Instance :=
  List.filter (λ i, i_Running i && i_Attachable i) insts.

Inductive pick_err :=
| BadArg (e : ref_err) | NoSuchVM | Ambiguous | NotRunning | NotAttachable | NoCandidate | SeveralCandidates.

Definition matchNamed (arg : string) (insts : list Instance) : result pick_err Instance :=
  let arg := TrimSpace arg in
  match ParseRef arg with
  | Err e => Err (BadArg e)
  | Ok ref =>
      match Cut ":" arg with
      | Some _ =>
          of_option NoSuchVM
            (List.find (λ i, String.eqb (i_Provider i) (r_Provider ref) && String.eqb (i_Name i) (r_Instance ref)) insts)
      | None =>
          match List.filter (λ i, String.eqb (i_Name i) arg ||
                  (String.eqb (i_Provider i) ProviderColima && String.eqb (i_Name i) (ColimaInstance arg))) insts with
          | [] => Err NoSuchVM
          | [i] => Ok i
          | _ => Err Ambiguous
          end
      end
  end.

Definition echoSpelling (arg : string) (i : Instance) (ref : Ref) : string :=
  match ParseRef arg with
  | Ok typed =>
      if String.eqb (r_Provider typed) (r_Provider ref) && String.eqb (r_Instance typed) (r_Instance ref)
      then r_Spec typed else qualify i
  | Err _ => qualify i
  end.

Definition lift_ref (r : result ref_err Ref) : result pick_err Ref :=
  match r with Ok r => Ok r | Err e => Err (BadArg e) end.

Definition pickImplicit (insts : list Instance) : result pick_err (Ref * Instance) :=
  match eligible insts with
  | [] => Err NoCandidate
  | [i] => ref ← lift_ref (refFor i); Ok (ref, i)
  | _ => Err SeveralCandidates
  end.

Definition with_spec (ref : Ref) (spec : string) : Ref :=
  MkRef (r_Provider ref) (r_Instance ref) (r_LeaseName ref) (r_LimaHome ref) spec.

Definition pickInstance (arg : string) (insts : list Instance) : result pick_err (Ref * Instance) :=
  if String.eqb (TrimSpace arg) "" then pickImplicit insts
  else
    i ← matchNamed arg insts;
    if negb (i_Running i) then Err NotRunning
    else if negb (i_Attachable i) then Err NotAttachable
    else ref ← lift_ref (refFor i); Ok (with_spec ref (echoSpelling arg i ref), i).
End parse.

(** ** The files of a VM *)

(** [homeDirFor]; [lookup] is the user database, [fallback] the process's own
    home. *)
Inductive home_err := UnknownUser | NoHome.
Definition homeDirFor (euid : Z) (sudoUser : string) (lookup : string → option string)
    (fallback : option string) : result home_err string :=
  if (euid =? 0) && negb (String.eqb sudoUser "") then
    match lookup sudoUser with
    | None => Err UnknownUser
    | Some h => if String.eqb h "" then Err NoHome else Ok h
    end
  else of_option NoHome fallback.

Definition Dir (home : string) : string :=
  filepath_Join [home; "Library"; "Application Support"; "drawbridge"].
Definition secret_FileName (ref : Ref) : string :=
  "transport-secret-" +:+ r_Provider ref +:+ "-" +:+ r_Instance ref.
Definition PathForRef (home : string) (ref : Ref) : string :=
  filepath_Join [Dir home; secret_FileName ref].
Definition record_FileName (ref : Ref) : string :=
  "vm-" +:+ r_Provider ref +:+ "-" +:+ r_Instance ref +:+ ".json".
Definition record_Path (home : string) (ref : Ref) : string :=
  filepath_Join [Dir home; record_FileName ref].
Definition UserRunDir (home : string) : string := filepath_Join [Dir home; "run"].
Definition UserSocketPath (home provider inst : string) : string :=
  filepath_Join [UserRunDir home; "introspect-" +:+ provider +:+ "-" +:+ inst +:+ ".sock"].
Definition RootSocketPath : string := "/var/run/drawbridge/introspect.sock".
Definition AutoPath (euid : Z) (home : string) (ref : Ref) : string :=
  if euid =? 0 then RootSocketPath else UserSocketPath home (r_Provider ref) (r_Instance ref).

Definition VMFromSocketPath (path : string) : option (string * string) :=
  let base := Base path in
  if negb (HasPrefix base "introspect-") || negb (HasSuffix base ".sock") then None
  else match Cut "-" (TrimSuffix (TrimPrefix base "introspect-") ".sock") with
       | Some (provider, inst) =>
           if String.eqb provider "" || String.eqb inst "" then None else Some (provider, inst)
       | None => None
       end.

(** ** Facts *)

Lemma name_plain s : instanceNameRE s = true → str_forall name_char s = true ∧ s ≠ "".
Proof.
  destruct s as [|c s]; [done|]. cbn. intros [H1 H2]%andb_true_iff. split; [|done].
  apply andb_true_iff. split; [|done]. unfold name_char. by rewrite H1.
Qed.
Lemma name_char_space c : name_char c = true → negb (is_space c) = true.
Proof.
  intros H. destruct (is_space c) eqn:E; [|done]. exfalso. revert H E. unfold name_char, is_alnum, is_space.
  destruct c as [[] [] [] [] [] [] [] []]; vm_compute; congruence.
Qed.

Lemma known_provider_cases p :
  known_provider p = true ↔ p = ProviderLima ∨ p = ProviderColima ∨ p = ProviderPodman.
Proof. unfold known_provider. cbn. bool_prop. intuition congruence. Qed.
Lemma known_provider_fresh p c :
  known_provider p = true → (c = ":" ∨ c = "-" ∨ c = "/")%char → has_byte c p = false.
Proof. intros [->|[->| ->]]%known_provider_cases [->|[->| ->]]; done. Qed.

Lemma ColimaInstance_cases p :
  (ColimaInstance p = "colima") ∨ (ColimaInstance p = p ∧ HasPrefix p "colima-" = true) ∨
  ColimaInstance p = "colima-" +:+ p.
Proof.
  unfold ColimaInstance. destruct (_ || _); [auto|]. destruct (String.eqb_spec p "colima") as [->|]; [auto|].
  cbn [orb]. destruct (HasPrefix p "colima-"); auto.
Qed.
Lemma ColimaInstance_prefix p : HasPrefix p "colima-" = true → ColimaInstance p = p.
Proof.
  intros H. unfold ColimaInstance. rewrite H, orb_true_r.
  destruct (String.eqb_spec p "") as [->|]; [done|]. by destruct (String.eqb_spec p "default") as [->|].
Qed.
Lemma ColimaInstance_idem p : ColimaInstance (ColimaInstance p) = ColimaInstance p.
Proof.
  destruct (ColimaInstance_cases p) as [-> |[[-> H]| ->]]; [done|by rewrite ColimaInstance_prefix|].
  apply ColimaInstance_prefix, HasPrefix_app.
Qed.
Lemma ColimaInstance_chars p :
  str_forall name_char p = true → str_forall name_char (ColimaInstance p) = true ∧ ColimaInstance p ≠ "".
Proof.
  intros H. destruct (ColimaInstance_cases p) as [-> |[[-> Hp]| ->]]; [done| |done].
  split; [done|]. by intros ->.
Qed.

(** What a parsed reference is. *)
Record parsed (r : Ref) : Prop := {
  pr_provider : known_provider (r_Provider r) = true;
  pr_chars : str_forall name_char (r_Instance r) = true;
  pr_nonempty : r_Instance r ≠ "";
  pr_lease : r_LeaseName r = LeaseName (r_Provider r) (r_Instance r);
  pr_colima : r_Provider r = ProviderColima → ColimaInstance (r_Instance r) = r_Instance r
}.
Lemma ParseRef_parsed ch s r : ParseRef ch s = Ok r → parsed r ∧ r_Spec r = TrimSpace s.
Proof.
  unfold ParseRef. destruct (match Cut _ _ with Some _ => _ | None => _ end) as [p n].
  destruct (known_provider p) eqn:Hp; [|done]. cbn [negb].
  destruct (instanceNameRE n) eqn:Hn; [|done]. cbn [negb orb]. case_match; [done|].
  intros [= <-]. apply name_plain in Hn as [Hn H0]. split; [|done]. 
  destruct (String.eqb_spec p ProviderColima) as [->|Hne].
  - apply ColimaInstance_chars in Hn as [??]. split; cbn; try done. intros _. apply ColimaInstance_idem.
  - split; cbn; done.
Qed.
Lemma ParseRef_trim ch s : ParseRef ch (TrimSpace s) = ParseRef ch s.
Proof. unfold ParseRef. by rewrite TrimSpace_idem. Qed.

Lemma chars_spaceless s : str_forall name_char s = true → TrimSpace s = s.
Proof. intros H. apply TrimSpace_plain. eapply str_forall_impl; [apply name_char_space|done]. Qed.
Lemma provider_spaceless p : known_provider p = true → str_forall (λ c, negb (is_space c)) p = true.
Proof. by intros [->|[->| ->]]%known_provider_cases. Qed.

(** The canonical spelling reads back as the pair it was made from. *)
Lemma ParseRef_canonical ch p n :
  known_provider p = true → str_forall name_char n = true →
  match ParseRef ch (p +:+ ":" +:+ n) with
  | Ok r => r_Provider r = p ∧ r_Instance r = if String.eqb p ProviderColima then ColimaInstance n else n
  | Err e => e = InvalidName
  end.
Proof.
  intros Hp Hn. unfold ParseRef.
  assert (TrimSpace (p +:+ ":" +:+ n) = p +:+ ":" +:+ n) as ->.
  { apply TrimSpace_plain. rewrite !str_forall_app, provider_spaceless by done. cbn.
    eapply str_forall_impl; [apply name_char_space|done]. }
  rewrite Cut_fresh by (apply known_provider_fresh; auto).
  rewrite (chars_spaceless n) by done. rewrite (TrimSpace_plain p) by by apply provider_spaceless.
  rewrite Hp. cbn [negb]. by destruct (_ || _).
Qed.

(** ** The files of a VM *)

Lemma Dir_prefix home : dir_prefix (Dir home) = Dir home +:+ "/" ∧ Dir home ≠ "".
Proof.
  assert (∃ d, d ≠ "" ∧ Dir home = TransportAuth.Clean (d +:+ String "/" "drawbridge")) as (d & Hd & E).
  { unfold Dir. cbn [filepath_Join]. destruct (String.eqb_spec home "") as [->|Hh].
    - by exists "Library/Application Support".
    - exists (home +:+ "/Library/Application Support"). split; [by destruct home|].
      f_equal. cbn [Join]. by rewrite append_assoc'. }
  rewrite E. split.
  - apply dir_prefix_clean. rewrite kept_snoc by done. by destruct (kept d).
  - rewrite Clean_snoc by done. by destruct (dir_prefix d).
Qed.
Lemma Dir_Join home n : plain n = true → filepath_Join [Dir home; n] = Dir home +:+ "/" +:+ n.
Proof. intros Hn. destruct (Dir_prefix home) as [E H0]. rewrite Join2 by done. by rewrite E, append_assoc'. Qed.

Lemma name_no c r : parsed r → name_char c = false → has_byte c (r_Instance r) = false.
Proof. intros Hr. by apply str_forall_has, pr_chars. Qed.
Lemma plain_app p s : has_byte "/" p = false → has_byte "/" s = false → (2 < String.length p)%nat →
  plain (p +:+ s) = true.
Proof.
  intros Hp Hs Hl. apply plain_iff. rewrite has_byte_app, Hp, Hs. split; [done|].
  destruct p as [|c [|c' [|c'' p]]]; cbn in Hl; [lia..|]. done.
Qed.

(** The three file names of a parsed reference, as plain names. *)
Lemma secret_plain r : parsed r → plain (secret_FileName r) = true.
Proof.
  intros Hr. apply plain_app; [done| |cbn; lia]. rewrite !has_byte_app.
  rewrite (known_provider_fresh _ _ (pr_provider _ Hr)) by auto. by rewrite (name_no _ _ Hr).
Qed.
Lemma record_plain r : parsed r → plain (record_FileName r) = true.
Proof.
  intros Hr. apply plain_app; [done| |cbn; lia]. rewrite !has_byte_app.
  rewrite (known_provider_fresh _ _ (pr_provider _ Hr)) by auto. by rewrite (name_no _ _ Hr).
Qed.
Definition socket_name (p n : string) : string := "introspect-" +:+ p +:+ "-" +:+ n +:+ ".sock".
Lemma socket_plain r : parsed r → plain (socket_name (r_Provider r) (r_Instance r)) = true.
Proof.
  intros Hr. apply plain_app; [done| |cbn; lia]. rewrite !has_byte_app.
  rewrite (known_provider_fresh _ _ (pr_provider _ Hr)) by auto. by rewrite (name_no _ _ Hr).
Qed.
Lemma socket_path home p n :
  plain (socket_name p n) = true →
  UserSocketPath home p n = Dir home +:+ "/run" +:+ String "/" (socket_name p n).
Proof.
  intros Hn. unfold UserSocketPath. fold (socket_name p n).
  assert (UserRunDir home = TransportAuth.Clean (Dir home +:+ String "/" "run")) as ER.
  { unfold UserRunDir. cbn [filepath_Join]. rewrite (proj2 (String.eqb_neq (Dir home) "")) by apply Dir_prefix. done. }
  assert (UserRunDir home = Dir home +:+ "/run") as EP by by apply Dir_Join.
  rewrite Join2; [|rewrite EP; by destruct (Dir home)|done].
  rewrite ER, dir_prefix_clean, <- ER, EP.
  - by rewrite !append_assoc'.
  - rewrite kept_snoc; [by destruct (kept (Dir home))|apply Dir_prefix|done].
Qed.

(** Two names of the same kind tell the same provider and instance. *)
Lemma pair_inj pre post ra rb :
  parsed ra → parsed rb →
  pre +:+ r_Provider ra +:+ "-" +:+ r_Instance ra +:+ post = pre +:+ r_Provider rb +:+ "-" +:+ r_Instance rb +:+ post →
  r_Provider ra = r_Provider rb ∧ r_Instance ra = r_Instance rb.
Proof.
  intros Ha Hb E%append_inj_l. apply Cut_inj in E as [-> E%append_inj_r]; [done|..];
    apply known_provider_fresh; auto using pr_provider.
Qed.

Lemma sameVM_iff ch a b ra rb :
  ParseRef ch a = Ok ra → ParseRef ch b = Ok rb →
  sameVM ch a b = true ↔ r_Provider ra = r_Provider rb ∧ r_Instance ra = r_Instance rb.
Proof. intros Ea Eb. unfold sameVM. rewrite Ea, Eb. bool_prop. done. Qed.

Lemma record_path_pair home ra rb :
  parsed ra → parsed rb →
  record_Path home ra = record_Path home rb ↔ r_Provider ra = r_Provider rb ∧ r_Instance ra = r_Instance rb.
Proof.
  intros Ha Hb. unfold record_Path. rewrite !Dir_Join by auto using record_plain.
  split; [|by intros [E1 E2]; unfold record_FileName; rewrite E1, E2].
  intros E%append_inj_l%append_inj_l. by apply (pair_inj "vm-" ".json").
Qed.
Lemma record_path_same home ch a b ra rb :
  ParseRef ch a = Ok ra → ParseRef ch b = Ok rb →
  sameVM ch a b = true ↔ record_Path home ra = record_Path home rb.
Proof.
  intros Ea Eb. rewrite (sameVM_iff _ _ _ _ _ Ea Eb).
  apply ParseRef_parsed in Ea as [Ha _], Eb as [Hb _]. by rewrite record_path_pair.
Qed.
Lemma record_path_secret home ra rb : parsed ra → parsed rb → PathForRef home ra ≠ record_Path home rb.
Proof.
  intros Ha Hb. unfold PathForRef, record_Path. rewrite !Dir_Join by auto using secret_plain, record_plain.
  intros E%append_inj_l%append_inj_l. discriminate.
Qed.

(** Two spellings of a VM find the same secret, the same record and the
    same introspection socket exactly when they name the same VM; the files are
    entries of the one directory (a name can neither leave it nor hit another
    kind of file), and the socket's path reads back as the VM it is for. *)
Theorem ref_files ch home a b ra rb :
  ParseRef ch a = Ok ra → ParseRef ch b = Ok rb →
  (sameVM ch a b = true ↔ PathForRef home ra = PathForRef home rb) ∧
  (sameVM ch a b = true ↔ record_Path home ra = record_Path home rb) ∧
  (sameVM ch a b = true ↔
    UserSocketPath home (r_Provider ra) (r_Instance ra) = UserSocketPath home (r_Provider rb) (r_Instance rb)) ∧
  PathForRef home ra = Dir home +:+ "/" +:+ secret_FileName ra ∧
  record_Path home ra = Dir home +:+ "/" +:+ record_FileName ra ∧
  PathForRef home ra ≠ record_Path home rb ∧
  VMFromSocketPath (UserSocketPath home (r_Provider ra) (r_Instance ra)) = Some (r_Provider ra, r_Instance ra).
Proof.
  intros Ea Eb. pose proof (record_path_same home _ _ _ _ _ Ea Eb) as HR.
  rewrite (sameVM_iff _ _ _ _ _ Ea Eb) in *.
  apply ParseRef_parsed in Ea as [Ha _], Eb as [Hb _].
  pose proof (record_path_secret home _ _ Ha Hb) as HN. revert HR HN.
  unfold PathForRef, record_Path. rewrite !socket_path by by apply socket_plain.
  rewrite !Dir_Join by auto using secret_plain, record_plain.
  intros HR HN. split_and!; [|done| |done|done|done|].
  - split; [by intros [E1 E2]; unfold secret_FileName; rewrite E1, E2|].
    intros E%append_inj_l%append_inj_l. apply (pair_inj "transport-secret-" ""); [done..|]. by rewrite !append_nil_r.
  - split; [by intros [E1 E2]; rewrite E1, E2|].
    intros E%append_inj_l%append_inj_l. apply (append_inj_l "/" (socket_name _ _)) in E.
    by apply (pair_inj "introspect-" ".sock").
  - unfold VMFromSocketPath. rewrite <- append_assoc'.
    pose proof (socket_plain _ Ha) as (Hs & H0 & _)%plain_iff. rewrite Base_snoc by done.
    unfold socket_name. rewrite HasPrefix_app, TrimPrefix_app.
    rewrite <- (append_assoc' "introspect-"), <- !append_assoc', HasSuffix_app. cbn [negb orb].
    rewrite !append_assoc', <- (append_assoc' (r_Provider ra)), <- append_assoc', TrimSuffix_app, append_assoc'.
    rewrite Cut_fresh by (apply known_provider_fresh; auto using pr_provider).
    rewrite (proj2 (String.eqb_neq (r_Instance ra) "")) by by apply pr_nonempty.
    destruct (String.eqb_spec (r_Provider ra) "") as [E|]; [|done].
    pose proof (pr_provider _ Ha) as Hp. by rewrite E in Hp.
Qed.
Lemma ref_files_witness :
  sameVM "H" "colima:default" " colima: colima" = true ∧
  PathForRef "/Users/x" (MkRef "colima" "colima" "colima" "H" "colima:default") =
    "/Users/x/Library/Application Support/drawbridge/transport-secret-colima-colima" ∧
  VMFromSocketPath (UserSocketPath "/Users/x" "colima" "colima") = Some ("colima", "colima").
Proof.
  split; [vm_compute; reflexivity|]. split; [vm_compute; reflexivity|].
  pose proof (ref_files "H" "/Users/x" "colima:default" " colima: colima"
    (MkRef "colima" "colima" "colima" "H" "colima:default") (MkRef "colima" "colima" "colima" "H" "colima: colima")
    eq_refl eq_refl) as (_ & _ & _ & _ & _ & _ & H).
  exact H.
Defined.

(** ** Selection *)

(** What a provider reports: its tag, a name of its own grammar, and for colima
    the Lima instance's name. *)
Definition wf_instance (i : Instance) : Prop :=
  known_provider (i_Provider i) = true ∧ str_forall name_char (i_Name i) = true ∧
  (i_Provider i = ProviderColima → ColimaInstance (i_Name i) = i_Name i).

Lemma refFor_Ok ch i r :
  wf_instance i → refFor ch i = Ok r →
  r_Provider r = i_Provider i ∧ r_Instance r = i_Name i ∧ r_Spec r = qualify i.
Proof.
  intros (Hp & Hn & Hc) E. pose proof (ParseRef_canonical ch _ _ Hp Hn) as H.
  unfold refFor, qualify in *. pose proof (ParseRef_parsed _ _ _ E) as [_ Hs]. rewrite E in H.
  destruct H as [H1 H2]. split_and!; [done| |].
  - rewrite H2. destruct (String.eqb_spec (i_Provider i) ProviderColima); auto.
  - rewrite Hs. apply TrimSpace_plain. rewrite !str_forall_app, provider_spaceless by done. cbn.
    eapply str_forall_impl; [apply name_char_space|done].
Qed.

Lemma matchNamed_Ok ch arg insts i :
  matchNamed ch arg insts = Ok i → i ∈ insts ∧
  ∃ typed, ParseRef ch arg = Ok typed ∧
    ((Cut ":" (TrimSpace arg) ≠ None ∧ i_Provider i = r_Provider typed ∧ i_Name i = r_Instance typed) ∨
     (Cut ":" (TrimSpace arg) = None ∧
      (i_Name i = TrimSpace arg ∨ i_Provider i = ProviderColima ∧ i_Name i = ColimaInstance (TrimSpace arg)) ∧
      ∀ j, j ∈ insts → i_Name j = TrimSpace arg → j = i)).
Proof.
  unfold matchNamed. rewrite ParseRef_trim. destruct (ParseRef ch arg) as [typed|] eqn:E; [|done].
  destruct (Cut ":" (TrimSpace arg)) as [[]|] eqn:C.
  - intros [Hin Hq]%of_option_Ok%List.find_some. apply list_elem_of_In in Hin. cbn in Hq. bool_prop.
    split; [done|]. exists typed. split; [done|]. left. split; [done|]. tauto.
  - set (P := λ j, _ || _). destruct (List.filter P insts) as [|j [|]] eqn:F; [done| |done]. intros [= ->].
    assert (∀ j, j ∈ insts ∧ P j = true ↔ j = i) as H.
    { intros j. rewrite list_elem_of_In. rewrite <- (List.filter_In P j insts), F. cbn. naive_solver. }
    destruct (proj2 (H i) eq_refl) as [Hin HP]. split; [done|]. exists typed. split; [done|]. right.
    split_and!; [done| |].
    + subst P. cbn in HP. bool_prop. tauto.
    + intros j Hj Ej. apply H. split; [done|]. subst P. cbn. by rewrite Ej, String.eqb_refl.
Qed.

(** What [up] attaches to and echoes back. Over the VMs the providers
    report, a selection is a running, attachable one of them; the reference
    handed on names it, and so does the spelling the user is shown: pasted into
    [install] or [drawbridged] it parses to the very same VM. With no argument
    it is the only eligible VM; a bare name is only resolved when no other VM
    has that name. *)
Theorem pick_echo ch arg insts ref i :
  (∀ j, j ∈ insts → wf_instance j) →
  pickInstance ch arg insts = Ok (ref, i) →
  i ∈ insts ∧ i_Running i = true ∧ i_Attachable i = true ∧
  r_Provider ref = i_Provider i ∧ r_Instance ref = i_Name i ∧
  (∃ again, ParseRef ch (r_Spec ref) = Ok again ∧
     r_Provider again = i_Provider i ∧ r_Instance again = i_Name i) ∧
  (TrimSpace arg = "" → eligible insts = [i]) ∧
  (TrimSpace arg ≠ "" → Cut ":" (TrimSpace arg) = None →
     ∀ j, j ∈ insts → i_Name j = TrimSpace arg → j = i).
Proof.
  intros Hwf. unfold pickInstance. destruct (String.eqb_spec (TrimSpace arg) "") as [E|E].
  - unfold pickImplicit. destruct (eligible insts) as [|i' [|]] eqn:F; [done| |done].
    assert (i' ∈ insts ∧ i_Running i' && i_Attachable i' = true) as [Hin Hr].
    { rewrite list_elem_of_In. unfold eligible in F. apply (List.filter_In (λ i, i_Running i && i_Attachable i)).
      rewrite F. by left. }
    intros (r & Hr' & [= -> ->])%result_bind_Ok. bool_prop.
    destruct (refFor ch i) as [r'|] eqn:ER; [|done]. injection Hr' as <-. 
    destruct (refFor_Ok _ _ _ (Hwf _ Hin) ER) as (H1 & H2 & H3).
    split_and!; [tauto..| |done|done]. eexists. rewrite H3. done.
  - intros (i' & Hm & H)%result_bind_Ok. apply matchNamed_Ok in Hm as (Hin & typed & ET & HM).
    destruct (i_Running i') eqn:R; [|done]. destruct (i_Attachable i') eqn:A; [|done]. cbn [negb] in H.
    apply result_bind_Ok in H as (r & Hr' & [= <- ->]). destruct (refFor ch i) as [r'|] eqn:ER; [|done].
    injection Hr' as <-. destruct (refFor_Ok _ _ _ (Hwf _ Hin) ER) as (H1 & H2 & H3). cbn [r_Provider r_Instance r_Spec with_spec].
    split_and!; [done..| |done|].
    + unfold echoSpelling. rewrite ET. pose proof (ParseRef_parsed _ _ _ ET) as [_ HS].
      case_match; [|eauto]. bool_prop. exists typed. rewrite HS, ParseRef_trim. intuition congruence.
    + intros _ C j Hj Ej. destruct HM as [[HC _]|(_ & _ & HU)]; [done|by apply HU].
Qed.
Definition ex_insts : list Instance :=
  [MkInstance "lima" "dev" "vz" "lima-dev" true "" true;
   MkInstance "colima" "colima-work" "vz" "colima-work" true "" true;
   MkInstance "podman" "spike" "libkrun" "" false "" true].
Definition ex_pick (arg : string) : option (string * string) :=
  match pickInstance "H" arg ex_insts with Ok (r, i) => Some (r_Spec r, i_Name i) | Err _ => None end.
Lemma pick_echo_witness :
  ex_pick "work" = Some ("colima:colima-work", "colima-work") ∧ ex_pick "" = None ∧
  ∃ again, ParseRef "H" "colima:colima-work" = Ok again ∧
    r_Provider again = "colima" ∧ r_Instance again = "colima-work".
Proof.
  split; [vm_compute; reflexivity|]. split; [vm_compute; reflexivity|].
  refine (proj1 (proj2 (proj2 (proj2 (proj2 (proj2 (pick_echo "H" "work" ex_insts
    (MkRef "colima" "colima-work" "colima-work" "H" "colima:colima-work")
    (MkInstance "colima" "colima-work" "vz" "colima-work" true "" true) _ eq_refl))))))).
  intros j [->|[->|[->|[]%elem_of_nil]%elem_of_cons]%elem_of_cons]%elem_of_cons; split_and!; done.
Defined.

(** A profile name that [ParseRef] accepts, whose running VM [up] refuses: the
    instance's own name is over the bound the profile was checked against. *)
Definition long_profile : string := Join (replicate 60 "a") "".
Definition long_instance : Instance :=
  MkInstance "colima" (ColimaInstance long_profile) "vz" (ColimaInstance long_profile) true "" true.
Lemma long_profile_refused :
  is_ok (ParseRef "H" ("colima:" +:+ long_profile)) = true ∧ wf_instance long_instance ∧
  matchNamed "H" ("colima:" +:+ long_profile) [long_instance] = Ok long_instance ∧
  pickInstance "H" ("colima:" +:+ long_profile) [long_instance] = Err (BadArg InvalidName).
Proof. split_and!; vm_compute; split_and?; congruence. Qed.
