(* ===== verification/Plist.v ===== *)
(** * Plist: what the install renders for the root daemon, and reads back

    [src/internal/install/plist.go]: the configuration's validation, the
    daemon's argument vector, the LaunchDaemon document around it, and the
    reader that [drawbridge install] inherits the installed flags with. *)

From S2P Require Import Prelude GoStr GoPath VmRef.
Open Scope string_scope.
Open Scope list_scope.
Open Scope Z_scope.

(** ** Port lists *)

(** [ParsePorts]; a blank text is the empty list. *)
Definition parse_port (f : string) : option Z :=
  match ParseUint (TrimSpace f) 10 16 with Ok v => if v =? 0 then None else Some v | Err _ => None end.
Definition ParsePorts (s : string) : option (list Z) :=
  if String.eqb (TrimSpace s) "" then Some [] else mapM parse_port (Split "," s).
Definition joinPorts (ports : list Z) : string := Join (map Itoa ports) ",".

(** [samePorts]: the lists hold the same ports the same number of times; the
    second pass stops at the first count below zero. *)
Definition tally (seen : gmap Z Z) (p d : Z) : gmap Z Z := <[p := default 0 (seen !! p) + d]> seen.
Fixpoint uncount (seen : gmap Z Z) (b : list Z) : bool :=
  match b with
  | [] => true
  | p :: b => let seen := tally seen p (-1) in
      if default 0 (seen !! p) <? 0 then false else uncount seen b
  end.
Definition samePorts (a b : list Z) : bool :=
  if negb (length a =? length b)%nat then false
  else uncount (foldl (λ seen p, tally seen p 1) ∅ a) b.

Definition DefaultVM : string := "drawbridge".
Definition DefaultSkip : string := "22,323".
Definition DefaultSkipPorts : list Z := default [] (ParsePorts DefaultSkip).

(** ** The configuration *)

(** [Skip] is [None] for the nil slice: the daemon's own default. *)
Record Config := MkConfig {
  c_VM : string;
  c_UDP : list Z;
  c_MAC : string;
  c_Subnet : string;
  c_Skip : option (list Z);
  c_Agent : string;
  c_SecretFile : string
}.

(** [SetSkip] *)
Definition SetSkip (spec : string) : option (option (list Z)) :=
  ports ← ParsePorts spec;
  Some (if samePorts ports DefaultSkipPorts then None else Some ports).

Definition is_hexc (c : ascii) : bool :=
  let n := code c in
  ((48 <=? n) && (n <=? 57)) || ((65 <=? n) && (n <=? 70)) || ((97 <=? n) && (n <=? 102)).
(** [f{lo,hi}] of a regular expression over one character class. *)
Definition run_of (f : ascii → bool) (lo hi : nat) (s : string) : bool :=
  (lo <=? String.length s)%nat && (String.length s <=? hi)%nat && str_forall f s.

(** [^[0-9A-Fa-f]{1,2}(:[0-9A-Fa-f]{1,2}){5}$] *)
Definition macRE (s : string) : bool :=
  let parts := Split ":" s in (length parts =? 6)%nat && forallb (run_of is_hexc 1 2) parts.
(** [^[0-9]{1,3}(\.[0-9]{1,3}){3}/[0-9]{1,2}$] *)
Definition subnetRE (s : string) : bool :=
  match Cut "/" s with
  | Some (ip, bits) =>
      let parts := Split "." ip in
      (length parts =? 4)%nat && forallb (run_of is_dec 1 3) parts && run_of is_dec 1 2 bits
  | None => false
  end.
(** [^tcp://127\.0\.0\.1:[0-9]{1,5}$] *)
Definition agentRE (s : string) : bool :=
  match CutPrefix "tcp://127.0.0.1:" s with Some port => run_of is_dec 1 5 port | None => false end.

Definition quote : ascii := "034"%char.
Definition control_char (c : ascii) : bool := (code c <? 32) || (code c =? 127).
Definition validateSecretFile (p : string) : bool :=
  if String.eqb p "" then true
  else HasPrefix p "/" &&
       str_forall (λ c, negb (existsb (Ascii.eqb c) ["&"; "<"; ">"; quote; "'"]%char)) p &&
       str_forall (λ c, negb (control_char c)) p.

Inductive config_err :=
| BadVM (e : ref_err) | BadUDP | BadSkip | BadMAC | BadSubnet | BadAgent | BadSecretFile.

(** [Validate]; [ch] is colima's home, which does not matter to it. *)
Definition Validate (ch : string) (c : Config) : option config_err :=
  match ParseRef ch (c_VM c) with
  | Err e => Some (BadVM e)
  | Ok _ =>
      if existsb (Z.eqb 0) (c_UDP c) then Some BadUDP
      else if existsb (Z.eqb 0) (default [] (c_Skip c)) then Some BadSkip
      else if negb (String.eqb (c_MAC c) "") && negb (macRE (c_MAC c)) then Some BadMAC
      else if negb (String.eqb (c_Subnet c) "") && negb (subnetRE (c_Subnet c)) then Some BadSubnet
      else if negb (String.eqb (c_Agent c) "") && negb (agentRE (c_Agent c)) then Some BadAgent
      else if validateSecretFile (c_SecretFile c) then None else Some BadSecretFile
  end.

Definition BinaryPath : string := "/usr/local/libexec/drawbridged".
Definition Label : string := "com.archcorsair.drawbridged".
Definition LogPath : string := "/Library/Logs/drawbridge/drawbridged.log".

Definition Args (c : Config) : list string :=
  [BinaryPath; "-agent"; (if String.eqb (c_Agent c) "" then "auto" else c_Agent c); "-vm"; c_VM c] ++
  (match c_UDP c with [] => [] | _ => ["-udp"; joinPorts (c_UDP c)] end) ++
  (match c_Skip c with None => [] | Some skip => ["-skip"; joinPorts skip] end) ++
  (if String.eqb (c_MAC c) "" then [] else ["-vm-mac"; c_MAC c]) ++
  (if String.eqb (c_Subnet c) "" then [] else ["-vm-subnet"; c_Subnet c]) ++
  (if String.eqb (c_SecretFile c) "" then [] else ["-secret-file"; c_SecretFile c]).

(** ** The document *)

Definition nl : string := String "010"%char "".
Definition tab : string := String "009"%char "".
Definition quoted (s : string) : string := String quote s +:+ String quote "".
Fixpoint concat (ws : list string) : string := match ws with [] => "" | w :: ws => w +:+ concat ws end.

Definition plist_head : string :=
  concat ["<?xml version="; quoted "1.0"; " encoding="; quoted "UTF-8"; "?>"; nl;
    "<!DOCTYPE plist PUBLIC "; quoted "-//Apple//DTD PLIST 1.0//EN"; " ";
    quoted "http://www.apple.com/DTDs/PropertyList-1.0.dtd"; ">"; nl;
    "<plist version="; quoted "1.0"; ">"; nl; "<dict>"; nl;
    tab; "<key>Label</key>"; nl; tab; "<string>"; Label; "</string>"; nl; tab].
Definition args_key : string := "<key>ProgramArguments</key>".
Definition plist_tail : string :=
  concat [nl; tab; "<key>RunAtLoad</key>"; nl; tab; "<true/>"; nl; tab; "<key>KeepAlive</key>"; nl; tab;
    "<true/>"; nl; tab; "<key>ProcessType</key>"; nl; tab; "<string>Interactive</string>"; nl; tab;
    "<key>StandardOutPath</key>"; nl; tab; "<string>"; LogPath; "</string>"; nl; tab;
    "<key>StandardErrorPath</key>"; nl; tab; "<string>"; LogPath; "</string>"; nl; "</dict>"; nl; "</plist>"; nl].
Definition arg_line (a : string) : string := concat [tab; tab; "<string>"; a; "</string>"; nl].

Definition RenderPlist (ch : string) (c : Config) : result config_err string :=
  match Validate ch c with
  | Some e => Err e
  | None => Ok (concat [plist_head; args_key; nl; tab; "<array>"; nl;
      concat (map arg_line (Args c)); tab; "</array>"; plist_tail])
  end.

(** ** Reading it back *)

(** Everything up to the next [<]. *)
Fixpoint span_text (s : string) : string * string :=
  match s with
  | EmptyString => ("", "")
  | String c s' => if Ascii.eqb c "<" then ("", s) else let '(a, b) := span_text s' in (String c a, b)
  end.
(** [plistStringRE.FindAllStringSubmatch]: the texts between [<string>] and
    [</string>], leftmost first; each round consumes the opening tag, so the
    length of the text is fuel enough. *)
Fixpoint find_strings (fuel : nat) (s : string) : list string :=
  match fuel with
  | O => []
  | S fuel =>
      match Cut "<string>" s with
      | None => []
      | Some (_, after) =>
          let '(txt, rest) := span_text after in
          match CutPrefix "</string>" rest with
          | Some r => txt :: find_strings fuel r
          | None => find_strings fuel after
          end
      end
  end.

Definition InstalledArgs := gmap string string.
(** The loop over the tokens: a flag takes the token after it. *)
Fixpoint read_args (m : list string) (out : InstalledArgs) : InstalledArgs :=
  match m with
  | [] => out
  | tok :: l =>
      match l with
      | [] => out
      | val :: rest =>
          if HasPrefix tok "-" then read_args rest (<[tok := TrimSpace val]> out) else read_args l out
      end
  end.
Definition ArgsFromPlist (plist : string) : InstalledArgs :=
  let plist :=
    match Cut args_key plist with
    | Some (_, after) =>
        let rest := args_key +:+ after in
        match Cut "</array>" rest with Some (before, _) => before | None => rest end
    | None => plist
    end in
  read_args (find_strings (S (String.length plist)) plist) ∅.
Definition argFromPlist (plist flag : string) : string := default "" (ArgsFromPlist plist !! flag).

(** ** Text without markup *)

Lemma has_byte_trim_left c f s : f c = false → has_byte c (trim_left f s) = has_byte c s.
Proof.
  intros Hc. induction s as [|d s IH]; cbn; [done|]. destruct (f d) eqn:E; [|done].
  rewrite IH. destruct (Ascii.eqb_spec c d) as [->|]; [congruence|done].
Qed.
Lemma has_byte_trim_right c f s : f c = false → has_byte c (trim_right f s) = has_byte c s.
Proof.
  intros Hc. induction s as [|d s IH]; cbn; [done|]. rewrite <- IH.
  destruct (trim_right f s) as [|e t]; [|done]. destruct (f d) eqn:E; [|done].
  destruct (Ascii.eqb_spec c d) as [->|]; [congruence|done].
Qed.
Lemma has_byte_TrimSpace c s : is_space c = false → has_byte c (TrimSpace s) = has_byte c s.
Proof. intros Hc. unfold TrimSpace. by rewrite has_byte_trim_right, has_byte_trim_left. Qed.
Lemma has_byte_Split c d s : c ≠ d → has_byte c s = existsb (has_byte c) (Split d s).
Proof.
  intros Hne. induction s as [|e s IH]; cbn; [done|]. destruct (Ascii.eqb_spec d e) as [->|].
  - cbn. rewrite (proj2 (Ascii.eqb_neq c e)) by done. by rewrite IH.
  - rewrite IH. destruct (Split_cons d s) as (w & ws & ->). cbn. by rewrite orb_assoc.
Qed.
Lemma has_byte_Join c sep ws : has_byte c sep = false → has_byte c (Join ws sep) = existsb (has_byte c) ws.
Proof.
  intros Hs. induction ws as [|w ws IH]; [done|]. destruct ws as [|w' ws].
  - cbn. by rewrite orb_false_r.
  - change (Join (w :: w' :: ws) sep) with (w +:+ sep +:+ Join (w' :: ws) sep).
    rewrite !has_byte_app, Hs, IH. done.
Qed.

(** Go [uint16]s. *)
Definition wf_config (c : Config) : Prop :=
  Forall (λ p, 0 <= p < 65536) (c_UDP c) ∧ Forall (λ p, 0 <= p < 65536) (default [] (c_Skip c)).

Lemma joinPorts_text ports : Forall (λ p, 0 <= p < 65536) ports → has_byte "<" (joinPorts ports) = false.
Proof.
  intros HF. unfold joinPorts. rewrite has_byte_Join by done. induction HF as [|p ports Hp _ IH]; [done|].
  cbn. rewrite IH, orb_false_r. apply (str_forall_has is_dec); [apply Itoa_dec; lia|done].
Qed.
Lemma run_of_text f lo hi s c : f c = false → run_of f lo hi s = true → has_byte c s = false.
Proof. unfold run_of. intros Hc [_ H]%andb_true_iff. by eapply str_forall_has. Qed.
Lemma runs_text f lo hi ws c : f c = false → forallb (run_of f lo hi) ws = true → existsb (has_byte c) ws = false.
Proof.
  intros Hc. induction ws as [|w ws IH]; [done|]. cbn. intros [H1 H2]%andb_true_iff.
  rewrite IH by done. erewrite run_of_text; done.
Qed.
Lemma ParseRef_text ch s r : ParseRef ch s = Ok r → has_byte "<" s = false.
Proof.
  rewrite <- (has_byte_TrimSpace "<" s) by done. unfold ParseRef.
  destruct (Cut ":" (TrimSpace s)) as [[p n]|] eqn:C.
  - apply Cut_Some in C as ->. rewrite !has_byte_app.
    rewrite <- (has_byte_TrimSpace "<" p), <- (has_byte_TrimSpace "<" n) by done.
    destruct (known_provider (TrimSpace p)) eqn:Hp; [|done]. cbn [negb].
    destruct (instanceNameRE (TrimSpace n)) eqn:Hn; [|done]. intros _.
    apply name_plain in Hn as [Hn _]. rewrite (str_forall_has name_char "<" (TrimSpace n)) by done.
    apply known_provider_cases in Hp as [->|[->| ->]]; done.
  - cbn [known_provider]. change (negb (known_provider ProviderLima)) with false.
    cbv beta iota. destruct (instanceNameRE (TrimSpace s)) eqn:Hn; [|done]. intros _.
    apply name_plain in Hn as [Hn _]. by apply (str_forall_has name_char).
Qed.

Lemma macRE_text s : macRE s = true → has_byte "<" s = false.
Proof.
  unfold macRE. intros [_ H]%andb_true_iff. rewrite (has_byte_Split "<" ":") by done. eapply runs_text; [|exact H]; done.
Qed.
Lemma subnetRE_text s : subnetRE s = true → has_byte "<" s = false.
Proof.
  unfold subnetRE. destruct (Cut "/" s) as [[ip b]|] eqn:C; [|done]. apply Cut_Some in C as ->.
  intros [[_ H1]%andb_true_iff H2]%andb_true_iff. rewrite !has_byte_app, (has_byte_Split "<" "." ip) by done.
  rewrite (runs_text is_dec 1 3 _ "<" eq_refl H1), (run_of_text is_dec 1 2 _ "<" eq_refl H2). done.
Qed.
Lemma agentRE_text s : agentRE s = true → has_byte "<" s = false.
Proof.
  unfold agentRE. destruct (CutPrefix _ s) as [r|] eqn:C; [|done]. apply CutPrefix_Some in C as ->.
  intros H. rewrite has_byte_app, (run_of_text is_dec 1 5 _ "<" eq_refl H). done.
Qed.
Lemma secret_text s : validateSecretFile s = true → has_byte "<" s = false.
Proof.
  unfold validateSecretFile. destruct (String.eqb_spec s "") as [->|]; [done|].
  intros [[_ H]%andb_true_iff _]%andb_true_iff. by eapply str_forall_has.
Qed.

Lemma Validate_None ch c :
  Validate ch c = None ↔
  (∃ r, ParseRef ch (c_VM c) = Ok r) ∧ (0 ∉ c_UDP c) ∧ (0 ∉ default [] (c_Skip c)) ∧
  (c_MAC c = "" ∨ macRE (c_MAC c) = true) ∧ (c_Subnet c = "" ∨ subnetRE (c_Subnet c) = true) ∧
  (c_Agent c = "" ∨ agentRE (c_Agent c) = true) ∧ validateSecretFile (c_SecretFile c) = true.
Proof.
  assert (∀ l, existsb (Z.eqb 0) l = true ↔ 0 ∈ l) as HZ.
  { intros l. rewrite existsb_exists. setoid_rewrite Z.eqb_eq. setoid_rewrite <- list_elem_of_In.
    split; [by intros (x & ? & <-)|eauto]. }
  assert (∀ (f : string → bool) x, (negb (String.eqb x "") && negb (f x) = false) ↔ (x = "" ∨ f x = true)) as HR.
  { intros f x. destruct (String.eqb_spec x ""), (f x); cbn; naive_solver. }
  assert (∀ b P, (b = true ↔ P) → (b = false ↔ ¬ P)) as HN by (intros [] P [] ; split; naive_solver).
  pose proof (λ l, HN _ _ (HZ l)) as HZ'.
  rewrite <- !HZ', <- !HR. unfold Validate.
  destruct (ParseRef ch (c_VM c)) as [r|]; [|naive_solver].
  destruct (existsb _ _); [naive_solver|]. destruct (existsb _ _); [naive_solver|].
  destruct (negb _ && _); [naive_solver|]. destruct (negb _ && _); [naive_solver|].
  destruct (negb _ && _); [naive_solver|]. destruct (validateSecretFile _); naive_solver.
Qed.

Lemma Args_text ch c : wf_config c → Validate ch c = None → Forall (λ a, has_byte "<" a = false) (Args c).
Proof.
  intros [HU HS] ((r & HV) & _ & _ & HM & HSub & HA & HF)%Validate_None.
  assert (∀ x (f : string → bool), (∀ s, f s = true → has_byte "<" s = false) →
    x = "" ∨ f x = true → has_byte "<" x = false) as H by (intros x f Hf [->|?]; [done|by apply Hf]).
  apply (H _ _ macRE_text) in HM. apply (H _ _ subnetRE_text) in HSub. apply (H _ _ agentRE_text) in HA.
  apply secret_text in HF. apply ParseRef_text in HV.
  unfold Args. rewrite !Forall_app. split_and!.
  - repeat constructor; [by case_match|done].
  - destruct (c_UDP c) eqn:E; repeat constructor. rewrite <- E in *. by apply joinPorts_text.
  - destruct (c_Skip c); repeat constructor. by apply joinPorts_text.
  - case_match; by repeat constructor.
  - case_match; by repeat constructor.
  - case_match; by repeat constructor.
Qed.

(** ** Reading back what was rendered *)

(** [a] neither holds nor begins an occurrence of [sep], whatever follows. *)
Definition passes (sep a : string) : Prop := ∀ r, Cut sep (a +:+ r) = prod_map (String.append a) id <$> Cut sep r.

Lemma passes_app sep a b : passes sep a → passes sep b → passes sep (a +:+ b).
Proof.
  intros Ha Hb r. rewrite append_assoc', Ha, Hb. destruct (Cut sep r) as [[x y]|]; [|done].
  cbn. by rewrite append_assoc'.
Qed.
Lemma passes_text sep a : has_byte "<" a = false → passes (String "<" sep) a.
Proof.
  intros Ha r. induction a as [|c a IH]; cbn -[Ascii.eqb].
  - by destruct (Cut _ r) as [[]|].
  - cbn in Ha. apply orb_false_iff in Ha as [Hc Ha]. rewrite Hc, IH by done. by destruct (Cut _ r) as [[]|].
Qed.
(** Split an appended text and settle its markup-free and constant parts. *)
Ltac passes_parts :=
  repeat match goal with |- passes _ (_ +:+ _) => apply passes_app end;
  try by (apply passes_text).
Ltac passes_const := intros r; cbn; by destruct (Cut _ r) as [[]|].
Lemma passes_key : passes "</array>" args_key. Proof. passes_const. Qed.
Lemma passes_open : passes "</array>" "<string>". Proof. passes_const. Qed.
Lemma passes_close : passes "</array>" "</string>". Proof. passes_const. Qed.
Lemma passes_array : passes "</array>" "<array>". Proof. passes_const. Qed.
Lemma passes_skey : passes "<string>" args_key. Proof. passes_const. Qed.
Lemma passes_sarray : passes "<string>" "<array>". Proof. passes_const. Qed.
Lemma passes_head : passes args_key plist_head. Proof. passes_const. Qed.

Lemma Cut_here sep r : Cut sep (sep +:+ r) = Some ("", r).
Proof.
  destruct sep as [|c sep]; [by destruct r|].
  assert (CutPrefix (String c sep) (String c (sep +:+ r)) = Some r) as E by by apply CutPrefix_Some.
  cbn in E |- *. by rewrite E.
Qed.
Lemma Cut_passes sep a r : passes sep a → Cut sep (a +:+ sep +:+ r) = Some (a, r).
Proof. intros Ha. rewrite Ha, Cut_here. cbn. by rewrite append_nil_r. Qed.

Lemma span_text_lt t r : has_byte "<" t = false → span_text (t +:+ String "<" r) = (t, String "<" r).
Proof.
  induction t as [|c t IH]; cbn -[Ascii.eqb]; [done|]. intros [Hc Ht]%orb_false_iff.
  rewrite Ascii.eqb_sym, Hc, IH by done. done.
Qed.
Lemma concat_cons w ws : concat (w :: ws) = w +:+ concat ws. Proof. done. Qed.

Lemma find_lines ts fuel pre post :
  Forall (λ a, has_byte "<" a = false) ts → passes "<string>" pre → (length ts < fuel)%nat →
  Cut "<string>" post = None →
  find_strings fuel (pre +:+ concat (map arg_line ts) +:+ post) = ts.
Proof.
  intros HF. revert fuel pre. induction HF as [|t ts Ht _ IH]; intros fuel pre Hp Hl Hpost;
    destruct fuel as [|fuel]; [cbn in Hl; lia| |cbn in Hl; lia|]; cbn [find_strings].
  - cbn [map concat]. change ("" +:+ post) with post. by rewrite Hp, Hpost.
  - set (rest := nl +:+ concat (map arg_line ts) +:+ post).
    assert (pre +:+ concat (map arg_line (t :: ts)) +:+ post =
      (pre +:+ tab +:+ tab) +:+ "<string>" +:+ t +:+ String "<" "/string>" +:+ rest) as ->.
    { subst rest. cbn [map]. rewrite concat_cons. unfold arg_line at 1. cbn [concat].
      rewrite append_nil_r. by rewrite !append_assoc'. }
    rewrite Cut_passes by (apply passes_app; [done|by apply passes_text]).
    change (String "<" "/string>" +:+ rest) with (String "<" ("/string>" +:+ rest)).
    rewrite span_text_lt by done.
    change (String "<" ("/string>" +:+ rest)) with ("</string>" +:+ rest).
    rewrite (proj2 (CutPrefix_Some "</string>" _ rest) eq_refl). f_equal.
    apply IH; [by apply passes_text|cbn in Hl; lia|done].
Qed.

Lemma passes_lines ts : Forall (λ a, has_byte "<" a = false) ts → passes "</array>" (concat (map arg_line ts)).
Proof.
  induction 1 as [|t ts Ht _ IH]; [intros r; cbn; by destruct (Cut _ r) as [[]|]|].
  cbn [map]. rewrite concat_cons. apply passes_app; [|done]. unfold arg_line. cbn [concat].
  passes_parts; [apply passes_open|apply passes_close].
Qed.
Lemma lines_length ts : (length ts <= String.length (concat (map arg_line ts)))%nat.
Proof.
  induction ts as [|t ts IH]; [done|]. cbn [map length]. rewrite concat_cons, append_length. 
  unfold arg_line at 1. cbn. lia.
Qed.

(** The flags a configuration renders, with their values. *)
Definition flag_args (c : Config) : list (string * string) :=
  [("-agent", if String.eqb (c_Agent c) "" then "auto" else c_Agent c); ("-vm", c_VM c)] ++
  (match c_UDP c with [] => [] | _ => [("-udp", joinPorts (c_UDP c))] end) ++
  (match c_Skip c with None => [] | Some skip => [("-skip", joinPorts skip)] end) ++
  (if String.eqb (c_MAC c) "" then [] else [("-vm-mac", c_MAC c)]) ++
  (if String.eqb (c_Subnet c) "" then [] else [("-vm-subnet", c_Subnet c)]) ++
  (if String.eqb (c_SecretFile c) "" then [] else [("-secret-file", c_SecretFile c)]).

Lemma Args_flags c : Args c = BinaryPath :: (flag_args c ≫= λ '(f, v), [f; v]).
Proof. unfold Args, flag_args. repeat case_match; reflexivity. Qed.
Lemma flag_args_ok c :
  Forall (λ '(f, _), HasPrefix f "-" = true) (flag_args c) ∧ NoDup (flag_args c).*1.
Proof.
  unfold flag_args. split.
  - repeat case_match; by repeat constructor.
  - apply (bool_decide_unpack _). repeat case_match; vm_compute; exact I.
Qed.

Lemma read_args_flags kvs out :
  Forall (λ '(f, _), HasPrefix f "-" = true) kvs →
  read_args (kvs ≫= λ '(f, v), [f; v]) out = foldl (λ m '(f, v), <[f := TrimSpace v]> m) out kvs.
Proof. intros HF. revert out. induction HF as [|[f v] kvs H _ IH]; intros out; cbn; [done|]. by rewrite H, IH. Qed.
Lemma foldl_insert_map kvs (out : gmap string string) :
  NoDup kvs.*1 → (∀ f, f ∈ kvs.*1 → out !! f = None) →
  foldl (λ m '(f, v), <[f := TrimSpace v]> m) out kvs = list_to_map (prod_map id TrimSpace <$> kvs) ∪ out.
Proof.
  revert out. induction kvs as [|[f v] kvs IH]; cbn; intros out Hn Ho; [by rewrite (left_id_L _ _)|].
  apply NoDup_cons in Hn as [Hf Hn]. rewrite IH; [|done|].
  - rewrite <- insert_union_l, insert_union_r; [done|].
    apply not_elem_of_list_to_map_1. rewrite <- list_fmap_compose. 
    by rewrite (list_fmap_ext _ fst) by (by intros ? []).
  - intros g Hg. rewrite lookup_insert_ne by set_solver. apply Ho. by right.
Qed.

Lemma plist_args ch c p :
  wf_config c → RenderPlist ch c = Ok p →
  ArgsFromPlist p = list_to_map (prod_map id TrimSpace <$> flag_args c).
Proof.
  intros Hwf. unfold RenderPlist. destruct (Validate ch c) eqn:V; [done|]. intros R.
  eapply result_Ok_inj in R. subst p.
  pose proof (Args_text _ _ Hwf V) as HT. unfold ArgsFromPlist. cbn [concat].
  rewrite Cut_passes by apply passes_head.
  set (body := nl +:+ tab +:+ "<array>" +:+ nl).
  assert (args_key +:+ nl +:+ tab +:+ "<array>" +:+ nl +:+ concat (map arg_line (Args c)) +:+ tab +:+ "</array>" +:+
      plist_tail +:+ "" = (args_key +:+ body +:+ concat (map arg_line (Args c)) +:+ tab) +:+ "</array>" +:+ plist_tail) as ->.
  { subst body. rewrite append_nil_r. by rewrite !append_assoc'. }
  rewrite Cut_passes.
  2: { apply passes_app; [apply passes_key|]. subst body.
       passes_parts; [apply passes_array|by apply passes_lines]. }
  rewrite <- (append_assoc' args_key), find_lines; [|done| | |done].
  - rewrite Args_flags. destruct (flag_args_ok c) as [H1 H2].
    change (read_args (BinaryPath :: ?l) ∅) with (read_args (BinaryPath :: l) ∅).
    destruct (flag_args c ≫= _) as [|x l] eqn:E; [by unfold flag_args in E|].
    change (read_args (BinaryPath :: x :: l) ∅) with (read_args (x :: l) ∅). rewrite <- E.
    rewrite read_args_flags, foldl_insert_map by done. by rewrite (right_id_L _ _).
  - subst body. apply passes_app; [apply passes_skey|].
    passes_parts. apply passes_sarray.
  - rewrite !append_length. pose proof (lines_length (Args c)). lia.
Qed.

(** C28: the argument vector the install renders for the root daemon survives
    the document: reading the plist back gives exactly the flags of the
    configuration, each with its value (its surrounding white space gone), and
    no text of the rest of the document can pass for one. Every configuration
    that validates renders. *)
Theorem plist_reads_back ch c :
  wf_config c →
  match RenderPlist ch c with
  | Err e => Validate ch c = Some e
  | Ok p => Validate ch c = None ∧
      ArgsFromPlist p = list_to_map (prod_map id TrimSpace <$> flag_args c)
  end.
Proof.
  intros Hwf. destruct (RenderPlist ch c) as [p|e] eqn:R.
  - split; [|by eapply plist_args]. unfold RenderPlist in R. by destruct (Validate ch c).
  - unfold RenderPlist in R. by destruct (Validate ch c); [injection R as ->|].
Qed.
Definition ex_config : Config :=
  MkConfig "colima:default" [53; 123] "52:55:55:0a:de:02" "192.168.64.0/24" (Some []) "" "/Users/x/secret".
Lemma plist_reads_back_witness :
  is_ok (RenderPlist "" ex_config) = true ∧
  match RenderPlist "" ex_config with
  | Ok p => (ArgsFromPlist p !! "-skip", ArgsFromPlist p !! "-udp") = (Some "", Some "53,123")
  | Err _ => False
  end.
Proof.
  assert (wf_config ex_config) as Hwf by (repeat constructor; lia).
  pose proof (plist_reads_back "" ex_config Hwf) as H. split; [vm_compute; reflexivity|].
  destruct (RenderPlist "" ex_config) as [p|]; [|vm_compute in H; discriminate H].
  destruct H as [_ ->]. vm_compute. reflexivity.
Defined.

(** A path that ends in a space validates, and is read back as another path. *)
Definition spaced_config : Config := MkConfig "dev" [] "" "" None "" "/Users/x/secret ".
Lemma secret_path_trimmed :
  match RenderPlist "" spaced_config with
  | Ok p => argFromPlist p "-secret-file" = "/Users/x/secret"
  | Err _ => False
  end.
Proof. vm_compute. reflexivity. Qed.

(** ** Ports *)

Lemma TrimSpace_joinPorts l : Forall (λ p, 0 < p < 65536) l → TrimSpace (joinPorts l) = joinPorts l.
Proof.
  intros HF. apply TrimSpace_plain. unfold joinPorts. induction HF as [|p l Hp HF IH]; [done|].
  assert (str_forall (λ c, negb (is_space c)) (Itoa p) = true) as Hi.
  { eapply str_forall_impl; [apply dec_no_space|apply Itoa_dec; lia]. }
  cbn [map]. destruct (map Itoa l) as [|w ws] eqn:E; [done|].
  change (Join (Itoa p :: w :: ws) ",") with (Itoa p +:+ "," +:+ Join (w :: ws) ",").
  rewrite !str_forall_app, Hi, IH. done.
Qed.
Lemma parse_ports_Itoa l : Forall (λ p, 0 < p < 65536) l → mapM parse_port (map Itoa l) = Some l.
Proof.
  intros HF. apply mapM_Some. induction HF as [|q l Hq _ IH]; [constructor|]. cbn [map]. constructor; [|done].
  unfold parse_port. rewrite TrimSpace_Itoa, (ParseUint_Itoa q 16) by lia. by rewrite (proj2 (Z.eqb_neq q 0)) by lia.
Qed.
Lemma ParsePorts_join l : Forall (λ p, 0 < p < 65536) l → ParsePorts (joinPorts l) = Some l.
Proof.
  intros HF. unfold ParsePorts. rewrite TrimSpace_joinPorts by done.
  destruct l as [|p l]; [done|].
  destruct (String.eqb_spec (joinPorts (p :: l)) "") as [E|_].
  { exfalso. unfold joinPorts in E. cbn [map Join] in E.
    assert (Itoa p ≠ "") as Hn by (apply Itoa_dec; apply Forall_inv in HF; cbn in HF; lia).
    destruct (map Itoa l); destruct (Itoa p); done. }
  unfold joinPorts. rewrite Split_Join; [by apply parse_ports_Itoa|done|].
  apply Forall_map. eapply Forall_impl; [exact HF|]. intros q Hq; cbn in Hq.
  apply (str_forall_has is_dec); [apply Itoa_dec; lia|done].
Qed.
Lemma ParsePorts_range s l : ParsePorts s = Some l → Forall (λ p, 0 < p < 65536) l.
Proof.
  unfold ParsePorts. case_match; [by intros [= <-]|]. intros HM%mapM_Some.
  induction HM as [|f p fs l Hp _ IH]; constructor; [|done].
  unfold parse_port in Hp. destruct (ParseUint _ _ _) eqn:E; [|done]. case_match; simplify_eq. bool_prop.
  apply ParseUint_Ok in E as (_ & _ & ?); [|lia]. cbn in *. lia.
Qed.

Definition occ (p : Z) (l : list Z) : Z := Z.of_nat (count (Z.eqb p) l).
Lemma occ_cons p q l : occ p (q :: l) = (if p =? q then 1 else 0) + occ p l.
Proof. unfold occ. rewrite count_cons. destruct (p =? q); lia. Qed.
Lemma tally_lookup seen p d q :
  default 0 (tally seen p d !! q) = default 0 (seen !! q) + if q =? p then d else 0.
Proof.
  unfold tally. destruct (Z.eqb_spec q p) as [->|].
  - by rewrite lookup_insert_eq.
  - rewrite lookup_insert_ne by done. lia.
Qed.
Lemma tally_all a seen q :
  default 0 (foldl (λ seen p, tally seen p 1) seen a !! q) = default 0 (seen !! q) + occ q a.
Proof.
  revert seen. induction a as [|p a IH]; intros seen; [unfold occ; cbn; lia|].
  cbn [foldl]. rewrite IH, tally_lookup, occ_cons. lia.
Qed.
Lemma uncount_iff b seen :
  (∀ q, 0 <= default 0 (seen !! q)) →
  uncount seen b = true ↔ ∀ q, occ q b <= default 0 (seen !! q).
Proof.
  revert seen. induction b as [|p b IH]; intros seen H0; cbn [uncount].
  - split; [|done]. intros _ q. apply H0.
  - rewrite tally_lookup, Z.eqb_refl. destruct (_ <? 0) eqn:E; bool_prop.
    + split; [done|]. intros H. specialize (H p). rewrite occ_cons, Z.eqb_refl in H.
      pose proof (H0 p). unfold occ in H. lia.
    + rewrite IH.
      * split; intros H q; specialize (H q); rewrite ?tally_lookup, ?occ_cons in *; destruct (q =? p); lia.
      * intros q. rewrite tally_lookup. specialize (H0 q). destruct (Z.eqb_spec q p) as [->|]; lia.
Qed.
Lemma occ_perm a b : length a = length b → (∀ q, occ q b <= occ q a) → a ≡ₚ b.
Proof.
  revert a. induction b as [|p b IH]; intros a Hl H; [by destruct a|].
  assert (p ∈ a) as Hin.
  { pose proof (H p) as Hp. rewrite occ_cons, Z.eqb_refl in Hp.
    assert (0 < count (Z.eqb p) a)%nat as Hc by (unfold occ in Hp; lia).
    apply count_pos in Hc as (x & Hx & E). apply Z.eqb_eq in E. by subst. }
  apply list_elem_of_split in Hin as (l1 & l2 & ->). rewrite <- Permutation_middle. constructor. apply IH.
  - rewrite !length_app in *. cbn in *. lia.
  - intros q. specialize (H q). unfold occ in *. rewrite !count_app, !count_cons in *.
    destruct (q =? p); lia.
Qed.

(** The comparison is that of multisets. *)
Lemma samePorts_perm a b : samePorts a b = true ↔ a ≡ₚ b.
Proof.
  unfold samePorts. destruct (length a =? length b)%nat eqn:E; cbn [negb]; bool_prop.
  - rewrite uncount_iff.
    + split; [intros H; apply occ_perm; [done|]; intros q; specialize (H q)|intros HP q];
        rewrite ?tally_all, ?lookup_empty in *; cbn in *; [lia|]. unfold occ. rewrite (count_perm _ _ _ HP). lia.
    + intros q. rewrite tally_all, lookup_empty. unfold occ. cbn. lia.
  - split; [done|]. intros HP%Permutation_length. done.
Qed.
Lemma SetSkip_Some spec s :
  SetSkip spec = Some s ↔ ∃ ports, ParsePorts spec = Some ports ∧
    ((s = None ∧ ports ≡ₚ [22; 323]) ∨ (s = Some ports ∧ ¬ ports ≡ₚ [22; 323])).
Proof.
  unfold SetSkip. change DefaultSkipPorts with [22; 323]. destruct (ParsePorts spec) as [ports|]; cbn.
  - pose proof (samePorts_perm ports [22; 323]) as H. destruct (samePorts _ _).
    + split; [intros [= <-]|intros (? & [= <-] & [[-> _]|[_ Hn]])]; [|done|by destruct Hn; apply H].
      exists ports. split; [done|]. left. split; [done|]. by apply H.
    + split; [intros [= <-]|intros (? & [= <-] & [[_ Hp]|[-> _]])]; [|by apply H in Hp|done].
      exists ports. split; [done|]. right. split; [done|]. intros Hp%H. done.
  - split; [done|]. by intros (? & ? & _).
Qed.
