(* ===== verification/VmRecord.v ===== *)
(** * VmRecord: the per-VM record and the podman endpoint

    [src/internal/vmrecord/vmrecord.go] keeps what [up] learned about a podman
    machine; [src/internal/podmanaddr/podmanaddr.go] resolves the machine's
    endpoint from it; [ReadPodmanMachineConfig] ([vmprovider/podman.go]) reads
    the machine's own configuration, which the record is compared against. *)

From S2P Require Import Prelude GoStr GoPath VmRef Transport.
From S2P Require TransportAuth.
Open Scope string_scope.
Open Scope list_scope.
Open Scope Z_scope.

Definition Version : Z := 1.
Definition TransportGvproxyPublish : string := "gvproxy-publish".

Record SSH := MkSSH { ssh_Port : Z; ssh_Identity : string; ssh_User : string }.
Record VmRec := MkRec {
  rec_Version : Z;
  rec_Provider : string;
  rec_Instance : string;
  rec_Transport : string;
  rec_Endpoint : string;
  rec_SSH : SSH;
  rec_Rootful : bool;
  rec_VMType : string;
  rec_WrittenBy : string;
  rec_WrittenAt : string
}.

(** The files a process finds: absent, unreadable, or their content. *)
Abbreviation file := TransportAuth.file.
Abbreviation Missing := TransportAuth.Missing.
Abbreviation Unreadable := TransportAuth.Unreadable.
Abbreviation Content := TransportAuth.Content.
Abbreviation fs := (gmap string file).
Definition ReadFile (path : string) (f : fs) : file := default Missing (f !! path).

Inductive read_err := ErrAbsent | ReadFailed | BadJSON | NewerVersion | NoEndpoint.
(** Which system call of a write failed; a failed [os.WriteFile] leaves what it
    got to write, and a failed chmod the whole file. *)
Inductive write_err := MkdirFailed | WriteFailed (torn : file) | ChmodFailed.

Section codec.
(** [encoding/json] on a record. *)
Variable marshal : VmRec → string.
(** The invoking user's home. *)
Variable home : string.

(** What [Write] stores: the version, the reference's pair, and the time when
    the record has none. *)
Definition stamp (ref : Ref) (now : string) (r : VmRec) : VmRec :=
  MkRec Version (r_Provider ref) (r_Instance ref) (rec_Transport r) (rec_Endpoint r) (rec_SSH r)
    (rec_Rootful r) (rec_VMType r) (rec_WrittenBy r)
    (if String.eqb (rec_WrittenAt r) "" then now else rec_WrittenAt r).
Definition newline : string := String "010"%char "".

Definition Write (ref : Ref) (now : string) (r : VmRec) (fail : option write_err) (f : fs)
    : option write_err * fs :=
  let path := record_Path home ref in
  let blob := marshal (stamp ref now r) +:+ newline in
  match fail with
  | Some MkdirFailed => (fail, f)
  | Some (WriteFailed torn) => (fail, <[path := torn]> f)
  | Some ChmodFailed => (fail, <[path := Content blob]> f)
  | None => (None, <[path := Content blob]> f)
  end.

Variable unmarshal : string → option VmRec.

Definition Read (ref : Ref) (f : fs) : result read_err VmRec :=
  match ReadFile (record_Path home ref) f with
  | Missing => Err ErrAbsent
  | Unreadable => Err ReadFailed
  | Content blob =>
      match unmarshal blob with
      | None => Err BadJSON
      | Some rec =>
          if Version <? rec_Version rec then Err NewerVersion
          else if String.eqb (rec_Endpoint rec) "" then Err NoEndpoint
          else Ok rec
      end
  end.

(** [Remove]: whether a record was there, unless the removal fails. *)
Definition Remove (ref : Ref) (fail : bool) (f : fs) : result unit bool * fs :=
  let path := record_Path home ref in
  match f !! path with
  | None => (Ok false, f)
  | Some _ => if fail then (Err tt, f) else (Ok true, delete path f)
  end.
End codec.

(** ** The machine's own configuration *)

Record MachineConfig := MkMachine { mc_VMType : string; mc_Rootful : bool; mc_Port : Z }.

Inductive diff := VMTypeMoved | RootfulMoved | PortMoved.
Definition Disagreements (r : VmRec) (cfg : MachineConfig) : list diff :=
  (if negb (String.eqb (rec_VMType r) "") && negb (String.eqb (mc_VMType cfg) "") &&
      negb (String.eqb (rec_VMType r) (mc_VMType cfg)) then [VMTypeMoved] else []) ++
  (if negb (Bool.eqb (rec_Rootful r) (mc_Rootful cfg)) then [RootfulMoved] else []) ++
  (if negb (ssh_Port (rec_SSH r) =? 0) && negb (mc_Port cfg =? 0) &&
      negb (ssh_Port (rec_SSH r) =? mc_Port cfg) then [PortMoved] else []).

Inductive machine_err := NoMachine | MachineUnreadable | MachineBadJSON | NoHomeDir.
Section machine.
(** [json.Unmarshal] of podman's machine file: rootful and the ssh port. *)
Variable unmarshal_machine : string → option (bool * Z).

Definition PodmanMachineDirIn (home : string) : string :=
  if String.eqb home "" then "" else filepath_Join [home; ".config"; "containers"; "podman"; "machine"].

(** The provider directories in order; the first that has the machine. *)
Fixpoint scan_machines (f : fs) (dir name : string) (entries : list (string * bool))
    : result machine_err MachineConfig :=
  match entries with
  | [] => Err NoMachine
  | (e, is_dir) :: entries =>
      if negb is_dir then scan_machines f dir name entries
      else match ReadFile (filepath_Join [dir; e; name +:+ ".json"]) f with
           | Missing => scan_machines f dir name entries
           | Unreadable => Err MachineUnreadable
           | Content blob =>
               match unmarshal_machine blob with
               | None => Err MachineBadJSON
               | Some (rootful, port) => Ok (MkMachine e rootful port)
               end
           end
  end.
(** [entries] is what [os.ReadDir] gives: nothing there, an error, or the
    directory. *)
Definition ReadPodmanMachineConfig (f : fs) (entries : option (option (list (string * bool))))
    (home name : string) : result machine_err MachineConfig :=
  let dir := PodmanMachineDirIn home in
  if String.eqb dir "" then Err NoHomeDir
  else match entries with
       | None => Err NoMachine
       | Some None => Err MachineUnreadable
       | Some (Some entries) => scan_machines f dir name entries
       end.
End machine.

(** [checkPodmanRecord] ([cmd/drawbridge/main.go]): may the install go on?
    [home] is the invoking user's, when it resolves. *)
Inductive podman_refusal := MachineGone | MachineMoved (diffs : list diff).
Definition checkPodmanRecord (home : option string) (read : string → result machine_err MachineConfig)
    (r : VmRec) : option podman_refusal :=
  match home with
  | None => None
  | Some home =>
      match read home with
      | Err NoMachine => Some MachineGone
      | Err _ => None
      | Ok cfg => match Disagreements r cfg with [] => None | diffs => Some (MachineMoved diffs) end
      end
  end.

(** ** The endpoint *)

Definition Source : string := TransportGvproxyPublish.
Inductive note := NoRecord | RecordUnreadable (e : read_err) | BadRecordedEndpoint (e : ep_err)
| NotTCP | Refused | TimedOut | Unreachable.
(** The outcome of the one dial. *)
Inductive probe := Live | ECONNREFUSED | Timeout | OtherErr.
Definition classify (p : probe) : option note :=
  match p with Live => None | ECONNREFUSED => Some Refused | Timeout => Some TimedOut | OtherErr => Some Unreachable end.

(** [Resolve]: the endpoint (empty for a refusal) and the note. *)
Definition Resolve (read : result read_err VmRec) (dial : string → probe) : string * option note :=
  match read with
  | Err ErrAbsent => ("", Some NoRecord)
  | Err e => ("", Some (RecordUnreadable e))
  | Ok rec =>
      match Parse (rec_Endpoint rec) with
      | Err e => ("", Some (BadRecordedEndpoint e))
      | Ok ep =>
          if negb (String.eqb (Scheme ep) SchemeTCP) then ("", Some NotTCP)
          else (ep_String ep, classify (dial (Addr ep)))
      end
  end.

(** ** Facts *)

(** The record a VM's [up] wrote is the one its readers find, until it is
    removed: with its version and reference stamped in, whatever else happens to
    other VMs' records and to the secrets; the endpoint resolved from it is the
    recorded one in canonical form, reported without a note exactly when
    something answers there. *)
Theorem record_store marshal unmarshal home ch spec ref now rec f dial :
  ParseRef ch spec = Ok ref →
  unmarshal (marshal (stamp ref now rec) +:+ newline) = Some (stamp ref now rec) →
  let f' := (Write marshal home ref now rec None f).2 in
  Read home unmarshal ref f' =
    (if String.eqb (rec_Endpoint rec) "" then Err NoEndpoint else Ok (stamp ref now rec)) ∧
  (∀ other r, ParseRef ch other = Ok r → sameVM ch spec other = false →
     Read home unmarshal r f' = Read home unmarshal r f) ∧
  (∀ other r, ParseRef ch other = Ok r → ReadFile (PathForRef home r) f' = ReadFile (PathForRef home r) f) ∧
  (∀ ep, Parse (rec_Endpoint rec) = Ok ep → Scheme ep = SchemeTCP →
     Resolve (Read home unmarshal ref f') dial = (ep_String ep, classify (dial (Addr ep))) ∧
     Parse (ep_String ep) = Ok ep) ∧
  (∀ r0, (Remove home ref false f').1 = Ok r0 → r0 = true) ∧
  Read home unmarshal ref (Remove home ref false f').2 = Err ErrAbsent.
Proof.
  intros E Hj. cbn [Write snd].
  pose proof (ParseRef_parsed _ _ _ E) as [HP _].
  assert (∀ g, Read home unmarshal ref (<[record_Path home ref := Content (marshal (stamp ref now rec) +:+ newline)]> g) =
    if String.eqb (rec_Endpoint rec) "" then Err NoEndpoint else Ok (stamp ref now rec)) as HR.
  { intros g. unfold Read, ReadFile. rewrite lookup_insert_eq. cbn. rewrite Hj. cbn. done. }
  split_and!.
  - apply HR.
  - intros other r Er Hs. unfold Read, ReadFile. rewrite lookup_insert_ne; [done|].
    intros EP. apply (record_path_same _ _ _ _ _ _ E Er) in EP. congruence.
  - intros other r Er. unfold ReadFile. rewrite lookup_insert_ne; [done|].
    intros EP. by apply (record_path_secret home r ref (proj1 (ParseRef_parsed _ _ _ Er)) HP).
  - intros ep Ep Hs. rewrite HR. destruct (String.eqb_spec (rec_Endpoint rec) "") as [E0|].
    + rewrite E0 in Ep. done.
    + cbn. rewrite Ep, Hs. cbn. split; [done|]. by apply Parse_parsed_String, (Parse_parsed _ _ Ep).
  - unfold Remove. rewrite lookup_insert_eq. by intros r0 [= <-].
  - unfold Remove. rewrite lookup_insert_eq. cbn. unfold Read, ReadFile. by rewrite lookup_delete_eq.
Qed.
Definition ex_ref : Ref := MkRef "podman" "spike" "" "" "podman:spike".
Definition ex_rec : VmRec :=
  MkRec 0 "" "" TransportGvproxyPublish "127.0.0.1:4778" (MkSSH 50022 "/k" "core") false "libkrun" "v1" "".
(** A codec good for the one record: its endpoint is the text. *)
Definition ex_unmarshal (s : string) : option VmRec :=
  if String.eqb s ("127.0.0.1:4778" +:+ newline) then Some (stamp ex_ref "now" ex_rec) else None.
Lemma record_store_witness :
  Resolve (Read "/Users/x" ex_unmarshal ex_ref (Write rec_Endpoint "/Users/x" ex_ref "now" ex_rec None ∅).2)
    (λ _, ECONNREFUSED) = ("tcp://127.0.0.1:4778", Some Refused).
Proof.
  refine (proj1 (proj1 (proj2 (proj2 (proj2 (record_store rec_Endpoint ex_unmarshal "/Users/x" "" "podman:spike"
    ex_ref "now" ex_rec ∅ (λ _, ECONNREFUSED) _ _)))) (MkEndpoint "tcp" "127.0.0.1:4778") _ _));
    vm_compute; reflexivity.
Defined.

(** Nothing is read out of a record that is broken, from a newer build, or has
    no endpoint; what is read has one. *)
Lemma Read_Ok home unmarshal ref f r :
  Read home unmarshal ref f = Ok r →
  rec_Version r <= Version ∧ rec_Endpoint r ≠ "" ∧
  ∃ blob, f !! record_Path home ref = Some (Content blob) ∧ unmarshal blob = Some r.
Proof.
  unfold Read, ReadFile. destruct (f !! record_Path home ref) as [[| |blob]|] eqn:E; [done|done| |done]. cbn.
  destruct (unmarshal blob) as [rec|] eqn:U; [|done]. case_match; [done|]. case_match; [done|].
  intros [= <-]. bool_prop. eauto.
Qed.
(** An endpoint is resolved only from such a record, and it is a TCP one. *)
Lemma Resolve_endpoint home unmarshal ref f dial ep n :
  Resolve (Read home unmarshal ref f) dial = (ep, n) → ep ≠ "" →
  ∃ r e, Read home unmarshal ref f = Ok r ∧ Parse (rec_Endpoint r) = Ok e ∧ Scheme e = SchemeTCP ∧
    ep = ep_String e ∧ (n = None ↔ dial (Addr e) = Live).
Proof.
  unfold Resolve. destruct (Read home unmarshal ref f) as [r|[]] eqn:E; try (intros [= <- _]; done).
  destruct (Parse (rec_Endpoint r)) as [e|] eqn:P; [|intros [= <- _]; done].
  destruct (String.eqb_spec (Scheme e) SchemeTCP) as [S|]; cbn [negb]; [|intros [= <- _]; done].
  intros [= <- <-] _. exists r, e. split_and!; [done..|]. by destruct (dial (Addr e)).
Qed.
