(* ===== verification/Install.v ===== *)
(** * Install: the configuration of the root daemon

    [runInstall] ([src/cmd/drawbridge/main.go]) merges its flags with those of
    the daemon already installed ([inherit.go]), canonicalises them and renders
    the plist. Here: that pipeline, the merge, and what a bare re-install does. *)

From S2P Require Import Prelude GoStr NetIP GoPath Leases VmRef Plist.
From S2P Require VmRecord.
Open Scope string_scope.
Open Scope list_scope.
Open Scope Z_scope.

(** ** The flags *)

Record flags := MkFlags {
  f_vm : string; f_mac : string; f_subnet : string; f_udp : string; f_skip : string; f_secretFile : string }.
(** The fresh-install defaults of [runInstall]. *)
Definition default_flags : flags := MkFlags DefaultVM "" "" "" DefaultSkip "".

Record inherited := MkInherited {
  h_flags : flags;
  h_installed : bool;
  h_prevVM : string;
  h_prevTarget : string;
  h_prevAgent : string;
  h_sameVM : bool
}.

Section merge.
Variable colima_home : string.

(** A Mac-wide value: kept whenever the flag was not given. *)
Definition keep_wide (set : gset string) (prev : InstalledArgs) (name given : string) : string :=
  match prev !! ("-" +:+ name) with
  | Some v => if bool_decide (name ∈ set) then given else v
  | None => given
  end.
(** A per-VM value: kept only while the VM is the same one. *)
Definition keep_vm (set : gset string) (prev : InstalledArgs) (same : bool) (name given : string) : string :=
  match prev !! ("-" +:+ name) with
  | Some v =>
      if String.eqb v "" then given
      else if bool_decide (name ∈ set) then given
      else if same then v else given
  | None => given
  end.

(** [inheritInstall]; the notes it prints are left out. *)
Definition inheritInstall (f : flags) (set : gset string) (prev : option InstalledArgs) : inherited :=
  match prev with
  | None => MkInherited f false "" "" "" false
  | Some prev =>
      let prevVM := default "" (prev !! "-vm") in
      let a := default "" (prev !! "-agent") in
      let vm := if negb (bool_decide ("vm" ∈ set)) && negb (String.eqb prevVM "") then prevVM else f_vm f in
      let prevTarget := if String.eqb prevVM "" then DefaultVM else prevVM in
      let same := sameVM colima_home prevTarget vm in
      MkInherited
        (MkFlags vm (keep_vm set prev same "vm-mac" (f_mac f)) (keep_wide set prev "vm-subnet" (f_subnet f))
           (keep_wide set prev "udp" (f_udp f)) (keep_wide set prev "skip" (f_skip f))
           (keep_vm set prev same "secret-file" (f_secretFile f)))
        true prevVM prevTarget (if String.eqb a "auto" then "" else a) same
  end.
End merge.

(** [agentNote]: what happened to a pinned endpoint, said when it changes. *)
Inductive agent_note := OtherVM | NoPin | RecordChanged.
Definition agentNote (h : inherited) (agent : string) : option agent_note :=
  if negb (h_installed h) || String.eqb (h_prevAgent h) "" || String.eqb (h_prevAgent h) agent then None
  else if negb (h_sameVM h) then Some OtherVM
  else if String.eqb agent "" then Some NoPin else Some RecordChanged.

(** ** The pipeline *)

Inductive install_err :=
| ErrVMTwice | ErrUDP | ErrSkip | ErrMAC | ErrSubnet (e : subnet_err) | ErrVM (e : ref_err)
| ErrRecord (e : VmRecord.read_err) | ErrPodman (e : VmRecord.podman_refusal) | ErrPodmanMAC
| ErrConfig (e : config_err).

(** What the command finds around it: colima's home, the invoking user's home,
    the record of a VM and podman's own account of it. *)
Record world := MkWorld {
  w_colima : string;
  w_home : option string;
  w_record : Ref → result VmRecord.read_err VmRecord.VmRec;
  w_machine : Ref → string → result VmRecord.machine_err VmRecord.MachineConfig
}.

Definition secret_path (w : world) (ref : Ref) (given : string) : string :=
  if String.eqb given "" then match w_home w with Some h => PathForRef h ref | None => "" end else given.

(** The endpoint to pin: none but a podman machine's, from its record. *)
Definition agent_of (w : world) (ref : Ref) (mac : string) : result install_err string :=
  if String.eqb (r_Provider ref) ProviderPodman then
    match w_record w ref with
    | Err e => Err (ErrRecord e)
    | Ok rec =>
        match VmRecord.checkPodmanRecord (w_home w) (w_machine w ref) rec with
        | Some e => Err (ErrPodman e)
        | None => if negb (String.eqb mac "") then Err ErrPodmanMAC else Ok (VmRecord.rec_Endpoint rec)
        end
    end
  else Ok "".

(** The configuration of flags already merged. *)
Definition config_of (w : world) (f : flags) : result install_err Config :=
  udp ← of_option ErrUDP (ParsePorts (f_udp f));
  skip ← of_option ErrSkip (SetSkip (f_skip f));
  mac ← (if String.eqb (f_mac f) "" then Ok "" else of_option ErrMAC (ParseHWAddr (f_mac f)));
  net ← (if String.eqb (f_subnet f) "" then Ok ""
         else match ParseSubnet (f_subnet f) with Ok p => Ok (prefix_string p) | Err e => Err (ErrSubnet e) end);
  ref ← match ParseRef (w_colima w) (f_vm f) with Ok r => Ok r | Err e => Err (ErrVM e) end;
  let secret := secret_path w ref (f_secretFile f) in
  agent ← agent_of w ref mac;
  Ok (MkConfig (f_vm f) udp mac net skip agent secret).

(** The VM may also come positionally; naming it twice is a usage error. *)
Definition with_positional (f : flags) (set : gset string) (positional : string) : result install_err (flags * gset string) :=
  if String.eqb positional "" then Ok (f, set)
  else if bool_decide ("vm" ∈ set) then Err ErrVMTwice
  else Ok (MkFlags positional (f_mac f) (f_subnet f) (f_udp f) (f_skip f) (f_secretFile f), {["vm"]} ∪ set).

(** The whole of [runInstall] up to the document it writes. *)
Definition runInstall (w : world) (f : flags) (set : gset string) (positional : string) (prev : option InstalledArgs)
    : result install_err (Config * string) :=
  '(f, set) ← with_positional f set positional;
  c ← config_of w (h_flags (inheritInstall (w_colima w) f set prev));
  p ← match RenderPlist (w_colima w) c with Ok p => Ok p | Err e => Err (ErrConfig e) end;
  Ok (c, p).

(** ** Canonical values *)

(** A check over a finite range of integers, by evaluation. *)
Lemma seqZ_forallb (f : Z → bool) lo n :
  forallb f (seqZ lo n) = true → ∀ x, lo <= x < lo + n → f x = true.
Proof.
  intros H x Hx. rewrite forallb_forall in H. apply H. apply list_elem_of_In, elem_of_seqZ. lia.
Qed.

Definition octet_text (o : Z) : bool :=
  bool_decide (parse_octet (Itoa o) = Some o) && str_forall is_dec (Itoa o).
Lemma octet_text_ok o : 0 <= o < 256 → parse_octet (Itoa o) = Some o ∧ str_forall is_dec (Itoa o) = true.
Proof.
  intros Ho. assert (octet_text o = true) as H.
  { apply (seqZ_forallb octet_text 0 256); [vm_compute; reflexivity|lia]. }
  unfold octet_text in H. bool_prop. tauto.
Qed.
Definition bits_text (b : Z) : bool :=
  let s := Itoa b in
  bool_decide (Atoi s = Ok b) && str_forall is_dec s && negb (String.eqb s "") &&
  negb ((1 <? String.length s)%nat &&
        negb (match s with String c _ => (49 <=? code c) && (code c <=? 57) | EmptyString => true end)).
Lemma bits_text_ok b : 0 <= b <= 32 → bits_text b = true.
Proof. intros Hb. apply (seqZ_forallb bits_text 0 33); [vm_compute; reflexivity|lia]. Qed.

Lemma octet_bound i a : 0 <= octet i a < 256.
Proof. unfold octet. apply Z.mod_pos_bound. lia. Qed.
Lemma octets_join a :
  0 <= a < 2 ^ 32 → ((octet 3 a * 256 + octet 2 a) * 256 + octet 1 a) * 256 + octet 0 a = a.
Proof.
  intros Ha. unfold octet. rewrite !Z.shiftr_div_pow2 by lia.
  change (2 ^ (8 * 3)) with (256 * 256 * 256). change (2 ^ (8 * 2)) with (256 * 256).
  change (2 ^ (8 * 1)) with 256. change (2 ^ (8 * 0)) with 1.
  rewrite <- !Z.div_div by lia. rewrite Z.div_1_r.
  pose proof (Z.div_mod a 256 ltac:(lia)). pose proof (Z.div_mod (a / 256) 256 ltac:(lia)).
  pose proof (Z.div_mod (a / 256 / 256) 256 ltac:(lia)).
  assert (a / 256 / 256 / 256 < 256) by (rewrite !Z.div_div by lia; apply Z.div_lt_upper_bound; lia).
  assert (0 <= a / 256 / 256 / 256) by (rewrite !Z.div_div by lia; apply Z.div_pos; lia).
  rewrite (Z.mod_small (a / 256 / 256 / 256)) by lia. lia.
Qed.

Lemma parseIPv4_string4 a : 0 <= a < 2 ^ 32 → parseIPv4Fields (string4 a) = Some a.
Proof.
  intros Ha. unfold parseIPv4Fields, string4. rewrite Split_Join; [|done|].
  - pose proof (λ i, octet_text_ok _ (octet_bound i a)) as H.
    assert (mapM parse_octet (Itoa <$> [octet 3 a; octet 2 a; octet 1 a; octet 0 a]) =
      Some [octet 3 a; octet 2 a; octet 1 a; octet 0 a]) as ->.
    { apply mapM_Some. repeat constructor; apply H. }
    f_equal. by apply octets_join.
  - apply Forall_fmap. repeat constructor; cbn; (eapply str_forall_has; [apply octet_text_ok, octet_bound|done]).
Qed.
Lemma string4_text a c : is_dec c = false → c ≠ "."%char → has_byte c (string4 a) = false.
Proof.
  intros Hc Hd. unfold string4. rewrite has_byte_Join by (cbn; by rewrite (proj2 (Ascii.eqb_neq c ".")) by done).
  cbn [fmap list_fmap existsb].
  rewrite !(str_forall_has is_dec c) by (done || apply octet_text_ok, octet_bound). done.
Qed.
Lemma family_dec s r : str_forall is_dec s = true → family_of (s +:+ String "." r) = Some "."%char.
Proof.
  induction s as [|c s IH]; [done|]. cbn -[Ascii.eqb]. intros [Hc Hs]%andb_true_iff. rewrite IH by done.
  assert (∀ d, is_dec d = false → Ascii.eqb c d = false) as H.
  { intros d Hd. apply Ascii.eqb_neq. intros ->. congruence. }
  by rewrite !H.
Qed.
Lemma ParseAddr_string4 a : 0 <= a < 2 ^ 32 → ParseAddr (string4 a) = Some (Addr4 a).
Proof.
  intros Ha. unfold ParseAddr.
  assert (family_of (string4 a) = Some "."%char) as ->.
  { unfold string4. cbn [fmap list_fmap]. 
    change (Join (?x :: ?y :: ?l) ".") with (x +:+ String "." (Join (y :: l) ".")).
    apply family_dec. apply octet_text_ok, octet_bound. }
  change (Addr4 <$> parseIPv4Fields (string4 a) = Some (Addr4 a)). by rewrite parseIPv4_string4.
Qed.

Lemma ParsePrefix_string a b :
  0 <= a < 2 ^ 32 → 0 <= b <= 32 →
  ParsePrefix (prefix_string (Prefix (Addr4 a) b)) = Some (Prefix (Addr4 a) b).
Proof.
  intros Ha Hb. unfold prefix_string. cbn [PrefixIsValid pfx_bits pfx_ip addr_string].
  unfold PrefixIsValid. cbn [pfx_bits]. rewrite (proj2 (Z.leb_le 0 b)) by lia.
  pose proof (bits_text_ok b Hb) as HT. unfold bits_text in HT. cbv zeta in HT.
  apply andb_true_iff in HT as [HT HL]. apply negb_true_iff in HL.
  apply andb_true_iff in HT as [HT _]. apply andb_true_iff in HT as [HA%bool_decide_eq_true HD].
  change ("/" +:+ Itoa b) with (String "/" (Itoa b)). unfold ParsePrefix.
  rewrite LastIndexByte_app by by apply (str_forall_has is_dec).
  cbn [mbind option_bind]. rewrite str_take_app, ParseAddr_string4 by done. cbn [mbind option_bind hasZone].
  rewrite str_drop_app_S, HL, HA. cbn [Is6]. rewrite (proj2 (Z.ltb_ge b 0)), (proj2 (Z.ltb_ge 32 b)) by lia.
  unfold PrefixFrom. cbn. rewrite (proj2 (Z.leb_le 0 b)), (proj2 (Z.leb_le b 32)) by lia. done.
Qed.

Definition clear32 (n b : Z) : Z := Z.shiftl (Z.shiftr n (32 - b)) (32 - b).
Lemma clear32_bound n b : 0 <= n < 2 ^ 32 → 0 <= b <= 32 → 0 <= clear32 n b < 2 ^ 32.
Proof.
  intros Hn Hb. unfold clear32. rewrite Z.shiftl_mul_pow2, Z.shiftr_div_pow2 by lia.
  pose proof (Z.mul_div_le n (2 ^ (32 - b)) ltac:(apply Z.pow_pos_nonneg; lia)).
  assert (0 <= n / 2 ^ (32 - b)) by (apply Z.div_pos; [lia|apply Z.pow_pos_nonneg; lia]).
  pose proof (Z.pow_pos_nonneg 2 (32 - b)). nia.
Qed.
Lemma clear32_idem n b : 0 <= b <= 32 → clear32 (clear32 n b) b = clear32 n b.
Proof.
  intros Hb. unfold clear32. rewrite Z.shiftr_shiftl_l, Z.sub_diag, Z.shiftl_0_r by lia. done.
Qed.

Lemma parse_octet_range f v : parse_octet f = Some v → 0 <= v < 256.
Proof.
  unfold parse_octet. case_match; [done|]. destruct (ParseUint f 10 8) as [w|] eqn:E; [|done]. intros [= <-].
  apply ParseUint_Ok in E as (_ & _ & ?); [|lia]. cbn in *. lia.
Qed.
Lemma parseIPv4_range s n : parseIPv4Fields s = Some n → 0 <= n < 2 ^ 32.
Proof.
  unfold parseIPv4Fields. destruct (mapM _ _) as [l|] eqn:E; [|done]. apply mapM_Some in E.
  assert (Forall (λ v, 0 <= v < 256) l) as HF.
  { clear -E. induction E as [|f v fs l H _ IH]; constructor; [by eapply parse_octet_range|done]. }
  destruct l as [|a [|b [|c [|d [|]]]]]; try done. intros [= <-].
  rewrite !Forall_cons in HF. lia.
Qed.
Lemma parseIPv6_six s a : parseIPv6 s = Some a → Is4 a = false.
Proof.
  assert (∀ gs ell z a, parse6_finish gs ell z = Some a → Is4 a = false) as H.
  { intros gs ell z b. unfold parse6_finish. repeat case_match; intros [= <-]; done. }
  unfold parseIPv6. destruct (match Cut "%" s with None => _ | Some _ => _ end) as [[s' z]|]; [|done].
  cbn [mbind option_bind]. destruct (CutPrefix "::" s') as [r|].
  - case_decide; [by intros [= <-]|]. destruct (parse6_loop _ _ _ _) as [[gs ell]|]; [|done]. apply H.
  - destruct (parse6_loop _ _ _ _) as [[gs ell]|]; [|done]. apply H.
Qed.
Lemma ParsePrefix_range s ip b :
  ParsePrefix s = Some (Prefix ip b) → match ip with Addr4 n => 0 <= n < 2 ^ 32 ∧ 0 <= b <= 32 | _ => True end.
Proof.
  destruct ip as [|n|]; [done| |done]. unfold ParsePrefix.
  destruct (LastIndexByte _ _) as [i|]; [|done]. cbn [mbind option_bind].
  destruct (ParseAddr (str_take i s)) as [a|] eqn:EA; [|done]. cbn [mbind option_bind].
  destruct (hasZone a); [done|]. destruct (_ && _); [done|]. destruct (Atoi _) as [bits|]; [|done].
  destruct (_ || _) eqn:R; [done|].
  unfold PrefixFrom. intros [= Ha Hb].
  assert (a = Addr4 n) as -> by (destruct a; cbn in Ha; congruence).
  cbn in R, Hb. apply orb_false_iff in R as [R1%Z.ltb_ge R2%Z.ltb_ge].
  rewrite (proj2 (Z.leb_le 0 bits)), (proj2 (Z.leb_le bits 32)) in Hb by lia. cbn in Hb. subst bits.
  split; [|lia]. unfold ParseAddr in EA. destruct (family_of _) as [c|]; [|done].
  destruct (Ascii.eqb c "."); [|destruct (Ascii.eqb c ":"); [|done]].
  - destruct (parseIPv4Fields _) eqn:EP; [|done]. injection EA as <-. by apply parseIPv4_range in EP.
  - apply parseIPv6_six in EA. done.
Qed.

(** What [ParseSubnet] accepts: an IPv4 prefix, its host bits cleared. *)
Lemma ParseSubnet_Ok s p :
  ParseSubnet s = Ok p → ∃ n b, 0 <= n < 2 ^ 32 ∧ 0 <= b <= 32 ∧ IsPrivate (Addr4 n) = true ∧
    p = Prefix (Addr4 (clear32 n b)) b.
Proof.
  unfold ParseSubnet. destruct (ParsePrefix (TrimSpace s)) as [q|] eqn:E; [|done].
  destruct (Is4 (pfx_ip q)) eqn:H4; [|done]. destruct (IsPrivate (pfx_ip q)) eqn:HP; [|done]. intros [= <-].
  destruct q as [ip b]. cbn [pfx_ip] in *. apply ParsePrefix_range in E. destruct ip as [|n|]; [done| |done].
  destruct E as [Hn Hb]. exists n, b. split_and!; [lia..|done|].
  unfold Masked. cbn [pfx_ip pfx_bits IsValid BitLen].
  rewrite (proj2 (Z.leb_le 0 b)), (proj2 (Z.leb_le b 32)) by lia. cbn [andb].
  unfold PrefixFrom, mask_addr. cbn [withoutZone IsValid BitLen andb].
  by rewrite (proj2 (Z.leb_le 0 b)), (proj2 (Z.leb_le b 32)) by lia.
Qed.

Lemma str_forall_Join g ws sep :
  str_forall g sep = true → Forall (λ w, str_forall g w = true) ws → str_forall g (Join ws sep) = true.
Proof.
  intros Hs. induction 1 as [|w ws Hw HF IH]; [done|]. destruct ws as [|w' ws]; [done|].
  change (Join (w :: w' :: ws) sep) with (w +:+ sep +:+ Join (w' :: ws) sep).
  by rewrite !str_forall_app, Hw, Hs, IH.
Qed.
Lemma prefix_string_eq a b : 0 <= b → prefix_string (Prefix (Addr4 a) b) = string4 a +:+ "/" +:+ Itoa b.
Proof. intros Hb. unfold prefix_string, PrefixIsValid. cbn [pfx_bits pfx_ip addr_string]. by rewrite (proj2 (Z.leb_le 0 b)) by lia. Qed.
Lemma TrimSpace_prefix a b :
  0 <= b <= 32 → TrimSpace (prefix_string (Prefix (Addr4 a) b)) = prefix_string (Prefix (Addr4 a) b).
Proof.
  intros Hb. rewrite prefix_string_eq by lia. apply TrimSpace_plain. rewrite !str_forall_app.
  assert (∀ s, str_forall is_dec s = true → str_forall (λ c, negb (is_space c)) s = true) as H
    by (intros s; apply str_forall_impl, dec_no_space).
  rewrite (H (Itoa b)) by (apply Itoa_dec; lia).
  assert (str_forall (λ c, negb (is_space c)) (string4 a) = true) as ->; [|done].
  unfold string4. apply str_forall_Join; [done|]. apply Forall_fmap. repeat constructor; apply H, octet_text_ok, octet_bound.
Qed.

(** An accepted subnet whose network address is private reads back. *)
Lemma subnet_canonical s p :
  ParseSubnet s = Ok p → IsPrivate (pfx_ip p) = true → ParseSubnet (prefix_string p) = Ok p.
Proof.
  intros (n & b & Hn & Hb & _ & ->)%ParseSubnet_Ok HP. cbn [pfx_ip] in HP.
  pose proof (clear32_bound n b Hn Hb) as Hc. unfold ParseSubnet.
  rewrite TrimSpace_prefix, ParsePrefix_string by done. cbn [pfx_ip Is4]. rewrite HP. cbn [negb]. f_equal.
  unfold Masked. cbn [pfx_ip pfx_bits IsValid BitLen].
  rewrite (proj2 (Z.leb_le 0 b)), (proj2 (Z.leb_le b 32)) by lia. cbn [andb].
  unfold PrefixFrom, mask_addr. cbn [withoutZone IsValid BitLen andb].
  rewrite (proj2 (Z.leb_le 0 b)), (proj2 (Z.leb_le b 32)) by lia. cbn [andb].
  change (Z.shiftl (Z.shiftr (clear32 n b) (32 - b)) (32 - b)) with (clear32 (clear32 n b) b).
  by rewrite clear32_idem.
Qed.

(** A canonical subnet that is accepted at all reads back as itself. *)
Lemma subnet_reads s p :
  ParseSubnet s = Ok p → is_ok (ParseSubnet (prefix_string p)) = true → ParseSubnet (prefix_string p) = Ok p.
Proof.
  intros Hs Hok. apply (subnet_canonical s); [done|]. pose proof Hs as (n & b & Hn & Hb & _ & ->)%ParseSubnet_Ok.
  unfold ParseSubnet in Hok. rewrite TrimSpace_prefix, ParsePrefix_string in Hok by (done || by apply clear32_bound).
  cbn [pfx_ip] in *. cbn [Is4 negb] in Hok. by destruct (IsPrivate _).
Qed.

Definition hex2_text (v : Z) : bool :=
  bool_decide (parse_octet16 (hex2 v) = Some v) && str_forall is_hexc (hex2 v).
Lemma hex2_ok v : 0 <= v < 256 → parse_octet16 (hex2 v) = Some v ∧ str_forall is_hexc (hex2 v) = true.
Proof.
  intros Hv. assert (hex2_text v = true) as H.
  { apply (seqZ_forallb hex2_text 0 256); [vm_compute; reflexivity|lia]. }
  unfold hex2_text in H. bool_prop. tauto.
Qed.
Lemma parse_octet16_range p v : parse_octet16 p = Some v → 0 <= v < 256.
Proof.
  unfold parse_octet16. destruct (ParseUint p 16 8) as [w|] eqn:E; [|done]. case_match; [done|]. intros [= <-].
  apply ParseUint_Ok in E as (_ & _ & ?); [|lia]. cbn in *. lia.
Qed.
Lemma hexc_chars c : is_hexc c = true → negb (is_space c) = true ∧ c ≠ ","%char ∧ c ≠ ":"%char.
Proof.
  intros H. split; [|split; intros ->; vm_compute in H; discriminate].
  destruct (is_space c) eqn:E; [|done]. exfalso. revert H E. unfold is_hexc, is_space.
  destruct c as [[] [] [] [] [] [] [] []]; vm_compute; congruence.
Qed.

(** A normalised hardware address is its own normal form. *)
Lemma hwaddr_canonical s h : ParseHWAddr s = Some h → ParseHWAddr h = Some h ∧ h ≠ "" ∧ TrimSpace h = h.
Proof.
  unfold ParseHWAddr. intros Hh.
  assert (∃ vs, length vs = 6%nat ∧ Forall (λ v, 0 <= v < 256) vs ∧ h = Join (map hex2 vs) ":") as (vs & Hl & HF & ->).
  { unfold normalizeHWAddr in Hh.
    destruct (match IndexByte "," (TrimSpace s) with Some _ => _ | None => _ end) as [t|]; [|done].
    cbn [mbind option_bind] in Hh. destruct (length (Split ":" t) =? 6)%nat eqn:L; [|done]. cbn [negb] in Hh.
    destruct (mapM parse_octet16 (Split ":" t)) as [vs|] eqn:E; [|done]. injection Hh as <-.
    apply mapM_Some in E. pose proof (Forall2_length _ _ _ E) as HL. apply Nat.eqb_eq in L. exists vs. split_and!; [lia| |done].
    clear -E. induction E as [|f v fs l H _ IH]; constructor; [by eapply parse_octet16_range|done]. }
  assert (str_forall (λ c, negb (is_space c)) (Join (map hex2 vs) ":") = true) as HS.
  { apply str_forall_Join; [done|]. apply Forall_map. eapply Forall_impl; [exact HF|]. intros v Hv.
    eapply str_forall_impl; [|apply (hex2_ok v Hv)]. intros c Hc. by apply hexc_chars. }
  assert (∀ c, is_hexc c = false → Forall (λ w, has_byte c w = false) (map hex2 vs)) as HB.
  { intros c Hc. apply Forall_map. eapply Forall_impl; [exact HF|]. intros v Hv.
    eapply str_forall_has; [apply (hex2_ok v Hv)|done]. }
  assert (map hex2 vs ≠ []) as Hne by (destruct vs; done).
  split; [|split; [destruct vs as [|v [|]]; done|by apply TrimSpace_plain]].
  unfold normalizeHWAddr. rewrite TrimSpace_plain by done.
  assert (IndexByte "," (Join (map hex2 vs) ":") = None) as ->.
  { destruct (IndexByte "," _) as [i|] eqn:EI; [exfalso|done]. apply IndexByte_Some in EI as (u & v & E & _).
    assert (has_byte "," (Join (map hex2 vs) ":") = false) as H; [|rewrite E, has_byte_app in H; cbn in H; by rewrite orb_true_r in H].
    rewrite has_byte_Join by done. specialize (HB ","%char eq_refl).
    revert HB. generalize (map hex2 vs). clear. induction 1 as [|w ws Hw _ IH]; [done|].
    cbn. by rewrite Hw, IH. }
  cbn [mbind option_bind]. rewrite Split_Join by (done || by apply HB). rewrite length_map, Hl. cbn [Nat.eqb negb].
  assert (mapM parse_octet16 (map hex2 vs) = Some vs) as ->; [|done].
  apply mapM_Some. clear -HF. induction HF as [|v vs Hv _ IH]; cbn [map]; constructor; [by apply hex2_ok|done].
Qed.

(** ** Reading a flag back *)

Fixpoint assoc (k : string) (l : list (string * string)) : option string :=
  match l with [] => None | (f, v) :: l => if String.eqb f k then Some v else assoc k l end.
Lemma list_to_map_assoc k l :
  (list_to_map (prod_map id TrimSpace <$> l) : gmap string string) !! k = TrimSpace <$> assoc k l.
Proof.
  induction l as [|[f v] l IH]; [done|]. cbn. destruct (String.eqb_spec f k) as [->|].
  - by rewrite lookup_insert_eq.
  - by rewrite lookup_insert_ne.
Qed.

(** Text that trimming leaves alone. *)
Definition trimmed (s : string) : Prop := TrimSpace s = s.

(** What the installed document tells the next install. *)
Definition flags_of (c : Config) : flags :=
  MkFlags (c_VM c) (c_MAC c) (c_Subnet c) (match c_UDP c with [] => "" | _ => joinPorts (c_UDP c) end)
    (match c_Skip c with None => DefaultSkip | Some l => joinPorts l end) (c_SecretFile c).

(** What a configuration that came out of the pipeline is. *)
Definition ports_ok (l : list Z) : Prop := Forall (λ p, 0 < p < 65536) l.
Record produced (w : world) (c : Config) : Prop := {
  pd_udp : ports_ok (c_UDP c);
  pd_skip : ∀ l, c_Skip c = Some l → ports_ok l ∧ ¬ l ≡ₚ [22; 323];
  pd_mac : c_MAC c = "" ∨ ParseHWAddr (c_MAC c) = Some (c_MAC c);
  pd_subnet : c_Subnet c = "" ∨ ∃ s p, ParseSubnet s = Ok p ∧ c_Subnet c = prefix_string p;
  pd_ref : ∃ ref, ParseRef (w_colima w) (c_VM c) = Ok ref ∧ agent_of w ref (c_MAC c) = Ok (c_Agent c) ∧
    (c_SecretFile c = "" → secret_path w ref "" = "")
}.

Lemma config_produced w f c : config_of w f = Ok c → produced w c.
Proof.
  unfold config_of. intros (udp & HU%of_option_Ok & H)%result_bind_Ok.
  apply result_bind_Ok in H as (skip & HS%of_option_Ok & H).
  apply result_bind_Ok in H as (mac & HM & H). apply result_bind_Ok in H as (net & HN & H).
  apply result_bind_Ok in H as (ref & HR & H). cbv zeta in H.
  apply result_bind_Ok in H as (agent & HA & [= <-]).
  split; cbn [c_UDP c_Skip c_MAC c_Subnet c_VM c_Agent c_SecretFile].
  - by eapply ParsePorts_range.
  - intros l ->. apply SetSkip_Some in HS as (ports & HP & [[? _]|[[= ->] Hn]]); [done|].
    split; [by eapply ParsePorts_range|done].
  - destruct (String.eqb (f_mac f) ""); [injection HM as <-; by left|].
    apply of_option_Ok, hwaddr_canonical in HM as (? & _). by right.
  - destruct (String.eqb (f_subnet f) ""); [injection HN as <-; by left|]. right. destruct (ParseSubnet (f_subnet f)) as [p|] eqn:E; [|done].
    injection HN as <-. eauto.
  - destruct (ParseRef (w_colima w) (f_vm f)) as [r|]; [|done]. injection HR as ->. exists ref. split_and!; [done..|].
    unfold secret_path. destruct (String.eqb_spec (f_secretFile f) ""); [done|]. done.
Qed.

(** The merged flags of a bare re-install are the installed configuration's. *)
Lemma inherit_flags ch c r :
  ParseRef ch (c_VM c) = Ok r → trimmed (c_VM c) → trimmed (c_SecretFile c) → trimmed (c_MAC c) →
  trimmed (c_Subnet c) → ports_ok (c_UDP c) → (∀ l, c_Skip c = Some l → ports_ok l) →
  h_flags (inheritInstall ch default_flags ∅ (Some (list_to_map (prod_map id TrimSpace <$> flag_args c)))) = flags_of c.
Proof.
  intros HR HV HF HM HN HU HS. unfold inheritInstall, keep_wide, keep_vm. cbn [String.append].
  rewrite !list_to_map_assoc.
  assert (assoc "-vm" (flag_args c) = Some (c_VM c)) as -> by done.
  assert (assoc "-udp" (flag_args c) = match c_UDP c with [] => None | _ => Some (joinPorts (c_UDP c)) end) as ->
    by (unfold flag_args; repeat case_match; reflexivity).
  assert (assoc "-skip" (flag_args c) = joinPorts <$> c_Skip c) as ->
    by (unfold flag_args; repeat case_match; reflexivity).
  assert (assoc "-vm-mac" (flag_args c) = if String.eqb (c_MAC c) "" then None else Some (c_MAC c)) as ->
    by (unfold flag_args; repeat case_match; reflexivity).
  assert (assoc "-vm-subnet" (flag_args c) = if String.eqb (c_Subnet c) "" then None else Some (c_Subnet c)) as ->
    by (unfold flag_args; repeat case_match; reflexivity).
  assert (assoc "-secret-file" (flag_args c) = if String.eqb (c_SecretFile c) "" then None else Some (c_SecretFile c)) as ->
    by (unfold flag_args; repeat case_match; reflexivity).
  cbn [fmap option_fmap option_map from_option id]. rewrite HV.
  assert (c_VM c ≠ "") as Hne by (intros E; rewrite E in HR; done).
  rewrite (proj2 (String.eqb_neq (c_VM c) "")) by done.
  assert (∀ (name : string) (D : Decision (name ∈ (∅ : gset string))), @bool_decide _ D = false) as He
    by (intros; apply bool_decide_eq_false; set_solver).
  rewrite !He. cbn [negb andb].
  assert (sameVM ch (c_VM c) (c_VM c) = true) as -> by (unfold sameVM; by rewrite HR, !String.eqb_refl).
  unfold flags_of. cbn [h_flags default_flags f_mac f_subnet f_udp f_skip f_secretFile]. f_equal.
  - destruct (String.eqb_spec (c_MAC c) "") as [->|]; [done|]. cbn. rewrite HM.
    by rewrite (proj2 (String.eqb_neq (c_MAC c) "")) by done.
  - destruct (String.eqb_spec (c_Subnet c) "") as [->|]; [done|]. cbn. by rewrite HN.
  - destruct (c_UDP c) as [|x l] eqn:E; [done|]. cbn [fmap option_fmap option_map]. by apply TrimSpace_joinPorts.
  - destruct (c_Skip c) as [l|]; [|done]. cbn. apply TrimSpace_joinPorts. by apply HS.
  - destruct (String.eqb_spec (c_SecretFile c) "") as [->|]; [done|]. cbn. rewrite HF.
    by rewrite (proj2 (String.eqb_neq (c_SecretFile c) "")) by done.
Qed.

(** The pipeline gives a configuration it produced back. *)
Lemma config_again w c :
  produced w c → (c_Subnet c = "" ∨ is_ok (ParseSubnet (c_Subnet c)) = true) →
  config_of w (flags_of c) = Ok c.
Proof.
  intros [HU HS HM HN (ref & HR & HA & HF)] Hsub. unfold config_of, flags_of.
  cbn [f_vm f_mac f_subnet f_udp f_skip f_secretFile].
  assert (ParsePorts (match c_UDP c with [] => "" | _ => joinPorts (c_UDP c) end) = Some (c_UDP c)) as ->.
  { destruct (c_UDP c) eqn:E; [done|]. by apply ParsePorts_join. }
  assert (SetSkip (match c_Skip c with None => DefaultSkip | Some l => joinPorts l end) = Some (c_Skip c)) as ->.
  { destruct (c_Skip c) as [l|]; [|vm_compute; reflexivity]. destruct (HS l eq_refl) as [Hl Hn].
    apply SetSkip_Some. exists l. split; [by apply ParsePorts_join|by right]. }
  assert ((if String.eqb (c_MAC c) "" then Ok "" else of_option ErrMAC (ParseHWAddr (c_MAC c))) = Ok (c_MAC c)) as ->.
  { destruct (String.eqb_spec (c_MAC c) "") as [->|]; [done|]. destruct HM as [?| ->]; done. }
  assert ((if String.eqb (c_Subnet c) "" then Ok ""
    else match ParseSubnet (c_Subnet c) with Ok p => Ok (prefix_string p) | Err e => Err (ErrSubnet e) end) = Ok (c_Subnet c)) as ->.
  { destruct (String.eqb_spec (c_Subnet c) "") as [->|]; [done|]. destruct Hsub as [?|Hsub]; [done|].
    destruct HN as [?|(s & p & Hp & E)]; [done|]. rewrite E in *. by rewrite (subnet_reads s p). }
  cbn. rewrite HR. cbn. rewrite HA. cbn. f_equal. destruct c as [vm udp mac net skip agent secret]. cbn in *. f_equal.
  unfold secret_path. destruct (String.eqb_spec secret "") as [->|]; [|done]. by apply HF.
Qed.

Lemma wf_ports l : ports_ok l → Forall (λ p, 0 <= p < 65536) l.
Proof. intros H. eapply Forall_impl; [exact H|]. intros p Hp; cbn in *; lia. Qed.

(** C36: a bare [drawbridge install] changes nothing. Whatever the flags and the
    daemon installed before, if an install wrote a document, then a second one
    without flags reads that document, inherits from it and writes the very same
    configuration and document again: every flag is canonical after one pass.
    It needs the texts it stores verbatim to have no surrounding white space,
    and the subnet to be one the parser still accepts once masked. *)
Theorem reinstall_same w f set pos prev c p :
  runInstall w f set pos prev = Ok (c, p) →
  trimmed (c_VM c) → trimmed (c_SecretFile c) →
  c_Subnet c = "" ∨ is_ok (ParseSubnet (c_Subnet c)) = true →
  runInstall w default_flags ∅ "" (Some (ArgsFromPlist p)) = Ok (c, p).
Proof.
  unfold runInstall. intros ([f' set'] & _ & H)%result_bind_Ok.
  apply result_bind_Ok in H as (c' & HC & H). intros HV HF Hsub.
  apply result_bind_Ok in H as (p' & HR & [= -> ->]).
  assert (RenderPlist (w_colima w) c = Ok p) as HP.
  { destruct (RenderPlist (w_colima w) c); [f_equal; by eapply result_Ok_inj|done]. }
  pose proof (config_produced _ _ _ HC) as HPd. pose proof HPd as [HU HS HM HN (ref & Href & _)].
  rewrite (plist_args (w_colima w) c p); [| |done].
  2: { split; [by apply wf_ports|]. destruct (c_Skip c) as [l|]; [|constructor]. apply wf_ports. by apply HS. }
  cbn [with_positional String.eqb mbind result_bind]. rewrite (inherit_flags _ _ ref); [|exact Href|done|done| | |done|].
  - rewrite config_again by done. cbn [mbind result_bind]. by rewrite HP.
  - destruct HM as [->|HM]; [reflexivity|]. by apply hwaddr_canonical in HM as (_ & _ & ?).
  - destruct HN as [->|(s & q & (n & b & _ & Hb & _ & ->)%ParseSubnet_Ok & ->)]; [reflexivity|]. by apply TrimSpace_prefix.
  - intros l Hl. by apply HS.
Qed.
Definition ex_world : world :=
  MkWorld "" (Some "/Users/x") (λ _, Err VmRecord.ErrAbsent) (λ _ _, Err VmRecord.NoMachine).
Definition ex_flags : flags := MkFlags "colima:default" "52:55:55:A:de:2" " 192.168.64.7/24" "53, 123" "" "".
Lemma reinstall_same_witness :
  match runInstall ex_world ex_flags {["vm"; "vm-mac"]} "" None with
  | Ok (c, p) => c_MAC c = "52:55:55:0a:de:02" ∧ c_Subnet c = "192.168.64.0/24" ∧
      runInstall ex_world default_flags ∅ "" (Some (ArgsFromPlist p)) = Ok (c, p)
  | Err _ => False
  end.
Proof.
  destruct (runInstall ex_world ex_flags {["vm"; "vm-mac"]} "" None) as [[c p]|] eqn:E; [|vm_compute in E; discriminate E].
  assert (c = MkConfig "colima:default" [53; 123] "52:55:55:0a:de:02" "192.168.64.0/24" (Some []) ""
    "/Users/x/Library/Application Support/drawbridge/transport-secret-colima-colima") as Hc.
  { vm_compute in E. congruence. }
  rewrite Hc. split; [reflexivity|]. split; [reflexivity|]. rewrite <- Hc.
  refine (reinstall_same ex_world ex_flags {["vm"; "vm-mac"]} "" None c p E _ _ _); rewrite Hc.
  - vm_compute. reflexivity.
  - vm_compute. reflexivity.
  - right. vm_compute. reflexivity.
Defined.

(** The guard against public ranges looks at the address before the mask is
    applied: a private address with a short prefix is accepted, and what the
    install stores is a range it rejects (the daemon stops on it at boot). *)
Lemma short_prefix_accepted :
  (∃ p, ParseSubnet "10.0.0.0/0" = Ok p ∧ prefix_string p = "0.0.0.0/0") ∧
  is_ok (ParseSubnet "0.0.0.0/0") = false ∧
  (∃ p, ParseSubnet "172.16.0.0/8" = Ok p ∧ prefix_string p = "172.0.0.0/8") ∧
  is_ok (ParseSubnet "172.0.0.0/8") = false.
Proof. split_and!; try (eexists; split; [vm_compute; reflexivity|]); vm_compute; reflexivity. Qed.
