(* ===== verification/Daemon.v ===== *)
(** * Daemon: the start of drawbridged and its endpoint resolution

    [src/cmd/drawbridged/main.go]: the flags, the checks every start goes
    through, the endpoint it settles on, the re-resolve hook the reconnect loops
    share, the exclusion predicate of the listener sync and the authentication
    state it reports; and the [addr]/[refreshAddr] pair of
    [internal/mirror/mirror.go] and [internal/macsync/sync.go]. *)

From S2P Require Import Prelude GoStr NetIP Transport Leases VmRef Plist Install.
From S2P Require TransportAuth VmRecord MacSync.
Open Scope string_scope.
Open Scope list_scope.
Open Scope Z_scope.

(** ** The flags, as Go's flag package reads them *)

Record dflags := MkDFlags {
  d_agent : string; d_vm : string; d_mac : string; d_subnet : string; d_mirrorIP : string;
  d_udp : string; d_secret : string; d_skip : string; d_introspect : string; d_version : bool }.
Definition default_dflags : dflags :=
  MkDFlags "auto" DefaultVM "" "" "127.0.0.1" "" "" DefaultSkip "auto" false.

Definition set_flag (name v : string) (d : dflags) : option dflags :=
  let '(MkDFlags agent vm mac subnet mirrorIP udp secret skip introspect version) := d in
  if String.eqb name "agent" then Some (MkDFlags v vm mac subnet mirrorIP udp secret skip introspect version)
  else if String.eqb name "vm" then Some (MkDFlags agent v mac subnet mirrorIP udp secret skip introspect version)
  else if String.eqb name "vm-mac" then Some (MkDFlags agent vm v subnet mirrorIP udp secret skip introspect version)
  else if String.eqb name "vm-subnet" then Some (MkDFlags agent vm mac v mirrorIP udp secret skip introspect version)
  else if String.eqb name "mirror-ip" then Some (MkDFlags agent vm mac subnet v udp secret skip introspect version)
  else if String.eqb name "udp" then Some (MkDFlags agent vm mac subnet mirrorIP v secret skip introspect version)
  else if String.eqb name "secret-file" then Some (MkDFlags agent vm mac subnet mirrorIP udp v skip introspect version)
  else if String.eqb name "skip" then Some (MkDFlags agent vm mac subnet mirrorIP udp secret v introspect version)
  else if String.eqb name "introspect" then Some (MkDFlags agent vm mac subnet mirrorIP udp secret skip v version)
  else None.
Definition set_version (b : bool) (d : dflags) : dflags :=
  MkDFlags (d_agent d) (d_vm d) (d_mac d) (d_subnet d) (d_mirrorIP d) (d_udp d) (d_secret d) (d_skip d)
    (d_introspect d) b.
Definition ParseBool (s : string) : option bool :=
  if existsb (String.eqb s) ["1"; "t"; "T"; "TRUE"; "true"; "True"] then Some true
  else if existsb (String.eqb s) ["0"; "f"; "F"; "FALSE"; "false"; "False"] then Some false else None.

(** One argument: the end of the flags, a bad one, or a flag and the value
    written with it. *)
Inductive flag_token := TokEnd | TokBad | Tok (name : string) (value : option string).
Definition flag_token_of (s : string) : flag_token :=
  match s with
  | String "-" (String c rest) =>
      let name := if Ascii.eqb c "-" then rest else String c rest in
      if Ascii.eqb c "-" && String.eqb rest "" then TokEnd
      else if String.eqb name "" || HasPrefix name "-" || HasPrefix name "=" then TokBad
      else match Cut "=" name with Some (n, v) => Tok n (Some v) | None => Tok name None end
  | _ => TokEnd
  end.
Fixpoint parse_flags (args : list string) (d : dflags) : option dflags :=
  match args with
  | [] => Some d
  | s :: args =>
      match flag_token_of s with
      | TokEnd => Some d
      | TokBad => None
      | Tok name v =>
          if String.eqb name "version" then
            b ← match v with Some v => ParseBool v | None => Some true end;
            parse_flags args (set_version b d)
          else match v with
          | Some v => d ← set_flag name v d; parse_flags args d
          | None =>
              match args with
              | [] => None
              | v :: args => d ← set_flag name v d; parse_flags args d
              end
          end
      end
  end.

(** ** The start *)

(** The standing invariant as a gate: as root, mirrors bind loopback. *)
Definition checkMirrorIP (euid : Z) (mirrorIP : string) : bool :=
  if negb (euid =? 0) then true
  else match ParseAddr mirrorIP with Some a => negb (hasZone a) && IsLoopback a | None => false end.

Definition parsePorts (s : string) : option (list Z) := ParsePorts s.
Definition portSet (ports : list Z) : gset Z := list_to_set ports.

(** The endpoint's canonical text and port; none is the unresolved state. *)
Definition parseAgent (addr : string) : result ep_err (string * Z) :=
  if String.eqb addr "" then Ok ("", DefaultAgentPort)
  else e ← Parse addr; Ok (ep_String e, ep_Port e).

Definition leaseResolvable (ref : Ref) : bool := negb (String.eqb (r_Provider ref) ProviderPodman).

Inductive boot_err :=
| ErrFlags | ErrMirrorIP | ErrUDPPorts | ErrSkipPorts | ErrRef (e : ref_err) | ErrSecret (e : TransportAuth.load_err)
| ErrHWAddr | ErrNet (e : subnet_err) | ErrNoEndpoint | ErrEmptyAgent | ErrAgent (e : ep_err).

(** Where the endpoint came from: the flag, the lease resolver, the record. *)
Inductive origin := FromFlag | FromLease (s : source) | FromRecord.
#[export] Instance origin_eq_dec : EqDecision origin.
Proof. solve_decision. Defined.

Section daemon.
Context {E : Type}.

(** What the resolver asks of the machine at one moment. *)
Record probes := MkProbes {
  p_limactl : option string;
  p_leases : result E string;
  p_probe : string → option E
}.
Definition resolve (p : probes) (t : Target) (port : Z) : Resolution E :=
  ResolveTarget (p_limactl p) (p_leases p) (p_probe p) t port.

(** The machine the daemon starts on. *)
Record machine := MkMachine {
  m_euid : Z;
  m_colima : string;
  m_home : option string;
  m_file : string → TransportAuth.file;
  m_probes : probes;
  m_record : Ref → result VmRecord.read_err VmRecord.VmRec;
  m_dial : string → VmRecord.probe
}.

(** [resolveAuto]: the endpoint and the resolution a lease target came from. *)
Definition resolveAuto (m : machine) (ref : Ref) (t : Target) : string * origin * option (Resolution E) :=
  if leaseResolvable ref then
    let r := resolve (m_probes m) t 4777 in (Endpoint r, FromLease (Leases.Source r), Some r)
  else if m_euid m =? 0 then ("", FromRecord, None)
  else ((VmRecord.Resolve (m_record m ref) (m_dial m)).1, FromRecord, None).

Record booted := MkBooted {
  b_ref : Ref;
  b_target : Target;
  b_udp : list Z;
  b_skip : gset Z;
  b_secretPath : string;
  b_secret : option TransportAuth.Secret;
  b_latch : TransportAuth.latch;
  b_agentAddr : string;
  b_agentPort : Z;
  b_origin : origin;
  b_start : option (Resolution E);
  b_reResolve : bool
}.

(** [main], up to the point where its loops start. *)
Definition boot (m : machine) (d : dflags) : result boot_err booted :=
  _ ← (if checkMirrorIP (m_euid m) (d_mirrorIP d) then Ok tt else Err ErrMirrorIP);
  udp ← of_option ErrUDPPorts (parsePorts (d_udp d));
  skip ← of_option ErrSkipPorts (parsePorts (d_skip d));
  ref ← match ParseRef (m_colima m) (d_vm d) with Ok r => Ok r | Err e => Err (ErrRef e) end;
  let explicit := negb (String.eqb (d_secret d) "") in
  let path := if explicit then d_secret d else match m_home m with Some h => PathForRef h ref | None => "" end in
  let st := if explicit then TransportAuth.Require_ path ∅ else ∅ in
  let '(loaded, st) := TransportAuth.LoadLatched path (m_file m path) st in
  secret ← match loaded with Ok s => Ok s | Err e => Err (ErrSecret e) end;
  mac ← (if String.eqb (d_mac d) "" then Ok "" else of_option ErrHWAddr (ParseHWAddr (d_mac d)));
  net ← (if String.eqb (d_subnet d) "" then Ok PrefixZero
         else match ParseSubnet (d_subnet d) with Ok p => Ok p | Err e => Err (ErrNet e) end);
  let t := MkTarget (r_Instance ref) (r_Provider ref) (r_LeaseName ref) net mac in
  let auto := String.eqb (d_agent d) "auto" in
  let '(addr, org, start) := if auto then resolveAuto m ref t else (d_agent d, FromFlag, None) in
  _ ← (if auto && String.eqb addr "" && negb (leaseResolvable ref) then Err ErrNoEndpoint else Ok tt);
  _ ← (if String.eqb addr "" && negb auto then Err ErrEmptyAgent else Ok tt);
  '(a, port) ← match parseAgent addr with Ok x => Ok x | Err e => Err (ErrAgent e) end;
  Ok (MkBooted ref t udp (portSet skip) path secret st a port org start (auto && leaseResolvable ref)).

(** ** The resolver *)

Record resolver := MkResolver {
  rs_cur : string;
  rs_source : origin;
  rs_note : option (Resolution E);
  rs_at : Z;
  rs_last : option Z
}.
Definition resolveMinInterval : Z := 3 * 10 ^ 9.
Definition newResolver (b : booted) (now : Z) : resolver :=
  MkResolver (b_agentAddr b) (b_origin b) (b_start b) now None.

(** The refresh is due unless the last one ran less than the interval ago. *)
Definition due (now : Z) (r : resolver) : bool :=
  match rs_last r with Some l => negb (now - l <? resolveMinInterval) | None => true end.
Definition refresh (t : Target) (port now : Z) (p : probes) (r : resolver) : string * resolver :=
  if negb (due now r) then (rs_cur r, r)
  else
    let res := resolve p t port in
    if String.eqb (Endpoint res) "" && bool_decide (Leases.Source res = Unresolved) then
      ("", MkResolver "" (FromLease (Leases.Source res)) (Some res) now (Some now))
    else match Parse (Endpoint res) with
    | Err _ => (rs_cur r, MkResolver (rs_cur r) (rs_source r) (rs_note r) (rs_at r) (Some now))
    | Ok e => (ep_String e, MkResolver (ep_String e) (FromLease (Leases.Source res)) (Some res) now (Some now))
    end.

(** ** The clients' address *)

(** [Client.addr] and [Syncer.addr]; [cur] is the atomic pointer. *)
Definition addr (agentAddr : string) (cur : option string) : string := default agentAddr cur.
(** [refreshAddr], on what the hook returned; no hook changes nothing. *)
Definition refreshAddr (hook : option string) (cur : option string) : option string :=
  match hook with
  | None => cur
  | Some a => if String.eqb a "" then cur else Some a
  end.

(** The running daemon: the shared resolver and the two clients' pointers. *)
Record running := MkRunning { run_rs : resolver; run_mirror : option string; run_sync : option string }.
Inductive client := MirrorLoop | SyncLoop.
(** A reconnect of one loop at a time, with what the machine answers then. *)
Record reconnect := MkReconnect { rc_who : client; rc_now : Z; rc_probes : probes }.

Definition reconnect_step (b : booted) (s : running) (o : reconnect) : running :=
  let '(hook, rs) :=
    if b_reResolve b then
      let '(a, rs) := refresh (b_target b) (b_agentPort b) (rc_now o) (rc_probes o) (run_rs s) in (Some a, rs)
    else (None, run_rs s) in
  match rc_who o with
  | MirrorLoop => MkRunning rs (refreshAddr hook (run_mirror s)) (run_sync s)
  | SyncLoop => MkRunning rs (run_mirror s) (refreshAddr hook (run_sync s))
  end.
Definition run_daemon (b : booted) (now : Z) (os : list reconnect) : running :=
  foldl (reconnect_step b) (MkRunning (newResolver b now) None None) os.

(** The address a loop dials. *)
Definition dials (b : booted) (s : running) (who : client) : string :=
  addr (b_agentAddr b) (match who with MirrorLoop => run_mirror s | SyncLoop => run_sync s end).
End daemon.
Arguments probes : clear implicits.
Arguments machine : clear implicits.
Arguments booted : clear implicits.
Arguments resolver : clear implicits.
Arguments running : clear implicits.
Arguments reconnect : clear implicits.

(** ** The exclusion predicate and the reported authentication state *)

(** [newExclude]: the answer, the keys announced so far, and whether this call
    announces one. *)
Definition newExclude (agentPort guestAgentPort : Z) (skip : gset Z) (mirrored : string → Z → bool)
    (l : MacSync.MacListener) (said : gset (string * Z)) : bool * gset (string * Z) * bool :=
  let key := (MacSync.m_proto l, MacSync.m_port l) in
  if bool_decide (MacSync.m_port l ∈ skip) then (true, {[key]} ∪ said, negb (bool_decide (key ∈ said)))
  else ((MacSync.m_port l =? agentPort) || (MacSync.m_port l =? guestAgentPort) ||
        mirrored (MacSync.m_proto l) (MacSync.m_port l), said, false).

Inductive auth_mode := ModeNone | ModeStaticHMACv1.
Inductive secret_state := SecretOK | SecretAbsent | SecretMalformed.
Definition authState (path : string) (f : TransportAuth.file) (st : TransportAuth.latch)
    : auth_mode * secret_state * TransportAuth.latch :=
  let '(r, st) := TransportAuth.LoadLatched path f st in
  match r with
  | Err TransportAuth.ErrConfiguredMissing => (ModeStaticHMACv1, SecretAbsent, st)
  | Err _ => (ModeStaticHMACv1, SecretMalformed, st)
  | Ok (Some _) => (ModeStaticHMACv1, SecretOK, st)
  | Ok None => (ModeNone, SecretAbsent, st)
  end.

(** ** The text of an address *)

Section bracket.
Variable c : ascii.
Hypothesis Hhex : ∀ v, digit_val c = Some v → (v <? 16) = false.
Hypothesis Hdot : c ≠ "."%char.
Hypothesis Hcol : c ≠ ":"%char.


Lemma hex_fresh d v : digit_val d = Some v → (v <? 16) = true → Ascii.eqb c d = false.
Proof. intros D V. apply Ascii.eqb_neq. intros ->. apply Hhex in D. congruence. Qed.
Lemma span_hex_fresh s h r : span_hex s = (h, r) → has_byte c s = has_byte c r.
Proof.
  revert h r. induction s as [|d s IH]; intros h r; cbn [span_hex]; [by intros [= <- <-]|].
  destruct (digit_val d) as [v|] eqn:D; [|by intros [= <- <-]].
  destruct (v <? 16) eqn:V; [|by intros [= <- <-]].
  destruct (span_hex s) as [h' r']. intros [= <- <-]. cbn [has_byte].
  by rewrite (IH _ _ eq_refl), (hex_fresh d v).
Qed.
Lemma digits_fresh base acc s v : base <= 16 → parse_digits base acc s = Some v → has_byte c s = false.
Proof.
  intros Hb. revert acc. induction s as [|d s IH]; intros acc; cbn; [done|].
  destruct (digit_val d) as [w|] eqn:D; [|done]. destruct (Z.ltb_spec w base); [|done]. intros H0%IH.
  rewrite H0, (hex_fresh d w); [done|done|]. apply Z.ltb_lt. lia.
Qed.
Lemma v4_fresh s n : parseIPv4Fields s = Some n → has_byte c s = false.
Proof.
  unfold parseIPv4Fields. rewrite (has_byte_Split c ".") by done.
  destruct (mapM parse_octet (Split "." s)) as [l|] eqn:M; [|done]. intros _. apply mapM_Some in M.
  induction M as [|f v fs l Hf _ IH]; [done|]. cbn. rewrite IH, orb_false_r.
  unfold parse_octet in Hf. case_match; [done|]. destruct (ParseUint f 10 8) as [w|] eqn:U; [|done].
  apply ParseUint_Ok in U as (_ & U & _); [|lia]. by apply (digits_fresh 10 0 f w).
Qed.
Lemma loop6_fresh fuel gs ell s r : parse6_loop fuel gs ell s = Some r → has_byte c s = false.
Proof.
  assert (Ascii.eqb c ":" = false) as Hc by (by apply Ascii.eqb_neq).
  revert gs ell s. induction fuel as [|fuel IH]; intros gs ell s; cbn [parse6_loop].
  { case_decide; [by subst|done]. }
  destruct (span_hex s) as [h rest] eqn:Hs. apply span_hex_fresh in Hs as Hr.
  case_match; [done|]. destruct (HasPrefix rest ".").
  { repeat (case_match; [done|]). destruct (parseIPv4Fields s) eqn:V; [|done]. intros _. by eapply v4_fresh. }
  rewrite Hr. destruct (parse_digits 16 0 h); [|done]. cbn [mbind option_bind].
  destruct rest as [|d s']; [done|]. destruct (Ascii.eqb_spec d ":") as [->|]; [|done]. cbn [negb].
  destruct s' as [|e s'']; [done|]. destruct (Ascii.eqb_spec e ":") as [->|].
  - destruct ell; [done|]. case_decide as Hn; [subst; cbn; by rewrite Hc|].
    intros HL%IH. cbn. by rewrite Hc.
  - intros HL%IH. cbn [has_byte] in *. by rewrite Hc.
Qed.
Lemma addr_fresh s a : ParseAddr s = Some a → hasZone a = false → has_byte c s = false.
Proof.
  unfold ParseAddr. destruct (family_of s) as [d|]; [|done].
  destruct (Ascii.eqb d "."); [|destruct (Ascii.eqb d ":"); [|done]].
  { destruct (parseIPv4Fields s) eqn:V; [|done]. intros _ _. by eapply v4_fresh. }
  assert (∀ gs ell z a, parse6_finish gs ell z = Some a → hasZone a = false → z = "") as HZ.
  { intros gs ell z b. unfold parse6_finish. repeat case_match; intros [= <-]; cbn; by destruct z. }
  unfold parseIPv6. destruct (Cut "%" s) as [[s' z]|].
  { case_decide; [done|]. cbn [mbind option_bind]. destruct (CutPrefix "::" s').
    - case_decide; [intros [= <-]; cbn; by destruct z|]. destruct (parse6_loop _ _ _ _) as [[gs ell]|]; [|done].
      cbn [mbind option_bind]. intros HL HN. by eapply HZ in HL.
    - destruct (parse6_loop _ _ _ _) as [[gs ell]|]; [|done]. cbn [mbind option_bind]. intros HL HN. by eapply HZ in HL. }
  cbn [mbind option_bind]. intros HL _. destruct (CutPrefix "::" s) as [r|] eqn:CP.
  - apply CutPrefix_Some in CP as ->. assert (has_byte c ("::" +:+ r) = has_byte c r) as ->.
    { cbn. by rewrite (proj2 (Ascii.eqb_neq c ":")) by done. }
    case_decide; [by subst|]. destruct (parse6_loop _ _ _ _) as [[gs ell]|] eqn:L; [|done]. by eapply loop6_fresh.
  - destruct (parse6_loop _ _ _ _) as [[gs ell]|] eqn:L; [|done]. by eapply loop6_fresh.
Qed.
End bracket.

(** ** What a resolution may send the daemon to *)

Lemma private_not_loopback a : IsPrivate a = true → Is4 (Unmap a) = true → IsLoopback a = false.
Proof.
  unfold IsPrivate, IsLoopback. destruct (Unmap a) as [|n|n z]; [done| |done]. intros H _.
  apply Z.eqb_neq. intros E. replace 20 with (24 - 4) in H by done.
  assert (Z.shiftr n 24 = Z.shiftr (Z.shiftr n 16) 8) as E1 by (by rewrite Z.shiftr_shiftr by lia).
  assert (Z.shiftr n 24 = Z.shiftr (Z.shiftr n (24 - 4)) 4) as E2 by (by rewrite Z.shiftr_shiftr by lia).
  rewrite !orb_true_iff, !Z.eqb_eq in H. destruct H as [[H|H]|H]; [lia| |].
  - rewrite H, E in E2. vm_compute in E2. discriminate E2.
  - rewrite H, E in E1. vm_compute in E1. discriminate E1.
Qed.

Definition tcp_url (ip : string) : string := "tcp://" +:+ JoinHostPort ip "4777".
Section sent.
Context {E : Type}.

(** An address that answered, learned from limactl or a lease of the target. *)
Definition chosen (t : Target) (p : probes E) (a : string) : Prop :=
  ∃ ip x, a = tcp_url ip ∧ p_probe p (JoinHostPort ip "4777") = None ∧
    (guestIP (p_limactl p) = Some ip ∨ ip ∈ leased_of (p_leases p) t) ∧
    usableGuestIPv4 ip = true ∧ ParseAddr ip = Some x ∧ IsPrivate x = true ∧ IsLoopback x = false.
(** The loopback forward is a Lima target's alone. *)
Definition sent (t : Target) (p : probes E) (a : string) : Prop :=
  chosen t p a ∨ (mayUseLoopbackForward t = true ∧ a = tcp_url "127.0.0.1").

Lemma usable_text ip :
  usableGuestIPv4 ip = true → ∃ x, ParseAddr ip = Some x ∧ IsPrivate x = true ∧ IsLoopback x = false ∧
    has_byte "[" ip = false ∧ has_byte "]" ip = false.
Proof.
  unfold usableGuestIPv4. destruct (ParseAddr ip) as [x|] eqn:PA; [|done].
  destruct (hasZone x) eqn:Z; [done|]. destruct (Is4 (Unmap x)) eqn:H4; [|done].
  destruct (IsPrivate x) eqn:HP; [|done]. intros _. exists x.
  split_and!; [done..|by apply private_not_loopback| |]; eapply addr_fresh; done.
Qed.
Lemma tcp_url_parses ip :
  has_byte "[" ip = false → has_byte "]" ip = false →
  Parse (tcp_url ip) = Ok (MkEndpoint SchemeTCP (JoinHostPort ip "4777")).
Proof. intros H1 H2. apply (Parse_parsed_String (MkEndpoint SchemeTCP _)). by eapply (parsed_tcp ip "4777" 4777). Qed.

Lemma resolve_cases (p : probes E) t :
  let R := resolve p t 4777 in
  (∃ e, Parse (Endpoint R) = Ok e ∧ ep_String e = Endpoint R ∧ ep_Port e = 4777 ∧ sent t p (Endpoint R) ∧
        Endpoint R ≠ "" ∧ Leases.Source R ≠ Unresolved) ∨
  (mayUseLoopbackForward t = false ∧ Endpoint R = "" ∧ Leases.Source R = Unresolved).
Proof.
  cbn zeta. unfold resolve. pose proof (resolve_target (p_limactl p) (p_leases p) (p_probe p) t 4777) as H.
  cbn zeta in H. change (Itoa 4777) with "4777" in H.
  assert (∀ ip, has_byte "[" ip = false → has_byte "]" ip = false →
    ∃ e, Parse (tcp_url ip) = Ok e ∧ ep_String e = tcp_url ip ∧ ep_Port e = 4777) as HU.
  { intros ip H1 H2. exists (MkEndpoint SchemeTCP (JoinHostPort ip "4777")).
    split_and!; [by apply tcp_url_parses|done|]. unfold ep_Port. cbn [Scheme Addr String.eqb].
    change (String.eqb SchemeTCP SchemeTCP) with true. cbn match. by rewrite SplitHostPort_Join by done. }
  destruct H as [(l1 & ip & l2 & _ & HE & HP & _ & Hu & _ & HS)|(_ & _ & H)].
  - left. pose proof (usable_text ip Hu) as (x & Hx & Hpr & Hlo & Hb1 & Hb2).
    destruct (HU ip Hb1 Hb2) as (e & H1 & H2 & H3). rewrite HE. exists e. split_and!; try done.
    + left. exists ip, x. split_and!; try done. tauto.
    + destruct HS as [[HS _]|[HS _]]; rewrite HS; discriminate.
  - destruct (mayUseLoopbackForward t) eqn:HM; [left|right; by destruct H].
    destruct H as [HS HE]. rewrite HE, HS. destruct (HU "127.0.0.1" eq_refl eq_refl) as (e & H1 & H2 & H3).
    exists e. split_and!; try done. by right.
Qed.
End sent.

(** ** The start's outcome *)

Section boot_facts.
Context {E : Type}.
Implicit Types (m : machine E) (b : booted E).

Lemma parseAgent_Ok s a port :
  parseAgent s = Ok (a, port) →
  (s = "" ∧ a = "" ∧ port = 4777) ∨ (∃ e, Parse s = Ok e ∧ a = ep_String e ∧ port = ep_Port e ∧ a ≠ "").
Proof.
  unfold parseAgent. destruct (String.eqb_spec s "") as [->|]; [intros [= <- <-]; by left|].
  destruct (Parse s) as [e|] eqn:HP; [|done]. intros [= <- <-]. right. exists e. split_and!; try done.
  apply Parse_parsed, Parse_parsed_String in HP. intros E0. by rewrite E0 in HP.
Qed.

Lemma boot_addr m d b :
  boot m d = Ok b →
  if b_reResolve b then
    let R := resolve (m_probes m) (b_target b) 4777 in
    b_agentAddr b = Endpoint R ∧ b_agentPort b = 4777 ∧ b_origin b = FromLease (Leases.Source R) ∧ b_start b = Some R
  else b_agentAddr b ≠ "".
Proof.
  unfold boot. intros (_ & _ & H)%result_bind_Ok. apply result_bind_Ok in H as (udp & _ & H).
  apply result_bind_Ok in H as (skip & _ & H). apply result_bind_Ok in H as (ref & _ & H). cbv zeta in H.
  destruct (TransportAuth.LoadLatched _ _ _) as [loaded st] in H. apply result_bind_Ok in H as (secret & _ & H).
  apply result_bind_Ok in H as (mac & _ & H). apply result_bind_Ok in H as (net & _ & H).
  set (t := MkTarget _ _ _ _ _) in H. set (auto := String.eqb (d_agent d) "auto") in H.
  destruct (if auto then resolveAuto m ref t else (d_agent d, FromFlag, None)) as [[a org] start] eqn:HA.
  apply result_bind_Ok in H as ([] & H1 & H). apply result_bind_Ok in H as ([] & H2 & H).
  apply result_bind_Ok in H as ([a' port] & H3 & [= <-]). cbn [b_reResolve b_agentAddr b_agentPort b_origin b_start b_target].
  assert (parseAgent a = Ok (a', port)) as HP by (destruct (parseAgent a); [f_equal; by eapply result_Ok_inj|done]).
  clear H3. destruct auto; cbn [andb negb] in *.
  - unfold resolveAuto in HA. destruct (leaseResolvable ref); cbn [negb] in H1.
    + injection HA as <- <- <-. cbn zeta. split_and!; [|..|done|done].
      * apply parseAgent_Ok in HP as [(E1 & -> & ->)|(e & E1 & -> & -> & _)]; [by rewrite E1|].
        destruct (resolve_cases (m_probes m) t) as [(e' & E2 & E3 & _)|(_ & E2 & _)]; [congruence|].
        rewrite E2 in E1. done.
      * apply parseAgent_Ok in HP as [(E1 & -> & ->)|(e & E1 & -> & -> & _)]; [done|].
        destruct (resolve_cases (m_probes m) t) as [(e' & E2 & E3 & E4 & _)|(_ & E2 & _)]; [congruence|].
        rewrite E2 in E1. done.
    + rewrite andb_true_r in H1. apply parseAgent_Ok in HP as [(-> & _)|(e & _ & _ & _ & ?)]; [by destruct (m_euid m =? 0)|done].
  - destruct (String.eqb_spec a ""); [done|]. by apply parseAgent_Ok in HP as [(? & _)|(e & _ & _ & _ & ?)].
Qed.
End boot_facts.

(** ** Properties *)

Section run_facts.
Context {E : Type}.
Implicit Types (b : booted E) (s : running E) (o : reconnect E) (ps : list (probes E)).

(** One refresh: what it publishes and returns. *)
Lemma refresh_step t now p (r : resolver E) :
  let '(a, r') := refresh t 4777 now p r in
  (due now r = false ∧ a = rs_cur r ∧ r' = r) ∨
  (due now r = true ∧ a = rs_cur r' ∧ rs_last r' = Some now ∧
   ((sent t p a ∧ a ≠ "" ∧ rs_source r' ≠ FromLease Unresolved) ∨
    (mayUseLoopbackForward t = false ∧ a = "" ∧ rs_source r' = FromLease Unresolved))).
Proof.
  unfold refresh. destruct (due now r) eqn:HD; cbn [negb]; [|by left].
  destruct (resolve_cases p t) as [(e & H1 & H2 & _ & H4 & H5 & H6)|(H1 & H2 & H3)].
  - rewrite (bool_decide_eq_false_2 _ H6), andb_false_r, H1. cbn. rewrite H2. right.
    split_and!; [done..|]. left. split_and!; [done|done|congruence].
  - rewrite H2, H3. cbn. right. split_and!; [done..|]. by right.
Qed.

(** The resolver publishes no endpoint exactly when it is unresolved, and all
    it publishes and the loops dial came from one of the resolutions [ps]. *)
Definition from_some ps t a : Prop := a = "" ∨ ∃ p, p ∈ ps ∧ sent t p a.
Record run_ok b ps s : Prop := {
  ro_rs : rs_cur (run_rs s) = "" ↔ rs_source (run_rs s) = FromLease Unresolved;
  ro_cur : from_some ps (b_target b) (rs_cur (run_rs s));
  ro_dials : ∀ who, from_some ps (b_target b) (dials b s who)
}.
Lemma from_some_mono ps ps' t a : ps ⊆ ps' → from_some ps t a → from_some ps' t a.
Proof. intros Hs [?|(p & Hp & ?)]; [by left|]. right. exists p. split; [by apply Hs|done]. Qed.

Lemma run_ok_step b ps s o :
  b_reResolve b = true → b_agentPort b = 4777 →
  run_ok b ps s → run_ok b (rc_probes o :: ps) (reconnect_step b s o).
Proof.
  intros Hr Hp [H1 H2 H3]. unfold reconnect_step. rewrite Hr, Hp.
  pose proof (refresh_step (b_target b) (rc_now o) (rc_probes o) (run_rs s)) as HS.
  destruct (refresh _ _ _ _ _) as [a rs].
  assert (ps ⊆ rc_probes o :: ps) as Hsub by set_solver.
  assert (from_some (rc_probes o :: ps) (b_target b) a ∧ (rs_cur rs = "" ↔ rs_source rs = FromLease Unresolved) ∧
    rs_cur rs = a) as (Ha & Hi & Hc).
  { destruct HS as [(_ & -> & ->)|(_ & Ea & _ & [(? & ? & ?)|(? & ? & ?)])].
    - split_and!; [by eapply from_some_mono|done|done].
    - split_and!; [right; exists (rc_probes o); split; [left|done]|rewrite <- Ea; tauto|done].
    - split_and!; [by left|rewrite <- Ea; tauto|done]. }
  assert (∀ cur, from_some ps (b_target b) (addr (b_agentAddr b) cur) →
    from_some (rc_probes o :: ps) (b_target b) (addr (b_agentAddr b) (refreshAddr (Some a) cur))) as HA.
  { intros cur Hcur. unfold refreshAddr. destruct (String.eqb a ""); [by eapply from_some_mono|done]. }
  pose proof (H3 MirrorLoop) as HM. pose proof (H3 SyncLoop) as HY. unfold dials in HM, HY.
  destruct (rc_who o); split; cbn [run_rs]; try (rewrite Hc; done); try done; intros [|]; unfold dials;
    cbn [run_mirror run_sync]; (by apply HA) || (by eapply from_some_mono).
Qed.

Lemma dials_step b s o who :
  dials b (reconnect_step b s o) who = dials b s who ∨
  (b_reResolve b = true ∧ dials b (reconnect_step b s o) who ≠ "").
Proof.
  unfold reconnect_step. destruct (b_reResolve b).
  - destruct (refresh _ _ _ _ _) as [a rs]. unfold dials, refreshAddr.
    destruct (String.eqb_spec a ""), (rc_who o), who; cbn; auto.
  - destruct (rc_who o), who; by left.
Qed.
End run_facts.

(** C3: what a running daemon dials. With [-agent auto] on a VM that has DHCP
    leases, whatever the machine answers at each reconnect of either loop, every
    address a loop dials is one a resolution vouched for: it answered its probe,
    it is limactl's or a lease of this very target, private and not loopback; or
    it is the loopback forward, for a Lima target only, so no other provider's
    daemon is ever sent to the Mac's own port 4777. A loop that has an address
    keeps one when the VM stops; the published endpoint is empty exactly while
    it is unresolved; and inside three seconds the hook resolves nothing. Any
    other start has one non-empty endpoint for good. *)
Theorem dials_target {E} (m : machine E) d b now os :
  boot m d = Ok b →
  let s := run_daemon b now os in
  if b_reResolve b then
    (∀ who, dials b s who = "" ∨ ∃ p, p ∈ m_probes m :: map rc_probes os ∧ sent (b_target b) p (dials b s who)) ∧
    (∀ who o, dials b s who ≠ "" → dials b (reconnect_step b s o) who ≠ "") ∧
    (rs_cur (run_rs s) = "" ↔ rs_source (run_rs s) = FromLease Unresolved) ∧
    (∀ o, due (rc_now o) (run_rs s) = false → run_rs (reconnect_step b s o) = run_rs s)
  else b_agentAddr b ≠ "" ∧ ∀ who, dials b s who = b_agentAddr b.
Proof.
  intros HB%boot_addr. cbn zeta. destruct (b_reResolve b) eqn:Hr.
  - destruct HB as (HA & HP & HO & _).
    assert (run_ok b (reverse (map rc_probes os) ++ [m_probes m]) (run_daemon b now os)) as [H1 H2 H3].
    { unfold run_daemon. induction os as [|o os IH] using rev_ind.
      - split; cbn; unfold newResolver; cbn.
        + rewrite HA, HO. destruct (resolve_cases (m_probes m) (b_target b)) as [(e & _ & _ & _ & _ & H5 & H6)|(_ & -> & ->)].
          * split; [done|]. intros [= ?]. done.
          * done.
        + rewrite HA. destruct (resolve_cases (m_probes m) (b_target b)) as [(e & _ & _ & _ & H4 & _)|(_ & -> & _)]; [|by left].
          right. exists (m_probes m). split; [left|done].
        + intros who. unfold dials, addr. destruct who; cbn; rewrite HA;
            (destruct (resolve_cases (m_probes m) (b_target b)) as [(e & _ & _ & _ & H4 & _)|(_ & -> & _)]; [|by left]);
            right; exists (m_probes m); (split; [left|done]).
      - rewrite map_app, reverse_app, foldl_app. cbn. apply run_ok_step; done. }
    split_and!; [| |done|].
    + intros who. destruct (H3 who) as [?|(p & Hp & ?)]; [by left|right]. exists p. split; [|done].
      rewrite elem_of_app, elem_of_reverse in Hp. set_solver.
    + intros who o Hne. destruct (dials_step b (run_daemon b now os) o who) as [->|[_ ?]]; done.
    + intros o HD. unfold reconnect_step, refresh. rewrite Hr, HD. cbn. by destruct (rc_who o).
  - split; [done|]. intros who. unfold run_daemon. induction os as [|o os IH] using rev_ind; [by destruct who|].
    rewrite foldl_app. cbn. destruct (dials_step b (foldl (reconnect_step b) (MkRunning (newResolver b now) None None) os) o who)
      as [->|[H _]]; [done|congruence].
Qed.
Definition colima_leases : string := Join
  ["{"; "name=colima"; "ip_address=192.168.64.5"; "hw_address=1,52:55:55:a5:e:d2"; "lease=0x6a6c420d"; "}"] Leases.nl.
Definition ex_probes (up : bool) : probes unit :=
  MkProbes None (Ok colima_leases) (λ a, if up && String.eqb a "192.168.64.5:4777" then None else Some ()).
Definition ex_machine : machine unit :=
  MkMachine 0 "/Users/x/.colima" (Some "/Users/x") (λ _, TransportAuth.Missing) (ex_probes false)
    (λ _, Err VmRecord.ErrAbsent) (λ _, VmRecord.Live).
Definition ex_dflags : dflags := MkDFlags "auto" "colima:default" "" "" "127.0.0.1" "" "" "22" "auto" false.
(** The VM comes up, then stops: the loop that reconnected keeps its address. *)
Definition ex_reconnects : list (reconnect unit) :=
  [MkReconnect MirrorLoop (10 * 10 ^ 9) (ex_probes true); MkReconnect SyncLoop (20 * 10 ^ 9) (ex_probes false)].
Lemma dials_target_witness :
  match boot ex_machine ex_dflags with
  | Ok b =>
      let s := run_daemon b 0 ex_reconnects in
      dials b s MirrorLoop = "tcp://192.168.64.5:4777" ∧ dials b s SyncLoop = "" ∧ rs_cur (run_rs s) = "" ∧
      ∃ p, p ∈ m_probes ex_machine :: map rc_probes ex_reconnects ∧ sent (b_target b) p "tcp://192.168.64.5:4777"
  | Err _ => False
  end.
Proof.
  destruct (boot ex_machine ex_dflags) as [b|] eqn:HB; [|vm_compute in HB; discriminate HB].
  pose proof (dials_target ex_machine ex_dflags b 0 ex_reconnects HB) as H.
  assert (dials b (run_daemon b 0 ex_reconnects) MirrorLoop = "tcp://192.168.64.5:4777" ∧ b_reResolve b = true ∧
    dials b (run_daemon b 0 ex_reconnects) SyncLoop = "" ∧ rs_cur (run_rs (run_daemon b 0 ex_reconnects)) = "") as (E1 & E2 & E3 & E4).
  { vm_compute in HB. injection HB as <-. vm_compute. repeat split. }
  rewrite E2 in H. destruct H as (H & _). cbn zeta. split; [exact E1|]. split; [exact E3|]. split; [exact E4|].
  destruct (H MirrorLoop) as [H'|H']; rewrite E1 in H'; [discriminate H'|exact H'].
Defined.

(** ** The installed daemon starts *)

(** The flags an installed configuration gives the daemon. *)
Definition daemon_flags (c : Config) : dflags :=
  MkDFlags (if String.eqb (c_Agent c) "" then "auto" else c_Agent c) (c_VM c) (c_MAC c) (c_Subnet c) "127.0.0.1"
    (match c_UDP c with [] => "" | _ => joinPorts (c_UDP c) end) (c_SecretFile c)
    (match c_Skip c with None => DefaultSkip | Some l => joinPorts l end) "auto" false.
Lemma parse_Args c : parse_flags (tail (Args c)) default_dflags = Some (daemon_flags c).
Proof.
  unfold Args, daemon_flags. cbn [tail app].
  destruct (c_UDP c), (c_Skip c), (String.eqb_spec (c_MAC c) ""), (String.eqb_spec (c_Subnet c) ""),
    (String.eqb_spec (c_SecretFile c) ""); cbn; congruence.
Qed.
Lemma ParseRef_home ch ch' s r :
  ParseRef ch s = Ok r → ∃ r', ParseRef ch' s = Ok r' ∧ r_Provider r' = r_Provider r ∧ r_Instance r' = r_Instance r ∧
    r_LeaseName r' = r_LeaseName r.
Proof.
  unfold ParseRef. destruct (match Cut _ _ with Some _ => _ | None => _ end) as [p n].
  destruct (negb (known_provider p)); [done|]. destruct (_ || _); [done|]. intros [= <-]. eauto.
Qed.
(** A named secret is required: it loads or it stops the start. *)
Lemma LoadLatched_required path f :
  path ≠ "" →
  match (TransportAuth.LoadLatched path f (TransportAuth.Require_ path ∅)).1 with
  | Ok o => ∃ s, o = Some s ∧ TransportAuth.Load f = Ok s
  | Err _ => is_ok (TransportAuth.Load f) = false
  end.
Proof.
  intros Hp. unfold TransportAuth.LoadLatched. rewrite (proj2 (String.eqb_neq path "")) by done.
  destruct (TransportAuth.Load f) as [s|[]]; cbn; [by exists s| |done|done].
  unfold TransportAuth.Configured, TransportAuth.Require_. rewrite (proj2 (String.eqb_neq path "")) by done.
  rewrite bool_decide_eq_true_2; [done|set_solver].
Qed.
Lemma skip_of_config c :
  (∀ l, c_Skip c = Some l → ports_ok l) →
  parsePorts (d_skip (daemon_flags c)) = Some (default DefaultSkipPorts (c_Skip c)).
Proof.
  intros H. unfold parsePorts, daemon_flags. cbn [d_skip]. destruct (c_Skip c) as [l|]; [|vm_compute; reflexivity].
  cbn. apply ParsePorts_join. by apply H.
Qed.
Lemma RenderPlist_Ok ch c p : RenderPlist ch c = Ok p → Validate ch c = None.
Proof. unfold RenderPlist. by destruct (Validate ch c). Qed.

(** The pinned endpoint of an install: none, or a podman machine's. *)
Lemma agent_pinned w ref c home un f :
  w_record w = (λ ref, VmRecord.Read home un ref f) → agent_of w ref (c_MAC c) = Ok (c_Agent c) →
  if leaseResolvable ref then c_Agent c = "" else c_Agent c ≠ "".
Proof.
  intros Hw. unfold agent_of, leaseResolvable. destruct (String.eqb (r_Provider ref) ProviderPodman); cbn [negb].
  - rewrite Hw. destruct (VmRecord.Read home un ref f) as [rec|] eqn:R; [|done].
    destruct (VmRecord.checkPodmanRecord _ _ _); [done|]. destruct (negb _); [done|]. intros [= <-].
    by apply VmRecord.Read_Ok in R as (_ & ? & _).
  - by intros [= <-].
Qed.

(** The canonical subnet as the start reads it. *)
Definition read_subnet (s : string) : result boot_err prefix :=
  if String.eqb s "" then Ok PrefixZero else match ParseSubnet s with Ok q => Ok q | Err e => Err (ErrNet e) end.

Section installed.
Context {E : Type} (c : Config) (ref : Ref) (m : machine E).

(** The daemon of a configuration: its VM, ports, skip list, pins, secret and
    endpoint. *)
Definition serves (b : booted E) : Prop :=
  (r_Provider (b_ref b) = r_Provider ref ∧ r_Instance (b_ref b) = r_Instance ref ∧
   Leases.LeaseName (b_target b) = r_LeaseName ref) ∧
  (b_udp b = c_UDP c ∧ b_skip b = list_to_set (default DefaultSkipPorts (c_Skip c))) ∧
  (HWAddr (b_target b) = c_MAC c ∧ read_subnet (c_Subnet c) = Ok (Subnet (b_target b))) ∧
  (c_SecretFile c ≠ "" → b_secretPath b = c_SecretFile c ∧
     ∃ s, b_secret b = Some s ∧ TransportAuth.Load (m_file m (c_SecretFile c)) = Ok s) ∧
  b_reResolve b = leaseResolvable ref ∧
  (leaseResolvable ref = false → ∃ e, Parse (c_Agent c) = Ok e ∧ b_agentAddr b = ep_String e).
(** All that can stop it. *)
Definition start_refused (e : boot_err) : Prop :=
  match e with
  | ErrSecret _ => c_SecretFile c ≠ "" → is_ok (TransportAuth.Load (m_file m (c_SecretFile c))) = false
  | ErrNet e => c_Subnet c ≠ "" ∧ ParseSubnet (c_Subnet c) = Err e
  | ErrAgent e => c_Agent c ≠ "" ∧ Parse (c_Agent c) = Err e
  | _ => False
  end.

Lemma read_subnet_refused e : read_subnet (c_Subnet c) = Err e → start_refused e.
Proof.
  unfold read_subnet. destruct (String.eqb_spec (c_Subnet c) ""); [done|].
  destruct (ParseSubnet (c_Subnet c)) eqn:P; [done|]. intros [= <-]. done.
Qed.
Lemma boot_secret path :
  let explicit := negb (String.eqb (c_SecretFile c) "") in
  let path := if explicit then c_SecretFile c else path in
  let st := if explicit then TransportAuth.Require_ path ∅ else ∅ in
  c_SecretFile c ≠ "" → path = c_SecretFile c ∧
    match (TransportAuth.LoadLatched path (m_file m path) st).1 with
    | Ok o => ∃ s, o = Some s ∧ TransportAuth.Load (m_file m (c_SecretFile c)) = Ok s
    | Err _ => is_ok (TransportAuth.Load (m_file m (c_SecretFile c))) = false
    end.
Proof.
  cbn zeta. intros Hne. rewrite (proj2 (String.eqb_neq _ _) Hne). cbn [negb]. split; [done|].
  exact (LoadLatched_required _ (m_file m (c_SecretFile c)) Hne).
Qed.
End installed.

(** The start of a validated configuration. *)
Lemma boot_installed {E} ch w c ref (m : machine E) home un f :
  m_euid m = 0 → w_record w = (λ ref, VmRecord.Read home un ref f) → Validate ch c = None → 
  ports_ok (c_UDP c) → (∀ l, c_Skip c = Some l → ports_ok l) →
  (c_MAC c = "" ∨ ParseHWAddr (c_MAC c) = Some (c_MAC c)) →
  ParseRef ch (c_VM c) = Ok ref → agent_of w ref (c_MAC c) = Ok (c_Agent c) →
  match boot m (daemon_flags c) with Ok b => serves c ref m b | Err e => start_refused c m e end.
Proof.
  intros Hm Hw HV HU HS HM Href Hag.
  destruct (ParseRef_home _ (m_colima m) _ _ Href) as (r' & Hr' & E1 & E2 & E3).
  pose proof (agent_pinned _ _ _ _ _ _ Hw Hag) as Hpin.
  unfold boot. rewrite Hm. change (checkMirrorIP 0 (d_mirrorIP (daemon_flags c))) with true.
  assert (parsePorts (d_udp (daemon_flags c)) = Some (c_UDP c)) as ->.
  { unfold parsePorts, daemon_flags. cbn [d_udp]. destruct (c_UDP c) eqn:E0; [done|]. by apply ParsePorts_join. }
  rewrite skip_of_config by done.
  cbn [of_option mbind result_bind daemon_flags d_vm d_secret d_mac d_subnet d_agent]. rewrite Hr'. cbn [mbind result_bind].
  pose proof (boot_secret c m (match m_home m with Some h => PathForRef h r' | None => "" end)) as Hsec. cbn zeta in Hsec.
  destruct (TransportAuth.LoadLatched _ _ _) as [loaded st'] in Hsec |- *. cbn [fst] in Hsec.
  destruct loaded as [o|e]; cbn [mbind result_bind]; [|cbn; intros Hne; by destruct (Hsec Hne)].
  assert ((if String.eqb (c_MAC c) "" then Ok "" else of_option ErrHWAddr (ParseHWAddr (c_MAC c))) = Ok (c_MAC c)) as ->.
  { destruct (String.eqb_spec (c_MAC c) "") as [->|]; [done|]. destruct HM as [?| ->]; done. }
  cbn [mbind result_bind]. fold (read_subnet (c_Subnet c)).
  destruct (read_subnet (c_Subnet c)) as [q|e] eqn:HQ; cbn [mbind result_bind]; [|by apply read_subnet_refused].
  assert (leaseResolvable r' = leaseResolvable ref) as Hlr by (unfold leaseResolvable; by rewrite E1).
  set (t := MkTarget _ _ _ _ _).
  destruct (leaseResolvable ref) eqn:HLR.
  - rewrite Hpin. change (String.eqb "" "") with true. cbn match. change (String.eqb "auto" "auto") with true. cbn match.
    unfold resolveAuto. rewrite Hlr. cbn [andb negb]. rewrite !andb_false_r. cbn [mbind result_bind].
    destruct (resolve_cases (m_probes m) t) as [(e & HP & _ & _ & _ & Hne & _)|(_ & He & _)].
    + unfold parseAgent. rewrite (proj2 (String.eqb_neq _ _) Hne), HP. unfold serves. cbn. by rewrite HLR.
    + rewrite He. unfold serves. cbn. by rewrite HLR.
  - rewrite (proj2 (String.eqb_neq _ _) Hpin).
    assert (c_Agent c ≠ "auto") as Hau.
    { apply Validate_None in HV as (_ & _ & _ & _ & _ & [?|HA] & _); [done|]. intros E0. by rewrite E0 in HA. }
    rewrite (proj2 (String.eqb_neq _ _) Hau). cbn [andb mbind result_bind].
    rewrite (proj2 (String.eqb_neq _ _) Hpin). cbn [andb mbind result_bind]. unfold parseAgent.
    rewrite (proj2 (String.eqb_neq _ _) Hpin). destruct (Parse (c_Agent c)) as [e|e] eqn:HP; cbn [mbind result_bind]; [|done].
    unfold serves. cbn. rewrite HLR. split_and!; try done. intros _. by exists e.
Qed.

(** C4: what install writes, the daemon accepts. The root daemon started with
    the arguments of any configuration an install produced serves the VM it was
    installed for, with its ports, skip list, hardware pin and subnet, under the
    secret at the path installed and never unauthenticated when one was named; it
    re-resolves exactly when its VM has leases, and a podman machine's daemon
    dials the recorded endpoint. The start fails only on the secret file, on a
    subnet or an endpoint their parsers refuse: never on a flag, a port list, the
    VM, the hardware address or the mirror address. *)
Theorem install_boots {E} w f set pos prev c p (m : machine E) home un fs0 :
  runInstall w f set pos prev = Ok (c, p) →
  w_record w = (λ ref, VmRecord.Read home un ref fs0) →
  m_euid m = 0 →
  ∃ d ref, parse_flags (tail (Args c)) default_dflags = Some d ∧ ParseRef (w_colima w) (c_VM c) = Ok ref ∧
    match boot m d with Ok b => serves c ref m b | Err e => start_refused c m e end.
Proof.
  unfold runInstall. intros ([f' set'] & _ & H)%result_bind_Ok Hw Hm.
  apply result_bind_Ok in H as (c' & HC & H). apply result_bind_Ok in H as (p' & HR & [= -> ->]).
  apply config_produced in HC as [HU HS HM HN (ref & Href & Hag & _)].
  assert (Validate (w_colima w) c = None) as HV.
  { destruct (RenderPlist (w_colima w) c) as [q|] eqn:R; [by apply RenderPlist_Ok in R|done]. }
  exists (daemon_flags c), ref. split; [apply parse_Args|]. split; [done|].
  eapply boot_installed; try done. intros l Hl. by apply HS.
Qed.
Definition colima_secret (path : string) : TransportAuth.file :=
  if String.eqb path "/Users/x/Library/Application Support/drawbridge/transport-secret-colima-colima"
  then TransportAuth.Content (TransportAuth.Format TransportAuth.ex_secret) else TransportAuth.Missing.
Definition root_machine : machine unit :=
  MkMachine 0 "/var/root/.colima" None colima_secret (ex_probes true) (λ _, Err VmRecord.ErrAbsent) (λ _, VmRecord.Live).
Definition install_world : world :=
  MkWorld "/Users/x/.colima" (Some "/Users/x") (λ ref, VmRecord.Read "/Users/x" VmRecord.ex_unmarshal ref ∅)
    (λ _ _, Err VmRecord.NoMachine).
Lemma install_boots_witness :
  match runInstall install_world ex_flags {["vm"; "vm-mac"]} "" None with
  | Ok (c, p) => ∃ d ref b, parse_flags (tail (Args c)) default_dflags = Some d ∧ boot root_machine d = Ok b ∧
      serves c ref root_machine b ∧ b_reResolve b = true ∧ HWAddr (b_target b) = "52:55:55:0a:de:02"
  | Err _ => False
  end.
Proof.
  destruct (runInstall install_world ex_flags {["vm"; "vm-mac"]} "" None) as [[c p]|] eqn:HI;
    [|vm_compute in HI; discriminate HI].
  destruct (install_boots install_world ex_flags {["vm"; "vm-mac"]} "" None c p root_machine "/Users/x"
    VmRecord.ex_unmarshal ∅ HI eq_refl eq_refl) as (d & ref & Hd & _ & H).
  exists d, ref. assert (daemon_flags c = d) as <- by (rewrite parse_Args in Hd; congruence).
  assert (c = MkConfig "colima:default" [53; 123] "52:55:55:0a:de:02" "192.168.64.0/24" (Some []) ""
    "/Users/x/Library/Application Support/drawbridge/transport-secret-colima-colima") as Hc.
  { vm_compute in HI. congruence. }
  destruct (boot root_machine (daemon_flags c)) as [b|] eqn:HB; [|rewrite Hc in HB; vm_compute in HB; discriminate HB].
  exists b. split; [exact Hd|]. split; [reflexivity|]. split; [exact H|].
  rewrite Hc in HB. vm_compute in HB. injection HB as <-. split; reflexivity.
Defined.

(** ** The remaining gates *)

(** As root the mirrors' address is a loopback literal, or nothing starts. *)
Lemma boot_loopback {E} (m : machine E) d b :
  boot m d = Ok b → m_euid m = 0 →
  ∃ a, ParseAddr (d_mirrorIP d) = Some a ∧ hasZone a = false ∧ IsLoopback a = true.
Proof.
  unfold boot, checkMirrorIP. intros H Hm. rewrite Hm in H. cbn [negb Z.eqb] in H.
  destruct (ParseAddr (d_mirrorIP d)) as [a|]; [|done]. exists a.
  destruct (hasZone a); [done|]. by destruct (IsLoopback a).
Qed.

(** The predicate's answer does not depend on what was announced, and of any
    number of calls about one skipped listener the first alone announces it. *)
Lemma exclude_said p g skip mirrored l said :
  let '(r, said', announced) := newExclude p g skip mirrored l said in
  r = (newExclude p g skip mirrored l ∅).1.1 ∧ said ⊆ said' ∧
  (announced = true ↔ MacSync.m_port l ∈ skip ∧ (MacSync.m_proto l, MacSync.m_port l) ∉ said) ∧
  (MacSync.m_port l ∈ skip → (MacSync.m_proto l, MacSync.m_port l) ∈ said').
Proof.
  unfold newExclude. case_bool_decide as Hs; cbn [fst].
  - split_and!; [done|set_solver| |set_solver]. rewrite negb_true_iff, bool_decide_eq_false. tauto.
  - split_and!; [done|done| |done]. split; [done|tauto].
Qed.

(** Once the path is configured the daemon never reports itself
    unauthenticated. *)
Lemma authState_latched path f st :
  TransportAuth.Configured path st = true → (authState path f st).1.1 = ModeStaticHMACv1.
Proof.
  intros HC. unfold authState, TransportAuth.LoadLatched. unfold TransportAuth.Configured in *.
  destruct (String.eqb path ""); [done|]. rewrite HC.
  by destruct (TransportAuth.Load f) as [s|[]].
Qed.
