(* ===== verification/Provision.v ===== *)
(** * Provision: registering the OCI wrapper with the guest's engine, and undoing it

    [src/internal/guestbin/provision.go]: the merge into Docker's daemon.json,
    the record of what it changed, and the revert of exactly that;
    [dropin.go]: the drop-in of a podman guest; [src/cmd/drawbridge/up.go],
    [ocipodman.go] and [down.go]: the order in which [up --oci] and [down] write
    them. *)

From S2P Require Import Prelude GoStr Sha256 TransportAuth OciRuntime GoPath.
Open Scope string_scope.
Open Scope list_scope.
Open Scope Z_scope.

(** ** JSON values

    A [map[string]json.RawMessage] is a finite map of decoded values: what its
    re-encoding does not preserve of a raw value is its white space. *)
Abbreviation cfg := (gmap string json).
(** The guest's files, by path. *)
Abbreviation fs := (gmap string string).

(** [json.Marshal] of a map: its keys in order. *)
Definition key_le (a b : string * json) : Prop := String.leb a.1 b.1 = true.
#[export] Instance key_le_dec : RelDecision key_le.
Proof. intros a b. unfold key_le. apply _. Defined.
Definition of_map (m : cfg) : json := JObj (merge_sort key_le (map_to_list m)).
Definition to_map (o : obj) : cfg := list_to_map (reverse o).

(** [jsonEqual]: equal as decoded values, so objects in any order. Numbers are
    compared by their text: neither value the code compares with holds one. *)
Fixpoint jsonEqual (a b : json) {struct a} : bool :=
  match a, b with
  | JNull, JNull => true
  | JBool x, JBool y => Bool.eqb x y
  | JNum x, JNum y => String.eqb x y
  | JStr x, JStr y => String.eqb x y
  | JArr x, JArr y =>
      (fix go x y := match x, y with
       | [], [] => true
       | v :: x, w :: y => jsonEqual v w && go x y
       | _, _ => false
       end) x y
  | JObj x, JObj y =>
      (length x =? length y)%nat &&
      (fix go x := match x with
       | [] => true
       | (k, v) :: x => match get k y with Some w => jsonEqual v w | None => false end && go x
       end) x
  | _, _ => false
  end.

(** ** The merge *)

Definition RuntimeName : string := "drawbridge".
Definition runtimesKey : string := "runtimes".
Definition defaultRTKey : string := "default-runtime".
Definition DaemonJSONPath : string := "/etc/docker/daemon.json".
Definition provisionStateVersion : Z := 1.

Inductive provision_err :=
| EmptyFile | NotJSON | NullFile | NotObject (key : string) | NotString | NewerState | BadState.

Record ProvisionState := MkState {
  ps_Version : Z;
  ps_RuntimePath : string;
  ps_AddedRuntime : bool;
  ps_SetDefaultRuntime : bool;
  ps_PrevDefaultRuntime : string;
  ps_Existed : bool;
  ps_Before : string;
  ps_After : string
}.

Definition sha256Hex (s : string) : string := EncodeToString (sha256 (bytes_of s)).

Section codec.
(** [json.Unmarshal] into a map of raw values ([Some None] is null), and the
    indented [json.Marshal] of one with its final newline. *)
Variable decode : string → option (option cfg).
Variable encode : cfg → string.

Definition decodeObject (b : option string) : result provision_err cfg :=
  match b with
  | None => Ok ∅
  | Some s =>
      if String.eqb (TrimSpace s) "" then Err EmptyFile
      else match decode s with
      | None => Err NotJSON
      | Some None => Err NullFile
      | Some (Some c) => Ok c
      end
  end.
Definition decodeNested (c : cfg) (key : string) : result provision_err cfg :=
  match c !! key with
  | None | Some JNull => Ok ∅
  | Some (JObj o) => Ok (to_map o)
  | Some _ => Err (NotObject key)
  end.

Definition want_runtime (path : string) : json := JObj [("path", JStr path)].

(** The edit of the decoded file: what it becomes, whether the runtime was
    added, whether the default was set, and what it said before. *)
Definition register_runtime (c : cfg) (path : string) : result provision_err (cfg * bool) :=
  runtimes ← decodeNested c runtimesKey;
  let '(runtimes, added) :=
    match runtimes !! RuntimeName with
    | None => (<[RuntimeName := want_runtime path]> runtimes, true)
    | Some prev =>
        if jsonEqual prev (want_runtime path) then (runtimes, false)
        else (<[RuntimeName := want_runtime path]> runtimes, false)
    end in
  Ok (<[runtimesKey := of_map runtimes]> c, added).
Definition set_default (c : cfg) : result provision_err (cfg * bool * string) :=
  match c !! defaultRTKey with
  | None => Ok (<[defaultRTKey := JStr RuntimeName]> c, true, "")
  | Some prev =>
      if jsonEqual prev (JStr RuntimeName) then Ok (c, false, "")
      else match prev with
      | JStr s => Ok (<[defaultRTKey := JStr RuntimeName]> c, true, s)
      | JNull => Ok (<[defaultRTKey := JStr RuntimeName]> c, true, "")
      | _ => Err NotString
      end
  end.

(** [Merge]: the bytes, the record, and whether the file must be written. *)
Definition Merge (existing : option string) (path : string)
    : result provision_err (string * ProvisionState * bool) :=
  c ← decodeObject existing;
  '(c, added) ← register_runtime c path;
  '(c, setd, prev) ← set_default c;
  let merged := encode c in
  let st (after : string) := MkState provisionStateVersion path added setd prev
      (bool_decide (existing ≠ None)) (default "" existing) after in
  if bool_decide (existing = Some merged) then Ok (merged, st (sha256Hex merged), false)
  else match existing with
  | Some e =>
      if negb added && negb setd then Ok (e, st (sha256Hex e), false)
      else Ok (merged, st (sha256Hex merged), true)
  | None => Ok (merged, st (sha256Hex merged), true)
  end.

(** ** The revert *)

Definition drop_runtime (st : ProvisionState) (c : cfg) : result provision_err cfg :=
  if ps_AddedRuntime st then
    runtimes ← decodeNested c runtimesKey;
    let runtimes := delete RuntimeName runtimes in
    Ok (if bool_decide (runtimes = ∅) then delete runtimesKey c else <[runtimesKey := of_map runtimes]> c)
  else Ok c.
Definition reset_default (st : ProvisionState) (c : cfg) : cfg :=
  if ps_SetDefaultRuntime st then
    match c !! defaultRTKey with
    | Some v =>
        if jsonEqual v (JStr RuntimeName) then
          if String.eqb (ps_PrevDefaultRuntime st) "" then delete defaultRTKey c
          else <[defaultRTKey := JStr (ps_PrevDefaultRuntime st)]> c
        else c
    | None => c
    end
  else c.

(** What [Revert] asks for. *)
Inductive action := Leave | Remove | Write (out : string).
Definition Revert (current : option string) (st : ProvisionState) : result provision_err action :=
  if provisionStateVersion <? ps_Version st then Err NewerState
  else match current with
  | None => Ok Leave
  | Some cur =>
      if negb (String.eqb (ps_After st) "") && String.eqb (sha256Hex cur) (ps_After st) then
        if negb (ps_Existed st) then Ok Remove
        else Ok (if String.eqb (ps_Before st) cur then Leave else Write (ps_Before st))
      else
        c ← decodeObject (Some cur);
        c ← drop_runtime st c;
        let out := encode (reset_default st c) in
        Ok (if String.eqb out cur then Leave else Write out)
  end.

(** ** The drop-in of a podman guest *)

Definition DropinDir : string := "/etc/containers/containers.conf.d".
Definition DropinPath : string := DropinDir +:+ "/50-drawbridge.conf".
Definition EngineDocker : string := "docker".
Definition EnginePodman : string := "podman".
Definition GuestPath (name : string) : string := "/usr/local/bin/drawbridge-" +:+ name.
Definition WrapperPath (engine : string) : string :=
  if String.eqb engine EnginePodman then GuestPath "crun" else GuestPath "runc".
Definition nl : string := String "010"%char "".
Definition quote : ascii := "034"%char.
Definition dropinHeader : string :=
  "# written by drawbridge up --oci; removed by drawbridge down. Do not edit." +:+ nl.

(** [checkRuntimePath] *)
Definition checkRuntimePath (p : string) : bool :=
  HasPrefix p "/" &&
  str_forall (λ c, negb (existsb (Ascii.eqb c) [quote; "\"; "010"; "013"; "009"]%char)) p.
Definition DropinBytes (realCrun : string) : option string :=
  if checkRuntimePath realCrun then
    Some (dropinHeader +:+ "[engine.runtimes]" +:+ nl +:+ "crun = [" +:+ String quote (WrapperPath EnginePodman) +:+
      String quote ", " +:+ String quote realCrun +:+ String quote "]" +:+ nl)
  else None.

Definition StateVersionDocker : Z := provisionStateVersion.
Definition StateVersionPodman : Z := 2.
Definition MaxStateVersion : Z := StateVersionPodman.
Record PodmanState := MkPodman {
  po_Version : Z;
  po_Engine : string;
  po_RuntimePath : string;
  po_DropinPath : string;
  po_DropinSHA256 : string;
  po_Rootful : bool;
  po_OCISockOwner : string
}.

(** [RevertDropin]: delete the file, or leave it and say why. *)
Inductive dropin_action := Gone | NoDigest | Delete | Edited.
Definition RevertDropin (st : PodmanState) (current : option string) : dropin_action :=
  match current with
  | None => Gone
  | Some cur =>
      if String.eqb (po_DropinSHA256 st) "" then NoDigest
      else if String.eqb (sha256Hex cur) (po_DropinSHA256 st) then Delete else Edited
  end.

(** ** The guest

    Its files, and the answer of each command run in it: a command that fails
    changes nothing and ends the run. *)
Inductive run_err := ErrCommand (op path : string) | ErrProvision (e : provision_err) | ErrCrunPath.
Variable ok : string → string → bool.

Definition M A := fs → result run_err A * fs.
Definition ret {A} (a : A) : M A := λ f, (Ok a, f).
Definition fail {A} (e : run_err) : M A := λ f, (Err e, f).
Definition bindM {A B} (m : M A) (k : A → M B) : M B :=
  λ f, let '(r, f) := m f in match r with Ok a => k a f | Err e => (Err e, f) end.
Local Notation "x <- m ;; k" := (bindM m (λ x, k)) (at level 100, m at next level, right associativity).
Local Notation "m ;;; k" := (bindM m (λ _, k)) (at level 100, right associativity).

Definition cmd (op path : string) (upd : fs → fs) : M unit :=
  λ f, if ok op path then (Ok tt, upd f) else (Err (ErrCommand op path), f).
Definition readFile (path : string) : M (option string) :=
  λ f, if ok "read" path then (Ok (f !! path), f) else (Err (ErrCommand "read" path), f).
(** [writeFile]: staged, the directory made, then renamed into place. *)
Definition writeFile (data path : string) : M unit :=
  cmd "stage" path id;;; cmd "mkdir" path id;;; cmd "install" path (λ f, <[path := data]> f).
Definition lift {A} (r : result provision_err A) : M A :=
  match r with Ok a => ret a | Err e => fail (ErrProvision e) end.

(** [stageIfChanged]: the bytes to install, unless the digest is already
    theirs; [/tmp] is left out. *)
Definition stageIfChanged (data path : string) : M (option string) :=
  λ f, if negb (ok "sha256" path) then (Err (ErrCommand "sha256" path), f)
       else if bool_decide (sha256Hex <$> f !! path = Some (sha256Hex data)) then (Ok None, f)
       else if ok "stage" path then (Ok (Some data), f) else (Err (ErrCommand "stage" path), f).
Definition pushBinary (data path : string) : M bool :=
  staged <- stageIfChanged data path;;
  match staged with
  | None => ret false
  | Some data => cmd "install" path (λ f, <[path := data]> f);;; ret true
  end.

Definition StateDir : string := "/etc/drawbridge".
Definition ProvisionPath : string := StateDir +:+ "/provision.json".
Definition UnitPath : string := "/etc/systemd/system/drawbridge-agent.service".

(** The records' JSON, and the version alone. *)
Variable enc_state : ProvisionState → string.
Variable dec_state : string → option ProvisionState.
Variable enc_podman : PodmanState → string.
Variable dec_podman : string → option PodmanState.
Variable peek : string → option Z.

Definition DecodePodmanState (b : string) : result provision_err PodmanState :=
  match dec_podman b with
  | None => Err BadState
  | Some st => if MaxStateVersion <? po_Version st then Err NewerState else Ok st
  end.

(** [provisionOCIDocker]; the script installs the staged wrapper and restarts
    the engine when asked to. *)
Definition provisionOCIDocker (runc engine : string) : M unit :=
  let path := WrapperPath engine in
  staged <- stageIfChanged runc path;;
  cur <- readFile DaemonJSONPath;;
  m <- lift (Merge cur path);;
  let '(merged, st, changed) := m in
  (if (changed : bool) then writeFile merged DaemonJSONPath else ret tt);;;
  have <- readFile ProvisionPath;;
  match have with Some _ => ret tt | None => writeFile (enc_state st) ProvisionPath end;;;
  cmd "script" path (λ f, match staged with Some data => <[path := data]> f | None => f end).

(** [provisionOCIPodman] *)
Definition provisionOCIPodman (wrapper crunPath sockOwner : string) (rootful : bool) : M unit :=
  let path := WrapperPath EnginePodman in
  _ <- pushBinary wrapper path;;
  match DropinBytes crunPath with
  | None => fail ErrCrunPath
  | Some want =>
      cur <- readFile DropinPath;;
      (if bool_decide (cur = Some want) then ret tt else writeFile want DropinPath);;;
      let blob := enc_podman (MkPodman StateVersionPodman EnginePodman path DropinPath (sha256Hex want) rootful sockOwner) in
      have <- readFile ProvisionPath;;
      (if String.eqb (default "" have) blob then ret tt else writeFile blob ProvisionPath)
  end.

Definition rm (path : string) : M unit := cmd "rm" path (delete path).
Definition rm_if_had (path : string) : M unit :=
  had <- readFile path;; match had with Some _ => rm path | None => ret tt end.

Definition revertOCIPodman (st : PodmanState) : M unit :=
  let path := if String.eqb (po_DropinPath st) "" then DropinPath else po_DropinPath st in
  cur <- readFile path;;
  match RevertDropin st cur with Delete => rm path | _ => ret tt end.
Definition revertOCI : M unit :=
  blob <- readFile ProvisionPath;;
  match blob with
  | None => ret tt
  | Some blob =>
      v <- lift (of_option BadState (peek blob));;
      if v =? StateVersionPodman then st <- lift (DecodePodmanState blob);; revertOCIPodman st
      else
        st <- lift (of_option BadState (dec_state blob));;
        cur <- readFile DaemonJSONPath;;
        a <- lift (Revert cur st);;
        match a with
        | Leave => ret tt
        | Remove => rm DaemonJSONPath
        | Write out => writeFile out DaemonJSONPath
        end
  end.

(** [down] in the guest; the unit's stop, which never fails the run, and the
    Mac-side record are left out. *)
Definition under (dir path : string) : bool := HasPrefix path (dir +:+ "/").
Definition down : M unit :=
  rm_if_had UnitPath;;;
  revertOCI;;;
  rm_if_had (GuestPath "agent");;; rm_if_had (GuestPath "runc");;; rm_if_had (WrapperPath EnginePodman);;;
  cmd "rm -rf" StateDir (filter (λ '(p, _), under StateDir p = false)).
End codec.

(** ** Facts about the maps *)

Lemma to_of_map m : (∃ o, of_map m = JObj o ∧ to_map o = m).
Proof.
  eexists. split; [reflexivity|]. unfold to_map.
  rewrite <- (list_to_map_to_list m) at 2. apply list_to_map_proper.
  - rewrite reverse_Permutation, merge_sort_Permutation. apply NoDup_fst_map_to_list.
  - by rewrite reverse_Permutation, merge_sort_Permutation.
Qed.
Lemma decodeNested_of_map c key m : c !! key = Some (of_map m) → decodeNested c key = Ok m.
Proof. destruct (to_of_map m) as (o & E1 & E2). rewrite E1. intros H. unfold decodeNested. by rewrite H, E2. Qed.
Lemma jsonEqual_str v s : jsonEqual v (JStr s) = true ↔ v = JStr s.
Proof. destruct v; cbn; try done. rewrite String.eqb_eq. split; [by intros ->|by intros [= ->]]. Qed.
Lemma jsonEqual_runtime v p : jsonEqual v (want_runtime p) = true ↔ v = want_runtime p.
Proof.
  split; [|intros ->; cbn -[String.eqb]; by rewrite !String.eqb_refl].
  destruct v as [| | | | |o]; cbn -[String.eqb]; try done. destruct o as [|[k w] [|]]; cbn -[String.eqb]; try done.
  rewrite andb_true_r. destruct (String.eqb_spec "path" k) as [<-|]; [|done].
  destruct w; try done. intros E%String.eqb_eq. by rewrite E.
Qed.
Lemma keys_ne : runtimesKey ≠ defaultRTKey.
Proof. done. Qed.

(** What the merge makes of a decoded file. *)
Definition registered (c : cfg) (path : string) : Prop :=
  c !! defaultRTKey = Some (JStr RuntimeName) ∧
  ∃ m, c !! runtimesKey = Some (of_map m) ∧ m !! RuntimeName = Some (want_runtime path).

Lemma register_runtime_Ok c path c' added :
  register_runtime c path = Ok (c', added) ↔
  ∃ m, decodeNested c runtimesKey = Ok m ∧ added = bool_decide (m !! RuntimeName = None) ∧
    c' = <[runtimesKey := of_map (<[RuntimeName := want_runtime path]> m)]> c.
Proof.
  unfold register_runtime. destruct (decodeNested c runtimesKey) as [m|]; cbn; [|naive_solver].
  assert (∀ a m', (Ok (<[runtimesKey := of_map m']> c, a) = Ok (c', added) :> result provision_err _) ↔
    added = a ∧ c' = <[runtimesKey := of_map m']> c) as HE by (split; [by intros [= <- <-]|by intros [-> ->]]).
  assert (∀ (P : cfg → Prop), (∃ m', Ok m = Ok m' :> result provision_err _ ∧ P m') ↔ P m) as HX
    by (split; [by intros (? & [= <-] & ?)|eauto]).
  destruct (m !! RuntimeName) as [v|] eqn:L.
  - destruct (jsonEqual v (want_runtime path)) eqn:J.
    + apply jsonEqual_runtime in J as ->. rewrite HE, HX, L, (insert_id m) by done. rewrite bool_decide_eq_false_2 by done. tauto.
    + rewrite HE, HX, L. rewrite bool_decide_eq_false_2 by done. tauto.
  - rewrite HE, HX, L. rewrite bool_decide_eq_true_2 by done. tauto.
Qed.
Lemma set_default_Ok c c' setd prev :
  set_default c = Ok (c', setd, prev) →
  c' = <[defaultRTKey := JStr RuntimeName]> c ∧
  ((setd = false ∧ prev = "" ∧ c !! defaultRTKey = Some (JStr RuntimeName)) ∨
   (setd = true ∧ c !! defaultRTKey ≠ Some (JStr RuntimeName) ∧
    (c !! defaultRTKey = Some (JStr prev) ∨ (prev = "" ∧ c !! defaultRTKey ∈ [None; Some JNull])))).
Proof.
  unfold set_default. destruct (c !! defaultRTKey) as [v|] eqn:L.
  - destruct (jsonEqual v (JStr RuntimeName)) eqn:J.
    + apply jsonEqual_str in J as ->. intros [= <- <- <-]. split; [by rewrite insert_id|]. by left.
    + assert (v ≠ JStr RuntimeName) as Hv by (intros ->; cbn in J; done).
      destruct v; try done; intros [= <- <- <-]; (split; [done|right; split; [done|split; [congruence|]]]).
      * right. split; [done|]. right. left.
      * by left.
  - intros [= <- <- <-]. split; [done|right]. split; [done|]. split; [done|]. right. split; [done|left].
Qed.
Lemma set_default_set c : c !! defaultRTKey = Some (JStr RuntimeName) → set_default c = Ok (c, false, "").
Proof. intros H. unfold set_default. by rewrite H. Qed.
Lemma register_runtime_set c path m :
  c !! runtimesKey = Some (of_map m) → m !! RuntimeName = Some (want_runtime path) →
  register_runtime c path = Ok (c, false).
Proof.
  intros H1 H2. apply register_runtime_Ok. exists m. split; [by apply decodeNested_of_map|].
  rewrite H2, (insert_id m) by done. rewrite bool_decide_eq_false_2 by done. by rewrite insert_id.
Qed.

Section codec_facts.
Context (decode : string → option (option cfg)) (encode : cfg → string).
(** The encoding of a map reads back as the map, and is not blank. *)
Definition codec_ok (c : cfg) : Prop := decode (encode c) = Some (Some c) ∧ TrimSpace (encode c) ≠ "".
Lemma decodeObject_encode c : codec_ok c → decodeObject decode (Some (encode c)) = Ok c.
Proof. intros [H1 H2]. unfold decodeObject. by rewrite (proj2 (String.eqb_neq _ _) H2), H1. Qed.

(** The file a merge decides on, when it decides to write one. *)
Lemma Merge_Ok cur path merged st changed :
  Merge decode encode cur path = Ok (merged, st, changed) →
  ∃ c m setd prev,
    decodeObject decode cur = Ok c ∧ decodeNested c runtimesKey = Ok m ∧
    let c1 := <[runtimesKey := of_map (<[RuntimeName := want_runtime path]> m)]> c in
    let c2 := <[defaultRTKey := JStr RuntimeName]> c1 in
    set_default c1 = Ok (c2, setd, prev) ∧
    st = MkState provisionStateVersion path (bool_decide (m !! RuntimeName = None)) setd prev
      (bool_decide (cur ≠ None)) (default "" cur) (sha256Hex merged) ∧
    (if changed then merged = encode c2 ∧ cur ≠ Some merged else cur = Some merged).
Proof.
  unfold Merge. intros (c & HC & H)%result_bind_Ok. apply result_bind_Ok in H as ([c1 added] & HR & H).
  apply result_bind_Ok in H as ([[c2 setd] prev] & HS & H). cbv zeta in H.
  apply register_runtime_Ok in HR as (m & Hm & -> & ->). pose proof (set_default_Ok _ _ _ _ HS) as [-> _].
  exists c, m, setd, prev. split; [done|]. split; [done|]. cbn zeta. split; [done|].
  case_bool_decide as HB; [injection H as <- <- <-; by split|].
  destruct cur as [e|].
  - destruct (negb _ && negb setd); injection H as <- <- <-; by split.
  - injection H as <- <- <-. by split.
Qed.
Lemma Merge_registered cur path merged st :
  Merge decode encode cur path = Ok (merged, st, true) →
  ∃ c, merged = encode c ∧ registered c path.
Proof.
  intros (c & m & setd & prev & _ & _ & _ & _ & -> & _)%Merge_Ok. eexists. split; [reflexivity|]. split.
  - by rewrite lookup_insert_eq.
  - eexists. rewrite lookup_insert_ne, lookup_insert_eq by done. split; [reflexivity|]. by rewrite lookup_insert_eq.
Qed.
Lemma Merge_again c path :
  codec_ok c → registered c path → ∃ st, Merge decode encode (Some (encode c)) path = Ok (encode c, st, false).
Proof.
  intros HC (HD & m & H1 & H2). unfold Merge. rewrite decodeObject_encode by done. cbn [mbind result_bind].
  rewrite (register_runtime_set _ _ m) by done. cbn [mbind result_bind]. rewrite set_default_set by done.
  cbn [mbind result_bind]. rewrite bool_decide_eq_true_2 by done. eauto.
Qed.
Lemma Merge_settles cur path merged st changed :
  Merge decode encode cur path = Ok (merged, st, changed) →
  (changed = true → ∀ c, merged = encode c → codec_ok c) →
  ∃ st', Merge decode encode (Some merged) path = Ok (merged, st', false).
Proof.
  intros H HC. destruct changed.
  - apply Merge_registered in H as (c & -> & Hr). apply Merge_again; [by apply HC|done].
  - pose proof (Merge_Ok _ _ _ _ _ H) as (_ & _ & _ & _ & _ & _ & _ & _ & E). cbn in E. rewrite <- E. eauto.
Qed.

Lemma Revert_exact cur path merged st changed :
  Merge decode encode cur path = Ok (merged, st, changed) →
  Revert decode encode (Some merged) st =
    Ok (match cur with None => Remove | Some b => if changed then Write b else Leave end).
Proof.
  intros (c & m & setd & prev & _ & _ & _ & -> & HM)%Merge_Ok. unfold Revert. cbn [ps_Version ps_After ps_Existed ps_Before].
  change (provisionStateVersion <? provisionStateVersion) with false. cbn match.
  assert (sha256Hex merged ≠ "") as Hne.
  { unfold sha256Hex. intros E. apply (f_equal String.length) in E. rewrite length_EncodeToString, length_sha256 in E. done. }
  rewrite (proj2 (String.eqb_neq _ _) Hne), String.eqb_refl. cbn [negb andb].
  destruct cur as [b|]; cbn; [|done]. destruct changed.
  - destruct HM as [_ Hb]. destruct (String.eqb_spec b merged); [by subst|done].
  - injection HM as ->. by rewrite String.eqb_refl.
Qed.
End codec_facts.

(** ** Runs in the guest *)

Section runs.
Context (decode : string → option (option cfg)) (encode : cfg → string).
Context (enc_state : ProvisionState → string) (dec_state : string → option ProvisionState).
Context (enc_podman : PodmanState → string) (dec_podman : string → option PodmanState) (peek : string → option Z).
Implicit Types (ok : string → string → bool) (f g : fs).

Abbreviation up_docker ok := (provisionOCIDocker decode encode ok enc_state).
Abbreviation down_run ok := (down decode encode ok dec_state dec_podman peek).

Lemma bindM_Ok {A B} (m : M A) (k : A → M B) f b f' :
  bindM m k f = (Ok b, f') ↔ ∃ a g, m f = (Ok a, g) ∧ k a g = (Ok b, f').
Proof.
  unfold bindM. destruct (m f) as [[a|e] g]; split; try done.
  - intros H. by exists a, g.
  - by intros (? & ? & [= <- <-] & ?).
  - by intros (? & ? & ? & ?).
Qed.
Lemma cmd_Ok ok op path upd f f' : cmd ok op path upd f = (Ok tt, f') → f' = upd f.
Proof. unfold cmd. destruct (ok op path); by intros [= <-]. Qed.
Lemma writeFile_Ok ok data path f f' : writeFile ok data path f = (Ok tt, f') → f' = <[path := data]> f.
Proof.
  unfold writeFile. intros ([] & g & H1%cmd_Ok & ([] & h & H2%cmd_Ok & H3%cmd_Ok)%bindM_Ok)%bindM_Ok.
  by subst.
Qed.
Lemma readFile_Ok ok path f r f' : readFile ok path f = (Ok r, f') → r = f !! path ∧ f' = f.
Proof. unfold readFile. destruct (ok "read" path); by intros [= <- <-]. Qed.
Lemma lift_Ok {A} (r : result provision_err A) a f f' : lift r f = (Ok a, f') → r = Ok a ∧ f' = f.
Proof. destruct r; by intros [= <- <-]. Qed.
Lemma stage_Ok ok data path f r f' :
  stageIfChanged ok data path f = (Ok r, f') → f' = f ∧
    ((r = None ∧ sha256Hex <$> f !! path = Some (sha256Hex data)) ∨ r = Some data).
Proof.
  unfold stageIfChanged. destruct (negb (ok "sha256" path)); [done|]. case_bool_decide; [by intros [= <- <-]; auto|].
  destruct (ok "stage" path); intros [= <- <-]; auto.
Qed.
Lemma rm_if_had_Ok ok path f f' : rm_if_had ok path f = (Ok tt, f') → f' = delete path f.
Proof.
  unfold rm_if_had. intros (r & g & [-> ->]%readFile_Ok & H)%bindM_Ok. destruct (f !! path) eqn:E.
  - by apply cmd_Ok in H.
  - injection H as <-. symmetry. by apply delete_id.
Qed.

(** One successful [up --oci] of a docker guest, as a step on its files. *)
Lemma up_docker_Ok ok runc engine f f' :
  up_docker ok runc engine f = (Ok tt, f') →
  let path := WrapperPath engine in
  ∃ merged st changed wrapper,
    Merge decode encode (f !! DaemonJSONPath) path = Ok (merged, st, changed) ∧
    sha256Hex wrapper = sha256Hex runc ∧
    f' = <[path := wrapper]>
         (match f !! ProvisionPath with None => <[ProvisionPath := enc_state st]> | Some _ => id end
         (<[DaemonJSONPath := merged]> f)).
Proof.
  cbn zeta. unfold provisionOCIDocker.
  intros (staged & g & [-> HS]%stage_Ok & H)%bindM_Ok. apply bindM_Ok in H as (cur & g & [-> ->]%readFile_Ok & H).
  apply bindM_Ok in H as ([[merged st] changed] & g & [HM ->]%lift_Ok & H).
  apply bindM_Ok in H as ([] & g & HW & H). apply bindM_Ok in H as (have & g' & [-> ->]%readFile_Ok & H).
  apply bindM_Ok in H as ([] & g' & HP & H%cmd_Ok).
  assert (g = <[DaemonJSONPath := merged]> f) as ->.
  { destruct changed; [by apply writeFile_Ok in HW|]. injection HW as <-.
    apply Merge_Ok in HM as (c & m & setd & prev & _ & _ & _ & _ & HE). by rewrite insert_id. }
  rewrite lookup_insert_ne in HP by done.
  assert (g' = match f !! ProvisionPath with None => <[ProvisionPath := enc_state st]> | Some _ => id end
         (<[DaemonJSONPath := merged]> f)) as ->.
  { destruct (f !! ProvisionPath); [by injection HP as <-|by apply writeFile_Ok in HP]. }
  assert (∀ s, DaemonJSONPath ≠ WrapperPath s ∧ ProvisionPath ≠ WrapperPath s) as HN.
  { intros s. unfold WrapperPath. by destruct (String.eqb s EnginePodman). }
  destruct HS as [[-> HS]| ->].
  - apply fmap_Some in HS as (w & Hw & HS). exists merged, st, changed, w. split; [done|]. split; [done|].
    rewrite H. symmetry. apply insert_id. destruct (HN engine). destruct (f !! ProvisionPath); cbn; by rewrite ?lookup_insert_ne.
  - exists merged, st, changed, runc. by split.
Qed.

(** What [down] leaves of a guest a docker [up --oci] recorded. *)
Definition after (a : action) (f : fs) : fs :=
  match a with Leave => f | Remove => delete DaemonJSONPath f | Write out => <[DaemonJSONPath := out]> f end.
Definition cleaned (f : fs) : fs :=
  filter (λ '(p, _), under StateDir p = false)
    (delete (WrapperPath EnginePodman) (delete (GuestPath "runc") (delete (GuestPath "agent") f))).
Lemma down_Ok ok f f' blob st :
  f !! ProvisionPath = Some blob → peek blob = Some 1 → dec_state blob = Some st →
  down_run ok f = (Ok tt, f') →
  ∃ a, Revert decode encode (f !! DaemonJSONPath) st = Ok a ∧ f' = cleaned (after a (delete UnitPath f)).
Proof.
  intros HB HP HD. unfold down.
  intros ([] & g0 & ->%rm_if_had_Ok & ([] & g & HR & H)%bindM_Ok)%bindM_Ok.
  apply bindM_Ok in H as ([] & g1 & ->%rm_if_had_Ok & H). apply bindM_Ok in H as ([] & g2 & ->%rm_if_had_Ok & H).
  apply bindM_Ok in H as ([] & g3 & ->%rm_if_had_Ok & ->%cmd_Ok).
  unfold revertOCI in HR. apply bindM_Ok in HR as (b & h & [-> ->]%readFile_Ok & HR).
  rewrite lookup_delete_ne, HB in HR by done. apply bindM_Ok in HR as (v & h & [Hv ->]%lift_Ok & HR).
  rewrite HP in Hv. injection Hv as <-. change (1 =? StateVersionPodman) with false in HR. cbn match in HR.
  apply bindM_Ok in HR as (st' & h & [Hs ->]%lift_Ok & HR). rewrite HD in Hs. injection Hs as <-.
  apply bindM_Ok in HR as (cur & h & [-> ->]%readFile_Ok & HR). rewrite lookup_delete_ne in HR by done.
  apply bindM_Ok in HR as (a & h & [Ha ->]%lift_Ok & HR). exists a. split; [done|].
  destruct a; [by injection HR as <-|by apply cmd_Ok in HR as ->|by apply writeFile_Ok in HR as ->].
Qed.

Definition ours (p : string) : Prop :=
  under StateDir p = true ∨ p ∈ [UnitPath; GuestPath "agent"; GuestPath "runc"; WrapperPath EnginePodman].
Lemma cleaned_lookup f p : ¬ ours p → cleaned f !! p = f !! p.
Proof.
  intros Hn. unfold ours in Hn. unfold cleaned.
  assert (∀ g : fs, filter (λ '(p, _), under StateDir p = false) g !! p = g !! p) as ->.
  { intros g. destruct (g !! p) as [x|] eqn:E.
    - apply map_lookup_filter_Some. split; [done|]. destruct (under StateDir p); [tauto|done].
    - apply map_lookup_filter_None. by left. }
  rewrite !lookup_delete_ne; [done|set_solver..].
Qed.
Lemma cleaned_ours f p : ours p → p ≠ UnitPath → cleaned f !! p = None.
Proof.
  intros [Hu|Ho] Hn; unfold cleaned; apply map_lookup_filter_None.
  - right. intros x _. congruence.
  - left. rewrite !elem_of_cons in Ho. rewrite !lookup_delete_None. set_solver.
Qed.

(** Successful [up --oci] runs of one guest, at least one, with any wrappers. *)
Inductive ups (engine : string) : fs → fs → Prop :=
| ups_one ok runc f f' : up_docker ok runc engine f = (Ok tt, f') → ups engine f f'
| ups_more ok runc f g f' : ups engine f g → up_docker ok runc engine g = (Ok tt, f') → ups engine f f'.

Lemma ups_state engine f f' merged st changed :
  f !! ProvisionPath = None →
  Merge decode encode (f !! DaemonJSONPath) (WrapperPath engine) = Ok (merged, st, changed) →
  (changed = true → ∀ c, merged = encode c → codec_ok decode encode c) →
  ups engine f f' →
  ∃ wrapper, f' = <[WrapperPath engine := wrapper]> (<[ProvisionPath := enc_state st]> (<[DaemonJSONPath := merged]> f)).
Proof.
  intros HP HM HC. induction 1 as [ok runc f f' H|ok runc f g f' _ IH H]; apply up_docker_Ok in H as (m' & st' & ch' & w & HM' & _ & ->).
  - rewrite HM in HM'. injection HM' as <- <- <-. rewrite HP. by exists w.
  - destruct (IH HP HM) as (w' & ->). exists w.
    assert (ProvisionPath ≠ WrapperPath engine ∧ DaemonJSONPath ≠ WrapperPath engine) as [N1 N2]
      by (unfold WrapperPath; by destruct (String.eqb engine EnginePodman)).
    rewrite !lookup_insert_ne, lookup_insert_eq in HM' by done. rewrite lookup_insert_ne, lookup_insert_eq by done.
    destruct (Merge_settles _ _ _ _ _ _ _ HM HC) as (st2 & E). rewrite E in HM'. injection HM' as <- <- <-.
    cbn match. unfold id. apply map_eq. intros p. rewrite !lookup_insert.
    repeat case_decide; subst; discriminate || done.
Qed.
End runs.

(** ** Properties *)

(** C6: [down] undoes [up --oci] exactly. On a docker guest with no record yet,
    after any number of successful [up --oci] runs with any wrappers and a
    successful [down], every file is what it was before the first run: daemon.json
    byte for byte, or gone again if there was none; and nothing of the agent, the
    wrappers, the unit or the state directory is left. *)
Theorem up_down_exact decode encode enc_state dec_state dec_podman peek engine ok f f1 f2 merged st changed :
  f !! ProvisionPath = None →
  Merge decode encode (f !! DaemonJSONPath) (WrapperPath engine) = Ok (merged, st, changed) →
  (changed = true → ∀ c, merged = encode c → codec_ok decode encode c) →
  dec_state (enc_state st) = Some st → peek (enc_state st) = Some 1 →
  ups decode encode enc_state engine f f1 →
  down decode encode ok dec_state dec_podman peek f1 = (Ok tt, f2) →
  ∀ p, (ours p → f2 !! p = None) ∧ (¬ ours p → f2 !! p = f !! p).
Proof.
  intros HP HM HC HD Hpk HU Hdown. destruct (ups_state _ _ _ _ _ _ _ _ _ HP HM HC HU) as (w & ->).
  assert (ProvisionPath ≠ WrapperPath engine ∧ DaemonJSONPath ≠ WrapperPath engine) as [N1 N2]
    by (unfold WrapperPath; by destruct (String.eqb engine EnginePodman)).
  eapply down_Ok in Hdown as (a & HR & ->); [| |exact Hpk|exact HD];
    [|by rewrite lookup_insert_ne, lookup_insert_eq by done].
  rewrite lookup_insert_ne, lookup_insert_ne, lookup_insert_eq in HR by done.
  rewrite (Revert_exact _ _ _ _ _ _ _ HM) in HR. injection HR as <-.
  intros p. split; intros Hp.
  - destruct (decide (p = UnitPath)) as [->|Hn]; [|by apply cleaned_ours].
    unfold cleaned. apply map_lookup_filter_None. left. rewrite !lookup_delete_None. do 3 right.
    destruct (f !! DaemonJSONPath); [destruct changed|]; unfold after;
      rewrite ?lookup_insert_ne, ?lookup_delete_ne by done; apply lookup_delete_eq.
  - rewrite cleaned_lookup by done.
    assert (p ≠ UnitPath ∧ p ≠ WrapperPath engine ∧ p ≠ ProvisionPath) as (K1 & K2 & K3).
    { split_and!; intros ->; apply Hp; [right; left| |by left].
      right. unfold WrapperPath at 1. destruct (String.eqb engine EnginePodman); set_solver. }
    apply Merge_Ok in HM as (c & m & setd & prev & _ & _ & _ & _ & HE).
    destruct (decide (p = DaemonJSONPath)) as [->|Kd].
    + destruct (f !! DaemonJSONPath) as [b|] eqn:Eb; [destruct changed|]; unfold after.
      * apply lookup_insert_eq.
      * rewrite lookup_delete_ne, !lookup_insert_ne, lookup_insert_eq by done. done.
      * apply lookup_delete_eq.
    + assert (∀ g : fs, after (match f !! DaemonJSONPath with None => Remove | Some b => if changed then Write b else Leave end) g !! p = g !! p) as ->.
      { intros g. unfold after. destruct (f !! DaemonJSONPath); [destruct changed|]; by rewrite ?lookup_insert_ne, ?lookup_delete_ne. }
      by rewrite lookup_delete_ne, !lookup_insert_ne by done.
Qed.

(** A codec of two texts for the witnesses: a file that has [plain] and what the
    merge makes of it. *)
#[export] Instance json_eq_dec : EqDecision json.
Proof.
  refine (fix go (a b : json) {struct a} : Decision (a = b) :=
    match a, b with
    | JNull, JNull => left eq_refl
    | JBool x, JBool y => match decide (x = y) with left E => left _ | right E => right _ end
    | JNum x, JNum y => match decide (x = y) with left E => left _ | right E => right _ end
    | JStr x, JStr y => match decide (x = y) with left E => left _ | right E => right _ end
    | JArr x, JArr y => match List.list_eq_dec go x y with left E => left _ | right E => right _ end
    | JObj x, JObj y =>
        match List.list_eq_dec (λ p q, match p, q with
          | (k, v), (k', v') => match decide (k = k'), go v v' with
            | left E1, left E2 => left _ | right E1, _ => right _ | _, right E2 => right _ end
          end) x y with left E => left _ | right E => right _ end
    | _, _ => right _
    end); congruence.
Defined.
Definition plain_cfg : cfg := {[ "debug" := JBool true ]}.
Definition registered_cfg (c : cfg) : cfg :=
  <[defaultRTKey := JStr RuntimeName]> (<[runtimesKey := of_map {[ RuntimeName := want_runtime (WrapperPath EngineDocker) ]}]> c).
Definition toy_decode (s : string) : option (option cfg) :=
  if String.eqb s "plain" then Some (Some plain_cfg)
  else if String.eqb s "merged" then Some (Some (registered_cfg plain_cfg))
  else if String.eqb s "edited" then Some (Some (<["debug" := JBool false]> (registered_cfg plain_cfg))) else None.
Definition toy_encode (c : cfg) : string :=
  if decide (c = registered_cfg plain_cfg) then "merged" else if decide (c = plain_cfg) then "plain" else "other".
Definition toy_state (plain : string) : ProvisionState :=
  MkState 1 (WrapperPath EngineDocker) true true "" true plain (sha256Hex "merged").
Definition toy_enc_state (st : ProvisionState) : string := ps_Before st.
Definition toy_dec_state (s : string) : option ProvisionState := Some (toy_state s).
Definition always (op path : string) : bool := true.
Definition toy_fs : fs := {[ DaemonJSONPath := "plain" ]}.
Definition toy_up (runc : string) (f : fs) : fs :=
  (provisionOCIDocker toy_decode toy_encode always toy_enc_state runc EngineDocker f).2.
Definition toy_down (f : fs) : result run_err unit * fs :=
  down toy_decode toy_encode always toy_dec_state (λ _, None) (λ _, Some 1) f.

Lemma up_down_exact_witness :
  ∃ f1 f2, ups toy_decode toy_encode toy_enc_state EngineDocker toy_fs f1 ∧ f1 !! DaemonJSONPath = Some "merged" ∧
    toy_down f1 = (Ok tt, f2) ∧ f2 !! DaemonJSONPath = Some "plain".
Proof.
  set (f1 := <[GuestPath "runc" := "v1"]> (<[ProvisionPath := "plain"]> (<[DaemonJSONPath := "merged"]> toy_fs)) : fs).
  assert (Merge toy_decode toy_encode (Some "plain") (WrapperPath EngineDocker) = Ok ("merged", toy_state "plain", true)) as HM
    by (vm_compute; reflexivity).
  assert (ups toy_decode toy_encode toy_enc_state EngineDocker toy_fs f1) as HU.
  { apply (ups_one _ _ _ _ always "v1"). vm_compute. reflexivity. }
  assert (toy_down f1 = (Ok tt, {[ DaemonJSONPath := "plain" ]})) as HDn by (vm_compute; reflexivity).
  exists f1, {[ DaemonJSONPath := "plain" ]}. split; [exact HU|]. split; [reflexivity|]. split; [exact HDn|].
  refine (proj2 (up_down_exact toy_decode toy_encode toy_enc_state toy_dec_state (λ _, None) (λ _, Some 1) EngineDocker
    always toy_fs f1 _ "merged" (toy_state "plain") true _ HM _ _ _ HU HDn DaemonJSONPath) _).
  - reflexivity.
  - intros _ c Hc. unfold toy_encode in Hc. case_decide as Hd; [|case_decide; discriminate Hc]. subst c.
    split; vm_compute; [reflexivity|discriminate].
  - reflexivity.
  - reflexivity.
  - unfold ours. intros [H|H]; [vm_compute in H; discriminate H|]. rewrite !elem_of_cons, elem_of_nil in H.
    unfold DaemonJSONPath, UnitPath, GuestPath, WrapperPath in H. cbn in H. destruct H as [H|[H|[H|[H|[]]]]]; discriminate H.
Defined.

Lemma drop_runtime_Ok st c c' :
  drop_runtime st c = Ok c' →
  (∀ k, k ≠ runtimesKey → c' !! k = c !! k) ∧
  (if ps_AddedRuntime st then ∃ m, decodeNested c runtimesKey = Ok m ∧ decodeNested c' runtimesKey = Ok (delete RuntimeName m)
   else c' = c).
Proof.
  unfold drop_runtime. destruct (ps_AddedRuntime st); [|by intros [= <-]].
  intros (m & Hm & [= <-])%result_bind_Ok. split.
  - intros k Hk. case_bool_decide; by rewrite ?lookup_delete_ne, ?lookup_insert_ne by done.
  - exists m. split; [done|]. case_bool_decide as HE.
    + unfold decodeNested. by rewrite lookup_delete_eq, HE.
    + apply decodeNested_of_map. by rewrite lookup_insert_eq.
Qed.

(** The default a file had, as a revert restores it: null and the empty name
    are no default. *)
Definition default_before (v : option json) : option json :=
  match v with Some (JStr s) => if String.eqb s "" then None else Some (JStr s) | _ => None end.

(** C7: [down] after the user edited daemon.json. Once [up --oci] merged a file,
    whatever the file has become (short of its very bytes), a revert keeps every
    key but the two of drawbridge as the user left them, and every other runtime;
    takes its own runtime out again only if it had added it; and gives the default
    runtime back as it was before the merge, unless the user has set another one
    since or it was drawbridge before. *)
Theorem revert_edited decode encode cur path merged st changed cur' c' a :
  Merge decode encode cur path = Ok (merged, st, changed) →
  sha256Hex cur' ≠ sha256Hex merged → decodeObject decode (Some cur') = Ok c' →
  Revert decode encode (Some cur') st = Ok a →
  ∃ c m c2, decodeObject decode cur = Ok c ∧ decodeNested c runtimesKey = Ok m ∧
    (a = Write (encode c2) ∨ a = Leave ∧ cur' = encode c2) ∧
    (∀ k, k ≠ runtimesKey → k ≠ defaultRTKey → c2 !! k = c' !! k) ∧
    (if bool_decide (m !! RuntimeName = None)
     then ∃ m', decodeNested c' runtimesKey = Ok m' ∧ decodeNested c2 runtimesKey = Ok (delete RuntimeName m')
     else c2 !! runtimesKey = c' !! runtimesKey) ∧
    c2 !! defaultRTKey =
      (if decide (c' !! defaultRTKey = Some (JStr RuntimeName) ∧ c !! defaultRTKey ≠ Some (JStr RuntimeName))
       then default_before (c !! defaultRTKey) else c' !! defaultRTKey).
Proof.
  intros (c & m & setd & prev & HC & Hm & HS & -> & _)%Merge_Ok Hsha HC'. unfold Revert.
  cbn [ps_Version ps_After ps_Existed ps_Before]. change (provisionStateVersion <? provisionStateVersion) with false. cbn match.
  rewrite (proj2 (String.eqb_neq _ _) Hsha), andb_false_r, HC'. cbn [mbind result_bind].
  intros (c1 & HD & [= <-])%result_bind_Ok. apply drop_runtime_Ok in HD as [HK HD]. cbn [ps_AddedRuntime] in HD.
  set (st := MkState _ _ _ _ _ _ _ _).
  assert (∀ k, k ≠ defaultRTKey → reset_default st c1 !! k = c1 !! k) as HR.
  { intros k Hk. unfold reset_default. cbn [ps_SetDefaultRuntime ps_PrevDefaultRuntime st].
    repeat case_match; by rewrite ?lookup_delete_ne, ?lookup_insert_ne by done. }
  exists c, m, (reset_default st c1). split; [done|]. split; [done|]. split_and!.
  - destruct (String.eqb_spec (encode (reset_default st c1)) cur'); [right|left]; done.
  - intros k H1 H2. by rewrite HR, HK by done.
  - case_bool_decide.
    + destruct HD as (m' & H1 & H2). exists m'. split; [done|]. unfold decodeNested in *. by rewrite HR by done.
    + by rewrite HR, HD by done.
  - apply set_default_Ok in HS as [_ HS]. rewrite lookup_insert_ne in HS by done.
    unfold reset_default. cbn [ps_SetDefaultRuntime ps_PrevDefaultRuntime st]. rewrite (HK defaultRTKey) by done.
    destruct HS as [(-> & _ & E)|(-> & Hne & E)].
    + rewrite decide_False by (intros [_ []]; done). by apply HK.
    + destruct (c' !! defaultRTKey) as [v|] eqn:L; [|rewrite decide_False by (by intros [? _]); by rewrite HK].
      destruct (jsonEqual v (JStr RuntimeName)) eqn:J.
      * apply jsonEqual_str in J as ->. rewrite decide_True by done. unfold default_before.
        destruct E as [->|[-> E]].
        -- destruct (String.eqb prev ""); [apply lookup_delete_eq|apply lookup_insert_eq].
        -- change (String.eqb "" "") with true. cbn match. rewrite lookup_delete_eq.
           rewrite !elem_of_cons, elem_of_nil in E. destruct E as [->|[->|[]]]; done.
      * rewrite decide_False, HK; [done|done|]. intros [[= ->] _]. by rewrite (proj2 (jsonEqual_str _ _) eq_refl) in J.
Qed.
Lemma revert_edited_witness :
  ∃ c2, Revert toy_decode toy_encode (Some "edited") (toy_state "plain") = Ok (Write (toy_encode c2)) ∧
    c2 !! "debug" = Some (JBool false) ∧ c2 !! defaultRTKey = None.
Proof.
  assert (Merge toy_decode toy_encode (Some "plain") (WrapperPath EngineDocker) = Ok ("merged", toy_state "plain", true)) as HM
    by (vm_compute; reflexivity).
  assert (Revert toy_decode toy_encode (Some "edited") (toy_state "plain") = Ok (Write "other")) as HR by (vm_compute; reflexivity).
  destruct (revert_edited toy_decode toy_encode (Some "plain") _ "merged" (toy_state "plain") true "edited"
    (<["debug" := JBool false]> (registered_cfg plain_cfg)) (Write "other") HM) as (c & m & c2 & HC & _ & Ha & Hk & _ & Hd).
  - intros E. vm_compute in E. discriminate E.
  - reflexivity.
  - exact HR.
  - exists c2. destruct Ha as [Ha|[Ha _]]; [|discriminate Ha]. rewrite <- Ha. split; [exact HR|].
    split; [rewrite Hk by discriminate; reflexivity|]. rewrite Hd.
    assert (decodeObject toy_decode (Some "plain") = Ok plain_cfg) as HP by (vm_compute; reflexivity).
    assert (c = plain_cfg) as -> by congruence. reflexivity.
Defined.

(** A wrapper registered under another path is left as it is when it is the
    default already: the merge reports that nothing but formatting differs. *)
Lemma stale_runtime_kept decode encode e c m v path :
  decodeObject decode (Some e) = Ok c → decodeNested c runtimesKey = Ok m →
  m !! RuntimeName = Some v → v ≠ want_runtime path → c !! defaultRTKey = Some (JStr RuntimeName) →
  ∃ st, Merge decode encode (Some e) path = Ok (e, st, false).
Proof.
  intros HC Hm Hv _ Hd. unfold Merge. rewrite HC. cbn [mbind result_bind].
  rewrite (proj2 (register_runtime_Ok c path _ _)) by (exists m; split; [done|split; reflexivity]). cbn [mbind result_bind].
  rewrite set_default_set by (by rewrite lookup_insert_ne). cbn [mbind result_bind].
  rewrite Hv. change (bool_decide (Some v = None)) with false. cbn [negb andb].
  case_bool_decide as HB; [injection HB as ->|]; eauto.
Qed.

(** The merged file is written before the record. When the record's write fails,
    the next run records the merged file as the original, and [down] then takes
    the wrapper away from under the default runtime it leaves registered. *)
Definition record_fails (op path : string) : bool := negb (String.eqb op "install" && String.eqb path ProvisionPath).
Definition toy_dec_state2 (s : string) : option ProvisionState :=
  Some (if String.eqb s "plain" then toy_state "plain"
        else MkState 1 (WrapperPath EngineDocker) false false "" true "merged" (sha256Hex "merged")).
Lemma lost_record :
  let up ok f := provisionOCIDocker toy_decode toy_encode ok toy_enc_state "v1" EngineDocker f in
  let '(r1, f1) := up record_fails toy_fs in
  let '(r2, f2) := up always f1 in
  let '(r3, f3) := down toy_decode toy_encode always toy_dec_state2 (λ _, None) (λ _, Some 1) f2 in
  r1 = Err (ErrCommand "install" ProvisionPath) ∧ r2 = Ok tt ∧ r3 = Ok tt ∧
  f3 !! DaemonJSONPath = Some "merged" ∧ f3 !! WrapperPath EngineDocker = None.
Proof. vm_compute. repeat split. Qed.

(** A drop-in is deleted only while its digest is the recorded one. *)
Lemma dropin_deleted st cur :
  RevertDropin st cur = Delete ↔ ∃ b, cur = Some b ∧ sha256Hex b = po_DropinSHA256 st.
Proof.
  unfold RevertDropin. destruct cur as [b|]; [|split; [done|by intros (? & ? & _)]].
  destruct (String.eqb_spec (po_DropinSHA256 st) "") as [E|Hn].
  - split; [done|]. intros (b' & [= <-] & Hs). exfalso. rewrite E in Hs. unfold sha256Hex in Hs.
    apply (f_equal String.length) in Hs. by rewrite length_EncodeToString, length_sha256 in Hs.
  - destruct (String.eqb_spec (sha256Hex b) (po_DropinSHA256 st)) as [E|Hd].
    + split; [by eauto|done].
    + split; [done|]. by intros (? & [= <-] & ?).
Qed.
