(* ===== verification/Preflight.v ===== *)
(** * Preflight: what a guest must have before anything is installed in it

    [src/internal/kernelfeat/kernelfeat.go], the two kernel dependencies of the
    agent judged from what the guest answered or from its version; and the
    preflight of [src/cmd/drawbridge/guest.go] with the kernel gate of [up]. *)

From S2P Require Import Prelude GoStr GoPath Provision.
Open Scope string_scope.
Open Scope list_scope.
Open Scope Z_scope.

(** ** Versions *)

(** [strings.FieldsFunc] on what is not a digit. *)
Definition is_digit (c : ascii) : bool := (48 <=? code c) && (code c <=? 57).
Fixpoint digit_fields_go (s cur : string) : list string :=
  match s with
  | EmptyString => if String.eqb cur "" then [] else [cur]
  | String c s =>
      if is_digit c then digit_fields_go s (cur +:+ String c "")
      else (if String.eqb cur "" then [] else [cur]) ++ digit_fields_go s ""
  end.
Definition digit_fields (s : string) : list string := digit_fields_go s "".
Definition ParseMajorMinor (rel : string) : option (Z * Z) :=
  match digit_fields rel with
  | a :: b :: _ => match Atoi a, Atoi b with Ok maj, Ok min => Some (maj, min) | _, _ => None end
  | _ => None
  end.
Definition below (v floor : Z * Z) : bool :=
  (v.1 <? floor.1) || ((v.1 =? floor.1) && (v.2 <? floor.2)).

Definition MinKernel : Z * Z := (5, 14).
Definition MinBackport : Z * Z := (5, 12).
Definition MinArm64DirectCalls : Z * Z := (6, 4).

(** ** The probe *)

Definition Marker : string := "drawbridge-features/v1".
Definition Key : string := "features".
Definition KeyArch : string := "features-arch".
Definition KeyDirectCalls : string := "features-ftrace-direct-calls".
Definition ConfigYes : string := "y".
Definition ConfigNo : string := "n".
Definition ConfigUnknown : string := "unknown".
Definition Failed : string := "failed".

Record Report := MkReport { rp_Probe : string; rp_NetnsCookie : bool; rp_NetnsCookieErr : string }.
Definition report0 : Report := MkReport "" false "".
Record Probe := MkProbe {
  pr_Ran : bool; pr_Report : Report; pr_Why : string; pr_Arch : string; pr_DirectCalls : string }.
Definition probe0 : Probe := MkProbe false report0 "" "" "".

Section probe.
(** [json.Unmarshal] of the agent's report. *)
Variable unmarshal : string → option Report.

Definition setReport (v : string) (p : Probe) : Probe :=
  let v := TrimSpace v in
  let no why := MkProbe false report0 why (pr_Arch p) (pr_DirectCalls p) in
  if negb (HasPrefix v "{") then no (if String.eqb v "" then Failed else v)
  else match unmarshal v with
  | Some r => if String.eqb (rp_Probe r) Marker then MkProbe true r "" (pr_Arch p) (pr_DirectCalls p) else no (Failed +:+ ": " +:+ v)
  | None => no (Failed +:+ ": " +:+ v)
  end.
Definition Parse (v : string) : Probe := setReport v probe0.

(** [Set]: the probe after the line, if the key is one of the script's. *)
Definition Set_ (k v : string) (p : Probe) : option Probe :=
  let v := TrimSpace v in
  if String.eqb k Key then Some (setReport v p)
  else if String.eqb k KeyArch then Some (MkProbe (pr_Ran p) (pr_Report p) (pr_Why p) v (pr_DirectCalls p))
  else if String.eqb k KeyDirectCalls then
    Some (MkProbe (pr_Ran p) (pr_Report p) (pr_Why p) (pr_Arch p)
      (if String.eqb v ConfigYes || String.eqb v ConfigNo then v else ConfigUnknown))
  else None.

(** A line of the output, the way its readers cut it. *)
Definition cut_line (line : string) : option (string * string) := Cut "=" (TrimSpace line).
Definition probe_line (p : Probe) (line : string) : Probe :=
  match cut_line line with Some (k, v) => default p (Set_ k v p) | None => p end.
Definition probe_of (out : string) : Probe := foldl probe_line (Parse "") (Split "010" out).
End probe.

(** ** The verdict *)

Inductive Status := OK | Warn | Fail.
Definition status_rank (s : Status) : Z := match s with OK => 0 | Warn => 1 | Fail => 2 end.
#[export] Instance status_eq_dec : EqDecision Status.
Proof. solve_decision. Defined.

(** Which sentence a part gives, and which remedy. *)
Inductive problem :=
| NoCookie | CookieNoVersion | CookieMaybe | CookieTooOld
| NoDirectCalls | TracerNoVersion | TracerTooOld.
Inductive remedy := CookieRemedy (arm64 : bool) | CookieWarnRemedy | TracerRemedy.
Record part := MkPart { pt_status : Status; pt_problem : option problem; pt_remedy : option remedy }.
Definition part_ok : part := MkPart OK None None.
Record Verdict := MkVerdict {
  vd_Status : Status; vd_Probed : bool; vd_Problems : list problem; vd_Remedy : option remedy }.

Definition isArm64 (arch : string) : bool := String.eqb arch "aarch64" || String.eqb arch "arm64".
Definition isX86 (arch : string) : bool := String.eqb arch "x86_64" || String.eqb arch "amd64".

Definition classifyCookie (p : Probe) (kernel : string) : part :=
  let failed := CookieRemedy (isArm64 (pr_Arch p)) in
  if pr_Ran p then
    if rp_NetnsCookie (pr_Report p) then part_ok else MkPart Fail (Some NoCookie) (Some failed)
  else match ParseMajorMinor kernel with
  | None => MkPart Warn (Some CookieNoVersion) (Some CookieWarnRemedy)
  | Some v =>
      if negb (below v MinKernel) then part_ok
      else if negb (below v MinBackport) then MkPart Warn (Some CookieMaybe) (Some CookieWarnRemedy)
      else MkPart Fail (Some CookieTooOld) (Some failed)
  end.
Definition classifyTracer (p : Probe) (kernel : string) : part :=
  if String.eqb (pr_DirectCalls p) ConfigYes then part_ok
  else if String.eqb (pr_DirectCalls p) ConfigNo then MkPart Fail (Some NoDirectCalls) (Some TracerRemedy)
  else if isX86 (pr_Arch p) then part_ok
  else if negb (isArm64 (pr_Arch p)) then part_ok
  else match ParseMajorMinor kernel with
  | None => MkPart Warn (Some TracerNoVersion) (Some TracerRemedy)
  | Some v =>
      if negb (below v MinArm64DirectCalls) then part_ok
      else MkPart Fail (Some TracerTooOld) (Some TracerRemedy)
  end.

Definition worse (s t : Status) : Status := if status_rank s <? status_rank t then t else s.
(** The second loop of [Classify]. *)
Definition add_part (st : Status) (acc : list problem * option remedy) (pt : part) : list problem * option remedy :=
  if decide (pt_status pt = OK) then acc
  else (acc.1 ++ match pt_problem pt with Some x => [x] | None => [] end,
        if decide (pt_status pt = st) then pt_remedy pt else acc.2).
Definition Classify (p : Probe) (kernel : string) : Verdict :=
  let parts := [classifyCookie p kernel; classifyTracer p kernel] in
  let st := foldl (λ s pt, worse s (pt_status pt)) OK parts in
  let '(problems, rem) := foldl (add_part st) ([], None) parts in
  MkVerdict st (pr_Ran p) problems rem.

(** [checkKernelFeatures]: the problems [up] refuses on. *)
Definition checkKernelFeatures (unmarshal : string → option Report) (out kernel : string) : option (list problem) :=
  let v := Classify (probe_of unmarshal out) kernel in
  match vd_Status v with Fail => Some (vd_Problems v) | _ => None end.

(** ** The preflight *)

Record preflight := MkPreflight {
  pf_Arch : string; pf_Kernel : string; pf_BTF : bool; pf_CGroup2 : bool; pf_Systemd : bool; pf_Sudo : bool;
  pf_Engine : string; pf_Rootful : bool; pf_SELinux : string; pf_Restorecon : bool; pf_OSTree : bool;
  pf_Crun : string; pf_CrunPath : string; pf_ContainersFS : string; pf_User : string; pf_UnprivPort : string }.
Definition preflight0 : preflight :=
  MkPreflight "" "" false false false false "" false "" false false "" "" "" "" "".
Definition EngineNone : string := "none".

Definition set_preflight (k v : string) (p : preflight) : preflight :=
  let '(MkPreflight arch kernel btf cg sd su eng rf se rc os cr cp fs us up) := p in
  let yes := String.eqb v "yes" in
  if String.eqb k "arch" then MkPreflight v kernel btf cg sd su eng rf se rc os cr cp fs us up
  else if String.eqb k "kernel" then MkPreflight arch v btf cg sd su eng rf se rc os cr cp fs us up
  else if String.eqb k "btf" then MkPreflight arch kernel yes cg sd su eng rf se rc os cr cp fs us up
  else if String.eqb k "cgroup2" then MkPreflight arch kernel btf yes sd su eng rf se rc os cr cp fs us up
  else if String.eqb k "systemd" then MkPreflight arch kernel btf cg yes su eng rf se rc os cr cp fs us up
  else if String.eqb k "sudo" then MkPreflight arch kernel btf cg sd yes eng rf se rc os cr cp fs us up
  else if String.eqb k "engine" then MkPreflight arch kernel btf cg sd su v rf se rc os cr cp fs us up
  else if String.eqb k "rootful" then MkPreflight arch kernel btf cg sd su eng yes se rc os cr cp fs us up
  else if String.eqb k "selinux" then MkPreflight arch kernel btf cg sd su eng rf v rc os cr cp fs us up
  else if String.eqb k "restorecon" then MkPreflight arch kernel btf cg sd su eng rf se yes os cr cp fs us up
  else if String.eqb k "ostree" then MkPreflight arch kernel btf cg sd su eng rf se rc yes cr cp fs us up
  else if String.eqb k "crun" then MkPreflight arch kernel btf cg sd su eng rf se rc os v cp fs us up
  else if String.eqb k "crun_path" then MkPreflight arch kernel btf cg sd su eng rf se rc os cr v fs us up
  else if String.eqb k "user" then MkPreflight arch kernel btf cg sd su eng rf se rc os cr cp fs v up
  else if String.eqb k "containers_fs" then MkPreflight arch kernel btf cg sd su eng rf se rc os cr cp v us up
  else if String.eqb k "unpriv_port" then MkPreflight arch kernel btf cg sd su eng rf se rc os cr cp fs us v
  else p.
Definition preflight_line (p : preflight) (line : string) : preflight :=
  match cut_line line with Some (k, v) => set_preflight k v p | None => p end.
Definition parsePreflight (out : string) : preflight :=
  let p := foldl preflight_line preflight0 (Split "010" out) in
  if String.eqb (pf_Engine p) "" then set_preflight "engine" EngineNone p else p.

Definition Arch (unameM : string) : option string :=
  let s := TrimSpace unameM in
  if String.eqb s "aarch64" || String.eqb s "arm64" then Some "arm64"
  else if String.eqb s "x86_64" || String.eqb s "amd64" then Some "amd64" else None.
Definition guestArchOf (p : preflight) : option string := Arch (pf_Arch p).
Definition hasDocker (p : preflight) : bool := String.eqb (pf_Engine p) EngineDocker.
Definition hasPodman (p : preflight) : bool := String.eqb (pf_Engine p) EnginePodman.

Definition minCrun : Z * Z := (0, 19).
Definition minKernel : Z * Z := (5, 7).

Inductive refusal :=
| NoAnswer | NoSystemd | NoSudo | NoBTF | NoCGroup2 | BadArch | KernelUnreadable | KernelTooOld
| NoCrun | CrunUnreadable | CrunTooOld | NoDocker.
Definition checkPodmanOCI (p : preflight) : option refusal :=
  if String.eqb (pf_CrunPath p) "" then Some NoCrun
  else match ParseMajorMinor (pf_Crun p) with
  | None => Some CrunUnreadable
  | Some v => if below v minCrun then Some CrunTooOld else None
  end.
Definition checkPreflight (p : preflight) (oci : bool) : option refusal :=
  if String.eqb (pf_Arch p) "" then Some NoAnswer
  else if negb (pf_Systemd p) then Some NoSystemd
  else if negb (pf_Sudo p) then Some NoSudo
  else if negb (pf_BTF p) then Some NoBTF
  else if negb (pf_CGroup2 p) then Some NoCGroup2
  else match guestArchOf p with
  | None => Some BadArch
  | Some _ =>
      match (match ParseMajorMinor (pf_Kernel p) with
             | None => if oci then Some KernelUnreadable else None
             | Some v => if below v minKernel then (if oci then Some KernelTooOld else None) else None
             end) with
      | Some r => Some r
      | None =>
          if oci && hasPodman p then checkPodmanOCI p
          else if oci && negb (hasDocker p) then Some NoDocker else None
      end
  end.

(** ** What the verdicts mean *)

Definition at_least (floor : Z * Z) (kernel : string) : Prop := ∃ v, ParseMajorMinor kernel = Some v ∧ below v floor = false.
Definition older (floor : Z * Z) (kernel : string) : Prop := ∃ v, ParseMajorMinor kernel = Some v ∧ below v floor = true.
Definition cookie_ok (p : Probe) (kernel : string) : Prop :=
  if pr_Ran p then rp_NetnsCookie (pr_Report p) = true else at_least MinKernel kernel.
Definition cookie_bad (p : Probe) (kernel : string) : Prop :=
  if pr_Ran p then rp_NetnsCookie (pr_Report p) = false else older MinBackport kernel.
Definition tracer_ok (p : Probe) (kernel : string) : Prop :=
  if decide (pr_DirectCalls p ∈ [ConfigYes; ConfigNo]) then pr_DirectCalls p = ConfigYes
  else isX86 (pr_Arch p) = true ∨ isArm64 (pr_Arch p) = false ∨ at_least MinArm64DirectCalls kernel.
Definition tracer_bad (p : Probe) (kernel : string) : Prop :=
  if decide (pr_DirectCalls p ∈ [ConfigYes; ConfigNo]) then pr_DirectCalls p = ConfigNo
  else isX86 (pr_Arch p) = false ∧ isArm64 (pr_Arch p) = true ∧ older MinArm64DirectCalls kernel.

Lemma newer_below v w floor : below w v = false → below v floor = false → below w floor = false.
Proof.
  unfold below. destruct v as [a b], w as [c d], floor as [x y]. cbn.
  rewrite !orb_false_iff, !andb_false_iff, !Z.ltb_ge, !Z.eqb_neq. lia.
Qed.
Lemma floors v : below v MinKernel = false → below v MinBackport = false.
Proof. unfold below. cbn. rewrite !orb_false_iff, !andb_false_iff, !Z.ltb_ge, !Z.eqb_neq. lia. Qed.
Lemma at_least_Some floor kernel v :
  ParseMajorMinor kernel = Some v → (at_least floor kernel ↔ below v floor = false) ∧ (older floor kernel ↔ below v floor = true).
Proof. intros H. unfold at_least, older. rewrite H. split; (split; [by intros (? & [= <-] & ?)|eauto]). Qed.
Lemma at_least_None floor kernel :
  ParseMajorMinor kernel = None → ¬ at_least floor kernel ∧ ¬ older floor kernel.
Proof. intros H. unfold at_least, older. rewrite H. split; by intros (? & ? & _). Qed.

(** The rank of a part is its meaning. *)
Lemma cookie_status p kernel :
  (pt_status (classifyCookie p kernel) = OK ↔ cookie_ok p kernel) ∧
  (pt_status (classifyCookie p kernel) = Fail ↔ cookie_bad p kernel) ∧
  (pt_remedy (classifyCookie p kernel) = None ↔ pt_status (classifyCookie p kernel) = OK) ∧
  pt_remedy (classifyCookie p kernel) ≠ Some TracerRemedy.
Proof.
  unfold classifyCookie, cookie_ok, cookie_bad. destruct (pr_Ran p).
  { by destruct (rp_NetnsCookie _); cbn. }
  destruct (ParseMajorMinor kernel) as [v|] eqn:E.
  - destruct (at_least_Some MinKernel _ _ E) as [-> _]. destruct (at_least_Some MinBackport _ _ E) as [_ ->].
    destruct (below v MinKernel) eqn:E1; cbn [negb]; [destruct (below v MinBackport) eqn:E2; by cbn|].
    apply floors in E1 as ->. by cbn.
  - destruct (at_least_None MinKernel _ E), (at_least_None MinBackport _ E). cbn. split_and!; (split; [done|tauto]) || done.
Qed.
Lemma tracer_status p kernel :
  (pt_status (classifyTracer p kernel) = OK ↔ tracer_ok p kernel) ∧
  (pt_status (classifyTracer p kernel) = Fail ↔ tracer_bad p kernel) ∧
  pt_remedy (classifyTracer p kernel) = (if decide (pt_status (classifyTracer p kernel) = OK) then None else Some TracerRemedy).
Proof.
  unfold classifyTracer, tracer_ok, tracer_bad. case_decide as HD.
  { rewrite !elem_of_cons, elem_of_nil in HD. destruct HD as [->|[->|[]]]; by cbn. }
  rewrite !elem_of_cons, elem_of_nil in HD.
  rewrite !(proj2 (String.eqb_neq _ _)) by tauto.
  destruct (isX86 (pr_Arch p)); [cbn; naive_solver|]. destruct (isArm64 (pr_Arch p)); cbn [negb]; [|cbn; naive_solver].
  destruct (ParseMajorMinor kernel) as [v|] eqn:E.
  - destruct (at_least_Some MinArm64DirectCalls _ _ E) as [-> ->].
    destruct (below v MinArm64DirectCalls); cbn; naive_solver.
  - destruct (at_least_None MinArm64DirectCalls _ E). cbn; naive_solver.
Qed.

(** The verdict in terms of its two parts. *)
Lemma Classify_parts p kernel :
  let c := classifyCookie p kernel in let t := classifyTracer p kernel in
  vd_Status (Classify p kernel) = worse (pt_status c) (pt_status t) ∧
  vd_Remedy (Classify p kernel) =
    (if decide (pt_status t ≠ OK ∧ status_rank (pt_status c) <= status_rank (pt_status t)) then pt_remedy t
     else if decide (pt_status c = OK) then None else pt_remedy c).
Proof.
  cbn zeta. unfold Classify. cbn [foldl]. destruct (classifyCookie p kernel) as [sc pc rc], (classifyTracer p kernel) as [st pt rt].
  cbn [pt_status pt_remedy]. destruct sc, st; cbn; split; reflexivity.
Qed.

(** [w] is the same kernel or a newer one. *)
Definition newer_kernel (k k' : string) : Prop :=
  ∃ v w, ParseMajorMinor k = Some v ∧ ParseMajorMinor k' = Some w ∧ below w v = false.
Lemma newer_at_least floor k k' : newer_kernel k k' → at_least floor k → at_least floor k'.
Proof.
  intros (v & w & Hv & Hw & Hb) (v' & Hv' & Hf). rewrite Hv in Hv'. injection Hv' as <-. exists w. split; [done|].
  by eapply newer_below.
Qed.
Lemma newer_older floor k k' : newer_kernel k k' → older floor k' → older floor k.
Proof.
  intros (v & w & Hv & Hw & Hb) (w' & Hw' & Hf). rewrite Hw in Hw'. injection Hw' as <-. exists v. split; [done|].
  destruct (below v floor) eqn:E; [done|]. by rewrite (newer_below v w) in Hf.
Qed.

(** Its status in terms of the dependencies. *)
Lemma verdict_status p k :
  (vd_Status (Classify p k) = OK ↔ cookie_ok p k ∧ tracer_ok p k) ∧
  (vd_Status (Classify p k) = Fail ↔ cookie_bad p k ∨ tracer_bad p k).
Proof.
  destruct (Classify_parts p k) as [-> _]. destruct (cookie_status p k) as (<- & <- & _), (tracer_status p k) as (<- & <- & _).
  destruct (pt_status (classifyCookie p k)), (pt_status (classifyTracer p k)); cbn; naive_solver.
Qed.
Lemma verdict_remedy p k : vd_Remedy (Classify p k) = None ↔ vd_Status (Classify p k) = OK.
Proof.
  destruct (Classify_parts p k) as [-> ->]. destruct (cookie_status p k) as (_ & _ & H3 & _), (tracer_status p k) as (_ & _ & ->).
  destruct (pt_status (classifyCookie p k)), (pt_status (classifyTracer p k)); cbn; naive_solver.
Qed.

(** The verdict on a guest kernel. It is good exactly when both dependencies
    are met, and a refusal exactly when one is known to be missing: where the
    guest answered its answer decides in either direction, whatever the version;
    where it did not, the version does, numerically, and a newer kernel is never
    judged worse. A remedy is given exactly when something is wrong, and it is
    the tracker's, whose floor covers the cookie's, unless only the cookie is or
    the cookie is worse. *)
Theorem kernel_verdict p kernel :
  let v := Classify p kernel in
  (vd_Status v = OK ↔ cookie_ok p kernel ∧ tracer_ok p kernel) ∧
  (vd_Status v = Fail ↔ cookie_bad p kernel ∨ tracer_bad p kernel) ∧
  (vd_Remedy v = None ↔ vd_Status v = OK) ∧
  (vd_Remedy v = Some TracerRemedy ↔ ¬ tracer_ok p kernel ∧ (tracer_bad p kernel ∨ ¬ cookie_bad p kernel)) ∧
  (pr_Ran p = true → pr_DirectCalls p ∈ [ConfigYes; ConfigNo] → ∀ k, vd_Status (Classify p k) = vd_Status v) ∧
  (∀ k, newer_kernel kernel k → status_rank (vd_Status (Classify p k)) <= status_rank (vd_Status v)).
Proof.
  cbn zeta. pose proof (verdict_status p) as HS.
  destruct (HS kernel) as [H1 H2]. split; [done|]. split; [done|].
  assert (∀ s t, (s = OK ↔ t = OK) → (s = Fail ↔ t = Fail) → s = t) as HE by (intros [] []; naive_solver).
  split_and!.
  - apply verdict_remedy.
  - destruct (Classify_parts p kernel) as [_ ->]. destruct (cookie_status p kernel) as (_ & <- & H3 & H4), (tracer_status p kernel) as (<- & <- & ->).
    destruct (pt_status (classifyCookie p kernel)), (pt_status (classifyTracer p kernel)); cbn; naive_solver.
  - intros Hr Hd k. destruct (HS k) as [H3 H4].
    assert ((cookie_ok p k ↔ cookie_ok p kernel) ∧ (cookie_bad p k ↔ cookie_bad p kernel)) as [E1 E2]
      by (unfold cookie_ok, cookie_bad; by rewrite Hr).
    assert ((tracer_ok p k ↔ tracer_ok p kernel) ∧ (tracer_bad p k ↔ tracer_bad p kernel)) as [E3 E4]
      by (unfold tracer_ok, tracer_bad; by rewrite !decide_True by done).
    apply HE; [rewrite H3, H1|rewrite H4, H2]; tauto.
  - intros k Hk. destruct (HS k) as [H3 H4].
    assert ((cookie_ok p kernel → cookie_ok p k) ∧ (cookie_bad p k → cookie_bad p kernel)) as [E1 E2].
    { unfold cookie_ok, cookie_bad. destruct (pr_Ran p); [done|]. split; [by apply newer_at_least|by apply newer_older]. }
    assert ((tracer_ok p kernel → tracer_ok p k) ∧ (tracer_bad p k → tracer_bad p kernel)) as [E3 E4].
    { pose proof (newer_at_least MinArm64DirectCalls _ _ Hk). pose proof (newer_older MinArm64DirectCalls _ _ Hk).
      unfold tracer_ok, tracer_bad. case_decide; naive_solver. }
    destruct (vd_Status (Classify p kernel)) eqn:S1, (vd_Status (Classify p k)) eqn:S2; cbn; try lia; exfalso; naive_solver.
Qed.
Lemma kernel_verdict_witness :
  let p := MkProbe true (MkReport Marker true "") "" "aarch64" ConfigNo in
  vd_Status (Classify p "6.8.0-51-generic") = Fail ∧
  status_rank (vd_Status (Classify p "6.8.0-51-generic")) <= status_rank (vd_Status (Classify p "5.15.0-185")) ∧
  vd_Remedy (Classify p "6.8.0-51-generic") = Some TracerRemedy.
Proof.
  cbn zeta. split; [vm_compute; reflexivity|]. split; [|vm_compute; reflexivity].
  refine (proj2 (proj2 (proj2 (proj2 (proj2 (kernel_verdict _ "5.15.0-185"))))) "6.8.0-51-generic" _).
  exists (5, 15), (6, 8). split; [vm_compute; reflexivity|]. split; vm_compute; reflexivity.
Defined.

(** The preflight passes exactly a guest with everything it names, whatever the
    order of its questions; without [--oci] an unreadable or old kernel passes
    too, and what passes with [--oci] passes without. *)
Lemma preflight_exact p oci :
  (checkPreflight p oci = None ↔
    (pf_Systemd p = true ∧ pf_Sudo p = true ∧ pf_BTF p = true ∧ pf_CGroup2 p = true ∧ guestArchOf p ≠ None) ∧
    (oci = true → at_least minKernel (pf_Kernel p) ∧
       if hasPodman p then pf_CrunPath p ≠ "" ∧ at_least minCrun (pf_Crun p) else hasDocker p = true)) ∧
  (checkPreflight p true = None → checkPreflight p false = None).
Proof.
  assert (∀ o, checkPreflight p o = None ↔
    (pf_Systemd p = true ∧ pf_Sudo p = true ∧ pf_BTF p = true ∧ pf_CGroup2 p = true ∧ guestArchOf p ≠ None) ∧
    (o = true → at_least minKernel (pf_Kernel p) ∧
       if hasPodman p then pf_CrunPath p ≠ "" ∧ at_least minCrun (pf_Crun p) else hasDocker p = true)) as H.
  { intros o. unfold checkPreflight. destruct (String.eqb_spec (pf_Arch p) "") as [E|_].
    { split; [done|]. intros [(_ & _ & _ & _ & HA) _]. unfold guestArchOf in HA. by rewrite E in HA. }
    destruct (pf_Systemd p), (pf_Sudo p), (pf_BTF p), (pf_CGroup2 p); cbn [negb]; try naive_solver.
    destruct (guestArchOf p) as [a|]; [|naive_solver].
    assert (∀ fl s, match ParseMajorMinor s with Some v => (at_least fl s ↔ below v fl = false) | None => ¬ at_least fl s end) as HL.
    { intros fl s. destruct (ParseMajorMinor s) as [v|] eqn:E; [by apply at_least_Some|by apply at_least_None]. }
    pose proof (HL minKernel (pf_Kernel p)) as HK. pose proof (HL minCrun (pf_Crun p)) as HC.
    unfold checkPodmanOCI. destruct o; cbn [andb].
    - destruct (ParseMajorMinor (pf_Kernel p)) as [v|]; [|naive_solver].
      destruct (below v minKernel); [naive_solver|]. destruct (hasPodman p).
      + destruct (String.eqb_spec (pf_CrunPath p) ""); [naive_solver|].
        destruct (ParseMajorMinor (pf_Crun p)) as [w|]; [|naive_solver]. destruct (below w minCrun); naive_solver.
      + destruct (hasDocker p); naive_solver.
    - destruct (ParseMajorMinor (pf_Kernel p)) as [v|]; [destruct (below v minKernel)|]; naive_solver. }
  split; [apply H|]. rewrite !H. intros [H1 _]. by split.
Qed.

(** The version is the first two runs of digits, whatever stands between them. *)
Lemma version_reads_past_text : ParseMajorMinor "7-rc3" = Some (7, 3) ∧ ParseMajorMinor "v6.8" = Some (6, 8).
Proof. split; vm_compute; reflexivity. Qed.

(** The script's three lines are read back, whatever their values. *)
Lemma cut_line_kv k v :
  has_byte "=" k = false → TrimSpace (k +:+ "=" +:+ v) = k +:+ "=" +:+ v → cut_line (k +:+ "=" +:+ v) = Some (k, v).
Proof. intros H E. unfold cut_line. rewrite E. apply (Cut_fresh "=" ""). exact H. Qed.
Lemma probe_line_kv unmarshal p k v :
  has_byte "=" k = false → str_forall (λ c, negb (is_space c)) (k +:+ "=" +:+ v) = true →
  probe_line unmarshal p (k +:+ "=" +:+ v) = default p (Set_ unmarshal k v p).
Proof. intros H E. unfold probe_line. by rewrite cut_line_kv by (done || by apply TrimSpace_plain). Qed.
Lemma probe_of_script unmarshal arch dc v :
  Forall (λ s, has_byte "010" s = false ∧ str_forall (λ c, negb (is_space c)) s = true) [arch; dc; v] →
  let p := probe_of unmarshal (Join [KeyArch +:+ "=" +:+ arch; KeyDirectCalls +:+ "=" +:+ dc; Key +:+ "=" +:+ v; ""]
    (String "010" "")) in
  pr_Arch p = arch ∧
  pr_DirectCalls p = (if decide (dc ∈ [ConfigYes; ConfigNo]) then dc else ConfigUnknown) ∧
  (pr_Ran p, pr_Report p, pr_Why p) = (let q := Parse unmarshal v in (pr_Ran q, pr_Report q, pr_Why q)).
Proof.
  rewrite !Forall_cons. intros ([Ha1 Ha2] & [Hd1 Hd2] & [Hv1 Hv2] & _). cbn zeta. unfold probe_of.
  rewrite Split_Join; [|done|repeat constructor; rewrite ?has_byte_app; by rewrite ?Ha1, ?Hd1, ?Hv1].
  cbn [foldl]. rewrite !probe_line_kv by (done || by rewrite !str_forall_app, ?Ha2, ?Hd2, ?Hv2).
  assert (∀ q, probe_line unmarshal q "" = q) as -> by done.
  assert (TrimSpace arch = arch ∧ TrimSpace dc = dc ∧ TrimSpace v = v) as (E1 & E2 & E3)
    by (split_and!; by apply TrimSpace_plain).
  unfold Set_. rewrite E1, E2, E3.
  change (String.eqb KeyArch Key) with false. change (String.eqb KeyArch KeyArch) with true.
  change (String.eqb KeyDirectCalls Key) with false. change (String.eqb KeyDirectCalls KeyArch) with false.
  change (String.eqb KeyDirectCalls KeyDirectCalls) with true. change (String.eqb Key Key) with true. cbn match.
  cbn [from_option id pr_Ran pr_Report pr_Why pr_Arch pr_DirectCalls].
  assert ((if String.eqb dc ConfigYes || String.eqb dc ConfigNo then dc else ConfigUnknown) =
    (if decide (dc ∈ [ConfigYes; ConfigNo]) then dc else ConfigUnknown)) as <-.
  { case_decide as HD; rewrite !elem_of_cons, elem_of_nil in HD.
    - destruct HD as [->|[->|[]]]; done.
    - by rewrite !(proj2 (String.eqb_neq _ _)) by tauto. }
  unfold Parse, setReport. cbn [pr_Arch pr_DirectCalls].
  destruct (negb (HasPrefix (TrimSpace v) "{")); [done|].
  destruct (unmarshal (TrimSpace v)) as [r|]; [destruct (String.eqb (rp_Probe r) Marker)|]; done.
Qed.
