(* ===== verification/Up.v ===== *)
(** * Up: installing the agent in a guest

    [src/cmd/drawbridge/up.go]: the steps of [drawbridge up] in their order, over
    the guest's files, the Mac's files and the agent's unit. *)

From S2P Require Import Prelude GoStr GoPath VmRef Preflight.
From S2P Require Transport TransportAuth VmRecord Provision.
Open Scope string_scope.
Open Scope list_scope.
Open Scope Z_scope.

(** ** The Mac-side port *)

Definition publishPortLo : Z := 4778.
Definition publishPortHi : Z := 4799.

Definition recordedPort (endpoint : string) : Z :=
  if String.eqb endpoint "" then 0
  else match SplitHostPort (TrimPrefix endpoint "tcp://") with
  | Err _ => 0
  | Ok (_, p) => match Atoi p with
      | Err _ => 0
      | Ok port => if (port <=? 0) || (65535 <? port) then 0 else port
      end
  end.
(** The bind probes of [freePublishPort], in order. *)
Definition freePublishPort (free : Z → bool) : option Z :=
  List.find free (seqZ publishPortLo (publishPortHi - publishPortLo + 1)).
Definition publishLocal (endpoint : string) : string := TrimPrefix endpoint "tcp://".
Definition endpoint_of (port : Z) : string := "tcp://" +:+ JoinHostPort "127.0.0.1" (Itoa port).

(** ** The run *)

(** What [up] does to the agent's unit, in order. *)
Inductive event := InstalledAgent | WroteUnit | StoppedTransient | EnabledNow | Restarted.
Record site := MkSite {
  guest : Provision.fs;
  mac : VmRecord.fs;
  transient : bool;
  log : list event
}.

Inductive up_err :=
| UpCommand (e : Provision.run_err) | UpRefused (r : refusal) | UpBinary | UpUnit | UpKernel (l : list problem)
| UpSecretPath | UpSecret (e : TransportAuth.load_err) | UpRandom | UpWrite | UpRecord (e : VmRecord.read_err)
| UpNoPort | UpInspect | UpRecordWrite | UpState.

Definition U A := site → result up_err A * site.
Definition ret {A} (a : A) : U A := λ s, (Ok a, s).
Definition fail {A} (e : up_err) : U A := λ s, (Err e, s).
Definition bindU {A B} (m : U A) (k : A → U B) : U B :=
  λ s, let '(r, s) := m s in match r with Ok a => k a s | Err e => (Err e, s) end.
Declare Scope up_scope.
Delimit Scope up_scope with up.
Notation "x <- m ;; k" := (bindU m (λ x, k)) (at level 100, m at next level, right associativity) : up_scope.
Notation "m ;;; k" := (bindU m (λ _, k)) (at level 100, right associativity) : up_scope.
Local Open Scope up_scope.

(** A run of guest commands. *)
Definition in_guest {A} (m : Provision.M A) : U A :=
  λ s, let '(r, g) := m (guest s) in
    (match r with Ok a => Ok a | Err e => Err (UpCommand e) end, MkSite g (mac s) (transient s) (log s)).
Definition note (e : event) : U () := λ s, (Ok tt, MkSite (guest s) (mac s) (transient s) (log s ++ [e])).
Definition set_transient (b : bool) : U () := λ s, (Ok tt, MkSite (guest s) (mac s) b (log s)).
Definition set_mac (f : VmRecord.fs) : U () := λ s, (Ok tt, MkSite (guest s) f (transient s) (log s)).

(** What a run finds around it: the VM, the answers of the guest, the binaries,
    the Mac's home, randomness and ports, podman's account of the machine. *)
Record around := MkAround {
  a_ref : Ref;
  a_oci : bool;
  a_ok : string → string → bool;
  a_preflight : preflight;
  a_features : option string → option (list problem);
  a_agent : option string;
  a_runc : option string + unit;
  a_home : option string;
  a_random : option TransportAuth.Secret;
  a_write : string → bool;
  a_free : Z → bool;
  a_inspect : option (VmRecord.SSH * bool);
  a_vmtype : string;
  a_version : string;
  a_now : string;
  a_record_write : option VmRecord.write_err
}.

Section up.
Variable decode : string → option (option Provision.cfg).
Variable encode : Provision.cfg → string.
Variable enc_state : Provision.ProvisionState → string.
Variable enc_podman : Provision.PodmanState → string.
Variable dec_podman : string → option Provision.PodmanState.
Variable peek : string → option Z.
(** The JSON of a VM's record, and the unit's template. *)
Variable marshal : VmRecord.VmRec → string.
Variable unmarshal : string → option VmRecord.VmRec.
Variable unit_text : string → string.
Variable w : around.

Definition ok := a_ok w.
Definition home : string := default "" (a_home w).

(** [ensureMacSecret] and [ensureSecret]: the Mac's file rules, the guest's
    follows it. *)
Definition ensureMacSecret (path : string) : U TransportAuth.Secret :=
  λ s, match TransportAuth.Load (VmRecord.ReadFile path (mac s)) with
  | Ok sec => (Ok sec, s)
  | Err TransportAuth.ErrAbsent =>
      match a_random w with
      | None => (Err UpRandom, s)
      | Some sec =>
          if a_write w path then
            (set_mac (<[path := TransportAuth.Content (TransportAuth.Format sec)]> (mac s));;; ret sec) s
          else (Err UpWrite, s)
      end
  | Err e => (Err (UpSecret e), s)
  end.
Definition SecretPath : string := Provision.StateDir +:+ "/transport-secret".
Definition sudoSha256 (path : string) : U (option string) :=
  λ s, if ok "sudo sha256" path then (Ok (Provision.sha256Hex <$> guest s !! path), s)
       else (Err (UpCommand (Provision.ErrCommand "sudo sha256" path)), s).
Definition ensureSecret : U () :=
  match a_home w with
  | None => fail UpSecretPath
  | Some h =>
      sec <- ensureMacSecret (PathForRef h (a_ref w));;
      let text := TransportAuth.Format sec in
      have <- sudoSha256 SecretPath;;
      if bool_decide (have = Some (Provision.sha256Hex text)) then ret tt
      else in_guest (Provision.writeFile ok text SecretPath)
  end.

(** [ensureRecord] *)
Definition read_record : U string :=
  λ s, match VmRecord.Read home unmarshal (a_ref w) (mac s) with
  | Ok rec => (Ok (VmRecord.rec_Endpoint rec), s)
  | Err VmRecord.ErrAbsent => (Ok "", s)
  | Err e => (Err (UpRecord e), s)
  end.
Definition ensureRecord : U string :=
  prev <- read_record;;
  port <- (if recordedPort prev =? 0 then
             match freePublishPort (a_free w) with Some p => ret p | None => fail UpNoPort end
           else ret (recordedPort prev));;
  match a_inspect w with
  | None => fail UpInspect
  | Some (ssh, rootful) => λ s,
      let rec := VmRecord.MkRec 0 "" "" VmRecord.TransportGvproxyPublish (endpoint_of port) ssh rootful (a_vmtype w) (a_version w) "" in
      let '(e, f) := VmRecord.Write marshal home (a_ref w) (a_now w) rec (a_record_write w) (mac s) in
      match e with
      | Some _ => (set_mac f;;; fail UpRecordWrite) s
      | None => (set_mac f;;; ret (endpoint_of port)) s
      end
  end.

(** [readPodmanState] and [ociSockOwner] *)
Definition readPodmanState : U (option Provision.PodmanState) :=
  blob <- in_guest (Provision.readFile ok Provision.ProvisionPath);;
  match blob with
  | None => ret None
  | Some b =>
      match peek b with
      | None => fail UpState
      | Some v =>
          if negb (v =? Provision.StateVersionPodman) then ret None
          else match Provision.DecodePodmanState dec_podman b with Ok st => ret (Some st) | Err _ => fail UpState end
      end
  end.
Definition ociSockOwner (pf : preflight) : U string :=
  if pf_Rootful pf || String.eqb (pf_User pf) "" || String.eqb (pf_User pf) "root" then ret ""
  else if a_oci w then ret (pf_User pf)
  else st <- readPodmanState;; ret (match st with Some st => Provision.po_OCISockOwner st | None => "" end).

(** [installedWrappers] and [refreshWrappers] *)
Definition wrapper_candidates (blob : option string) : option (list string) :=
  let both := [Provision.WrapperPath Provision.EngineDocker; Provision.WrapperPath Provision.EnginePodman] in
  match blob with
  | None => Some both
  | Some b =>
      match peek b with
      | None => Some both
      | Some v =>
          if Provision.MaxStateVersion <? v then None
          else if v =? Provision.StateVersionDocker then Some [Provision.WrapperPath Provision.EngineDocker]
          else if v =? Provision.StateVersionPodman then Some [Provision.WrapperPath Provision.EnginePodman]
          else Some both
      end
  end.
Fixpoint present (paths : list string) : U (list string) :=
  match paths with
  | [] => ret []
  | p :: paths => λ s,
      if negb (ok "sha256" p) then (Err (UpCommand (Provision.ErrCommand "sha256" p)), s)
      else (rest <- present paths;; ret (match guest s !! p with Some _ => p :: rest | None => rest end)) s
  end.
Definition installedWrappers : U (list string) :=
  blob <- in_guest (Provision.readFile ok Provision.ProvisionPath);;
  match wrapper_candidates blob with None => ret [] | Some paths => present paths end.
Fixpoint refreshWrappers (wrapper : string) (paths : list string) : U () :=
  match paths with
  | [] => ret tt
  | p :: paths => in_guest (Provision.pushBinary ok wrapper p);;; refreshWrappers wrapper paths
  end.

(** The wrappers to refresh and their bytes; a build that bundles none ([inr])
    refreshes nothing. *)
Definition wrapper_plan : U (string * list string) :=
  if a_oci w then match a_runc w with inl (Some b) => ret (b, []) | _ => fail UpBinary end
  else
    refresh <- installedWrappers;;
    match refresh with
    | [] => ret ("", [])
    | _ => match a_runc w with
           | inl (Some b) => ret (b, refresh)
           | inl None => fail UpBinary
           | inr _ => ret ("", [])
           end
    end.

Definition AgentPath : string := Provision.GuestPath "agent".
(** The agent's command line, and its unit; a newline would forge directives. *)
Definition exec_start (pf : preflight) : U (string * string) :=
  if String.eqb (r_Provider (a_ref w)) ProviderPodman then
    rec <- ensureRecord;;
    owner <- ociSockOwner pf;;
    ret (AgentPath +:+ " -gvproxy-publish " +:+ publishLocal rec +:+
         (if String.eqb owner "" then "" else " -oci-sock-owner " +:+ owner), owner)
  else ret (AgentPath, "").
Definition Unit_ (execStart : string) : U string :=
  if has_byte "010" execStart || has_byte "013" execStart then fail UpUnit else ret (unit_text execStart).

Definition installUnit (unit : string) : U bool :=
  have <- in_guest (Provision.readFile ok Provision.UnitPath);;
  if String.eqb (default "" have) unit then ret false
  else in_guest (Provision.writeFile ok unit Provision.UnitPath);;; note WroteUnit;;; ret true.
Definition unit_cmd (op : string) (e : option event) : U () :=
  λ s, if ok op Provision.UnitPath then (match e with Some e => note e | None => ret tt end) s
       else (Err (UpCommand (Provision.ErrCommand op Provision.UnitPath)), s).
(** [g.try]: a stop that fails is not looked at. *)
Definition try_stop : U () :=
  λ s, if ok "stop" Provision.UnitPath then (note StoppedTransient;;; set_transient false) s else (Ok tt, s).
Definition enableAgent (restart : bool) : U () :=
  unit_cmd "show" None;;;
  restart <- (λ s, if transient s then (try_stop;;; ret true) s else (Ok restart, s));;
  unit_cmd "daemon-reload" None;;;
  unit_cmd "enable" (Some EnabledNow);;;
  if (restart : bool) then unit_cmd "restart" (Some Restarted) else ret tt.

(** [provisionOCI] *)
Definition provisionOCI (wrapper : string) (pf : preflight) (owner : string) : U () :=
  in_guest
    (if String.eqb (pf_Engine pf) Provision.EnginePodman
     then Provision.provisionOCIPodman ok enc_podman wrapper (pf_CrunPath pf) owner (pf_Rootful pf)
     else Provision.provisionOCIDocker decode encode ok enc_state wrapper (pf_Engine pf)).

(** The steps that ask and refuse: nothing is installed before they pass. *)
Record plan := MkPlan {
  pl_staged : option string; pl_unit : string; pl_owner : string; pl_runc : string; pl_refresh : list string }.
Definition prepare (pf : preflight) : U plan :=
  _ <- match checkPreflight pf (a_oci w) with Some r => fail (UpRefused r) | None => ret tt end;;
  agent <- match a_agent w with Some b => ret b | None => fail UpBinary end;;
  wrappers <- wrapper_plan;;
  start <- exec_start pf;;
  unit <- Unit_ start.1;;
  staged <- in_guest (Provision.stageIfChanged ok agent AgentPath);;
  _ <- match a_features w staged with Some l => fail (UpKernel l) | None => ret tt end;;
  ret (MkPlan staged unit start.2 wrappers.1 wrappers.2).

(** [up]: the run's steps 2 to 5. *)
Definition installAgent (staged : option string) : U bool :=
  match staged with
  | Some data => in_guest (Provision.cmd ok "install" AgentPath (λ f, <[AgentPath := data]> f));;; note InstalledAgent;;; ret true
  | None => ret false
  end.
Definition up : U () :=
  let pf := a_preflight w in
  p <- prepare pf;;
  agentChanged <- installAgent (pl_staged p);;
  _ <- ensureSecret;;
  unitChanged <- installUnit (pl_unit p);;
  _ <- enableAgent (agentChanged || unitChanged);;
  if a_oci w then provisionOCI (pl_runc p) pf (pl_owner p) else refreshWrappers (pl_runc p) (pl_refresh p).
End up.

(** ** Facts about runs *)

(** Closes a step that can only have gone one way. *)
Ltac step_inv := unfold bindU, set_mac, ret, fail in *; simplify_eq/=; try done.

Lemma bindU_Ok {A B} (m : U A) (k : A → U B) s b s' :
  bindU m k s = (Ok b, s') ↔ ∃ a s1, m s = (Ok a, s1) ∧ k a s1 = (Ok b, s').
Proof.
  unfold bindU. destruct (m s) as [[a|e] s1]; split; try done.
  - intros H. by exists a, s1.
  - by intros (? & ? & [= <- <-] & ?).
  - by intros (? & ? & ? & ?).
Qed.
Lemma in_guest_Ok {A} (m : Provision.M A) s a s' :
  in_guest m s = (Ok a, s') → ∃ g, m (guest s) = (Ok a, g) ∧ s' = MkSite g (mac s) (transient s) (log s).
Proof. unfold in_guest. destruct (m (guest s)) as [[x|e] g]; intros [= <- <-]; eauto. Qed.

(** What a step leaves alone whatever comes of it: some files of the guest and
    of the Mac, the unit, the log. *)
Definition keepsM {A} (P : string → Prop) (m : Provision.M A) : Prop :=
  ∀ f r f', m f = (r, f') → ∀ p, P p → f' !! p = f !! p.
Definition keeps {A} (P Q : string → Prop) (m : U A) : Prop :=
  ∀ s r s', m s = (r, s') →
    (∀ p, P p → guest s' !! p = guest s !! p) ∧ (∀ p, Q p → mac s' !! p = mac s !! p) ∧
    log s' = log s ∧ transient s' = transient s.

Section keeps.
Context (P Q : string → Prop).
Lemma keepsM_bind {A B} (m : Provision.M A) (k : A → Provision.M B) :
  keepsM P m → (∀ a, keepsM P (k a)) → keepsM P (Provision.bindM m k).
Proof.
  intros Hm Hk f r f'. unfold Provision.bindM. destruct (m f) as [[a|e] g] eqn:E.
  - intros H p Hp. rewrite (Hk a _ _ _ H p Hp). by apply (Hm _ _ _ E).
  - intros [= <- <-]. by apply (Hm _ _ _ E).
Qed.
Lemma keepsM_ret {A} (a : A) : keepsM P (Provision.ret a).
Proof. by intros f r f' [= <- <-]. Qed.
Lemma keepsM_fail {A} e : keepsM P (@Provision.fail A e).
Proof. by intros f r f' [= <- <-]. Qed.
Lemma keepsM_lift {A} (r : result _ A) : keepsM P (Provision.lift r).
Proof. destruct r; [apply keepsM_ret|apply keepsM_fail]. Qed.
Lemma keepsM_cmd ok op path upd : (∀ f p, P p → upd f !! p = f !! p) → keepsM P (Provision.cmd ok op path upd).
Proof. intros H f r f'. unfold Provision.cmd. destruct (ok op path); intros [= <- <-]; auto. Qed.
Lemma keepsM_read ok path : keepsM P (Provision.readFile ok path).
Proof. intros f r f'. unfold Provision.readFile. destruct (ok "read" path); by intros [= <- <-]. Qed.
Lemma keepsM_stage ok data path : keepsM P (Provision.stageIfChanged ok data path).
Proof. intros f r f'. unfold Provision.stageIfChanged. repeat case_match; by intros [= <- <-]. Qed.
Lemma keepsM_write ok data path : ¬ P path → keepsM P (Provision.writeFile ok data path).
Proof.
  intros Hn. repeat (apply keepsM_bind; [|intros []]); apply keepsM_cmd; try done.
  intros f p Hp. apply lookup_insert_ne. by intros ->.
Qed.
Lemma keepsM_push ok data path : ¬ P path → keepsM P (Provision.pushBinary ok data path).
Proof.
  intros Hn. apply keepsM_bind; [apply keepsM_stage|]. intros [d|]; [|apply keepsM_ret].
  apply keepsM_bind; [|intros []; apply keepsM_ret]. apply keepsM_cmd. intros f p Hp. apply lookup_insert_ne. by intros ->.
Qed.

Lemma keeps_bind {A B} (m : U A) (k : A → U B) : keeps P Q m → (∀ a, keeps P Q (k a)) → keeps P Q (bindU m k).
Proof.
  intros Hm Hk s r s'. unfold bindU. destruct (m s) as [[a|e] s1] eqn:E.
  - intros H. destruct (Hk a _ _ _ H) as (H1 & H3 & -> & ->), (Hm _ _ _ E) as (H2 & H4 & -> & ->).
    split_and!; [intros p Hp; by rewrite H1, H2|intros p Hp; by rewrite H3, H4|done|done].
  - intros [= <- <-]. by apply (Hm _ _ _ E).
Qed.
Lemma keeps_ret {A} (a : A) : keeps P Q (ret a).
Proof. by intros s r s' [= <- <-]. Qed.
Lemma keeps_fail {A} e : keeps P Q (@fail A e).
Proof. by intros s r s' [= <- <-]. Qed.
Lemma keeps_guest {A} (m : Provision.M A) : keepsM P m → keeps P Q (in_guest m).
Proof.
  intros Hm s r s'. unfold in_guest. destruct (m (guest s)) as [r0 g] eqn:E. intros [= <- <-]. cbn.
  split; [|done]. by apply (Hm _ _ _ E).
Qed.
End keeps.

Create HintDb keeps.
#[export] Hint Resolve keepsM_bind keepsM_ret keepsM_fail keepsM_lift keepsM_read keepsM_stage keepsM_write keepsM_push
  keeps_bind keeps_ret keeps_fail keeps_guest : keeps.


(** ** What each step does when it succeeds *)

(** A write of the record touches no other file. *)
Lemma Write_frame marshal home ref now r e f p :
  p ≠ record_Path home ref → (VmRecord.Write marshal home ref now r e f).2 !! p = f !! p.
Proof.
  intros Hp. unfold VmRecord.Write. destruct e as [[]|]; cbn; [done|by apply lookup_insert_ne..].
Qed.

Section steps.
Variable decode : string → option (option Provision.cfg).
Variable encode : Provision.cfg → string.
Variable enc_state : Provision.ProvisionState → string.
Variable enc_podman : Provision.PodmanState → string.
Variable dec_podman : string → option Provision.PodmanState.
Variable peek : string → option Z.
Variable marshal : VmRecord.VmRec → string.
Variable unmarshal : string → option VmRecord.VmRec.
Variable unit_text : string → string.
Variable w : around.
Abbreviation the_prepare := (prepare dec_podman peek marshal unmarshal unit_text w).
Abbreviation the_up := (up decode encode enc_state enc_podman dec_podman peek marshal unmarshal unit_text w).

(** Steps that only ask. *)
Lemma keeps_read_record P Q : keeps P Q (read_record unmarshal w).
Proof. intros s r s'. unfold read_record. by destruct (VmRecord.Read _ _ _ _) as [?|[]]; intros [= <- <-]. Qed.
Lemma keeps_record P Q : ¬ Q (record_Path (home w) (a_ref w)) → keeps P Q (ensureRecord marshal unmarshal w).
Proof.
  intros HQ. apply keeps_bind; [apply keeps_read_record|intros prev]. apply keeps_bind; [|intros port].
  - destruct (recordedPort prev =? 0); [|eauto with keeps]. destruct (freePublishPort (a_free w)); eauto with keeps.
  - destruct (a_inspect w) as [[ssh rf]|]; [|eauto with keeps]. intros s r s'. cbv zeta.
    match goal with |- context [VmRecord.Write ?m ?h ?r ?n ?x ?e ?f] =>
      destruct (VmRecord.Write m h r n x e f) as [e' f'] eqn:E; pose proof (Write_frame m h r n x e f) as HF end.
    rewrite E in HF. cbn in HF.
    destruct e'; intros [= <- <-]; (split_and!; [done| |done|done]); intros p Hp; apply HF; by intros ->.
Qed.
Lemma keeps_readPodman P Q : keeps P Q (readPodmanState dec_podman peek w).
Proof.
  apply keeps_bind; [eauto with keeps|]. intros [b|]; [|eauto with keeps]. destruct (peek b) as [v|]; [|eauto with keeps].
  destruct (negb _); [eauto with keeps|]. destruct (Provision.DecodePodmanState dec_podman b); eauto with keeps.
Qed.
Lemma keeps_owner P Q pf : keeps P Q (ociSockOwner dec_podman peek w pf).
Proof.
  unfold ociSockOwner. destruct (_ || _); [eauto with keeps|]. destruct (a_oci w); [eauto with keeps|].
  apply keeps_bind; [apply keeps_readPodman|]. eauto with keeps.
Qed.
Lemma keeps_present P Q paths : keeps P Q (present w paths).
Proof.
  induction paths as [|p paths IH]; [apply keeps_ret|]. cbn [present]. intros s r s'. destruct (negb _); [by intros [= <- <-]|].
  intros H. eapply (keeps_bind P Q) in H; [exact H|done|]. eauto with keeps.
Qed.
Lemma keeps_wrappers P Q : keeps P Q (wrapper_plan peek w).
Proof.
  unfold wrapper_plan. destruct (a_oci w).
  - destruct (a_runc w) as [[b|]|]; eauto with keeps.
  - apply keeps_bind.
    + apply keeps_bind; [eauto with keeps|]. intros blob. destruct (wrapper_candidates _ _); [apply keeps_present|eauto with keeps].
    + intros [|p l]; [eauto with keeps|]. destruct (a_runc w) as [[b|]|]; eauto with keeps.
Qed.
Lemma keeps_start P Q pf : ¬ Q (record_Path (home w) (a_ref w)) → keeps P Q (exec_start dec_podman peek marshal unmarshal w pf).
Proof.
  intros HQ. unfold exec_start. destruct (String.eqb _ _); [|eauto with keeps].
  apply keeps_bind; [by apply keeps_record|intros rec]. apply keeps_bind; [apply keeps_owner|]. eauto with keeps.
Qed.
Lemma keeps_prepare P Q pf : ¬ Q (record_Path (home w) (a_ref w)) → keeps P Q (the_prepare pf).
Proof.
  intros HQ. apply keeps_bind; [destruct (checkPreflight _ _); eauto with keeps|intros []].
  apply keeps_bind; [destruct (a_agent w); eauto with keeps|intros agent].
  apply keeps_bind; [apply keeps_wrappers|intros wr].
  apply keeps_bind; [by apply keeps_start|intros st].
  apply keeps_bind; [unfold Unit_; destruct (_ || _); eauto with keeps|intros unit].
  apply keeps_bind; [eauto with keeps|intros staged].
  apply keeps_bind; [destruct (a_features w staged); eauto with keeps|]. eauto with keeps.
Qed.

(** The endpoint's port: the recorded one, else the first that binds. *)
Definition prev_endpoint (m : VmRecord.fs) : string :=
  match VmRecord.Read (home w) unmarshal (a_ref w) m with Ok rec => VmRecord.rec_Endpoint rec | Err _ => "" end.
Definition published (prev : string) (port : Z) : Prop :=
  if recordedPort prev =? 0 then freePublishPort (a_free w) = Some port else port = recordedPort prev.
(** The command line the agent's unit runs. *)
Definition start_spec (m : VmRecord.fs) (start : string) : Prop :=
  if String.eqb (r_Provider (a_ref w)) ProviderPodman then
    ∃ port owner, published (prev_endpoint m) port ∧
      start = AgentPath +:+ " -gvproxy-publish " +:+ publishLocal (endpoint_of port) +:+
        (if String.eqb owner "" then "" else " -oci-sock-owner " +:+ owner)
  else start = AgentPath.

Lemma record_Ok s ep s' :
  ensureRecord marshal unmarshal w s = (Ok ep, s') →
  ∃ port, ep = endpoint_of port ∧ published (prev_endpoint (mac s)) port.
Proof.
  unfold ensureRecord. intros (prev & s1 & Hr & (port & s2 & Hp & H)%bindU_Ok)%bindU_Ok.
  exists port. split.
  - destruct (a_inspect w) as [[ssh rf]|]; [|done]. cbv zeta in H.
    destruct (VmRecord.Write _ _ _ _ _ _ _) as [[e|] f]; by step_inv.
  - assert (prev = prev_endpoint (mac s)) as <-.
    { unfold read_record in Hr. unfold prev_endpoint. destruct (VmRecord.Read _ _ _ _) as [rec|[]]; by simplify_eq. }
    unfold published. destruct (recordedPort prev =? 0).
    + destruct (freePublishPort (a_free w)) as [q|]; by step_inv.
    + by step_inv.
Qed.
Lemma start_Ok pf s st s' :
  exec_start dec_podman peek marshal unmarshal w pf s = (Ok st, s') → start_spec (mac s) st.1.
Proof.
  unfold exec_start, start_spec. destruct (String.eqb _ _); [|by intros [= <- _]].
  intros (ep & s1 & (port & -> & Hp)%record_Ok & (owner & s2 & _ & [= <- _])%bindU_Ok)%bindU_Ok.
  by exists port, owner.
Qed.

(** The wrappers a plain run refreshes are wrappers. *)
Definition wrapper_path (p : string) : Prop :=
  p ∈ [Provision.WrapperPath Provision.EngineDocker; Provision.WrapperPath Provision.EnginePodman].
Lemma present_sub paths s l s' : present w paths s = (Ok l, s') → ∀ p, p ∈ l → p ∈ paths.
Proof.
  revert s l s'. induction paths as [|q paths IH]; intros s l s'; cbn [present]; [by intros [= <- _]|].
  destruct (negb _); [done|]. intros (rest & s1 & H & E)%bindU_Ok p Hp. specialize (IH _ _ _ H p).
  destruct (guest s !! q); injection E as <- _; set_solver.
Qed.
Lemma wrappers_Ok s l s' : wrapper_plan peek w s = (Ok l, s') → Forall wrapper_path l.2.
Proof.
  unfold wrapper_plan. destruct (a_oci w).
  { destruct (a_runc w) as [[b|]|]; try done. intros [= <- _]. constructor. }
  intros (r & s1 & (blob & s2 & _ & H)%bindU_Ok & E)%bindU_Ok.
  assert (Forall wrapper_path r).
  { apply Forall_forall. intros p Hp. unfold wrapper_candidates in H.
    assert (∀ c, present w c s2 = (Ok r, s1) → c ⊆ [Provision.WrapperPath Provision.EngineDocker; Provision.WrapperPath Provision.EnginePodman] →
      wrapper_path p) as HS.
    { intros c Hc Hs. apply Hs. by eapply present_sub. }
    destruct blob as [b|]; [destruct (peek b) as [v|]; [destruct (Provision.MaxStateVersion <? v);
      [|destruct (v =? Provision.StateVersionDocker); [|destruct (v =? Provision.StateVersionPodman)]]|]|];
      try (eapply HS; [exact H|set_solver]). injection H as <- _. set_solver. }
  destruct r as [|q r]; [injection E as <- _; constructor|].
  destruct (a_runc w) as [[b|]|]; try done; injection E as <- _; [done|constructor].
Qed.

Lemma keeps_all_mac {A} (m : U A) s r s' : keeps (λ _, True) (λ _, True) m → m s = (r, s') → s' = s.
Proof.
  intros Hk Hm. destruct (Hk _ _ _ Hm) as (H1 & H2 & H3 & H4). destruct s as [g f t l], s' as [g' f' t' l']. cbn in *.
  f_equal; [..|done|done]; apply map_eq; intros i; [by apply H1|by apply H2].
Qed.

(** What [prepare] settled, when it did. *)
Lemma prepare_Ok pf s p s' :
  the_prepare pf s = (Ok p, s') →
  ∃ agent start,
    checkPreflight pf (a_oci w) = None ∧ a_agent w = Some agent ∧ start_spec (mac s) start ∧
    (has_byte "010" start = false ∧ has_byte "013" start = false) ∧ pl_unit p = unit_text start ∧
    pl_staged p = (if bool_decide (Provision.sha256Hex <$> guest s !! AgentPath = Some (Provision.sha256Hex agent)) then None else Some agent) ∧
    a_features w (pl_staged p) = None ∧ Forall wrapper_path (pl_refresh p).
Proof.
  unfold prepare. intros ([] & s0 & H0 & H)%bindU_Ok.
  assert (checkPreflight pf (a_oci w) = None ∧ s0 = s) as [Hpf ->] by (destruct (checkPreflight _ _); by step_inv).
  apply bindU_Ok in H as (agent & s1 & H1 & H).
  assert (a_agent w = Some agent ∧ s1 = s) as [Ha ->] by (destruct (a_agent w); by step_inv).
  apply bindU_Ok in H as (wr & s2 & H2 & H). pose proof (wrappers_Ok _ _ _ H2) as Hw.
  apply keeps_all_mac in H2 as ->; [|apply keeps_wrappers].
  apply bindU_Ok in H as (st & s3 & H3 & H). pose proof (start_Ok _ _ _ _ H3) as Hs.
  eapply (keeps_start (λ _, True) (λ p, p ≠ record_Path (home w) (a_ref w))) in H3 as (HG & _); [|by intros []].
  apply bindU_Ok in H as (unit & s4 & H4 & H).
  assert ((has_byte "010" st.1 = false ∧ has_byte "013" st.1 = false) ∧ unit = unit_text st.1 ∧ s4 = s3) as (Hn & -> & ->).
  { unfold Unit_ in H4. destruct (has_byte "010" st.1), (has_byte "013" st.1); by step_inv. }
  apply bindU_Ok in H as (staged & s5 & H5 & H). apply in_guest_Ok in H5 as (g & H5 & ->).
  apply bindU_Ok in H as ([] & s6 & H6 & [= <- <-]).
  exists agent, st.1. cbn. split_and!; try done; [tauto..| |].
  - unfold Provision.stageIfChanged in H5. rewrite <- HG by done. destruct (negb _); [done|].
    destruct (bool_decide _); [by injection H5 as <- _|]. destruct (ok w "stage" AgentPath); [by injection H5 as <- _|done].
  - destruct (a_features w staged); by step_inv.
Qed.

(** The three files a run is about. *)
Definition tracked (p : string) : Prop := p ∈ [AgentPath; Provision.UnitPath; SecretPath].
Lemma not_tracked p : bool_decide (p ∈ [AgentPath; Provision.UnitPath; SecretPath]) = false → ¬ tracked p.
Proof. by intros H%bool_decide_eq_false_1. Qed.
Lemma wrapper_untracked p : wrapper_path p → ¬ tracked p.
Proof. unfold wrapper_path. rewrite !elem_of_cons, elem_of_nil. intros [->|[->|[]]]; apply not_tracked; vm_compute; reflexivity. Qed.

Definition logged (l : list event) (s : site) : site := MkSite (guest s) (mac s) (transient s) (log s ++ l).

Lemma logged_nil s : logged [] s = s.
Proof. unfold logged. rewrite app_nil_r. by destruct s. Qed.
Lemma unit_cmd_Ok op e s r s' : unit_cmd w op e s = (Ok r, s') → s' = logged (match e with Some e => [e] | None => [] end) s.
Proof.
  unfold unit_cmd. destruct (ok w op _); [|done]. destruct e; intros [= _ <-]; by rewrite ?logged_nil.
Qed.

(** Whether the agent and the unit on disk are stale. *)
Definition agent_old (s : site) (agent : string) : bool :=
  negb (bool_decide (Provision.sha256Hex <$> guest s !! AgentPath = Some (Provision.sha256Hex agent))).
Definition unit_old (s : site) (unit : string) : bool := negb (String.eqb (default "" (guest s !! Provision.UnitPath)) unit).
Lemma installAgent_Ok agent s b s' :
  installAgent w (if agent_old s agent then Some agent else None) s = (Ok b, s') →
  b = agent_old s agent ∧ Provision.sha256Hex <$> guest s' !! AgentPath = Some (Provision.sha256Hex agent) ∧
  (∀ q, q ≠ AgentPath → guest s' !! q = guest s !! q) ∧ mac s' = mac s ∧ transient s' = transient s ∧
  log s' = log s ++ (if agent_old s agent then [InstalledAgent] else []).
Proof.
  unfold agent_old. case_bool_decide as HD; cbn [negb installAgent].
  - intros [= <- <-]. by rewrite app_nil_r.
  - intros ([] & s1 & (g & ->%Provision.cmd_Ok & ->)%in_guest_Ok & (? & s2 & [= _ <-] & [= <- <-])%bindU_Ok)%bindU_Ok.
    cbn [guest mac log transient]. rewrite lookup_insert_eq. split_and!; try done. intros q Hq. by rewrite lookup_insert_ne.
Qed.
Lemma installUnit_Ok unit s b s' :
  installUnit w unit s = (Ok b, s') →
  b = unit_old s unit ∧ default "" (guest s' !! Provision.UnitPath) = unit ∧
  (∀ q, q ≠ Provision.UnitPath → guest s' !! q = guest s !! q) ∧ mac s' = mac s ∧ transient s' = transient s ∧
  log s' = log s ++ (if unit_old s unit then [WroteUnit] else []).
Proof.
  unfold installUnit, unit_old. intros (have & s1 & (g & Hr & ->)%in_guest_Ok & H)%bindU_Ok.
  assert (have = guest s !! Provision.UnitPath ∧ g = guest s) as [-> ->].
  { unfold Provision.readFile in Hr. destruct (ok w "read" _); by simplify_eq. }
  destruct (String.eqb_spec (default "" (guest s !! Provision.UnitPath)) unit).
  - injection H as <- <-. by rewrite app_nil_r.
  - apply bindU_Ok in H as ([] & s2 & (g & ->%Provision.writeFile_Ok & ->)%in_guest_Ok & (? & s3 & [= _ <-] & [= <- <-])%bindU_Ok).
    cbn [guest mac log transient]. rewrite lookup_insert_eq. split_and!; try done. intros q Hq. by rewrite lookup_insert_ne.
Qed.
Definition stopped (s : site) : list event := if transient s && ok w "stop" Provision.UnitPath then [StoppedTransient] else [].
Lemma enableAgent_Ok restart s r s' :
  enableAgent w restart s = (Ok r, s') →
  guest s' = guest s ∧ mac s' = mac s ∧
  log s' = log s ++ stopped s ++ [EnabledNow] ++ (if restart || transient s then [Restarted] else []).
Proof.
  unfold enableAgent. intros (? & s1 & ->%unit_cmd_Ok & H)%bindU_Ok.
  apply bindU_Ok in H as (b & s2 & Hb & H).
  apply bindU_Ok in H as (? & s3 & ->%unit_cmd_Ok & H). apply bindU_Ok in H as (? & s4 & ->%unit_cmd_Ok & H).
  rewrite logged_nil in Hb, H.
  assert (guest s2 = guest s ∧ mac s2 = mac s ∧ log s2 = log s ++ stopped s ∧ b = restart || transient s) as (<- & <- & HL & ->).
  { unfold stopped. destruct (transient s).
    - rewrite orb_true_r. unfold try_stop in Hb. destruct (ok w "stop" _); step_inv. by rewrite app_nil_r.
    - rewrite orb_false_r, app_nil_r. by step_inv. }
  destruct (restart || transient s).
  - apply unit_cmd_Ok in H as ->. cbn. split_and!; [done..|]. by rewrite HL, <- !app_assoc.
  - injection H as _ <-. cbn. split_and!; [done..|]. by rewrite HL, <- !app_assoc.
Qed.

(** The secret: the Mac's own if it has one, else a fresh one; the guest's file
    has its digest afterwards. *)
Lemma ensureSecret_Ok s r s' :
  (∀ sec, a_random w = Some sec → TransportAuth.wf_secret sec) →
  ensureSecret w s = (Ok r, s') →
  ∃ h sec, a_home w = Some h ∧
    let path := PathForRef h (a_ref w) in
    TransportAuth.Load (VmRecord.ReadFile path (mac s')) = Ok sec ∧
    (∀ sec0, TransportAuth.Load (VmRecord.ReadFile path (mac s)) = Ok sec0 → sec = sec0) ∧
    Provision.sha256Hex <$> guest s' !! SecretPath = Some (Provision.sha256Hex (TransportAuth.Format sec)) ∧
    (∀ p, p ≠ SecretPath → guest s' !! p = guest s !! p) ∧ log s' = log s ∧ transient s' = transient s.
Proof.
  intros HR. unfold ensureSecret. destruct (a_home w) as [h|]; [|done].
  intros (sec & s1 & Hm & (have & s2 & Hd & H)%bindU_Ok)%bindU_Ok. exists h, sec. split; [done|]. cbv zeta.
  assert (TransportAuth.Load (VmRecord.ReadFile (PathForRef h (a_ref w)) (mac s1)) = Ok sec ∧
    (∀ sec0, TransportAuth.Load (VmRecord.ReadFile (PathForRef h (a_ref w)) (mac s)) = Ok sec0 → sec = sec0) ∧
    guest s1 = guest s ∧ log s1 = log s ∧ transient s1 = transient s) as (H1 & H2 & <- & <- & <-).
  { unfold ensureMacSecret in Hm. destruct (TransportAuth.Load (VmRecord.ReadFile _ (mac s))) as [sec0|[]] eqn:EL; try done.
    - injection Hm as <- <-. split_and!; try done. intros ? E%result_Ok_inj. done.
    - destruct (a_random w) as [sec'|] eqn:Er; [|done]. destruct (a_write w _); [|done].
      unfold bindU, set_mac, ret in Hm. apply pair_equal_spec in Hm as [<-%result_Ok_inj <-]. cbn [guest mac log transient].
      unfold VmRecord.ReadFile. rewrite lookup_insert_eq. cbn [default]. split_and!; [|by intros ?|done..].
      by apply TransportAuth.Load_Format, HR. }
  assert (s2 = s1 ∧ have = Provision.sha256Hex <$> guest s1 !! SecretPath) as [-> ->].
  { unfold sudoSha256 in Hd. destruct (ok w _ SecretPath); [|done]. by apply pair_equal_spec in Hd as [<-%result_Ok_inj <-]. }
  case_bool_decide as HD.
  - injection H as _ <-. by split_and!.
  - apply in_guest_Ok in H as (g & H & ->). destruct r. apply Provision.writeFile_Ok in H as ->. cbn [guest mac log transient].
    split_and!; [done|done|by rewrite lookup_insert_eq| |done|done]. intros p Hp. by rewrite lookup_insert_ne.
Qed.

(** The last step leaves the three files and the log alone. *)
Lemma keeps_refresh Q b l : Forall wrapper_path l → keeps tracked Q (refreshWrappers w b l).
Proof.
  induction 1 as [|p l Hp _ IH]; [apply keeps_ret|]. cbn [refreshWrappers].
  apply keeps_bind; [|done]. apply keeps_guest, keepsM_push. by apply wrapper_untracked.
Qed.
Lemma keeps_provision Q b pf owner : keeps tracked Q (provisionOCI decode encode enc_state enc_podman w b pf owner).
Proof.
  assert (∀ e, ¬ tracked (Provision.WrapperPath e)) as HW.
  { intros e. unfold Provision.WrapperPath. destruct (String.eqb e _); apply not_tracked; vm_compute; reflexivity. }
  assert (¬ tracked Provision.DaemonJSONPath ∧ ¬ tracked Provision.ProvisionPath ∧ ¬ tracked Provision.DropinPath) as (H1 & H2 & H3)
    by (split_and!; apply not_tracked; vm_compute; reflexivity).
  apply keeps_guest. destruct (String.eqb _ _).
  - unfold Provision.provisionOCIPodman. apply keepsM_bind; [by apply keepsM_push|intros ?].
    destruct (Provision.DropinBytes _) as [want|]; [|eauto with keeps].
    apply keepsM_bind; [eauto with keeps|intros cur]. apply keepsM_bind; [destruct (bool_decide _); eauto with keeps|intros ?].
    apply keepsM_bind; [eauto with keeps|intros have]. destruct (String.eqb _ _); eauto with keeps.
  - unfold Provision.provisionOCIDocker. apply keepsM_bind; [eauto with keeps|intros staged].
    apply keepsM_bind; [eauto with keeps|intros cur]. apply keepsM_bind; [eauto with keeps|intros [[merged st] changed]].
    apply keepsM_bind; [destruct changed; eauto with keeps|intros ?].
    apply keepsM_bind; [eauto with keeps|intros have]. apply keepsM_bind; [destruct have; eauto with keeps|intros ?].
    apply keepsM_cmd. intros f p Hp. destruct staged; [|done]. apply lookup_insert_ne. intros <-. by eapply HW.
Qed.
(** A refused run installs nothing: whatever fails before the agent is in place
    leaves every file of the guest, its unit and the Mac's other files alone. *)
Lemma prepare_refused s e s1 :
  the_prepare (a_preflight w) s = (Err e, s1) →
  the_up s = (Err e, s1) ∧ guest s1 = guest s ∧ log s1 = log s ∧ transient s1 = transient s ∧
  ∀ p, p ≠ record_Path (home w) (a_ref w) → mac s1 !! p = mac s !! p.
Proof.
  intros E. split; [unfold up, bindU at 1; by rewrite E|].
  apply (keeps_prepare (λ _, True) (λ p, p ≠ record_Path (home w) (a_ref w))) in E as (H1 & H2 & H3 & H4); [|by intros []].
  split; [apply map_eq; intros p; by apply H1|done].
Qed.

(** What a run does to the unit, from what it found. *)
Definition events (s : site) (agent unit : string) : list event :=
  (if agent_old s agent then [InstalledAgent] else []) ++ (if unit_old s unit then [WroteUnit] else []) ++
  stopped s ++ [EnabledNow] ++ (if agent_old s agent || unit_old s unit || transient s then [Restarted] else []).

Lemma paths_differ : AgentPath ≠ Provision.UnitPath ∧ AgentPath ≠ SecretPath ∧ Provision.UnitPath ≠ SecretPath.
Proof. split_and!; by apply String.eqb_neq. Qed.

(** C39: a run of [drawbridge up] that succeeds has converged. The guest runs
    the checked configuration: the agent on disk is this build's by digest, the
    unit is the one for this VM (the bare agent, or on a podman machine the
    agent publishing the recorded port, else the first that binds), and the
    Mac and the guest hold the same secret, the one the Mac had if it had one.
    What was done to the unit is exactly what the guest was missing, and the
    agent is restarted whenever the run replaced the agent or the unit or found
    a transient one in its place. *)
Theorem up_converges ch spec s s' :
  ParseRef ch spec = Ok (a_ref w) →
  (∀ sec, a_random w = Some sec → TransportAuth.wf_secret sec) →
  the_up s = (Ok tt, s') →
  ∃ agent start h sec,
    checkPreflight (a_preflight w) (a_oci w) = None ∧
    a_agent w = Some agent ∧ start_spec (mac s) start ∧ a_home w = Some h ∧
    Provision.sha256Hex <$> guest s' !! AgentPath = Some (Provision.sha256Hex agent) ∧
    default "" (guest s' !! Provision.UnitPath) = unit_text start ∧
    TransportAuth.Load (VmRecord.ReadFile (PathForRef h (a_ref w)) (mac s')) = Ok sec ∧
    Provision.sha256Hex <$> guest s' !! SecretPath = Some (Provision.sha256Hex (TransportAuth.Format sec)) ∧
    (∀ sec0, TransportAuth.Load (VmRecord.ReadFile (PathForRef h (a_ref w)) (mac s)) = Ok sec0 → sec = sec0) ∧
    log s' = log s ++ events s agent (unit_text start).
Proof.
  intros [Hp _]%ParseRef_parsed HR. unfold up. intros (p & s1 & H1 & H)%bindU_Ok.
  pose proof (prepare_Ok _ _ _ _ H1) as (agent & start & Hc & Ha & Hst & _ & Hu & Hs & _ & Hw).
  apply (keeps_prepare (λ _, True) (λ p, p ≠ record_Path (home w) (a_ref w))) in H1 as (HG1 & HM1 & HL1 & HT1); [|by intros []].
  assert (guest s1 = guest s) as EG by (apply map_eq; intros q; by apply HG1).
  assert (agent_old s1 agent = agent_old s agent) as EO by (unfold agent_old; by rewrite EG).
  assert (pl_staged p = if agent_old s1 agent then Some agent else None) as ES
    by (rewrite Hs, EO; unfold agent_old; by destruct (bool_decide _)).
  rewrite ES in H. clear ES.
  apply bindU_Ok in H as (b & s2 & (-> & HA2 & HG2 & HM2 & HT2 & HL2)%installAgent_Ok & H).
  apply bindU_Ok in H as ([] & s3 & (h & sec & Hh & HS1 & HS2 & HS3 & HG3 & HL3 & HT3)%ensureSecret_Ok & H); [|done].
  apply bindU_Ok in H as (b & s4 & (-> & HU4 & HG4 & HM4 & HT4 & HL4)%installUnit_Ok & H).
  apply bindU_Ok in H as ([] & s5 & (HG5 & HM5 & HL5)%enableAgent_Ok & H).
  assert (keeps tracked (λ _, True) (if a_oci w then provisionOCI decode encode enc_state enc_podman w (pl_runc p) (a_preflight w) (pl_owner p)
     else refreshWrappers w (pl_runc p) (pl_refresh p))) as HK by (destruct (a_oci w); [apply keeps_provision|by apply keeps_refresh]).
  apply HK in H as (HG6 & HM6 & HL6 & _).
  pose proof (record_path_secret h _ _ Hp Hp) as HN. assert (home w = h) as Eh by (unfold home; by rewrite Hh).
  destruct paths_differ as (N1 & N2 & N3).
  assert (unit_old s3 (pl_unit p) = unit_old s (unit_text start)) as EU
    by (unfold unit_old; by rewrite Hu, HG3, HG2, EG by done).
  exists agent, start, h, sec. do 4 (split; [done|]).
  rewrite !HG6 by (unfold tracked; set_solver). rewrite HG5. unfold VmRecord.ReadFile in *. split_and!.
  - by rewrite HG4, HG3.
  - by rewrite HU4.
  - by rewrite HM6, HM5, HM4.
  - by rewrite HG4.
  - intros sec0 H0. apply HS2. rewrite HM2, HM1; [done|congruence].
  - rewrite HL6, HL5, HL4, HL3, HL2, HL1. unfold events, stopped. rewrite HT4, HT3, HT2, HT1, EU, EO.
    by rewrite <- !app_assoc.
Qed.
End steps.

(** ** A concrete run *)

Definition ex_secret : TransportAuth.Secret := replicate 32 Byte.xa7.
Definition ex_path : string := PathForRef "/Users/x" (MkRef "lima" "default" "lima-default" "" "lima:default").
Definition ex_preflight : preflight :=
  MkPreflight "aarch64" "6.8.0-51-generic" true true true true "docker" false "" false false "" "" "" "u" "".
Definition ex_around : around :=
  MkAround (MkRef "lima" "default" "lima-default" "" "lima:default") false (λ _ _, true) ex_preflight (λ _, None)
    (Some "agent v2") (inr tt) (Some "/Users/x") (Some ex_secret) (λ _, true) (λ _, true) None "" "v2" "now" None.
Definition ex_up : U () :=
  up (λ _, None) (λ _, "") (λ _, "") (λ _, "") (λ _, None) (λ _, None) (λ _, "") (λ _, None) (λ s, "ExecStart=" +:+ s) ex_around.
(** A guest with last month's agent and the unit as it will be. *)
Definition ex_guest : Provision.fs :=
  <[AgentPath := "agent v1"]> (<[Provision.UnitPath := "ExecStart=" +:+ AgentPath]> ∅).

Lemma up_converges_witness :
  let s' := (ex_up (MkSite ex_guest ∅ false [])).2 in
  log s' = [InstalledAgent; EnabledNow; Restarted] ∧
  ∃ agent start h sec,
    checkPreflight ex_preflight false = None ∧ Some "agent v2" = Some agent ∧ start = AgentPath ∧ Some "/Users/x" = Some h ∧
    Provision.sha256Hex <$> guest s' !! AgentPath = Some (Provision.sha256Hex agent) ∧
    default "" (guest s' !! Provision.UnitPath) = "ExecStart=" +:+ start ∧
    TransportAuth.Load (VmRecord.ReadFile (PathForRef h (a_ref ex_around)) (mac s')) = Ok sec ∧
    Provision.sha256Hex <$> guest s' !! SecretPath = Some (Provision.sha256Hex (TransportAuth.Format sec)) ∧
    (∀ sec0, TransportAuth.Load (VmRecord.ReadFile (PathForRef h (a_ref ex_around)) ∅) = Ok sec0 → sec = sec0) ∧
    log s' = [] ++ events ex_around (MkSite ex_guest ∅ false []) agent ("ExecStart=" +:+ start).
Proof.
  cbv zeta. split; [vm_compute; reflexivity|].
  refine (up_converges (λ _, None) (λ _, "") (λ _, "") (λ _, "") (λ _, None) (λ _, None) (λ _, "") (λ _, None) (λ s, "ExecStart=" +:+ s) ex_around "" "lima:default" (MkSite ex_guest ∅ false []) _ _ _ _).
  - vm_compute; reflexivity.
  - intros sec [= <-]. vm_compute; reflexivity.
  - vm_compute; reflexivity.
Defined.

(** A run that fails after the agent is installed forgets that it was: with a
    malformed secret on the Mac the first run stops there; once the secret is
    removed, as its message says to, the next run finds the agent current,
    starts nothing and reports success, with the old agent still running. *)
Lemma restart_lost :
  let s := MkSite ex_guest {[ex_path := TransportAuth.Content "junk"]} false [] in
  let '(r1, s1) := ex_up s in
  let '(r2, s2) := ex_up (MkSite (guest s1) (delete ex_path (mac s1)) (transient s1) (log s1)) in
  r1 = Err (UpSecret TransportAuth.ErrMalformed) ∧ r2 = Ok tt ∧
  guest s2 !! AgentPath = Some "agent v2" ∧ log s2 = [InstalledAgent; EnabledNow] ∧
  log (ex_up (MkSite ex_guest ∅ false [])).2 = [InstalledAgent; EnabledNow; Restarted].
Proof. vm_compute. by split_and!. Qed.

(** ** The port *)

Lemma find_seqZ f lo n p :
  List.find f (seqZ lo n) = Some p ↔ lo <= p < lo + n ∧ f p = true ∧ ∀ q, lo <= q < p → f q = false.
Proof.
  destruct (Z_lt_le_dec n 0) as [Hn|Hn].
  { rewrite seqZ_nil by lia. split; [done|lia]. }
  revert lo. pattern n. apply natlike_ind; [|clear n Hn; intros n Hn IH|done]; intros lo.
  { rewrite seqZ_nil by lia. split; [done|lia]. }
  rewrite seqZ_cons by lia. cbn [List.find]. replace (Z.pred (Z.succ n)) with n by lia.
  destruct (f lo) eqn:E.
  - split; [intros [= <-]; split_and!; [lia|lia|done|lia]|]. intros (H1 & H2 & H3). f_equal.
    destruct (decide (lo = p)); [done|]. by rewrite H3 in E by lia.
  - rewrite IH. split; intros (H1 & H2 & H3); (split_and!; [| |done|]).
    + lia. + lia.
    + intros q Hq. destruct (decide (q = lo)) as [->|]; [done|]. apply H3. lia.
    + destruct (decide (lo = p)) as [->|]; [congruence|lia].
    + lia.
    + intros q Hq. apply H3. lia.
Qed.
(** The first port of the range that binds, and none only when none does. *)
Lemma freePublishPort_spec free p :
  (freePublishPort free = Some p ↔ 4778 <= p <= 4799 ∧ free p = true ∧ ∀ q, 4778 <= q < p → free q = false) ∧
  (freePublishPort free = None ↔ ∀ q, 4778 <= q <= 4799 → free q = false).
Proof.
  unfold freePublishPort, publishPortLo, publishPortHi. split; [rewrite find_seqZ; intuition lia|]. split.
  - intros H q Hq. apply (List.find_none _ _ H). apply list_elem_of_In, elem_of_seqZ. lia.
  - intros H. destruct (List.find _ _) as [q|] eqn:E; [|done]. apply find_seqZ in E as (H1 & H2 & _).
    by rewrite H in H2 by lia.
Qed.

(** A recorded port is found again, so a later run publishes where the first did. *)
Lemma recordedPort_endpoint p : 0 < p < 65536 → recordedPort (endpoint_of p) = p.
Proof.
  intros Hp. destruct (Itoa_dec p) as [HD _]; [lia|].
  assert (∀ c, is_dec c = false → has_byte c (Itoa p) = false) as HB by (intros c; by apply str_forall_has).
  unfold recordedPort, endpoint_of. change (String.eqb ("tcp://" +:+ _) "") with false. cbn match.
  rewrite TrimPrefix_app, SplitHostPort_Join by (done || by apply HB).
  rewrite Atoi_Itoa by lia. rewrite (proj2 (Z.leb_gt p 0)), (proj2 (Z.ltb_ge 65535 p)) by lia. done.
Qed.
