(* ===== verification/Introspect.v ===== *)
(** * Introspect: the daemon's read-only view

    [src/internal/introspect/]: the ring of recent refusals (ring.go), the
    socket and its permissions, the write-only server and its slots (server.go),
    the paths (paths.go), and the reader (client.go); with the start of the
    server in [src/cmd/drawbridged/main.go]. *)

From S2P Require Import Prelude GoStr GoPath VmRef.
From S2P Require TransportAuth.
Open Scope string_scope.
Open Scope list_scope.
Open Scope Z_scope.

(** ** The payload (state.go) *)

Definition Schema : Z := 1.
Record Refusal := MkRefusal { rf_At : Z; rf_ID : string; rf_Line : string }.
Record VM := MkVM { vm_Ref : string; vm_Provider : string; vm_Instance : string }.
Record Resolution := MkResolution { rs_Endpoint : string; rs_Source : string; rs_Note : string; rs_ResolvedAt : Z }.
Record Auth := MkAuth { au_Mode : string; au_SecretPath : string; au_SecretState : string }.
Record MirrorEntry := MkEntry {
  me_Proto : string; me_Port : Z; me_State : string; me_Since : Z;
  me_Conns : Z; me_RxBytes : Z; me_TxBytes : Z; me_LastActiveAt : Z }.
Record Mirror := MkMirror {
  mi_SessionUp : bool; mi_Since : Z; mi_LastEventAt : Z; mi_Entries : list MirrorEntry; mi_Skip : list Z;
  mi_PerEntryCounters : bool }.
Record Advertised := MkAdvertised { ad_Proto : string; ad_Port : Z }.
Record Sync := MkSync {
  sy_SessionUp : bool; sy_Since : Z; sy_Advertised : list Advertised; sy_UDPPorts : list Z; sy_PoolParked : Z }.
Record State := MkState {
  st_Schema : Z; st_Version : string; st_PID : Z; st_EUID : Z; st_StartedAt : Z;
  st_VM : VM; st_MirrorIP : string; st_Resolution : Resolution; st_Auth : Auth; st_Mirror : Mirror; st_Sync : Sync;
  st_RecentRefusals : list Refusal }.
(** The zero value, under the two frozen fields. *)
Definition frozen_state (schema : Z) (version : string) : State :=
  MkState schema version 0 0 0 (MkVM "" "" "") "" (MkResolution "" "" "" 0) (MkAuth "" "" "")
    (MkMirror false 0 0 [] [] false) (MkSync false 0 [] [] 0) [].

(** ** The ring (ring.go) *)

Definition RingSize : nat := 32.
Definition refusal0 : Refusal := MkRefusal 0 "" "".
(** [n] counts the records; a Go [int] holds it for longer than a daemon lives. *)
Record Ring := MkRing { r_buf : list Refusal; r_n : nat }.
Definition ring0 : Ring := MkRing (replicate RingSize refusal0) 0.
Definition RecordRefusal (now : Z) (id line : string) (r : option Ring) : option Ring :=
  match r with
  | None => None
  | Some r => Some (MkRing (<[(r_n r mod RingSize)%nat := MkRefusal now id line]> (r_buf r)) (S (r_n r)))
  end.
Definition Snapshot (r : option Ring) : list Refusal :=
  match r with
  | None => []
  | Some r =>
      let n := Nat.min (r_n r) RingSize in
      map (λ i, nth (i mod RingSize) (r_buf r) refusal0) (seq (r_n r - n) n)
  end.

(** ** The paths (paths.go) *)

Definition IsAbs (path : string) : bool := HasPrefix path "/".
(** [filepath.Dir]: everything up to the last separator, cleaned. *)
Definition filepath_Dir (path : string) : string :=
  TransportAuth.Clean (match LastIndexByte "/" path with Some i => str_take (S i) path | None => "" end).
Definition maxSunPath : Z := 104.
Inductive path_err := EmptyPath | NotAbsolute | TooLong.
Definition CheckPath (path : string) : option path_err :=
  if String.eqb path "" then Some EmptyPath
  else if negb (IsAbs path) then Some NotAbsolute
  else if maxSunPath <? Z.of_nat (String.length path) + 1 then Some TooLong
  else None.
Definition EffectiveRootSocketPath (env : string) : string := if String.eqb env "" then RootSocketPath else env.

(** ** The socket (server.go) *)

Inductive node := Dir_ (mode uid gid : Z) | Sock (mode uid gid : Z) | Other.
Abbreviation nodes := (gmap string node).
Definition is_sock (n : option node) : bool := match n with Some (Sock _ _ _) => true | _ => false end.

Inductive listen_err := BadPath (e : path_err) | Mkdir | ChmodDir | LstatErr | NotASocket | RemoveErr | BindErr | ChmodSock.
(** Why the socket stayed root's. *)
Inductive listen_note := NoNote | DirNotRoot | NoStaff | NotGiven.
Definition umasked (umask mode : Z) : Z := Z.land mode (Z.lnot umask).
Definition set_mode (mode : Z) (n : node) : node :=
  match n with Dir_ _ u g => Dir_ mode u g | Sock _ u g => Sock mode u g | Other => Other end.
Definition set_owner (uid gid : Z) (n : node) : node :=
  match n with Dir_ m _ _ => Dir_ m uid gid | Sock m _ _ => Sock m uid gid | Other => Other end.

Section listen.
(** Which system calls succeed, the process's umask and ids, the staff group. *)
Variable sys : string → bool.
Variable umask egid : Z.
Variable staff : option Z.

Definition removeStale (path : string) (f : nodes) : option listen_err * nodes :=
  if negb (sys "lstat") then (Some LstatErr, f)
  else match f !! path with
  | None => (None, f)
  | Some (Sock _ _ _) => if sys "remove" then (None, delete path f) else (Some RemoveErr, f)
  | Some _ => (Some NotASocket, f)
  end.
Definition give_to_staff (path dir : string) (f : nodes) : listen_note * nodes :=
  let '(n, f) := if sys "chown dir" then (NoNote, alter (set_owner 0 0) dir f) else (DirNotRoot, f) in
  match staff with
  | None => (NoStaff, f)
  | Some gid => if sys "chown" then (n, alter (set_owner 0 gid) path f) else (NotGiven, f)
  end.
Definition Listen (path : string) (euid : Z) (f : nodes) : result listen_err listen_note * nodes :=
  match CheckPath path with
  | Some e => (Err (BadPath e), f)
  | None =>
      let dirMode := if euid =? 0 then 493 else 448 in
      let sockMode := if euid =? 0 then 432 else 384 in
      let dir := filepath_Dir path in
      if negb (sys "mkdir") then (Err Mkdir, f) else
      if match f !! dir with Some (Dir_ _ _ _) | None => false | _ => true end then (Err Mkdir, f) else
      let f := match f !! dir with Some _ => f | None => <[dir := Dir_ (umasked umask dirMode) euid egid]> f end in
      if negb (sys "chmod dir") then (Err ChmodDir, f) else
      let f := alter (set_mode dirMode) dir f in
      match removeStale path f with
      | (Some e, f) => (Err e, f)
      | (None, f) =>
          if negb (sys "bind") then (Err BindErr, f) else
          let f := <[path := Sock (umasked umask 511) euid egid]> f in
          (* a closed listener unlinks its socket *)
          if negb (sys "chmod") then (Err ChmodSock, delete path f) else
          let f := alter (set_mode sockMode) path f in
          if euid =? 0 then let '(n, f) := give_to_staff path dir f in (Ok n, f) else (Ok NoNote, f)
      end
  end.
End listen.

(** ** Serving (server.go) *)

Definition maxInFlight : nat := 8.
Definition newline : string := String "010"%char "".
(** The accept loop holds no slot, holds one around [AcceptUnix], or has returned. *)
Inductive phase := Idle | Holding | Returned.
(** A connection being written: the snapshot it was given, once taken, and the
    bytes out so far. *)
Record flight := MkFlight { fl_payload : option string; fl_out : string }.
Record Server := MkServer {
  sv_slots : nat; sv_phase : phase; sv_flying : gmap nat flight; sv_done : gmap nat string; sv_closed : bool }.
Definition server0 : Server := MkServer 0 Idle ∅ ∅ false.

Inductive step :=
| Acquire
| Accept (c : nat)
| AcceptErr
| Take (c : nat) (st : State) (** [s.snapshot()] and the marshalling of it *)
| Wrote (c n : nat) (** [conn.Write] ended after [n] bytes: all, or a deadline or hang-up *)
| CloseServer.

Section serve.
(** [json.Marshal]; a value it cannot encode is an error. *)
Variable marshal : State → option string.

Definition finish (c : nat) (out : string) (s : Server) : Server :=
  MkServer (sv_slots s - 1) (sv_phase s) (delete c (sv_flying s)) (<[c := out]> (sv_done s)) (sv_closed s).
Definition serve_step (s : Server) (e : step) : option Server :=
  let '(MkServer slots ph fl dn cl) := s in
  match e with
  | Acquire =>
      match ph with
      | Idle => if (slots <? maxInFlight)%nat then Some (MkServer (S slots) Holding fl dn cl) else None
      | _ => None
      end
  | Accept c =>
      match ph, cl, fl !! c, dn !! c with
      | Holding, false, None, None => Some (MkServer slots Idle (<[c := MkFlight None ""]> fl) dn cl)
      | _, _, _, _ => None
      end
  | AcceptErr =>
      match ph with Holding => Some (MkServer (slots - 1) (if cl then Returned else Idle) fl dn cl) | _ => None end
  | Take c st =>
      match fl !! c with
      | Some (MkFlight None _) =>
          match marshal st with
          | None => Some (finish c "" s)
          | Some b => Some (MkServer slots ph (<[c := MkFlight (Some (b +:+ newline)) ""]> fl) dn cl)
          end
      | _ => None
      end
  | Wrote c n =>
      match fl !! c with
      | Some (MkFlight (Some b) _) => if (n <=? String.length b)%nat then Some (finish c (str_take n b) s) else None
      | _ => None
      end
  | CloseServer => if cl then None else Some (MkServer slots ph fl dn true)
  end.
Definition serve (es : list step) (s : Server) : option Server := foldl (λ s e, s ≫= λ s, serve_step s e) (Some s) es.
End serve.

(** ** Reading (client.go) *)

Definition maxPayload : Z := 1048576.
Inductive fetch_err := ErrAbsent | ErrMalformed.
Record Snap := MkSnap { sn_Path : string; sn_State : State; sn_Usable : bool }.

Section client.
(** [json.Unmarshal] into the two frozen fields, and into a state. *)
Variable unmarshal_frozen : string → option (Z * string).
Variable unmarshal : string → option State.

Definition Decode (b : string) : result fetch_err Snap :=
  match unmarshal_frozen b with
  | None => Err ErrMalformed
  | Some (schema, version) =>
      if schema <=? 0 then Err ErrMalformed
      else if Schema <? schema then Ok (MkSnap "" (frozen_state schema version) false)
      else match unmarshal b with
      | None => Err ErrMalformed
      | Some st => Ok (MkSnap "" st true)
      end
  end.

(** What a dial of a path gives: nobody, or a stream that ends or fails. *)
Inductive answer := NoAnswer | Stream (bytes : string) (failed : bool).
Definition Fetch (path : string) (a : answer) : result fetch_err Snap :=
  match a with
  | NoAnswer => Err ErrAbsent
  | Stream bytes failed =>
      (* ReadAll of at most [maxPayload + 1] bytes *)
      if (Z.of_nat (String.length bytes) <=? maxPayload) && failed then Err ErrMalformed
      else if maxPayload <? Z.of_nat (String.length bytes) then Err ErrMalformed
      else match Decode bytes with
      | Err e => Err e
      | Ok s => Ok (MkSnap path (sn_State s) (sn_Usable s))
      end
  end.
Fixpoint FetchAll (dial : string → answer) (paths : list string) : list Snap * list fetch_err :=
  match paths with
  | [] => ([], [])
  | p :: paths =>
      let '(snaps, problems) := FetchAll dial paths in
      match Fetch p (dial p) with
      | Ok s => (s :: snaps, problems)
      | Err ErrAbsent => (snaps, problems)
      | Err e => (snaps, e :: problems)
      end
  end.
End client.

(** ** Finding the sockets (paths.go) *)

(** [introspect-*.sock] on a name. *)
Definition socketGlob (name : string) : bool :=
  HasPrefix name "introspect-" && HasSuffix name ".sock" && (16 <=? Z.of_nat (String.length name)).
Definition has_meta (s : string) : bool :=
  has_byte "*" s || has_byte "?" s || has_byte "[" s || has_byte "092" s.
(** The order of [sort.Strings]. *)
Definition str_le (a b : string) : Prop := String.leb a b = true.
#[export] Instance str_le_dec : RelDecision str_le.
Proof. unfold RelDecision, str_le. solve_decision. Defined.
Section discover.
Variable is_socket : string → bool.
(** What a directory lists; and [filepath.Glob] where the directory's own name
    is a pattern. *)
Variable names : string → list string.
Variable meta_glob : string → list string.
Definition glob_sockets (dir : string) : list string :=
  if has_meta dir then meta_glob dir
  else map (λ n, filepath_Join [dir; n]) (List.filter socketGlob (names dir)).
Definition Discover (env : string) (home : option string) : list string :=
  let root := EffectiveRootSocketPath env in
  (if is_socket root then [root] else []) ++
  match home with
  | None => []
  | Some h => List.filter is_socket (merge_sort str_le (glob_sockets (UserRunDir h)))
  end.
End discover.

(** [serveIntrospection]: the path the flag's value names. *)
Definition flag_path (flag : string) (euid : Z) (home : string) (ref : Ref) : option string :=
  if String.eqb flag "off" then None
  else Some (if String.eqb flag "auto" then AutoPath euid home ref else flag).

(** ** The ring keeps the last 32 *)

Definition record_all (h : list Refusal) : option Ring :=
  foldl (λ r x, RecordRefusal (rf_At x) (rf_ID x) (rf_Line x) r) (Some ring0) h.
Definition ring_holds (h : list Refusal) (r : Ring) : Prop :=
  length (r_buf r) = RingSize ∧ r_n r = length h ∧
  ∀ i, (length h - RingSize <= i < length h)%nat → r_buf r !! (i mod RingSize)%nat = h !! i.

Lemma mod_window (i j m : nat) : (j < i)%nat → (i - j < m)%nat → (i mod m)%nat ≠ (j mod m)%nat.
Proof.
  intros H1 H2 E. assert (0 < m)%nat by lia.
  pose proof (Nat.div_mod i m ltac:(lia)). pose proof (Nat.div_mod j m ltac:(lia)).
  assert (i / m = j / m)%nat by nia. lia.
Qed.
Lemma record_all_holds h : ∃ r, record_all h = Some r ∧ ring_holds h r.
Proof.
  induction h as [|x h (r & Hr & HL & HN & HB)] using rev_ind.
  { exists ring0. split; [done|]. split_and!; [done|done|]. cbn. lia. }
  unfold record_all in *. rewrite foldl_snoc, Hr. eexists. split; [done|].
  split_and!; cbn [r_buf r_n].
  - by rewrite length_insert.
  - rewrite length_app. cbn. lia.
  - rewrite length_app. cbn [length]. intros i Hi. rewrite HN. destruct (decide (i = length h)) as [->|Hn].
    + rewrite list_lookup_insert_eq by (rewrite HL; by apply Nat.mod_upper_bound). rewrite lookup_app_r, Nat.sub_diag by lia. by destruct x.
    + rewrite list_lookup_insert_ne by (apply mod_window; unfold RingSize in *; lia).
      rewrite lookup_app_l by lia. apply HB. lia.
Qed.

(** The ring after any history of refusals gives back the last 32 of them,
    oldest first, as if it had kept them all; and a missing ring records
    nothing. *)
Theorem ring_exact h :
  Snapshot (record_all h) = drop (length h - RingSize) h ∧
  (length (Snapshot (record_all h)) <= RingSize)%nat ∧
  foldl (λ r x, RecordRefusal (rf_At x) (rf_ID x) (rf_Line x) r) None h = None.
Proof.
  destruct (record_all_holds h) as (r & -> & HL & HN & HB).
  assert (Snapshot (Some r) = drop (length h - RingSize) h) as ->.
  { unfold Snapshot. rewrite HN. apply list_eq. intros i. rewrite lookup_drop, list_lookup_fmap.
    destruct (decide (i < Nat.min (length h) RingSize)%nat) as [Hi|Hi].
    - rewrite lookup_seq_lt by done. cbn [fmap option_fmap option_map].
      replace (length h - Nat.min (length h) RingSize + i)%nat with (length h - RingSize + i)%nat by lia.
      rewrite <- HB by lia. symmetry. destruct (nth_lookup_or_length (r_buf r) ((length h - RingSize + i) mod RingSize) refusal0)
        as [->|HO]; [done|]. exfalso. rewrite HL in HO. pose proof (Nat.mod_upper_bound (length h - RingSize + i) RingSize). unfold RingSize in *. lia.
    - rewrite lookup_seq_ge by lia. rewrite lookup_ge_None_2 by (unfold RingSize in *; lia). done. }
  split_and!; [done|rewrite length_drop; unfold RingSize; lia|]. clear. by induction h.
Qed.

(** ** The socket is guarded *)

Section guarded.
Variable sys : string → bool.
Variable umask egid : Z.
Variable staff : option Z.

Lemma removeStale_spec path f e f' :
  removeStale sys path f = (e, f') →
  (∀ q, q ≠ path → f' !! q = f !! q) ∧
  match e with
  | None => f' !! path = None ∧ (f !! path = None ∨ is_sock (f !! path) = true)
  | Some _ => f' = f
  end.
Proof.
  unfold removeStale. destruct (negb (sys "lstat")); [by intros [= <- <-]|].
  destruct (f !! path) as [[| |]|] eqn:E; [by intros [= <- <-]| |by intros [= <- <-]|intros [= <- <-]; auto].
  destruct (sys "remove"); intros [= <- <-]; [|done]. split; [intros q Hq; by rewrite lookup_delete_ne|].
  rewrite lookup_delete_eq. auto.
Qed.
Lemma give_spec path dir f n f' :
  path ≠ dir → give_to_staff sys staff path dir f = (n, f') →
  (∀ q, q ≠ path → q ≠ dir → f' !! q = f !! q) ∧
  (∀ m u g, f !! dir = Some (Dir_ m u g) → ∃ u' g', f' !! dir = Some (Dir_ m u' g')) ∧
  (∀ m g, f !! path = Some (Sock m 0 g) → ∃ g', f' !! path = Some (Sock m 0 g') ∧
     (g' = g ∨ staff = Some g') ∧ (n = NoNote → staff = Some g')).
Proof.
  intros Hd. unfold give_to_staff.
  destruct (sys "chown dir"), staff as [gid|]; try destruct (sys "chown"); intros [= <- <-];
    (split_and!; [intros q H1 H2; by rewrite ?lookup_alter_ne by done
      |intros m u' g' E; rewrite ?lookup_alter_ne, ?lookup_alter_eq, ?E by done; cbn; eauto
      |intros m g' E; rewrite ?(lookup_alter_eq _ _ path), ?lookup_alter_ne, ?E by done; cbn; eexists; split; [done|]; naive_solver]).
Qed.
End guarded.

(** Binding the introspection socket. Whatever fails, only the path and its
    directory are touched, something at the path that is not a socket stays and
    is refused, and a failed start leaves no socket of its own. A socket that is
    served has exactly the mode of its user, in a directory with its mode; a
    root daemon's belongs to root, to the group staff or the one it was created
    with, and to staff whenever nothing is noted. *)
Theorem listen_guarded sys umask egid staff path euid f r f' :
  path ≠ filepath_Dir path →
  Listen sys umask egid staff path euid f = (r, f') →
  (∀ q, q ≠ path → q ≠ filepath_Dir path → f' !! q = f !! q) ∧
  (f !! path ≠ None → is_sock (f !! path) = false → f' !! path = f !! path ∧ ∃ e, r = Err e) ∧
  (∀ e, r = Err e → f' !! path = f !! path ∨ f' !! path = None) ∧
  (∀ note, r = Ok note →
     CheckPath path = None ∧
     (∃ u g, f' !! filepath_Dir path = Some (Dir_ (if euid =? 0 then 493 else 448) u g)) ∧
     ∃ g, f' !! path = Some (Sock (if euid =? 0 then 432 else 384) euid g) ∧
       if euid =? 0 then (g = egid ∨ staff = Some g) ∧ (note = NoNote → staff = Some g) else g = egid).
Proof.
  intros Hd. unfold Listen. set (dir := filepath_Dir path) in *.
  set (dm := if euid =? 0 then 493 else 448). set (sm := if euid =? 0 then 432 else 384).
  match goal with |- _ → ?G => assert (∀ e f1, (∀ q, q ≠ dir → f1 !! q = f !! q) → (Err e, f1) = (r, f') → G) as HE end.
  { intros e f1 H1 [= <- <-]. split_and!; [auto|intros; split; [by apply H1|eauto]|intros; left; by apply H1|done]. }
  destruct (CheckPath path) eqn:EC; [by apply HE|].
  destruct (sys "mkdir"); cbn [negb]; [|by apply HE].
  destruct (match f !! dir with Some (Dir_ _ _ _) | None => false | _ => true end) eqn:ED; [by apply HE|].
  set (f1 := match f !! dir with Some _ => f | None => <[dir := Dir_ (umasked umask dm) euid egid]> f end).
  assert (∀ q, q ≠ dir → f1 !! q = f !! q) as H1 by (intros q Hq; subst f1; destruct (f !! dir); by rewrite ?lookup_insert_ne).
  assert (∃ m u g, f1 !! dir = Some (Dir_ m u g)) as (m & u & g & H1d).
  { subst f1. destruct (f !! dir) as [[]|] eqn:E; try done; rewrite ?E, ?lookup_insert_eq; eauto. }
  destruct (sys "chmod dir"); cbn [negb]; [|by apply HE].
  assert (∀ q, q ≠ dir → alter (set_mode dm) dir f1 !! q = f !! q) as H2 by (intros q Hq; by rewrite lookup_alter_ne, H1).
  assert (alter (set_mode dm) dir f1 !! dir = Some (Dir_ dm u g)) as H2d by by rewrite lookup_alter_eq, H1d.
  destruct (removeStale _ _ _) as [oe f3] eqn:ER. apply removeStale_spec in ER as [H3 H4].
  destruct oe as [e|]; [subst f3; by apply HE|]. rewrite H2 in H4 by done.
  destruct H4 as [H4 H5]. clear HE.
  assert (∀ q, q ≠ path → q ≠ dir → f3 !! q = f !! q) as H6 by (intros q Hq Hq'; by rewrite H3, H2).
  match goal with |- _ → ?G => assert (∀ e f4, (∀ q, q ≠ path → f4 !! q = f3 !! q) → f4 !! path = None → (Err e, f4) = (r, f') → G) as HE end.
  { intros e f4 H7 H8 [= <- <-]. split_and!; [intros; by rewrite H7, H6|intros H9 H10; destruct H5; congruence|auto|done]. }
  destruct (sys "bind"); cbn [negb]; [|by apply HE].
  set (f4 := <[path := Sock (umasked umask 511) euid egid]> f3).
  assert (∀ q, q ≠ path → f4 !! q = f3 !! q) as H7 by (intros q Hq; subst f4; by rewrite lookup_insert_ne).
  destruct (sys "chmod"); cbn [negb]; [|apply HE; [intros q Hq; by rewrite lookup_delete_ne, H7|by rewrite lookup_delete_eq]].
  clear HE. set (f5 := alter (set_mode sm) path f4).
  assert (∀ q, q ≠ path → f5 !! q = f3 !! q) as H8 by (intros q Hq; subst f5; by rewrite lookup_alter_ne, H7).
  assert (f5 !! path = Some (Sock sm euid egid)) as H9 by (subst f5 f4; by rewrite lookup_alter_eq, lookup_insert_eq).
  assert (f5 !! dir = Some (Dir_ dm u g)) as H10 by by rewrite H8, H3 by done.
  destruct (Z.eqb_spec euid 0) as [->|Hu].
  - destruct (give_to_staff sys staff path dir f5) as [n f6] eqn:EG. intros [= <- <-].
    apply give_spec in EG as (G1 & G2 & G3); [|done]. destruct (G3 _ _ H9) as (g' & G4 & G5 & G6).
    split_and!; [intros; by rewrite G1, H8, H6|intros; destruct H5; congruence|done|]. intros note [= <-].
    split; [done|]. split; [by eapply G2|by exists g'].
  - intros [= <- <-]. split_and!; [intros; by rewrite H8, H6|intros; destruct H5; congruence|done|]. intros note _.
    split; [done|]. split; [eauto|]. by exists egid.
Qed.
Definition tmp_nodes : nodes := {[ "/tmp" := Dir_ 1023 0 0 ]}.
Definition root_sock : string := "/var/run/drawbridge/introspect.sock".
Lemma listen_guarded_witness :
  let out := Listen (λ _, true) 18 0 (Some 20) root_sock 0 tmp_nodes in
  out.1 = Ok NoNote ∧ out.2 !! "/tmp" = Some (Dir_ 1023 0 0) ∧ out.2 !! root_sock = Some (Sock 432 0 20).
Proof.
  cbv zeta. split; [vm_compute; reflexivity|]. split; [|vm_compute; reflexivity].
  refine (eq_trans (proj1 (listen_guarded (λ _, true) 18 0 (Some 20) root_sock 0 tmp_nodes (Ok NoNote)
    (Listen (λ _, true) 18 0 (Some 20) root_sock 0 tmp_nodes).2 _ _) "/tmp" _ _) _).
  - apply String.eqb_neq. vm_compute. reflexivity.
  - vm_compute. reflexivity.
  - apply String.eqb_neq. vm_compute. reflexivity.
  - apply String.eqb_neq. vm_compute. reflexivity.
  - vm_compute. reflexivity.
Defined.

(** The directory of an explicit path is re-moded whatever it is for: with
    [-introspect /tmp/x.sock] a root daemon takes everyone's write access to
    [/tmp], and with a path it then refuses it has re-moded the directory too. *)
Lemma explicit_path_remodes :
  (Listen (λ _, true) 18 0 (Some 20) "/tmp/x.sock" 0 tmp_nodes).2 !! "/tmp" = Some (Dir_ 493 0 0) ∧
  let '(r, f) := Listen (λ _, true) 18 0 (Some 20) "/tmp/notes" 0 (<["/tmp/notes" := Other]> tmp_nodes) in
  r = Err NotASocket ∧ f !! "/tmp" = Some (Dir_ 493 0 0).
Proof. split; [vm_compute; reflexivity|]. vm_compute. split; reflexivity. Qed.

(** ** The server's account *)

Section account.
Variable marshal : State → option string.
Abbreviation run := (serve marshal).
Definition holding (ph : phase) : nat := match ph with Holding => 1 | _ => 0 end.
(** What became of a connection whose snapshot was taken. *)
Definition taken (s : Server) (c : nat) (st : State) : Prop :=
  match marshal st with
  | None => sv_done s !! c = Some ""
  | Some b => sv_flying s !! c = Some (MkFlight (Some (b +:+ newline)) "") ∨
      ∃ n, (n <= String.length (b +:+ newline))%nat ∧ sv_done s !! c = Some (str_take n (b +:+ newline))
  end.
Record sv_inv (es : list step) (s : Server) : Prop := {
  iv_slots : sv_slots s = (size (sv_flying s) + holding (sv_phase s))%nat;
  iv_cap : (sv_slots s <= maxInFlight)%nat;
  iv_ret : sv_phase s = Returned → sv_closed s = true;
  iv_dom : ∀ c, is_Some (sv_flying s !! c) → sv_done s !! c = None;
  iv_taken : ∀ c st, Take c st ∈ es → taken s c st;
  iv_took : ∀ c b o, sv_flying s !! c = Some (MkFlight (Some b) o) → ∃ st, Take c st ∈ es;
  iv_from : ∀ c, is_Some (sv_done s !! c) → ∃ st, Take c st ∈ es
}.

Lemma serve_snoc es e s : run (es ++ [e]) s = run es s ≫= λ s, serve_step marshal s e.
Proof. unfold serve. by rewrite foldl_snoc. Qed.
Lemma serve_app es es' s : run (es ++ es') s = run es s ≫= run es'.
Proof.
  induction es' as [|e es' IH] using rev_ind; [rewrite app_nil_r; by destruct (run es s)|].
  rewrite app_assoc, serve_snoc, IH. destruct (run es s); [|done]. cbn. by rewrite serve_snoc.
Qed.
(** Ending a flight. *)
Lemma sv_inv_finish es es' s c fl out :
  sv_inv es s → sv_flying s !! c = Some fl → es ⊆ es' → (∃ st, Take c st ∈ es') →
  (∀ c' st, Take c' st ∈ es' → taken (finish c out s) c' st) → sv_inv es' (finish c out s).
Proof.
  intros [H1 H2 H3 H4 H5 H7 H6] Hc Hs Hst HT. split; cbn [finish sv_slots sv_phase sv_flying sv_done sv_closed]; [|lia|done| |done| |].
  - rewrite map_size_delete, Hc, H1. assert (size (sv_flying s) ≠ 0)%nat; [|lia].
    intros E. apply map_size_empty_inv in E. by rewrite E in Hc.
  - intros c' Hc'. rewrite lookup_delete_is_Some in Hc'. rewrite lookup_insert_ne by naive_solver. naive_solver.
  - intros c' b o [_ Hc']%lookup_delete_Some. destruct (H7 _ _ _ Hc') as (st & ?). exists st. by apply Hs.
  - intros c' Hc'. destruct (decide (c' = c)) as [->|Hn]; [done|]. rewrite lookup_insert_ne in Hc' by done.
    destruct (H6 _ Hc') as (st & Hst'). exists st. by apply Hs.
Qed.
Lemma taken_finish s c c' out st : c' ≠ c → taken s c' st → taken (finish c out s) c' st.
Proof.
  intros Hn. unfold taken. destruct (marshal st); cbn [finish sv_flying sv_done];
    rewrite ?lookup_insert_ne, ?lookup_delete_ne by done; done.
Qed.
Lemma sv_inv_step es s e s' : sv_inv es s → serve_step marshal s e = Some s' → sv_inv (es ++ [e]) s'.
Proof.
  intros Hi. pose proof Hi as [H1 H2 H3 H4 H5 H7 H6].
  assert (∀ s2, sv_flying s2 = sv_flying s → sv_done s2 = sv_done s → (∀ c st, e ≠ Take c st) →
    sv_slots s2 = (size (sv_flying s) + holding (sv_phase s2))%nat → (sv_slots s2 <= maxInFlight)%nat →
    (sv_phase s2 = Returned → sv_closed s2 = true) → sv_inv (es ++ [e]) s2) as HSame.
  { intros s2 E1 E2 He I1 I2 I3. split; rewrite ?E1, ?E2; try done.
    - intros c st [Ht|Ht%list_elem_of_singleton]%elem_of_app; [|by destruct (He c st)]. specialize (H5 _ _ Ht). unfold taken in *. by rewrite E1, E2.
    - intros c b o Hc. destruct (H7 _ _ _ Hc) as (st & ?). exists st. set_solver.
    - intros c Hc. destruct (H6 c Hc) as (st & ?). exists st. set_solver. }
  destruct s as [slots ph fl dn cl]; cbn [sv_slots sv_phase sv_flying sv_done sv_closed] in *. destruct e as [|c| |c st|c n|]; cbn [serve_step].
  - destruct ph; try done. destruct (Nat.ltb_spec slots maxInFlight); [|done]. intros [= <-]. apply HSame; cbn in *; try done; unfold maxInFlight in *; lia.
  - destruct ph, cl, (fl !! c) eqn:E1, (dn !! c) eqn:E2; try done. intros [= <-]. split; cbn in *.
    + rewrite map_size_insert_None by done. lia.
    + done.
    + done.
    + intros c' Hc'. destruct (decide (c' = c)) as [->|Hn]; [done|]. rewrite lookup_insert_ne in Hc' by done. auto.
    + intros c' st [Ht|Ht%list_elem_of_singleton]%elem_of_app; [|done]. specialize (H5 _ _ Ht).
      assert (c' ≠ c) as Hn. { intros ->. unfold taken in H5. cbn in H5. destruct (marshal st); naive_solver congruence. }
      unfold taken in *. cbn in *. by rewrite lookup_insert_ne.
    + intros c' b o [[<- ?]|[_ Hc']]%lookup_insert_Some; [done|]. destruct (H7 _ _ _ Hc') as (st & ?). exists st. set_solver.
    + intros c' Hc'. destruct (H6 c' Hc') as (st & ?). exists st. set_solver.
  - destruct ph; try done. intros [= <-]. apply HSame; cbn in *; try done; destruct cl; cbn; try done; lia.
  - destruct (fl !! c) as [[[b|] o]|] eqn:E1; try done.
    assert (dn !! c = None) as E2 by (apply H4; by rewrite E1).
    assert (∀ c' st', Take c' st' ∈ es → c' ≠ c) as HN.
    { intros c' st' Ht ->. specialize (H5 _ _ Ht). unfold taken in H5. cbn in H5. destruct (marshal st'); naive_solver congruence. }
    destruct (marshal st) as [b|] eqn:Em; intros [= <-].
    + split; cbn in *; try done.
      * rewrite map_size_insert, E1. cbn. lia.
      * intros c' Hc'. destruct (decide (c' = c)) as [->|Hn]; [done|]. rewrite lookup_insert_ne in Hc' by done. auto.
      * intros c' st' [Ht|[= -> ->]%list_elem_of_singleton]%elem_of_app; unfold taken; cbn.
        { specialize (H5 _ _ Ht). unfold taken in H5. cbn in H5. rewrite lookup_insert_ne by (apply not_eq_sym; eauto). done. }
        { rewrite Em, lookup_insert_eq. by left. }
      * intros c' b' o' [[<- ?]|[_ Hc']]%lookup_insert_Some; [exists st; set_solver|]. destruct (H7 _ _ _ Hc') as (st' & ?). exists st'. set_solver.
      * intros c' Hc'. destruct (H6 c' Hc') as (st' & ?). exists st'. set_solver.
    + eapply sv_inv_finish; [done|exact E1|set_solver|exists st; set_solver|].
      intros c' st' [Ht|[= -> ->]%list_elem_of_singleton]%elem_of_app; [apply taken_finish; eauto|].
      unfold taken. rewrite Em. cbn. by rewrite lookup_insert_eq.
  - destruct (fl !! c) as [[[b|] o]|] eqn:E1; try done. destruct (Nat.leb_spec n (String.length b)); [|done]. intros [= <-].
    destruct (H7 _ _ _ E1) as (st0 & Ht0).
    eapply sv_inv_finish; [done|exact E1|set_solver|exists st0; set_solver|].
    intros c' st [Ht|?%list_elem_of_singleton]%elem_of_app; [|done]. specialize (H5 _ _ Ht).
    destruct (decide (c' = c)) as [->|Hn]; [|by apply taken_finish]. unfold taken in *. cbn in *.
    assert (dn !! c = None) as E2 by (apply H4; by rewrite E1).
    destruct (marshal st) as [b0|]; [|congruence]. right. rewrite lookup_insert_eq.
    destruct H5 as [H5|(? & _ & H5)]; [|congruence]. rewrite E1 in H5. injection H5 as -> ->. eauto.
  - destruct cl; [done|]. intros [= <-]. by apply HSame.
Qed.
Lemma serve_inv es s : run es server0 = Some s → sv_inv es s.
Proof.
  revert s. induction es as [|e es IH] using rev_ind; intros s.
  - intros [= <-]. split; cbn; [done|unfold maxInFlight; lia|done|done|by intros ? ? ?%elem_of_nil|done|by intros c [? ?]].
  - rewrite serve_snoc. destruct (run es server0) as [s0|] eqn:E; [|done]. cbn. intros H. eapply sv_inv_step; [by apply IH|done].
Qed.

(** Steps still to come after the listener is closed. *)
Definition weight (f : flight) : nat := match fl_payload f with None => 2 | Some _ => 1 end.
Definition total (fl : gmap nat flight) : nat := map_fold (λ _ f n, (weight f + n)%nat) 0%nat fl.
Definition remaining (s : Server) : nat :=
  (total (sv_flying s) + match sv_phase s with Idle => 2 | Holding => 1 | Returned => 0 end)%nat.
Lemma total_insert c f fl : fl !! c = None → total (<[c := f]> fl) = (weight f + total fl)%nat.
Proof. intros H. unfold total. apply (map_fold_insert_L (λ _ f n, (weight f + n)%nat)); [intros; lia|done]. Qed.
Lemma total_delete c f fl : fl !! c = Some f → total fl = (weight f + total (delete c fl))%nat.
Proof. intros H. rewrite <- (total_insert c) by apply lookup_delete_eq. by rewrite insert_delete_id. Qed.
Lemma total_replace c f g fl : fl !! c = Some f → total (<[c := g]> fl) = (total fl - weight f + weight g)%nat.
Proof.
  intros H. rewrite <- insert_delete_eq, total_insert, (total_delete c f fl) by (done || apply lookup_delete_eq). lia.
Qed.
Lemma total_bound fl : (total fl <= 2 * size fl)%nat.
Proof.
  induction fl as [|c f fl Hc IH] using map_ind; [done|]. rewrite total_insert, map_size_insert_None by done.
  unfold weight. destruct (fl_payload f); lia.
Qed.
Lemma closed_step s e s' :
  serve_step marshal s e = Some s' → sv_closed s = true → sv_closed s' = true ∧ (remaining s' < remaining s)%nat.
Proof.
  destruct s as [slots ph fl dn cl]. cbn [sv_closed]. intros H ->. destruct e as [|c| |c st|c n|]; cbn [serve_step] in H.
  - destruct ph; try done. destruct (slots <? maxInFlight)%nat; [|done]. injection H as <-. unfold remaining. cbn. lia.
  - by destruct ph.
  - destruct ph; try done. injection H as <-. unfold remaining. cbn. lia.
  - destruct (fl !! c) as [[[b|] o]|] eqn:E; try done. destruct (marshal st); injection H as <-; (split; [done|]); unfold remaining; cbn.
    + rewrite (total_replace _ _ _ _ E). cbn. pose proof (total_delete _ _ _ E) as HT. cbn in HT. lia.
    + pose proof (total_delete _ _ _ E) as HT. cbn in HT. lia.
  - destruct (fl !! c) as [[[b|] o]|] eqn:E; try done. destruct (n <=? _)%nat; [|done]. injection H as <-. split; [done|].
    unfold remaining; cbn. pose proof (total_delete _ _ _ E) as HT. cbn in HT. lia.
  - done.
Qed.
Lemma closed_run es s s' :
  run es s = Some s' → sv_closed s = true → sv_closed s' = true ∧ (length es + remaining s' <= remaining s)%nat.
Proof.
  revert s'. induction es as [|e es IH] using rev_ind; intros s'; [by intros [= <-]|].
  rewrite serve_snoc. destruct (run es s) as [s1|]; [|done]. cbn. intros H Hc. destruct (IH s1 eq_refl Hc) as [Hc1 H1].
  destruct (closed_step _ _ _ H Hc1) as [Hc2 H2]. rewrite length_app. cbn. split; [done|lia].
Qed.
Lemma stuck_returned s : sv_closed s = true → (∀ e, serve_step marshal s e = None) → sv_phase s = Returned ∨ (sv_phase s = Idle ∧ sv_slots s >= maxInFlight)%nat.
Proof.
  destruct s as [slots ph fl dn cl]. cbn [sv_closed sv_phase sv_slots]. intros -> H. destruct ph; [|by specialize (H AcceptErr)|by left].
  right. specialize (H Acquire). cbn [serve_step] in H. destruct (Nat.ltb_spec slots maxInFlight); [done|]. split; [done|lia].
Qed.
Lemma stuck_landed s : (∀ e, serve_step marshal s e = None) → sv_flying s = ∅.
Proof.
  destruct s as [slots ph fl dn cl]. cbn. intros H. apply map_eq. intros c. rewrite lookup_empty.
  destruct (fl !! c) as [[[b|] o]|] eqn:E; [| |done].
  - specialize (H (Wrote c 0)). cbn in H. by rewrite E in H.
  - specialize (H (Take c (frozen_state 0 ""))). cbn in H. rewrite E in H. by destruct (marshal _).
Qed.

(** C24: the accept loop never has more than eight connections in hand, and once
    the listener is closed it ends: every schedule of what is left (writes that
    finish or time out, the failing accept) stops within 18 steps, and where it
    stops the loop has returned, every slot is free and every connection it
    accepted is closed. *)
Theorem serve_drains es s :
  run es server0 = Some s →
  (size (sv_flying s) <= maxInFlight)%nat ∧
  (sv_closed s = true → ∀ es' s', run es' s = Some s' →
     (length es' <= 18)%nat ∧
     ((∀ e, serve_step marshal s' e = None) → sv_phase s' = Returned ∧ sv_slots s' = 0%nat ∧ sv_flying s' = ∅)).
Proof.
  intros H. pose proof (serve_inv _ _ H) as Hi. split; [pose proof (iv_slots _ _ Hi); pose proof (iv_cap _ _ Hi); lia|].
  intros Hc es' s' H'. destruct (closed_run _ _ _ H' Hc) as [Hc' HL]. split.
  - pose proof (total_bound (sv_flying s)). pose proof (iv_slots _ _ Hi). pose proof (iv_cap _ _ Hi).
    unfold remaining, maxInFlight in *. destruct (sv_phase s); cbn in *; lia.
  - intros HS. assert (run (es ++ es') server0 = Some s') as Hr by by rewrite serve_app, H.
    apply serve_inv in Hr. pose proof (iv_slots _ _ Hr) as H1. pose proof (stuck_landed _ HS) as HE. rewrite HE, map_size_empty in H1.
    destruct (stuck_returned _ Hc' HS) as [EP|[EP H2]]; rewrite EP in H1; cbn in H1; [by split_and!|]. unfold maxInFlight in H2. lia.
Qed.
End account.
Definition st0 : State := frozen_state 1 "v2".
Lemma serve_drains_witness :
  let es := [Acquire; Accept 0; Acquire; Accept 1; Acquire; Take 0 st0; CloseServer] in
  ∃ s, serve (λ _, Some "{}") es server0 = Some s ∧ size (sv_flying s) = 2%nat ∧
    ∀ es' s', serve (λ _, Some "{}") es' s = Some s' → (length es' <= 18)%nat.
Proof.
  cbv zeta. eexists. split; [vm_compute; reflexivity|]. split; [vm_compute; reflexivity|].
  intros es' s' H. refine (proj1 (proj2 (serve_drains (λ _, Some "{}") [Acquire; Accept 0; Acquire; Accept 1; Acquire; Take 0 st0; CloseServer] _ _) _ es' s' H)).
  - vm_compute. reflexivity.
  - reflexivity.
Defined.

(** ** What a reader gets *)

(** The codec on one state: its text, with or without the final newline, reads
    back, and a text cut short does not. *)
Definition codec (marshal : State → option string) (unmarshal_frozen : string → option (Z * string))
    (unmarshal : string → option State) (st : State) (b : string) : Prop :=
  marshal st = Some b ∧
  (∀ t, t = b ∨ t = b +:+ newline → unmarshal_frozen t = Some (st_Schema st, st_Version st) ∧ unmarshal t = Some st) ∧
  ∀ n, (n < String.length b)%nat → unmarshal_frozen (str_take n b) = None.

Lemma Fetch_small uf um path b : Z.of_nat (String.length b) <= maxPayload →
  Fetch uf um path (Stream b false) =
    match Decode uf um b with Ok s => Ok (MkSnap path (sn_State s) (sn_Usable s)) | Err e => Err e end.
Proof. intros H. unfold Fetch. rewrite andb_false_r, (proj2 (Z.ltb_ge _ _)) by done. by destruct (Decode uf um b). Qed.
Lemma str_take_app_le n s t : (n <= String.length s)%nat → str_take n (s +:+ t) = str_take n s.
Proof. revert n. induction s as [|c s IH]; intros [|n] H; cbn in *; try done; [lia|]. by rewrite IH by lia. Qed.
Lemma str_take_length n s : String.length (str_take n s) = Nat.min n (String.length s).
Proof. revert n. induction s as [|c s IH]; intros [|n]; cbn; try done. by rewrite IH. Qed.

(** A reader of the introspection socket. A connection the server closed
    after its snapshot was taken is read back as that very state when all of it
    was written (the final newline apart); a snapshot of a newer schema keeps
    its two frozen fields and nothing else; a write cut short, or a snapshot
    over the limit, is a malformed answer and never a wrong state. *)
Theorem snapshot_read marshal uf um path es s c st b out :
  serve marshal es server0 = Some s → Take c st ∈ es → codec marshal uf um st b → 1 <= st_Schema st →
  sv_done s !! c = Some out →
  Fetch uf um path (Stream out false) =
    if (String.length out <? String.length b)%nat || (maxPayload <? Z.of_nat (String.length out)) then Err ErrMalformed
    else Ok (if Schema <? st_Schema st then MkSnap path (frozen_state (st_Schema st) (st_Version st)) false
             else MkSnap path st true).
Proof.
  intros Hr Ht (Hm & Hc & Hn) H1 Hd. apply serve_inv in Hr. pose proof (iv_taken _ _ _ Hr _ _ Ht) as HT.
  unfold taken in HT. rewrite Hm in HT.
  assert (∃ n, (n <= String.length (b +:+ newline))%nat ∧ out = str_take n (b +:+ newline)) as (n & Hl & ->).
  { destruct HT as [HT|(n & Hl & HT)]; [|exists n; split; [done|congruence]].
    assert (sv_done s !! c = None) by (apply (iv_dom _ _ _ Hr); by rewrite HT). congruence. }
  rewrite append_length in Hl. cbn in Hl.
  assert (String.length (str_take n (b +:+ newline)) = n) as EL by (rewrite str_take_length, append_length; cbn; lia).
  rewrite EL. destruct (Z.ltb_spec maxPayload (Z.of_nat n)) as [Hb|Hb].
  { rewrite orb_true_r. unfold Fetch. rewrite EL, (proj2 (Z.ltb_lt _ _)) by done. by rewrite andb_false_r. }
  rewrite orb_false_r, Fetch_small by by rewrite EL. destruct (Nat.ltb_spec n (String.length b)) as [Hs|Hs].
  - rewrite str_take_app_le by lia. unfold Decode. by rewrite Hn.
  - assert (str_take n (b +:+ newline) = b ∨ str_take n (b +:+ newline) = b +:+ newline) as HE.
    { destruct (decide (n = String.length b)) as [->|]; [left; apply str_take_app|right].
      replace n with (String.length (b +:+ newline)) by (rewrite append_length; cbn; lia).
      rewrite <- (append_nil_r (b +:+ newline)) at 2. apply str_take_app. }
    destruct (Hc _ HE) as [E1 E2]. unfold Decode. rewrite E1, E2. rewrite (proj2 (Z.leb_gt _ _)) by lia.
    by destruct (Schema <? st_Schema st).
Qed.
Definition ex_frozen (t : string) : option (Z * string) :=
  if bool_decide (t ∈ ["{s}"; "{s}" +:+ newline]) then Some (1, "v2") else None.
Definition ex_state (t : string) : option State := if bool_decide (t ∈ ["{s}"; "{s}" +:+ newline]) then Some st0 else None.
Lemma snapshot_read_witness :
  Fetch ex_frozen ex_state "/s" (Stream ("{s}" +:+ newline) false) = Ok (MkSnap "/s" st0 true).
Proof.
  refine (snapshot_read (λ _, Some "{s}") ex_frozen ex_state "/s" [Acquire; Accept 0; Take 0 st0; Wrote 0 4] _ 0 st0 "{s}"
    ("{s}" +:+ newline) eq_refl _ _ _ _).
  - right. right. left.
  - split; [reflexivity|]. split; [intros t [->| ->]; split; vm_compute; reflexivity|].
    intros n Hn. destruct n as [|[|[|n]]]; [vm_compute; reflexivity..|]. exfalso. cbn in Hn. lia.
  - vm_compute. discriminate.
  - vm_compute. reflexivity.
Defined.

(** Absent sockets are silent; everything else is a snapshot or a problem. *)
Lemma FetchAll_spec uf um dial paths :
  (FetchAll uf um dial paths).1 = omap (λ p, match Fetch uf um p (dial p) with Ok s => Some s | Err _ => None end) paths ∧
  (∀ e, e ∈ (FetchAll uf um dial paths).2 → e = ErrMalformed) ∧
  (length (FetchAll uf um dial paths).1 + length (FetchAll uf um dial paths).2 =
    length (List.filter (λ p, match dial p with NoAnswer => false | _ => true end) paths))%nat.
Proof.
  assert (∀ p, Fetch uf um p (dial p) = Err ErrAbsent ↔ dial p = NoAnswer) as HA.
  { intros p. unfold Fetch, Decode. destruct (dial p) as [|b f]; [done|]. split; [|done].
    destruct (_ && f); [done|]. destruct (maxPayload <? _); [done|]. destruct (uf b) as [[schema version]|]; [|done].
    destruct (schema <=? 0); [done|]. destruct (Schema <? schema); [done|]. by destruct (um b). }
  induction paths as [|p paths (IH1 & IH2 & IH3)]; [split_and!; [done| |done]; by intros e ?%elem_of_nil|].
  cbn. destruct (FetchAll uf um dial paths) as [snaps probs]. cbn in *. specialize (HA p).
  destruct (Fetch uf um p (dial p)) as [s|[]]; cbn.
  - destruct (dial p); [by destruct HA as [_ HA]; specialize (HA eq_refl)|]. cbn. split_and!; [by rewrite IH1|done|lia].
  - rewrite (proj1 HA eq_refl). done.
  - destruct (dial p); [by destruct HA as [_ HA]; specialize (HA eq_refl)|]. cbn. split_and!; [done| |lia].
    intros e [->|He]%elem_of_cons; auto.
Qed.

(** ** A consumer looks where the daemon listens *)

Lemma socketGlob_name p n : socketGlob (socket_name p n) = true.
Proof.
  unfold socketGlob, socket_name. rewrite HasPrefix_app. rewrite <- !append_assoc', HasSuffix_app.
  rewrite !append_length. cbn [String.length andb]. apply Z.leb_le. lia.
Qed.
(** With [-introspect auto], a socket that exists is among those discovered,
    whoever the daemon runs as: the fixed one for root, else the one of the VM,
    read back as that VM; a directory name that is itself a pattern is left out. *)
Lemma discover_auto ch spec ref euid home is_socket names meta :
  ParseRef ch spec = Ok ref → has_meta (UserRunDir home) = false →
  (euid ≠ 0 → socket_name (r_Provider ref) (r_Instance ref) ∈ names (UserRunDir home)) →
  flag_path "auto" euid home ref = Some (AutoPath euid home ref) ∧
  (is_socket (AutoPath euid home ref) = true → AutoPath euid home ref ∈ Discover is_socket names meta "" (Some home)).
Proof.
  intros _ Hm Hn. split; [done|]. intros Hs. unfold Discover, AutoPath in *. apply elem_of_app.
  destruct (Z.eqb_spec euid 0) as [->|He].
  - left. change (EffectiveRootSocketPath "") with RootSocketPath. rewrite Hs. left.
  - right. apply list_elem_of_In, List.filter_In. split; [|done]. apply list_elem_of_In.
    rewrite (merge_sort_Permutation str_le). unfold glob_sockets. rewrite Hm.
    apply list_elem_of_In, in_map_iff. exists (socket_name (r_Provider ref) (r_Instance ref)). split; [done|].
    apply List.filter_In. split; [by apply list_elem_of_In, Hn|apply socketGlob_name].
Qed.
