(* ===== verification/DoctorAuth.v ===== *)
(** * DoctorAuth: doctor's transport-authentication block

    [src/internal/doctor/report.go], what a finding and a run's exit code are;
    [src/internal/doctor/auth.go] and the two functions of gather.go that build
    its input: the state of the two secret files, the dated evidence of the
    refusal ring, and the findings made of them. Sentences are constructors,
    with what is printed into them as arguments. *)

From S2P Require Import Prelude GoStr GoPath VmRef.
From S2P Require TransportAuth Provision Introspect.
Open Scope string_scope.
Open Scope list_scope.
Open Scope Z_scope.

(** ** Findings (report.go) *)

Inductive Status := StatusOK | StatusWarn | StatusFail | StatusSkip | StatusInfo.
#[export] Instance Status_eq_dec : EqDecision Status.
Proof. solve_decision. Defined.

(** A finding over a check's titles, evidence lines and remedies. *)
Record Finding (T E R : Type) := MkFinding {
  f_ID : string; f_Title : T; f_Status : Status; f_Evidence : list E; f_Remedy : option R }.
Arguments MkFinding {T E R}. Arguments f_ID {T E R}. Arguments f_Title {T E R}. Arguments f_Status {T E R}.
Arguments f_Evidence {T E R}. Arguments f_Remedy {T E R}.

Definition ExitCode (findings : list Status) : Z := if existsb (λ s, bool_decide (s = StatusFail)) findings then 1 else 0.

Fixpoint firstNonEmpty (s : list string) : string :=
  match s with [] => "" | v :: s => if String.eqb v "" then firstNonEmpty s else v end.

(** ** The input (auth.go) *)

Definition IDAuth : string := "auth".
Definition IDAuthMacMissing : string := "auth-mac-missing-secret".
Definition IDAuthGuestMissing : string := "auth-guest-missing-secret".
Definition IDAuthMismatch : string := "auth-mismatch".
Definition IDAuthWrongPeer : string := "auth-wrong-peer".
Definition IDAuthFilePerms : string := "auth-file-perms".
Definition digestPrefixLen : nat := 8.

Record SecretFile := MkSecretFile {
  s_Path : string; s_Present : bool; s_Mode : string; s_Owner : string; s_Size : Z;
  s_Digest : string; s_Malformed : bool; s_Why : string }.
Definition prefix (s : SecretFile) : string :=
  if (String.length (s_Digest s) <? digestPrefixLen)%nat then "unknown" else str_take digestPrefixLen (s_Digest s).

(** [At] is 0 for a line that carries no time. *)
Record AuthEvidence := MkEvidence { e_ID : string; e_Line : string; e_Source : string; e_At : Z }.
Definition label (e : AuthEvidence) : string := firstNonEmpty [e_Source e; "log"] +:+ ": " +:+ e_Line e.
Record Sessions := MkSessions { MirrorUp : bool; SyncUp : bool; MirrorSince : Z; SyncSince : Z }.
Definition healedSince (s : Sessions) : option Z :=
  if negb (MirrorUp s) || negb (SyncUp s) || (MirrorSince s =? 0) || (SyncSince s =? 0) then None
  else Some (if SyncSince s <? MirrorSince s then SyncSince s else MirrorSince s).
Record AuthInput := MkAuthInput {
  i_VM : string; i_Mac : SecretFile; i_Guest : SecretFile; i_MacSkip : string; i_GuestSkip : string;
  i_Evidence : list AuthEvidence; i_ResolutionSource : string; i_Sessions : Sessions }.

(** ** Where the evidence comes from *)

(** [strings.Contains] *)
Fixpoint Contains (s sub : string) : bool :=
  HasPrefix s sub || match s with EmptyString => false | String _ s => Contains s sub end.
Definition match_line (line : string) : option string :=
  if Contains line "closed during transport authentication" then Some IDAuthMismatch
  else if Contains line "presented an invalid transport secret" then Some IDAuthWrongPeer
  else if Contains line "closed the connection immediately" then Some IDAuthMacMissing
  else if Contains line "transport secret is unusable" then Some IDAuthFilePerms
  else None.
Definition MatchAuthLog (lines : list string) : list AuthEvidence :=
  omap (λ l, let line := TrimSpace l in (λ id, MkEvidence id line "" 0) <$> match_line line) lines.
Definition auth_ids : list string :=
  [IDAuth; IDAuthMacMissing; IDAuthGuestMissing; IDAuthMismatch; IDAuthWrongPeer; IDAuthFilePerms].
Definition MatchAuthRing (refusals : list Introspect.Refusal) : list AuthEvidence :=
  omap (λ r, if existsb (String.eqb (Introspect.rf_ID r)) auth_ids
             then Some (MkEvidence (Introspect.rf_ID r) (TrimSpace (Introspect.rf_Line r)) "ring" (Introspect.rf_At r))
             else None) refusals.
Definition evidenceFor (i : AuthInput) (id : string) : list string :=
  label <$> List.filter (λ e, String.eqb (e_ID e) id) (i_Evidence i).

(** ** The findings *)

Inductive line :=
| Live (label : string) | Stale (label : string) (at_ : Z) | HealedSessions (mirror sync : Z)
| Said (reason : string)
| MacMalformed (path why : string) | MacMode (path mode : string)
| GuestMalformed (path why : string) | GuestMode (path mode : string) | GuestOwner (path owner : string)
| MacAbsent (path : string) | GuestAbsent (path : string) | Unauthenticated | NotCompared (reason : string)
| MacPresent (path prefix : string) | GuestPresent (path prefix : string)
| SameSecret (prefix : string) | PairMatches (prefix : string) | ResolutionSource (src : string).
Inductive title :=
| TNotCompared | TNoMacSecret | TGuestNotCompared | TUnauthenticated | TMacHasNone | TGuestHasNone | TDifferent | TMutual
| TPastUnusable | TUnusable | TSecretGone | TPastRefusals | TNotThisVM.
Inductive auth_remedy :=
| Up (vm : string) | UpOrInstall (vm : string) | DeleteAndUp (vm : string) | GoneUp (path vm : string) | Converge (vm : string) | CheckVM.
Abbreviation finding := (Finding title line auth_remedy).

Definition is_stale (i : AuthInput) (e : AuthEvidence) : bool :=
  match healedSince (i_Sessions i) with
  | Some healed => negb (e_At e =? 0) && (e_At e <? healed)
  | None => false
  end.
(** [splitStale] *)
Definition splitStale (i : AuthInput) (ids : list string) : list line * list line :=
  foldr (λ e '(live, stale),
    if negb (existsb (String.eqb (e_ID e)) ids) then (live, stale)
    else if is_stale i e then (live, Stale (label e) (e_At e) :: stale)
    else (Live (label e) :: live, stale)) ([], []) (i_Evidence i).
Definition healedSessionsLine (i : AuthInput) : line :=
  HealedSessions (MirrorSince (i_Sessions i)) (SyncSince (i_Sessions i)).

Definition bad_mode (s : SecretFile) : bool := negb (String.eqb (s_Mode s) "") && negb (String.eqb (s_Mode s) "600").
Definition bad_owner (s : SecretFile) : bool := negb (String.eqb (s_Owner s) "") && negb (String.eqb (s_Owner s) "root:root").
Definition bad_files (i : AuthInput) : list line :=
  let m := i_Mac i in let g := i_Guest i in
  (if s_Present m then
     (if s_Malformed m then [MacMalformed (s_Path m) (s_Why m)] else []) ++ (if bad_mode m then [MacMode (s_Path m) (s_Mode m)] else [])
   else []) ++
  (if s_Present g then
     (if s_Malformed g then [GuestMalformed (s_Path g) (s_Why g)] else []) ++ (if bad_mode g then [GuestMode (s_Path g) (s_Mode g)] else []) ++
     (if bad_owner g then [GuestOwner (s_Path g) (s_Owner g)] else [])
   else []).
Definition checkAuthFilePerms (i : AuthInput) : option finding :=
  let bad := bad_files i in
  let '(live, stale) := splitStale i [IDAuthFilePerms] in
  match bad, live, stale with
  | [], [], [] => None
  | [], [], _ => Some (MkFinding IDAuthFilePerms TPastUnusable StatusInfo (healedSessionsLine i :: stale) None)
  | _, _, _ =>
      let gone := match bad with [] => negb (s_Present (i_Mac i)) && negb (String.eqb (s_Path (i_Mac i)) "") | _ => false end in
      Some (MkFinding IDAuthFilePerms (if gone then TSecretGone else TUnusable) StatusFail (bad ++ live ++ stale)
        (Some (if gone then GoneUp (s_Path (i_Mac i)) (i_VM i) else DeleteAndUp (i_VM i))))
  end.

Definition primaryAuthFinding (i : AuthInput) : finding :=
  let m := i_Mac i in let g := i_Guest i in
  if negb (String.eqb (i_MacSkip i) "") then MkFinding IDAuth TNotCompared StatusSkip [Said (i_MacSkip i)] None
  else if negb (String.eqb (i_GuestSkip i) "") || (s_Present g && String.eqb (s_Digest g) "") then
    let reason := firstNonEmpty [i_GuestSkip i; s_Why g; "the guest digest could not be read"] in
    if negb (s_Present m) then
      MkFinding IDAuth TNoMacSecret StatusWarn [MacAbsent (s_Path m); Unauthenticated; NotCompared reason] (Some (Up (i_VM i)))
    else MkFinding IDAuth TGuestNotCompared StatusSkip [MacPresent (s_Path m) (prefix m); NotCompared reason] None
  else match s_Present m, s_Present g with
  | false, false => MkFinding IDAuth TUnauthenticated StatusWarn [MacAbsent (s_Path m); GuestAbsent (s_Path g); Unauthenticated] (Some (Up (i_VM i)))
  | false, true =>
      MkFinding IDAuthMacMissing TMacHasNone StatusFail
        ([GuestPresent (s_Path g) (prefix g); MacAbsent (s_Path m)] ++ (Live <$> evidenceFor i IDAuthMacMissing)) (Some (UpOrInstall (i_VM i)))
  | true, false =>
      MkFinding IDAuthGuestMissing TGuestHasNone StatusFail
        ([MacPresent (s_Path m) (prefix m); GuestAbsent (s_Path g)] ++ (Live <$> evidenceFor i IDAuthGuestMissing)) (Some (Up (i_VM i)))
  | true, true =>
      if negb (String.eqb (s_Digest m) (s_Digest g)) then
        MkFinding IDAuthMismatch TDifferent StatusFail
          ([MacPresent (s_Path m) (prefix m); GuestPresent (s_Path g) (prefix g)] ++ (Live <$> evidenceFor i IDAuthMismatch)) (Some (Converge (i_VM i)))
      else MkFinding IDAuth TMutual StatusOK [SameSecret (prefix m)] None
  end.

Definition digestsMatch (i : AuthInput) : bool :=
  s_Present (i_Mac i) && s_Present (i_Guest i) && negb (String.eqb (s_Digest (i_Mac i)) "") &&
  String.eqb (s_Digest (i_Mac i)) (s_Digest (i_Guest i)).
Definition checkWrongPeer (i : AuthInput) : option finding :=
  if negb (digestsMatch i) then None
  else match splitStale i [IDAuthMismatch; IDAuthWrongPeer] with
  | ([], []) => None
  | ([], stale) => Some (MkFinding IDAuthWrongPeer TPastRefusals StatusInfo (healedSessionsLine i :: stale) None)
  | (live, stale) =>
      Some (MkFinding IDAuthWrongPeer TNotThisVM StatusFail
        ([PairMatches (prefix (i_Mac i)); ResolutionSource (firstNonEmpty [i_ResolutionSource i; "unknown"])] ++ live ++ stale) (Some CheckVM))
  end.
Definition opt_list {A} (o : option A) : list A := match o with Some a => [a] | None => [] end.
Definition CheckAuth (i : AuthInput) : list finding :=
  opt_list (checkAuthFilePerms i) ++ [primaryAuthFinding i] ++ opt_list (checkWrongPeer i).

(** ** Where the input comes from (gather.go) *)

Inductive stat := NotExist | StatError (why : string) | StatOf (mode : string) (size : Z) (owner : string).
Section gather.
(** The text of a load error. *)
Variable errtext : TransportAuth.load_err → string.
(** The Mac's file: the digest is of the canonical text of the secret. *)
Definition macSecretState (path : string) (st : stat) (f : TransportAuth.file) : SecretFile :=
  match st with
  | NotExist => MkSecretFile path false "" "" 0 "" false ""
  | StatError why => MkSecretFile path false "" "" 0 "" true why
  | StatOf mode size owner =>
      match TransportAuth.Load f with
      | Err e => MkSecretFile path true mode owner size "" true (errtext e)
      | Ok sec => MkSecretFile path true mode owner size (Provision.sha256Hex (TransportAuth.Format sec)) false ""
      end
  end.
(** What the guest script said of the guest's file. *)
Record GuestSecret := MkGuestSecret { gs_Present : bool; gs_Mode : string; gs_Owner : string; gs_Size : Z; gs_Digest : string }.
Definition GuestSecretPath : string := "/etc/drawbridge/transport-secret".
Definition secret_size : Z := 2 * 32 + 1.
Definition guestSecretState (g : GuestSecret) : SecretFile :=
  if negb (gs_Present g) then MkSecretFile GuestSecretPath false "" "" 0 "" false ""
  else
    let bad := negb (gs_Size g =? 0) && negb (gs_Size g =? secret_size) in
    let why := if bad then Itoa (gs_Size g) +:+ " bytes, want " +:+ Itoa secret_size +:+ " (64 hex characters plus a newline)" else "" in
    MkSecretFile GuestSecretPath true (gs_Mode g) (gs_Owner g) (gs_Size g) (gs_Digest g) bad
      (if String.eqb (gs_Digest g) "" then firstNonEmpty [why; "`sudo -n sha256sum` was refused in the guest, so the digests could not be compared"] else why).
Definition authInput (ref : option Ref) (skip : string) (mac : Ref → SecretFile) (ran : bool) (err : string) (g : GuestSecret)
    (logTail : list string) (source : string) (sessions : Sessions) : AuthInput :=
  let absent := MkSecretFile GuestSecretPath false "" "" 0 "" false "" in
  let gskip := if negb (String.eqb skip "") then skip else if negb ran then firstNonEmpty [err; "the guest did not answer"] else "" in
  MkAuthInput
    (match ref with Some r => firstNonEmpty [r_Spec r; "<vm>"] | None => "<vm>" end)
    (match ref with Some r => mac r | None => MkSecretFile "" false "" "" 0 "" false "" end)
    (if String.eqb gskip "" then guestSecretState g else absent)
    (match ref with Some _ => "" | None => firstNonEmpty [skip; "no VM selected, so no per-VM secret path to compare"] end)
    gskip (MatchAuthLog logTail) source sessions.
End gather.

(** ** What is disclosed *)

Definition set_digest (d : string) (s : SecretFile) : SecretFile :=
  MkSecretFile (s_Path s) (s_Present s) (s_Mode s) (s_Owner s) (s_Size s) d (s_Malformed s) (s_Why s).
(** Two files that differ in their digests alone, behind the prefix shown. *)
Definition same_shown (a b : SecretFile) : Prop :=
  set_digest "" a = set_digest "" b ∧ prefix a = prefix b ∧ (s_Digest a = "" ↔ s_Digest b = "").
Lemma prefix_short s : (String.length (prefix s) <= digestPrefixLen)%nat.
Proof.
  unfold prefix. destruct (Nat.ltb_spec (String.length (s_Digest s)) digestPrefixLen); [cbn; unfold digestPrefixLen; lia|].
  rewrite Introspect.str_take_length. lia.
Qed.
Lemma eqb_iff a b c d : (a = b ↔ c = d) → String.eqb a b = String.eqb c d.
Proof. intros H. destruct (String.eqb_spec a b), (String.eqb_spec c d); tauto. Qed.

(** C30: the block discloses nothing of a digest but its first eight
    characters, whether it is known, and whether the two sides' agree: inputs
    that agree on those give the same findings, evidence and remedies to the
    letter. *)
Theorem auth_disclosure i j :
  i_VM i = i_VM j → i_MacSkip i = i_MacSkip j → i_GuestSkip i = i_GuestSkip j → i_Evidence i = i_Evidence j →
  i_ResolutionSource i = i_ResolutionSource j → i_Sessions i = i_Sessions j →
  same_shown (i_Mac i) (i_Mac j) → same_shown (i_Guest i) (i_Guest j) →
  (s_Digest (i_Mac i) = s_Digest (i_Guest i) ↔ s_Digest (i_Mac j) = s_Digest (i_Guest j)) →
  CheckAuth i = CheckAuth j ∧
  (String.length (prefix (i_Mac i)) <= 8)%nat ∧ (String.length (prefix (i_Guest i)) <= 8)%nat.
Proof.
  intros H1 H2 H3 H4 H5 H6 ([= Hm1 Hm2 Hm3 Hm4 Hm5 Hm6 Hm7] & Hp & Hme%eqb_iff) ([= Hg1 Hg2 Hg3 Hg4 Hg5 Hg6 Hg7] & Hq & Hge%eqb_iff) HE%eqb_iff.
  split; [|split; apply prefix_short].
  assert (∀ ids, splitStale i ids = splitStale j ids) as HS by (intros; unfold splitStale, is_stale; by rewrite H4, H6).
  assert (∀ id, evidenceFor i id = evidenceFor j id) as HV by (intros; unfold evidenceFor; by rewrite H4).
  assert (digestsMatch i = digestsMatch j) as HD by (unfold digestsMatch; by rewrite Hm2, Hg2, Hme, HE).
  unfold CheckAuth. f_equal; [|f_equal].
  - unfold checkAuthFilePerms, bad_files, bad_mode, bad_owner, healedSessionsLine.
    by rewrite HS, H1, H6, Hm1, Hm2, Hm3, Hm6, Hm7, Hg1, Hg2, Hg3, Hg4, Hg6, Hg7.
  - f_equal. unfold primaryAuthFinding. by rewrite !HV, H1, H2, H3, Hm1, Hm2, Hg1, Hg2, Hg7, Hge, HE, Hp, Hq.
  - unfold checkWrongPeer, healedSessionsLine. by rewrite HD, HS, H5, H6, Hp.
Qed.
Definition ex_mac (digest : string) : SecretFile := MkSecretFile "/m" true "600" "u" 65 digest false "".
Definition ex_guest (digest : string) : SecretFile := MkSecretFile GuestSecretPath true "600" "root:root" 65 digest false "".
Definition ex_input (mac guest : string) (ev : list AuthEvidence) (s : Sessions) : AuthInput :=
  MkAuthInput "lima:default" (ex_mac mac) (ex_guest guest) "" "" ev "vznat-direct" s.
Definition no_sessions : Sessions := MkSessions false false 0 0.
Lemma auth_disclosure_witness :
  CheckAuth (ex_input "0123456789abcdef" "fedcba9876543210" [] no_sessions) =
  CheckAuth (ex_input "01234567ffffffff" "fedcba98ffffffff" [] no_sessions).
Proof.
  refine (proj1 (auth_disclosure (ex_input "0123456789abcdef" "fedcba9876543210" [] no_sessions)
    (ex_input "01234567ffffffff" "fedcba98ffffffff" [] no_sessions) eq_refl eq_refl eq_refl eq_refl eq_refl eq_refl _ _ _)).
  - split; [reflexivity|]. split; [vm_compute; reflexivity|]. split; discriminate.
  - split; [reflexivity|]. split; [vm_compute; reflexivity|]. split; discriminate.
  - split; discriminate.
Defined.

(** ** What is concluded *)

(** Evidence of one of these causes that nothing dates before the sessions. *)
Definition live_evidence (i : AuthInput) (ids : list string) : Prop :=
  ∃ e, e ∈ i_Evidence i ∧ e_ID e ∈ ids ∧ is_stale i e = false.
Definition stale_evidence (i : AuthInput) (ids : list string) : Prop :=
  ∃ e, e ∈ i_Evidence i ∧ e_ID e ∈ ids ∧ is_stale i e = true.
(** The guest's side can be compared. *)
Definition comparable (i : AuthInput) : Prop :=
  i_MacSkip i = "" ∧ i_GuestSkip i = "" ∧ (s_Present (i_Guest i) = true → s_Digest (i_Guest i) ≠ "").

Lemma existsb_ids id ids : existsb (String.eqb id) ids = true ↔ id ∈ ids.
Proof.
  rewrite existsb_exists, list_elem_of_In. split; [|by exists id; rewrite String.eqb_refl].
  by intros (x & Hx & ->%String.eqb_eq).
Qed.
Lemma splitStale_nil i ids :
  ((splitStale i ids).1 ≠ [] ↔ live_evidence i ids) ∧ ((splitStale i ids).2 ≠ [] ↔ stale_evidence i ids).
Proof.
  unfold live_evidence, stale_evidence, splitStale. set (l := i_Evidence i). clearbody l.
  induction l as [|e l [IH1 IH2]].
  { assert (∀ P : AuthEvidence → Prop, @nil line ≠ [] ↔ ∃ e, e ∈ [] ∧ P e) as H; [|by split; apply H].
    intros P. split; [done|]. intros (e & He & _). by apply elem_of_nil in He. }
  cbn. set (rec := foldr _ _ l) in *. destruct rec as [lv st]. cbn in *.
  setoid_rewrite elem_of_cons.
  assert (∀ (P : AuthEvidence → Prop) (rest : list line), ¬ P e → (rest ≠ [] ↔ ∃ x, x ∈ l ∧ P x) →
    (rest ≠ [] ↔ ∃ x, (x = e ∨ x ∈ l) ∧ P x)) as HN.
  { intros P rest Hn ->. split; [intros (x & Hx & HP); eauto|]. intros (x & [->|Hx] & HP); [done|eauto]. }
  assert (∀ (P : AuthEvidence → Prop) y (rest : list line), P e → (y :: rest ≠ [] ↔ ∃ x, (x = e ∨ x ∈ l) ∧ P x)) as HY.
  { intros P y rest HP. split; [eauto|done]. }
  destruct (existsb (String.eqb (e_ID e)) ids) eqn:EI; cbn.
  - apply existsb_ids in EI. destruct (is_stale i e) eqn:ES; cbn; split;
      first [apply HY; by split|apply HN; [intros [_ H]; congruence|done]].
  - assert (e_ID e ∉ ids) by (rewrite <- existsb_ids; congruence). split; (apply HN; [tauto|done]).
Qed.
Lemma is_stale_iff i e :
  is_stale i e = true ↔
    MirrorUp (i_Sessions i) = true ∧ SyncUp (i_Sessions i) = true ∧ MirrorSince (i_Sessions i) ≠ 0 ∧ SyncSince (i_Sessions i) ≠ 0 ∧
    e_At e ≠ 0 ∧ e_At e < MirrorSince (i_Sessions i) ∧ e_At e < SyncSince (i_Sessions i).
Proof.
  unfold is_stale, healedSince. destruct (i_Sessions i) as [mu su ms ss]. cbn.
  destruct mu, su; cbn; try naive_solver. destruct (Z.eqb_spec ms 0), (Z.eqb_spec ss 0); cbn; try naive_solver.
  rewrite andb_true_iff, negb_true_iff, Z.eqb_neq, Z.ltb_lt. destruct (Z.ltb_spec ss ms); naive_solver lia.
Qed.
Lemma perms_status i :
  match checkAuthFilePerms i with
  | Some f => (f_Status f = StatusFail ↔ bad_files i ≠ [] ∨ live_evidence i [IDAuthFilePerms]) ∧
      (f_Remedy f = None ↔ f_Status f ∉ [StatusWarn; StatusFail])
  | None => bad_files i = [] ∧ ¬ live_evidence i [IDAuthFilePerms]
  end.
Proof.
  unfold checkAuthFilePerms. destruct (splitStale_nil i [IDAuthFilePerms]) as [HL _].
  destruct (splitStale i [IDAuthFilePerms]) as [live stale]. cbn in HL. set (L := live_evidence _ _) in *. clearbody L.
  destruct (bad_files i) as [|b bad]; [destruct live as [|l live]; [destruct stale as [|s stale]|]|];
    cbn [f_Status f_Remedy]; rewrite ?elem_of_cons, ?elem_of_nil; naive_solver.
Qed.
Lemma wrong_peer_status i :
  match checkWrongPeer i with
  | Some f => (f_Status f = StatusFail ↔ digestsMatch i = true ∧ live_evidence i [IDAuthMismatch; IDAuthWrongPeer]) ∧
      (f_Remedy f = None ↔ f_Status f ∉ [StatusWarn; StatusFail])
  | None => ¬ (digestsMatch i = true ∧ live_evidence i [IDAuthMismatch; IDAuthWrongPeer])
  end.
Proof.
  unfold checkWrongPeer. destruct (digestsMatch i); cbn [negb]; [|naive_solver].
  destruct (splitStale_nil i [IDAuthMismatch; IDAuthWrongPeer]) as [HL _].
  destruct (splitStale i [IDAuthMismatch; IDAuthWrongPeer]) as [live stale]. cbn in HL. set (L := live_evidence _ _) in *. clearbody L.
  destruct live as [|l live]; [destruct stale as [|s stale]|]; cbn [f_Status f_Remedy]; rewrite ?elem_of_cons, ?elem_of_nil; naive_solver.
Qed.
Lemma primary_status i :
  let m := i_Mac i in let g := i_Guest i in let f := primaryAuthFinding i in
  (f_Status f = StatusOK ↔ comparable i ∧ s_Present m = true ∧ s_Present g = true ∧ s_Digest m = s_Digest g) ∧
  (f_Status f = StatusFail ↔ comparable i ∧
     (s_Present m ≠ s_Present g ∨ s_Present m = true ∧ s_Present g = true ∧ s_Digest m ≠ s_Digest g)) ∧
  (f_Remedy f = None ↔ f_Status f ∉ [StatusWarn; StatusFail]).
Proof.
  cbv zeta. unfold comparable, primaryAuthFinding.
  destruct (String.eqb_spec (i_MacSkip i) ""), (String.eqb_spec (i_GuestSkip i) ""), (s_Present (i_Mac i)), (s_Present (i_Guest i)),
    (String.eqb_spec (s_Digest (i_Guest i)) ""), (String.eqb_spec (s_Digest (i_Mac i)) (s_Digest (i_Guest i)));
    cbn [negb orb andb f_Status f_Remedy]; rewrite ?elem_of_cons, ?elem_of_nil; naive_solver.
Qed.
Lemma ExitCode_iff l : ExitCode l = 1 ↔ StatusFail ∈ l.
Proof.
  unfold ExitCode. destruct (existsb _ l) eqn:E.
  - split; [|done]. intros _. apply existsb_exists in E as (s & Hs & E). apply bool_decide_eq_true in E as ->. by apply list_elem_of_In.
  - split; [done|]. intros H. apply not_true_iff_false in E. exfalso. apply E, existsb_exists. exists StatusFail.
    split; [by apply list_elem_of_In|done].
Qed.

(** The transport-authentication verdict. It is good exactly when both
    files are there with one known digest; it fails the run exactly when one
    side alone has a secret or their digests differ, when a file is unusable or
    the daemon said so since, or when the files agree and the wire refused
    nonetheless; evidence older than both live sessions counts for nothing, and
    evidence without a date, or without two dated sessions, always counts. A
    remedy is given exactly with a warning or a failure. *)
Theorem auth_verdict i :
  let m := i_Mac i in let g := i_Guest i in
  (f_Status (primaryAuthFinding i) = StatusOK ↔
     comparable i ∧ s_Present m = true ∧ s_Present g = true ∧ s_Digest m = s_Digest g) ∧
  (ExitCode (f_Status <$> CheckAuth i) = 1 ↔
     comparable i ∧ (s_Present m ≠ s_Present g ∨ s_Present m = true ∧ s_Present g = true ∧ s_Digest m ≠ s_Digest g) ∨
     bad_files i ≠ [] ∨ live_evidence i [IDAuthFilePerms] ∨
     digestsMatch i = true ∧ live_evidence i [IDAuthMismatch; IDAuthWrongPeer]) ∧
  (∀ e, is_stale i e = true ↔
     MirrorUp (i_Sessions i) = true ∧ SyncUp (i_Sessions i) = true ∧ MirrorSince (i_Sessions i) ≠ 0 ∧ SyncSince (i_Sessions i) ≠ 0 ∧
     e_At e ≠ 0 ∧ e_At e < MirrorSince (i_Sessions i) ∧ e_At e < SyncSince (i_Sessions i)) ∧
  (∀ f, f ∈ CheckAuth i → (f_Remedy f = None ↔ f_Status f ∉ [StatusWarn; StatusFail])).
Proof.
  cbv zeta. pose proof (perms_status i) as H1. pose proof (primary_status i) as (H2 & H3 & H4). pose proof (wrong_peer_status i) as H5.
  split; [done|]. split; [|split; [intros e; apply is_stale_iff|]].
  - rewrite ExitCode_iff, <- H3. unfold CheckAuth. clear H2 H3 H4.
    set (L := live_evidence i [IDAuthFilePerms]) in *. set (W := digestsMatch i = true ∧ _) in *. set (B := bad_files i) in *.
    clearbody L W B.
    destruct (checkAuthFilePerms i) as [f1|], (checkWrongPeer i) as [f2|]; cbn;
      rewrite ?elem_of_cons, ?elem_of_nil, ?(symmetry_iff (=) StatusFail); try destruct H1 as [H1 H1']; try destruct H5 as [H5 H5'];
      rewrite ?H1, ?H5; tauto.
  - intros f. unfold CheckAuth. rewrite !elem_of_app.
    intros [Hf|[->%list_elem_of_singleton|Hf]]; [|done|].
    + destruct (checkAuthFilePerms i); [|by apply elem_of_nil in Hf]. apply list_elem_of_singleton in Hf as ->. apply H1.
    + destruct (checkWrongPeer i); [|by apply elem_of_nil in Hf]. apply list_elem_of_singleton in Hf as ->. apply H5.
Qed.

(** An unusable Mac file has no digest, and is then also reported as different
    from the guest's. *)
Lemma unknown_digest_mismatch errtext g :
  gs_Present g = true → gs_Digest g ≠ "" →
  let i := MkAuthInput "lima:default" (macSecretState errtext "/m" (StatOf "600" 3 "u") (TransportAuth.Content "junk")) (guestSecretState g)
    "" "" [] "" no_sessions in
  prefix (i_Mac i) = "unknown" ∧
  f_Title <$> CheckAuth i = [TUnusable; TDifferent].
Proof.
  intros H1 H2. cbv zeta. unfold guestSecretState. rewrite H1. cbn [negb]. split; [vm_compute; reflexivity|].
  unfold CheckAuth, checkAuthFilePerms, checkWrongPeer, digestsMatch, primaryAuthFinding, splitStale, bad_files.
  cbn -[macSecretState String.eqb]. change (macSecretState _ _ _ _) with (MkSecretFile "/m" true "600" "u" 3 "" true (errtext TransportAuth.ErrMalformed)).
  cbn -[String.eqb]. rewrite (proj2 (String.eqb_neq (gs_Digest g) "")) by done.
  rewrite (proj2 (String.eqb_neq "" (gs_Digest g))) by done. done.
Qed.
