(* ===== verification/DoctorGuest.v ===== *)
(** * DoctorGuest: what doctor asks of the guest

    The guest script's output and its reader, checks 2 and 3 of
    [src/internal/doctor/checks.go], the podman machine's own facts
    (podman.go) and the functions of gather.go that assemble them. Lines of
    evidence and titles are constructors, with what is printed into them as
    arguments; the kernel probe's own evidence sentences are left out. *)

From S2P Require Import Prelude GoStr GoPath DoctorAuth.
From S2P Require Preflight VmRef VmRecord Forwarding Provision.
Open Scope string_scope.
Open Scope list_scope.
Open Scope Z_scope.

(** ** The probe of the guest *)

Definition ControlPort : Z := 4777.
Record Listener := MkListener { l_Addr : string; l_Port : Z }.
Record GuestProbe := MkGuest {
  g_Ran : bool; g_Err : string; g_Kernel : string; g_BTF : bool; g_CGroup2 : bool; g_Systemd : bool; g_Sudo : bool;
  g_Features : Preflight.Probe; g_OCI : bool; g_Runc : string; g_Crun : string; g_AgentActive : string;
  g_AgentEnabled : string; g_AgentTransient : bool; g_AgentVersion : string; g_GuestIPs : list string;
  g_Listeners : list Listener; g_Secret : GuestSecret; g_SELinux : string; g_UnprivPort : string;
  g_ContainersFS : string; g_OCIRuntime : string; g_Dropin : bool; g_Gvproxy : string; g_GvproxyErr : string;
  g_Journal : list string }.
(** A probe with nothing read, and one with its blocks. *)
Definition guest0 (ran : bool) (err : string) : GuestProbe :=
  MkGuest ran err "" false false false false Preflight.probe0 false "" "" "" "" false "" [] []
    (MkGuestSecret false "" "" 0 "") "" "" "" "" false "" "" [].
Definition with_lists (ls : list Listener) (gvp : string) (js : list string) (g : GuestProbe) : GuestProbe :=
  let '(MkGuest ran err ke bt cg sy su fe oc ru cr aa ae at_ av ip li se sl up fs rt dr gv ge jo) := g in
  MkGuest ran err ke bt cg sy su fe oc ru cr aa ae at_ av ip ls se sl up fs rt dr gvp ge js.
Section parse.
(** [json.Unmarshal] of the agent's feature report. *)
Variable unmarshal : string → option Preflight.Report.

Definition is_yes (v : string) : bool := String.eqb v "yes".
(** The value of one key. *)
Definition set_guest (k v : string) (g : GuestProbe) : GuestProbe :=
  let '(MkGuest ran err ke bt cg sy su fe oc ru cr aa ae at_ av ip li se sl up fs rt dr gv ge jo) := g in
  let yes := is_yes v in
  if String.eqb k "kernel" then MkGuest ran err v bt cg sy su fe oc ru cr aa ae at_ av ip li se sl up fs rt dr gv ge jo
  else if existsb (String.eqb k) [Preflight.Key; Preflight.KeyArch; Preflight.KeyDirectCalls] then MkGuest ran err ke bt cg sy su (default fe (Preflight.Set_ unmarshal k v fe)) oc ru cr aa ae at_ av ip li se sl up fs rt dr gv ge jo
  else if String.eqb k "btf" then MkGuest ran err ke yes cg sy su fe oc ru cr aa ae at_ av ip li se sl up fs rt dr gv ge jo
  else if String.eqb k "cgroup2" then MkGuest ran err ke bt yes sy su fe oc ru cr aa ae at_ av ip li se sl up fs rt dr gv ge jo
  else if String.eqb k "systemd" then MkGuest ran err ke bt cg yes su fe oc ru cr aa ae at_ av ip li se sl up fs rt dr gv ge jo
  else if String.eqb k "sudo" then MkGuest ran err ke bt cg sy yes fe oc ru cr aa ae at_ av ip li se sl up fs rt dr gv ge jo
  else if String.eqb k "oci" then MkGuest ran err ke bt cg sy su fe yes ru cr aa ae at_ av ip li se sl up fs rt dr gv ge jo
  else if String.eqb k "runc" then MkGuest ran err ke bt cg sy su fe oc v cr aa ae at_ av ip li se sl up fs rt dr gv ge jo
  else if String.eqb k "crun" then MkGuest ran err ke bt cg sy su fe oc ru v aa ae at_ av ip li se sl up fs rt dr gv ge jo
  else if String.eqb k "agent-active" then MkGuest ran err ke bt cg sy su fe oc ru cr v ae at_ av ip li se sl up fs rt dr gv ge jo
  else if String.eqb k "agent-enabled" then MkGuest ran err ke bt cg sy su fe oc ru cr aa v at_ av ip li se sl up fs rt dr gv ge jo
  else if String.eqb k "agent-transient" then MkGuest ran err ke bt cg sy su fe oc ru cr aa ae yes av ip li se sl up fs rt dr gv ge jo
  else if String.eqb k "agent-version" then MkGuest ran err ke bt cg sy su fe oc ru cr aa ae at_ v ip li se sl up fs rt dr gv ge jo
  else if String.eqb k "guest-ips" then MkGuest ran err ke bt cg sy su fe oc ru cr aa ae at_ av (Fields v) li se sl up fs rt dr gv ge jo
  else if String.eqb k "secret" then MkGuest ran err ke bt cg sy su fe oc ru cr aa ae at_ av ip li (MkGuestSecret (String.eqb v "present") (gs_Mode se) (gs_Owner se) (gs_Size se) (gs_Digest se)) sl up fs rt dr gv ge jo
  else if String.eqb k "secret-mode" then MkGuest ran err ke bt cg sy su fe oc ru cr aa ae at_ av ip li (MkGuestSecret (gs_Present se) v (gs_Owner se) (gs_Size se) (gs_Digest se)) sl up fs rt dr gv ge jo
  else if String.eqb k "secret-owner" then MkGuest ran err ke bt cg sy su fe oc ru cr aa ae at_ av ip li (MkGuestSecret (gs_Present se) (gs_Mode se) v (gs_Size se) (gs_Digest se)) sl up fs rt dr gv ge jo
  else if String.eqb k "secret-size" then MkGuest ran err ke bt cg sy su fe oc ru cr aa ae at_ av ip li (match ParseInt v 10 64 with Ok n => MkGuestSecret (gs_Present se) (gs_Mode se) (gs_Owner se) n (gs_Digest se) | Err _ => se end) sl up fs rt dr gv ge jo
  else if String.eqb k "secret-digest" then MkGuest ran err ke bt cg sy su fe oc ru cr aa ae at_ av ip li (MkGuestSecret (gs_Present se) (gs_Mode se) (gs_Owner se) (gs_Size se) v) sl up fs rt dr gv ge jo
  else if String.eqb k "selinux" then MkGuest ran err ke bt cg sy su fe oc ru cr aa ae at_ av ip li se v up fs rt dr gv ge jo
  else if String.eqb k "unpriv_port" then MkGuest ran err ke bt cg sy su fe oc ru cr aa ae at_ av ip li se sl v fs rt dr gv ge jo
  else if String.eqb k "containers_fs" then MkGuest ran err ke bt cg sy su fe oc ru cr aa ae at_ av ip li se sl up v rt dr gv ge jo
  else if String.eqb k "oci_runtime" then MkGuest ran err ke bt cg sy su fe oc ru cr aa ae at_ av ip li se sl up fs v dr gv ge jo
  else if String.eqb k "dropin" then MkGuest ran err ke bt cg sy su fe oc ru cr aa ae at_ av ip li se sl up fs rt yes gv ge jo
  else if String.eqb k "gvproxy-err" then MkGuest ran err ke bt cg sy su fe oc ru cr aa ae at_ av ip li se sl up fs rt dr gv v jo
  else g.

(** [strings.EqualFold] with LISTEN: besides its own letters only U+017F folds
    into one of them. *)
Definition is_LISTEN (s : string) : bool :=
  existsb (String.eqb (ToLower s)) ["listen"; "li" +:+ String "197" (String "191" "ten")].
Definition parseSSLine (line : string) : option Listener :=
  match Fields line with
  | state :: _ :: _ :: local :: _ =>
      if negb (is_LISTEN state) then None
      else match LastIndexByte ":" local with
      | None => None
      | Some i =>
          match Atoi (str_drop (S i) local) with
          | Err _ => None
          | Ok port =>
              let addr := TrimSuffix (TrimPrefix (str_take i local) "[") "]" in
              if String.eqb addr "%" then None else Some (MkListener addr port)
          end
      end
  | _ => None
  end.

(** The reader's variables: which block it is in, what it collected. *)
Record scan := MkScan {
  sc_ss : bool; sc_gv : bool; sc_j : bool; sc_gvproxy : list string; sc_listeners : list Listener;
  sc_journal : list string; sc_g : GuestProbe }.
Definition scan0 : scan := MkScan false false false [] [] [] (guest0 true "").
Definition guest_line (s : scan) (raw : string) : scan :=
  let '(MkScan ss gv j lines ls js g) := s in
  let line := trim_right (Ascii.eqb "013") raw in
  let t := TrimSpace line in
  if String.eqb t "ss-begin" then MkScan true gv j lines ls js g
  else if String.eqb t "ss-end" then MkScan false gv j lines ls js g
  else if String.eqb t "gvproxy-begin" then MkScan ss true j lines ls js g
  else if String.eqb t "gvproxy-end" then MkScan ss false j lines ls js g
  else if String.eqb t "journal-begin" then MkScan ss gv true lines ls js g
  else if String.eqb t "journal-end" then MkScan ss gv false lines ls js g
  else if gv then MkScan ss gv j (lines ++ [line]) ls js g
  else if j then MkScan ss gv j lines ls (if String.eqb t "" then js else js ++ [t]) g
  else if ss then MkScan ss gv j lines (match parseSSLine line with Some l => ls ++ [l] | None => ls end) js g
  else match Preflight.cut_line line with
  | Some (k, v) => MkScan ss gv j lines ls js (set_guest k v g)
  | None => s
  end.
Definition collected (s : scan) : GuestProbe :=
  with_lists (sc_listeners s) (TrimSpace (Join (sc_gvproxy s) (String "010" ""))) (sc_journal s) (sc_g s).
Definition ParseGuestProbe (out : string) : GuestProbe := collected (foldl guest_line scan0 (Split "010" out)).
End parse.

(** ** The podman machine (podman.go) *)

Record PublishEvidence := MkPublish { pe_Known : bool; pe_Err : string; pe_Local : string; pe_Remote : string; pe_Journal : list string }.
Record DropinEvidence := MkDropin {
  de_Present : bool; de_Path : string; de_Shared : bool; de_FS : string; de_MacPath : string;
  de_RuntimePath : string; de_WrapperPath : string; de_Machines : list string }.
Record PodmanInput := MkPodmanInput {
  pm_Target : bool; pm_Instance : string; pm_Config : VmRecord.MachineConfig; pm_ConfigErr : string;
  pm_Record : option VmRecord.VmRec; pm_RecordPath : string; pm_RecordErr : option VmRecord.read_err;
  pm_Disagreements : list VmRecord.diff; pm_EUID0 : bool; pm_PinnedAgent : string;
  pm_Publish : PublishEvidence; pm_Dropin : DropinEvidence }.
Definition pm_RecordPresent (pm : PodmanInput) : bool := match pm_Record pm with Some _ => true | None => false end.
Definition config0 : VmRecord.MachineConfig := VmRecord.MkMachine "" false 0.
Definition publish0 : PublishEvidence := MkPublish false "" "" "" [].
Definition dropin0 : DropinEvidence := MkDropin false "" false "" "" "" "" [].
(** The zero value: not a podman machine. *)
Definition podman0 : PodmanInput := MkPodmanInput false "" config0 "" None "" None [] false "" publish0 dropin0.

Definition podmanPublished (p : PublishEvidence) : bool * bool :=
  if negb (pe_Known p) then (false, false) else (negb (String.eqb (pe_Local p) ""), true).

Inductive podman_line :=
| Registers (path wrapper : string) | InfoPath (path : string) (not_wrapper : bool) | SharedMount (fs : string)
| OnThisMac (path : string) | SeenBy (machines : list string)
| JournalLine (l : string) | TableUnread (why : string) | NotForwarded | Forwards (local remote : string)
| PinnedIs (agent : string) | NoDaemonPin | RecordUnread (e : VmRecord.read_err) | NoRecordAt (path : string)
| RecordIs (path endpoint transport : string) | ConfigUnread (why : string) | Disagrees (d : VmRecord.diff).
Definition when (b : bool) {A} (x : A) : list A := if b then [x] else [].
Definition podmanOCIEvidence (d : DropinEvidence) : list podman_line :=
  if negb (de_Present d) then []
  else
    [Registers (de_Path d) (de_WrapperPath d)] ++
    when (negb (String.eqb (de_RuntimePath d) ""))
      (InfoPath (de_RuntimePath d) (negb (String.eqb (de_WrapperPath d) "") && negb (String.eqb (de_RuntimePath d) (de_WrapperPath d)))) ++
    if negb (de_Shared d) then []
    else [SharedMount (de_FS d)] ++ when (negb (String.eqb (de_MacPath d) "")) (OnThisMac (de_MacPath d)) ++
      match de_Machines d with [] => [] | ms => [SeenBy ms] end.
Definition podmanAgentEvidence (p : PublishEvidence) : list podman_line :=
  (JournalLine <$> pe_Journal p) ++
  [if negb (pe_Known p) then TableUnread (firstNonEmpty [pe_Err p; "no reason given"])
   else if String.eqb (pe_Local p) "" then NotForwarded else Forwards (pe_Local p) (pe_Remote p)].
Definition podmanResolutionEvidence (pm : PodmanInput) : list podman_line :=
  if pm_EUID0 pm then [if String.eqb (pm_PinnedAgent pm) "" then NoDaemonPin else PinnedIs (pm_PinnedAgent pm)]
  else
    [match pm_RecordErr pm, pm_Record pm with
     | Some e, _ => RecordUnread e
     | None, None => NoRecordAt (pm_RecordPath pm)
     | None, Some r => RecordIs (pm_RecordPath pm) (VmRecord.rec_Endpoint r) (VmRecord.rec_Transport r)
     end] ++
    when (negb (String.eqb (pm_ConfigErr pm) "")) (ConfigUnread (pm_ConfigErr pm)) ++ (Disagrees <$> pm_Disagreements pm).

(** *** What gather.go feeds it *)

Section gather.
(** [json.Unmarshal] of gvproxy's table. *)
Variable entries_of : string → option (list Forwarding.gvproxyForward).
Definition DefaultAgentPort : Z := 4777.
(** The entry that carries the transport: the guest side's port, as spelled. *)
Definition carries (e : Forwarding.gvproxyForward) : bool :=
  match SplitHostPort (Forwarding.gv_Remote e) with
  | Ok (_, port) => String.eqb port (Itoa DefaultAgentPort)
  | Err _ => false
  end.
Definition publishEvidence (g : GuestProbe) : PublishEvidence :=
  let no why := MkPublish false why "" "" (g_Journal g) in
  if negb (String.eqb (g_GvproxyErr g) "") then no (g_GvproxyErr g)
  else if String.eqb (TrimSpace (g_Gvproxy g)) "" then no "gvproxy's forward table was empty"
  else match entries_of (g_Gvproxy g) with
  | None => no "gvproxy's forward table did not parse"
  | Some es =>
      match List.find carries es with
      | Some e => MkPublish true "" (Forwarding.gv_Local e) (Forwarding.gv_Remote e) (g_Journal g)
      | None => MkPublish true "" "" "" (g_Journal g)
      end
  end.
(** The state of the forwarder, or why it is not known. *)
Definition podmanForwarding (inst : string) (g : GuestProbe) : result (string + Forwarding.fwd_err) Forwarding.Forwarding :=
  if negb (String.eqb (g_GvproxyErr g) "") then Err (inl (g_GvproxyErr g))
  else match Forwarding.ParseGvproxyForwards entries_of inst ("drawbridge-gvproxy=ok" +:+ String "010" (g_Gvproxy g)) with
  | (_, Some e) => Err (inr e)
  | (f, None) => Ok f
  end.
Definition sharedContainersFS (fs : string) : bool := existsb (String.eqb fs) ["virtiofs"; "9p"; "nfs"; "nfs4"; "fuse.sshfs"].
(** [machine]: the machine's configuration or why it cannot be read; [pinned]:
    the installed daemon's -agent; [read]: the record; [mac_dropin]: the
    drop-in's path on this Mac where it is really there. *)
Definition podmanInput (provider instance : string) (g : GuestProbe) (insts : list VmRef.Instance) (euid0 : bool)
  (machine : result string VmRecord.MachineConfig) (pinned : option string) (record_path : string)
  (read : result VmRecord.read_err VmRecord.VmRec) (mac_dropin : option string) : PodmanInput :=
  if negb (String.eqb provider VmRef.ProviderPodman) then podman0
  else
    let machines := (λ i, VmRef.i_Provider i +:+ ":" +:+ VmRef.i_Name i) <$>
      List.filter (λ i, String.eqb (VmRef.i_Provider i) VmRef.ProviderPodman && negb (String.eqb (VmRef.i_Name i) instance)) insts in
    let '(cfg, cfg_err) := match machine with Ok c => (c, "") | Err e => (config0, e) end in
    let rec := if euid0 then None else match read with Ok r => Some r | Err _ => None end in
    let fs := TrimSpace (g_ContainersFS g) in
    MkPodmanInput true instance cfg cfg_err rec
      (if euid0 then "" else record_path)
      (if euid0 then None else match read with Err VmRecord.ErrAbsent | Ok _ => None | Err e => Some e end)
      (match rec with Some r => if String.eqb cfg_err "" then VmRecord.Disagreements r cfg else [] | None => [] end)
      euid0 (if euid0 then default "" pinned else "")
      (publishEvidence g)
      (MkDropin (g_Dropin g) Provision.DropinPath (sharedContainersFS fs) fs
        (if g_Dropin g && sharedContainersFS fs then default "" mac_dropin else "")
        (g_OCIRuntime g) (Provision.WrapperPath Provision.EnginePodman) machines).
End gather.

(** ** 2. guest-prereqs *)

Definition IDGuestPrereqs : string := "guest-prereqs".
Definition IDAgent : string := "agent".
Definition AgentUnit : string := "drawbridge-agent.service".
Definition minKernel : Z * Z := (5, 7).
Definition minRunc : list Z := [1; 1; 0].
Definition minCrun : list Z := [0; 19; 0].

Definition parseKernel (rel : string) : option (Z * Z) :=
  match Preflight.digit_fields rel with
  | a :: b :: _ => match Atoi a, Atoi b with Ok maj, Ok min => Some (maj, min) | _, _ => None end
  | _ => None
  end.
(** The number a component opens with: what stands before its first dash. *)
Definition component (s : string) : option Z :=
  match Split "-" s with n :: _ => match Atoi n with Ok v => Some v | Err _ => None end | [] => None end.
Definition version_of (f : string) : option (list Z) :=
  let parts := Split "." (TrimPrefix f "v") in
  if (length parts <? 2)%nat then None
  else v ← mapM component (take 3 parts); Some (v ++ replicate (3 - length v) 0).
Definition parseRuncVersion (line : string) : option (list Z) := head (omap version_of (Fields line)).
Fixpoint olderThan (v min : list Z) : bool :=
  match v, min with
  | x :: v, m :: min => if x =? m then olderThan v min else x <? m
  | _, _ => false
  end.

Inductive guest_note :=
| Skipped (why : string) | DidNotAnswer (why : string)
| Prereqs (kernel : string) (btf cgroup2 systemd sudo : bool) | SELinuxIs (mode : string) | UnprivPortIs (port : string)
| KernelProblem (p : list Preflight.problem) | NoListenerPath | ProvisionedOCI (runtimes : list string)
| Podman (l : podman_line)
| UnitIs (unit : string) (transient : bool) | ListeningOn (addrs : list string) | NothingListening
| PublishesItself | NoVZNAT.
Inductive prereq_title := PSkipped | PNoAnswer | PNoSystemd | PNoBTF | PNoCGroup2 | PNoSudo
| PKernel (kernel : string) (st : Preflight.Status) | PKernelOld (kernel : string)
| PCrunOld (v : list Z) | PRuncOld (v : list Z) | POk (kernel : string).
Inductive prereq_remedy := UseUbuntu | NeedBTF | NeedCGroup2 | NeedSudo | Kernel_ (r : Preflight.remedy)
| NewerKernel | UpgradeCrun | UpgradeRunc.

Definition podmanGuestNotes (g : GuestProbe) (pm : PodmanInput) : list guest_note :=
  if negb (pm_Target pm) then []
  else when (negb (String.eqb (g_SELinux g) "")) (SELinuxIs (g_SELinux g)) ++
    when (negb (String.eqb (g_UnprivPort g) "") && negb (String.eqb (g_UnprivPort g) "0") && negb (VmRecord.mc_Rootful (pm_Config pm)))
      (UnprivPortIs (g_UnprivPort g)).
Definition runtimeLine (g : GuestProbe) : list string :=
  when (negb (String.eqb (g_Runc g) "")) (g_Runc g) ++ when (negb (String.eqb (g_Crun g) "")) (g_Crun g).
(** The part after the kernel: the wrapper's floor and the runtimes. *)
Definition check_runtimes (g : GuestProbe) (pm : PodmanInput) (ev : list guest_note) : Finding prereq_title guest_note prereq_remedy :=
  let f t s ev r := MkFinding IDGuestPrereqs t s ev r in
  let ev := ev ++ when (g_OCI g) (ProvisionedOCI (runtimeLine g)) ++
    (if g_OCI g then Podman <$> podmanOCIEvidence (pm_Dropin pm) else []) in
  let old_crun := match (if pm_Target pm && negb (String.eqb (g_Crun g) "") then parseRuncVersion (g_Crun g) else None) with
    | Some v => if olderThan v minCrun then Some v else None | None => None end in
  let old_runc := match parseRuncVersion (g_Runc g) with
    | Some v => if olderThan v minRunc && String.eqb (g_Crun g) "" then Some v else None | None => None end in
  if negb (g_OCI g) then f (POk (g_Kernel g)) StatusOK ev None
  else match old_crun, old_runc with
  | Some v, _ => f (PCrunOld v) StatusWarn ev (Some UpgradeCrun)
  | None, Some v => f (PRuncOld v) StatusWarn ev (Some UpgradeRunc)
  | None, None => f (POk (g_Kernel g)) StatusOK ev None
  end.
Definition CheckGuestPrereqs (g : GuestProbe) (skip : string) (pm : PodmanInput) : Finding prereq_title guest_note prereq_remedy :=
  let f t s ev r := MkFinding IDGuestPrereqs t s ev r in
  let ev := Prereqs (g_Kernel g) (g_BTF g) (g_CGroup2 g) (g_Systemd g) (g_Sudo g) :: podmanGuestNotes g pm in
  if negb (String.eqb skip "") then f PSkipped StatusSkip [Skipped skip] None
  else if negb (g_Ran g) then f PNoAnswer StatusSkip [DidNotAnswer (g_Err g)] None
  else if negb (g_Systemd g) then f PNoSystemd StatusFail ev (Some UseUbuntu)
  else if negb (g_BTF g) then f PNoBTF StatusFail ev (Some NeedBTF)
  else if negb (g_CGroup2 g) then f PNoCGroup2 StatusFail ev (Some NeedCGroup2)
  else if negb (g_Sudo g) then f PNoSudo StatusFail ev (Some NeedSudo)
  else
    let kv := Preflight.Classify (g_Features g) (g_Kernel g) in
    let bad s := f (PKernel (g_Kernel g) (Preflight.vd_Status kv)) s (ev ++ [KernelProblem (Preflight.vd_Problems kv)])
      (Kernel_ <$> Preflight.vd_Remedy kv) in
    match Preflight.vd_Status kv with
    | Preflight.Fail => bad StatusFail
    | Preflight.Warn => bad StatusWarn
    | Preflight.OK =>
        match parseKernel (g_Kernel g) with
        | Some v => if Preflight.below v minKernel then f (PKernelOld (g_Kernel g)) StatusWarn (ev ++ [NoListenerPath]) (Some NewerKernel)
                    else check_runtimes g pm ev
        | None => check_runtimes g pm ev
        end
    end.

(** ** 3. agent *)

Record AgentBind := MkBind { b_Loopback : bool; b_VZNAT : bool; b_Wildcard : bool; b_Any : bool; b_Addrs : list string }.
Definition bind0 : AgentBind := MkBind false false false false [].
Definition bind_row (guestIPs : list string) (b : AgentBind) (l : Listener) : AgentBind :=
  if negb (l_Port l =? ControlPort) then b
  else
    let '(MkBind lo vz wi _ addrs) := b in
    let addrs := addrs ++ [l_Addr l] in
    if existsb (String.eqb (l_Addr l)) ["127.0.0.1"; "::1"] then MkBind true vz wi true addrs
    else if existsb (String.eqb (l_Addr l)) ["0.0.0.0"; "::"; "*"] then MkBind lo vz true true addrs
    else if existsb (String.eqb (l_Addr l)) guestIPs then MkBind lo true wi true addrs
    else MkBind lo vz wi true addrs.
Definition BindOf (ls : list Listener) (guestIPs : list string) : AgentBind := foldl (bind_row guestIPs) bind0 ls.
Definition Reachable (b : AgentBind) : bool := b_VZNAT b || b_Wildcard b.

Inductive agent_title := ASkipped | ANoAnswer | AInactive (unit : string) | AVersion (version cli : string) | AUnbound
| APublishUnknown | AUnpublished | APublished (version local : string) | ALoopbackOnly | AOk (version : string).
Inductive agent_remedy := UpInstalls | UpHeals | SeeJournal | Check4Dials | SeePublish | UpRebinds.
Definition CheckAgent (g : GuestProbe) (bind : AgentBind) (cliVersion skip : string) (pm : PodmanInput)
  : Finding agent_title guest_note agent_remedy :=
  let f t s ev r := MkFinding IDAgent t s ev r in
  if negb (String.eqb skip "") then f ASkipped StatusSkip [Skipped skip] None
  else if negb (g_Ran g) then f ANoAnswer StatusSkip [DidNotAnswer (g_Err g)] None
  else
    let unit := if String.eqb (g_AgentActive g) "" then "unknown" else g_AgentActive g in
    let ev := [UnitIs unit (g_AgentTransient g)] ++
      match b_Addrs bind with [] => [NothingListening] | addrs => [ListeningOn addrs] end ++
      (if pm_Target pm then Podman <$> podmanAgentEvidence (pm_Publish pm) else []) in
    let v := if String.eqb (g_AgentVersion g) "" then "version unknown" else g_AgentVersion g in
    if negb (String.eqb (g_AgentActive g) "active") then f (AInactive unit) StatusFail ev (Some UpInstalls)
    else if negb (String.eqb (g_AgentVersion g) "") && negb (String.eqb (g_AgentVersion g) cliVersion) then
      f (AVersion (g_AgentVersion g) cliVersion) StatusFail ev (Some UpHeals)
    else if negb (b_Any bind) then f AUnbound StatusFail ev (Some SeeJournal)
    else if pm_Target pm then
      match podmanPublished (pm_Publish pm) with
      | (_, false) => f APublishUnknown StatusWarn ev (Some Check4Dials)
      | (false, true) => f AUnpublished StatusFail (ev ++ [PublishesItself]) (Some SeePublish)
      | (true, true) => f (APublished v (pe_Local (pm_Publish pm))) StatusOK ev None
      end
    else if negb (Reachable bind) then f ALoopbackOnly StatusWarn (ev ++ [NoVZNAT]) (Some UpRebinds)
    else f (AOk v) StatusOK ev None.

(** ** What the script prints *)

Definition nl : string := String "010" "".
Definition kv (k v : string) : string := k +:+ "=" +:+ v.
Definition yn (b : bool) : string := if b then "yes" else "no".
(** The script's output over what its commands print: [a] for the texts, [b] for
    the yes/no questions, and the lines of the three blocks. *)
Definition guest_keys (a : string → string) (b : string → bool) : list (string * string) :=
  let t k := (k, a k) in let q k := (k, yn (b k)) in
  [t "kernel"; t Preflight.KeyArch; t Preflight.KeyDirectCalls; t Preflight.Key; q "btf"; q "cgroup2"; q "systemd"; q "sudo";
   q "oci"; t "runc"; t "crun"; t "agent-active"; t "agent-enabled"; q "agent-transient"; t "agent-version"; t "guest-ips"] ++
  (if b "secret" then [("secret", "present"); t "secret-mode"; t "secret-owner"; t "secret-size"; t "secret-digest"]
   else [("secret", "absent")]) ++
  [t "selinux"; t "unpriv_port"; t "containers_fs"; q "dropin"] ++ (if b "podman" then [t "oci_runtime"] else []).
Definition guest_output (a : string → string) (b : string → bool) (err : option string) (ss gv j : list string) : list string :=
  (uncurry kv <$> guest_keys a b) ++ ["ss-begin"] ++ ss ++ ["ss-end"] ++
  match err with Some e => [kv "gvproxy-err" e] | None => [] end ++
  ["gvproxy-begin"] ++ gv ++ ["gvproxy-end"; "journal-begin"] ++ j ++ ["journal-end"; ""].

Definition chomp (s : string) : string := trim_right is_space s.
Definition markers : list string := ["ss-begin"; "ss-end"; "gvproxy-begin"; "gvproxy-end"; "journal-begin"; "journal-end"].
(** A line that can stand inside a block. *)
Definition body_line (l : string) : Prop := has_byte "010" l = false ∧ TrimSpace l ∉ markers.

Definition no_cr (l : string) : string := trim_right (Ascii.eqb "013") l.
Lemma trim_right_sub f g s : (∀ c, f c = true → g c = true) → trim_right g (trim_right f s) = trim_right g s.
Proof.
  intros H. induction s as [|c s IH]; [done|]. cbn. rewrite <- IH.
  destruct (trim_right f s) as [|d t]; [|done]. cbn. destruct (f c) eqn:E; [by rewrite (H _ E)|]. done.
Qed.
Lemma trim_left_right_comm g s : trim_left g (trim_right g s) = trim_right g (trim_left g s).
Proof.
  induction s as [|c s IH]; [done|]. cbn. destruct (g c) eqn:E.
  - rewrite <- IH. destruct (trim_right g s); cbn; by rewrite ?E.
  - cbn. rewrite E. destruct (trim_right g s); cbn; by rewrite ?E.
Qed.
Lemma TrimSpace_no_cr s : TrimSpace (no_cr s) = TrimSpace s.
Proof.
  unfold TrimSpace. rewrite <- !trim_left_right_comm. unfold no_cr. rewrite trim_right_sub; [done|].
  intros c <-%Ascii.eqb_eq. done.
Qed.
Lemma trim_right_concat f s t : trim_right f (s +:+ t) = match trim_right f t with EmptyString => trim_right f s | t' => s +:+ t' end.
Proof.
  induction s as [|c s IH]; cbn; [by destruct (trim_right f t)|]. rewrite IH.
  destruct (trim_right f t) as [|d u]; [done|]. destruct (s +:+ String d u) eqn:E; [by destruct s|]. done.
Qed.
Definition key_ok (k : string) : bool :=
  negb (has_byte "=" k) && match k with String c _ => negb (is_space c) | EmptyString => false end.
Lemma cut_line_text k v : key_ok k = true → Preflight.cut_line (kv k v) = Some (k, chomp v).
Proof.
  unfold key_ok, kv. intros [Hk%negb_true_iff Hs]%andb_true_iff. unfold Preflight.cut_line.
  assert (TrimSpace (k +:+ "=" +:+ v) = k +:+ "=" +:+ chomp v) as ->; [|by apply (Cut_fresh "=" "")].
  unfold TrimSpace. destruct k as [|c k]; [done|]. apply negb_true_iff in Hs. cbn [trim_left String.append]. rewrite Hs.
  change (String c (k +:+ ?x)) with (String c k +:+ x). rewrite trim_right_concat. cbn [String.append trim_right].
  unfold chomp. by destruct (trim_right is_space v).
Qed.
Lemma cut_line_no_cr l : Preflight.cut_line (no_cr l) = Preflight.cut_line l.
Proof. unfold Preflight.cut_line. by rewrite TrimSpace_no_cr. Qed.

Section reads.
Variable unmarshal : string → option Preflight.Report.
Abbreviation line := (guest_line unmarshal).

Lemma line_kv lines ls js g k v :
  key_ok k = true →
  line (MkScan false false false lines ls js g) (kv k v) = MkScan false false false lines ls js (set_guest unmarshal k (chomp v) g).
Proof.
  intros Hk. pose proof (cut_line_text k v Hk) as HC. unfold guest_line. fold (no_cr (kv k v)). rewrite TrimSpace_no_cr.
  rewrite cut_line_no_cr, HC.
  assert (has_byte "=" (TrimSpace (kv k v)) = true) as HE.
  { unfold Preflight.cut_line in HC. apply Cut_Some in HC as ->. rewrite has_byte_app. by destruct (has_byte "=" k). }
  assert (∀ m, m ∈ markers → String.eqb (TrimSpace (kv k v)) m = false) as HM.
  { intros m Hm. apply String.eqb_neq. intros E. rewrite E in HE. revert m Hm E HE. unfold markers. intros m.
    rewrite !elem_of_cons, elem_of_nil. by intros [->|[->|[->|[->|[->|[->|[]]]]]]]. }
  rewrite 6!HM by (unfold markers; repeat constructor). done.
Qed.
Definition set_pair (g : GuestProbe) (p : string * string) : GuestProbe := set_guest unmarshal p.1 (chomp p.2) g.
Lemma lines_kv kvs lines ls js g :
  Forall (λ p, key_ok p.1 = true) kvs →
  foldl line (MkScan false false false lines ls js g) (uncurry kv <$> kvs) = MkScan false false false lines ls js (foldl set_pair g kvs).
Proof.
  intros H. revert g. induction H as [|[k v] kvs Hk _ IH]; intros g; [done|]. cbn [fmap list_fmap foldl uncurry]. rewrite line_kv by done.
  apply IH.
Qed.
Lemma line_unmarked s l :
  TrimSpace l ∉ markers →
  line s l = let '(MkScan ss gv j lines ls js g) := s in
    if gv then MkScan ss gv j (lines ++ [no_cr l]) ls js g
    else if j then MkScan ss gv j lines ls (if String.eqb (TrimSpace l) "" then js else js ++ [TrimSpace l]) g
    else if ss then MkScan ss gv j lines (match parseSSLine (no_cr l) with Some x => ls ++ [x] | None => ls end) js g
    else match Preflight.cut_line l with Some (k, v) => MkScan ss gv j lines ls js (set_guest unmarshal k v g) | None => s end.
Proof.
  intros H. unfold guest_line. destruct s as [ss gv j lines ls js g]. fold (no_cr l). rewrite TrimSpace_no_cr, cut_line_no_cr.
  assert (∀ m, m ∈ markers → String.eqb (TrimSpace l) m = false) as HM.
  { intros m Hm. apply String.eqb_neq. by intros <-. }
  rewrite 6!HM by (unfold markers; repeat constructor). done.
Qed.
Lemma lines_ss rows lines ls js g :
  Forall body_line rows →
  foldl line (MkScan true false false lines ls js g) rows = MkScan true false false lines (ls ++ omap (parseSSLine ∘ no_cr) rows) js g.
Proof.
  intros H. revert ls. induction H as [|l rows [_ Hl] _ IH]; intros ls; cbn [foldl]; [by rewrite app_nil_r|].
  rewrite line_unmarked by done. cbn [negb]. rewrite IH.
  change (omap ?f (l :: rows)) with (match f l with Some y => y :: omap f rows | None => omap f rows end). unfold compose.
  destruct (parseSSLine (no_cr l)); by rewrite <- ?app_assoc.
Qed.
Lemma lines_gv rows lines ls js g :
  Forall body_line rows →
  foldl line (MkScan false true false lines ls js g) rows = MkScan false true false (lines ++ (no_cr <$> rows)) ls js g.
Proof.
  intros H. revert lines. induction H as [|l rows [_ Hl] _ IH]; intros lines; cbn [foldl fmap list_fmap]; [by rewrite app_nil_r|].
  rewrite line_unmarked by done. rewrite IH. by rewrite <- app_assoc.
Qed.
Lemma line_ss_begin lines ls js g : line (MkScan false false false lines ls js g) "ss-begin" = MkScan true false false lines ls js g.
Proof. done. Qed.
Lemma line_ss_end lines ls js g : line (MkScan true false false lines ls js g) "ss-end" = MkScan false false false lines ls js g.
Proof. done. Qed.
Lemma line_gv_begin lines ls js g : line (MkScan false false false lines ls js g) "gvproxy-begin" = MkScan false true false lines ls js g.
Proof. done. Qed.
Lemma line_gv_end lines ls js g : line (MkScan false true false lines ls js g) "gvproxy-end" = MkScan false false false lines ls js g.
Proof. done. Qed.
Lemma line_j_begin lines ls js g : line (MkScan false false false lines ls js g) "journal-begin" = MkScan false false true lines ls js g.
Proof. done. Qed.
Lemma line_j_end lines ls js g : line (MkScan false false true lines ls js g) "journal-end" = MkScan false false false lines ls js g.
Proof. done. Qed.
Lemma line_blank lines ls js g : line (MkScan false false false lines ls js g) "" = MkScan false false false lines ls js g.
Proof. done. Qed.
Definition nonblank (l : string) : option string := if String.eqb (TrimSpace l) "" then None else Some (TrimSpace l).
Lemma lines_j rows lines ls js g :
  Forall body_line rows →
  foldl line (MkScan false false true lines ls js g) rows = MkScan false false true lines ls (js ++ omap nonblank rows) g.
Proof.
  intros H. revert js. induction H as [|l rows [_ Hl] _ IH]; intros js; cbn [foldl]; [by rewrite app_nil_r|].
  rewrite line_unmarked by done. rewrite IH.
  change (omap nonblank (l :: rows)) with (match nonblank l with Some y => y :: omap nonblank rows | None => omap nonblank rows end).
  destruct (nonblank l) as [y|] eqn:E; unfold nonblank in E; destruct (String.eqb (TrimSpace l) ""); simplify_eq;
    by rewrite <- ?app_assoc.
Qed.
End reads.

(** The probe the checks read, over the same answers. *)
Definition guest_read (unmarshal : string → option Preflight.Report) (a : string → string) (b : string → bool)
  (err : option string) (ss gv j : list string) : GuestProbe :=
  let t k := chomp (a k) in
  let feats := foldl (λ p k, default p (Preflight.Set_ unmarshal k (t k) p)) Preflight.probe0
    [Preflight.KeyArch; Preflight.KeyDirectCalls; Preflight.Key] in
  let size := match ParseInt (t "secret-size") 10 64 with Ok n => n | Err _ => 0 end in
  MkGuest true "" (t "kernel") (b "btf") (b "cgroup2") (b "systemd") (b "sudo") feats (b "oci") (t "runc") (t "crun")
    (t "agent-active") (t "agent-enabled") (b "agent-transient") (t "agent-version") (Fields (t "guest-ips"))
    (omap (parseSSLine ∘ no_cr) ss)
    (if b "secret" then MkGuestSecret true (t "secret-mode") (t "secret-owner") size (t "secret-digest")
     else MkGuestSecret false "" "" 0 "")
    (t "selinux") (t "unpriv_port") (t "containers_fs") (if b "podman" then t "oci_runtime" else "") (b "dropin")
    (TrimSpace (Join (no_cr <$> gv) nl)) (match err with Some e => chomp e | None => "" end) (omap nonblank j).

Lemma body_newline rows : Forall body_line rows → Forall (λ l, has_byte "010" l = false) rows.
Proof. intros H. eapply Forall_impl; [exact H|]. by intros l []. Qed.
Lemma output_lines a b err ss gv j :
  (∀ k, has_byte "010" (a k) = false) → has_byte "010" (default "" err) = false →
  Forall body_line ss → Forall body_line gv → Forall body_line j →
  Forall (λ l, has_byte "010" l = false) (guest_output a b err ss gv j).
Proof.
  intros Ha He Hs%body_newline Hg%body_newline Hj%body_newline.
  assert (∀ k v, has_byte "010" k = false → has_byte "010" v = false → has_byte "010" (kv k v) = false) as Hkv.
  { intros k v Hk Hv. unfold kv. by rewrite !has_byte_app, Hk, Hv. }
  assert (∀ x, has_byte "010" (yn x) = false) as Hyn by by intros [].
  unfold guest_output. rewrite !Forall_app. split_and!; try assumption; try (by repeat constructor).
  - apply Forall_fmap, Forall_forall. intros [k v] H. unfold compose. cbn [uncurry].
    assert (Forall (λ p, has_byte "010" p.1 = false ∧ has_byte "010" p.2 = false) (guest_keys a b)) as HK.
    { unfold guest_keys. destruct (b "secret"), (b "podman"); cbn [app]; repeat constructor; cbn [fst snd]; done || auto. }
    rewrite Forall_forall in HK. apply HK in H as [H1 H2]. by apply Hkv.
  - destruct err; [|done]. cbn [default] in He. constructor; [by apply Hkv|done].
Qed.
Lemma chomp_yn x : chomp (yn x) = yn x.
Proof. by destruct x. Qed.
Lemma yes_yn x : is_yes (yn x) = x.
Proof. by destruct x. Qed.
Lemma keys_ok a b : Forall (λ p : string * string, key_ok p.1 = true) (guest_keys a b).
Proof. unfold guest_keys. destruct (b "secret"), (b "podman"); repeat constructor. Qed.
(** What the keys alone leave in the probe. *)
Lemma keys_read unmarshal a b err ls gv js :
  with_lists ls (TrimSpace (Join gv nl)) js
    (match err with Some e => set_guest unmarshal "gvproxy-err" (chomp e) | None => id end
      (foldl (set_pair unmarshal) (guest0 true "") (guest_keys a b))) =
  let '(MkGuest ran er ke bt cg sy su fe oc ru cr aa ae at_ av ip _ se sl up fs rt dr _ ge _) := guest_read unmarshal a b err [] [] [] in
  MkGuest ran er ke bt cg sy su fe oc ru cr aa ae at_ av ip ls se sl up fs rt dr (TrimSpace (Join gv nl)) ge js.
Proof.
  unfold guest_read, guest_keys. destruct (b "secret"), (b "podman"), err as [e|].
  all: lazy -[chomp Fields ParseInt Preflight.Set_ TrimSpace Join yn is_yes].
  all: change (chomp "present") with "present"; rewrite ?chomp_yn, ?yes_yn.
  all: try reflexivity; destruct (ParseInt (chomp (a "secret-size")) 10 64); reflexivity.
Qed.

(** C33: what the script prints is what the checks read. For any texts its
    commands print on one line, each field is the text of its own key less its
    trailing blanks, each yes/no question its own answer, and the three blocks
    are exactly the lines between their markers: nothing inside a block - a
    listener's row, gvproxy's table, the agent's log - is ever read as a key,
    and nothing outside one as a row. *)
Theorem guest_probe_read unmarshal a b err ss gv j :
  (∀ k, has_byte "010" (a k) = false) → has_byte "010" (default "" err) = false →
  Forall body_line ss → Forall body_line gv → Forall body_line j →
  ParseGuestProbe unmarshal (Join (guest_output a b err ss gv j) nl) = guest_read unmarshal a b err ss gv j.
Proof.
  intros Ha He Hs Hg Hj. unfold ParseGuestProbe, nl. rewrite Split_Join by (try apply output_lines; try done; by unfold guest_output; destruct err).
  unfold guest_output. rewrite !foldl_app. unfold scan0. rewrite lines_kv by apply keys_ok. cbn [foldl].
  rewrite line_ss_begin, lines_ss, line_ss_end by done.
  assert (∀ g, foldl (guest_line unmarshal) (MkScan false false false [] ([] ++ omap (parseSSLine ∘ no_cr) ss) [] g)
    (match err with Some e => [kv "gvproxy-err" e] | None => [] end) =
    MkScan false false false [] (omap (parseSSLine ∘ no_cr) ss) []
      (match err with Some e => set_guest unmarshal "gvproxy-err" (chomp e) | None => id end g)) as ->
    by (intros g; destruct err; cbn [foldl app]; by rewrite ?line_kv).
  rewrite line_gv_begin, lines_gv, line_gv_end, line_j_begin, lines_j, line_j_end, line_blank by done.
  unfold collected. cbn [sc_listeners sc_gvproxy sc_journal sc_g app]. apply keys_read.
Qed.
Definition ex_texts (k : string) : string :=
  if String.eqb k "kernel" then "6.8.0-51-generic" else if String.eqb k "agent-active" then "active"
  else if String.eqb k "agent-version" then "v2.1.0" else if String.eqb k "guest-ips" then "192.168.5.15 192.168.64.3 "
  else if String.eqb k "secret-size" then "65" else "".
Definition ex_rows : list string :=
  ["LISTEN 0 4096 192.168.64.3:4777 0.0.0.0:*"; "LISTEN 0 128 [::]:22 [::]:*"; "secret=present"].
Lemma guest_probe_read_witness :
  let g := ParseGuestProbe (λ _, None) (Join (guest_output ex_texts (λ _, true) None ex_rows ["kernel=9.9"] ["btf=no "]) nl) in
  g_Kernel g = "6.8.0-51-generic" ∧ g_BTF g = true ∧ g_GuestIPs g = ["192.168.5.15"; "192.168.64.3"] ∧
  g_Listeners g = [MkListener "192.168.64.3" 4777; MkListener "::" 22] ∧ g_Gvproxy g = "kernel=9.9" ∧ g_Journal g = ["btf=no"].
Proof.
  cbv zeta. rewrite (guest_probe_read (λ _, None) ex_texts (λ _, true) None ex_rows ["kernel=9.9"] ["btf=no "]).
  - vm_compute. split_and!; reflexivity.
  - intros k. unfold ex_texts. repeat (destruct (String.eqb k _); [reflexivity|]). reflexivity.
  - reflexivity.
  - repeat constructor; cbn; try reflexivity; vm_compute; set_solver.
  - repeat constructor; cbn; try reflexivity; vm_compute; set_solver.
  - repeat constructor; cbn; try reflexivity; vm_compute; set_solver.
Defined.

(** ** Check 2 *)

Lemma parseKernel_eq rel : parseKernel rel = Preflight.ParseMajorMinor rel.
Proof. done. Qed.
(** A runtime known to be older than what carries listenerPath, where it matters. *)
Definition known_older (line : string) (min : list Z) : Prop := ∃ v, parseRuncVersion line = Some v ∧ olderThan v min = true.
Definition old_runtime (g : GuestProbe) (pm : PodmanInput) : Prop :=
  (pm_Target pm = true ∧ g_Crun g ≠ "" ∧ known_older (g_Crun g) minCrun) ∨ (g_Crun g = "" ∧ known_older (g_Runc g) minRunc).
Lemma known_older_case line min :
  (∃ v, parseRuncVersion line = Some v ∧ olderThan v min = true ∧ known_older line min) ∨
  (match parseRuncVersion line with Some v => olderThan v min | None => false end = false ∧ ¬ known_older line min).
Proof.
  unfold known_older. destruct (parseRuncVersion line) as [v|]; [|right; split; [done|by intros (? & ? & _)]].
  destruct (olderThan v min) eqn:E; [left; eauto 6|right]. split; [done|]. intros (? & [= <-] & ?). congruence.
Qed.
Definition base_ok (g : GuestProbe) : Prop := g_Systemd g = true ∧ g_BTF g = true ∧ g_CGroup2 g = true ∧ g_Sudo g = true.
Lemma check_runtimes_spec g pm ev :
  let f := check_runtimes g pm ev in
  (f_Status f = StatusOK ↔ ¬ (g_OCI g = true ∧ old_runtime g pm)) ∧ (f_Status f = StatusWarn ↔ g_OCI g = true ∧ old_runtime g pm) ∧
  (f_Remedy f = None ↔ f_Status f = StatusOK) ∧ f_Title f ≠ PKernelOld (g_Kernel g).
Proof.
  cbv zeta. unfold check_runtimes, old_runtime. destruct (g_OCI g); [|cbn; intuition discriminate].
  cbn [negb].
  destruct (known_older_case (g_Crun g) minCrun) as [(v & EC & EO & HC)|[EC HC]]; revert HC EC; generalize (known_older (g_Crun g) minCrun);
  destruct (known_older_case (g_Runc g) minRunc) as [(w & ER & EW & HR)|[ER HR]]; revert HR ER; generalize (known_older (g_Runc g) minRunc).
  all: intros P HR ER Q HC EC; destruct (String.eqb_spec (g_Crun g) "") as [E0|E0], (pm_Target pm); cbn [negb andb].
  all: try rewrite !EC; try rewrite !ER.
  all: destruct (parseRuncVersion (g_Crun g)), (parseRuncVersion (g_Runc g)); simplify_eq/=; rewrite ?EC, ?ER, ?EO, ?EW; cbn.
  all: intuition congruence.
Qed.
(** The verdict's status, on a guest that answered. *)
Lemma prereqs_status g pm :
  g_Ran g = true →
  let f := CheckGuestPrereqs g "" pm in
  (f_Status f = StatusFail ↔
     ¬ base_ok g ∨ Preflight.cookie_bad (g_Features g) (g_Kernel g) ∨ Preflight.tracer_bad (g_Features g) (g_Kernel g)) ∧
  (f_Status f = StatusOK ↔
     base_ok g ∧ Preflight.cookie_ok (g_Features g) (g_Kernel g) ∧ Preflight.tracer_ok (g_Features g) (g_Kernel g) ∧
     ¬ Preflight.older minKernel (g_Kernel g) ∧ ¬ (g_OCI g = true ∧ old_runtime g pm)) ∧
  f_Status f ∈ [StatusOK; StatusWarn; StatusFail] ∧ (f_Remedy f = None ↔ f_Status f = StatusOK) ∧
  (f_Title f = PKernelOld (g_Kernel g) → Preflight.older minKernel (g_Kernel g)).
Proof.
  intros HR. cbv zeta. unfold CheckGuestPrereqs, base_ok. rewrite HR. cbn [negb String.eqb].
  destruct (g_Systemd g); cbn [negb]; [|cbn; set_solver]. destruct (g_BTF g); cbn [negb]; [|cbn; set_solver].
  destruct (g_CGroup2 g); cbn [negb]; [|cbn; set_solver]. destruct (g_Sudo g); cbn [negb]; [|cbn; set_solver].
  destruct (Preflight.verdict_status (g_Features g) (g_Kernel g)) as [HO HF].
  pose proof (Preflight.verdict_remedy (g_Features g) (g_Kernel g)) as HV.
  destruct (check_runtimes_spec g pm (Prereqs (g_Kernel g) true true true true :: podmanGuestNotes g pm)) as (HC1 & HC2 & HC3 & HC4).
  revert HO HF. generalize (Preflight.cookie_ok (g_Features g) (g_Kernel g)), (Preflight.cookie_bad (g_Features g) (g_Kernel g)),
    (Preflight.tracer_ok (g_Features g) (g_Kernel g)), (Preflight.tracer_bad (g_Features g) (g_Kernel g)). intros co cb to tb HO HF.
  rewrite parseKernel_eq. revert HC1 HC2. generalize (g_OCI g = true ∧ old_runtime g pm). intros old HC1 HC2.
  destruct (Preflight.vd_Status (Preflight.Classify (g_Features g) (g_Kernel g))).
  2, 3: cbn [f_Status f_Remedy f_Title]; destruct (Preflight.vd_Remedy (Preflight.Classify (g_Features g) (g_Kernel g))); cbn [fmap option_fmap option_map];
    split_and!; set_solver.
  assert (co ∧ to ∧ ¬ cb ∧ ¬ tb) as (Hco & Hto & Hcb & Htb) by (clear - HO HF; intuition discriminate).
  destruct (Preflight.ParseMajorMinor (g_Kernel g)) as [v|] eqn:EV.
  - destruct (Preflight.at_least_Some minKernel _ _ EV) as [_ ->]. destruct (Preflight.below v minKernel); [cbn; set_solver|].
    set (f := check_runtimes _ _ _) in *. clearbody f. clear HO HF HV. destruct (f_Status f); set_solver.
  - destruct (Preflight.at_least_None minKernel _ EV) as [_ HN].
    set (f := check_runtimes _ _ _) in *. clearbody f. clear HO HF HV. destruct (f_Status f); set_solver.
Qed.

(** Both probes asked the same guest. *)
Definition same_guest (p : Preflight.preflight) (g : GuestProbe) : Prop :=
  Preflight.pf_Kernel p = g_Kernel g ∧ Preflight.pf_BTF p = g_BTF g ∧ Preflight.pf_CGroup2 p = g_CGroup2 g ∧
  Preflight.pf_Systemd p = g_Systemd g ∧ Preflight.pf_Sudo p = g_Sudo g.

(** C32: doctor and [up] agree on a guest. On the same answers, and an
    architecture there is an agent for, doctor fails the prerequisites exactly
    when [up] would refuse the guest; a guest [up --oci] takes is never warned of
    as too old for the wrapper; and the check is good exactly when the guest has
    everything, nothing is in doubt, and no runtime it was provisioned for is
    known to be too old. A remedy comes with everything but a good verdict. *)
Theorem prereqs_agree unmarshal out p g pm :
  g_Ran g = true → same_guest p g → g_Features g = Preflight.probe_of unmarshal out → Preflight.guestArchOf p ≠ None →
  let f := CheckGuestPrereqs g "" pm in
  let up_takes oci := Preflight.checkPreflight p oci = None ∧
    Preflight.checkKernelFeatures unmarshal out (Preflight.pf_Kernel p) = None in
  (f_Status f = StatusFail ↔ ¬ up_takes false) ∧
  (up_takes true → f_Title f ≠ PKernelOld (g_Kernel g)) ∧
  (f_Status f = StatusOK ↔
     base_ok g ∧ Preflight.cookie_ok (g_Features g) (g_Kernel g) ∧ Preflight.tracer_ok (g_Features g) (g_Kernel g) ∧
     ¬ Preflight.older minKernel (g_Kernel g) ∧ ¬ (g_OCI g = true ∧ old_runtime g pm)) ∧
  (f_Remedy f = None ↔ f_Status f = StatusOK).
Proof.
  intros HR (HK & HB & HC & HS & HU) HF HA. cbv zeta. destruct (prereqs_status g pm HR) as (HFail & HOK & _ & HRem & HOld).
  assert (Preflight.checkKernelFeatures unmarshal out (Preflight.pf_Kernel p) = None ↔
    ¬ (Preflight.cookie_bad (g_Features g) (g_Kernel g) ∨ Preflight.tracer_bad (g_Features g) (g_Kernel g))) as HKF.
  { unfold Preflight.checkKernelFeatures. rewrite HK, <- HF.
    rewrite <- (proj2 (Preflight.verdict_status (g_Features g) (g_Kernel g))).
    by destruct (Preflight.vd_Status _). }
  split_and!; [|intros [HP _]|done|done].
  - rewrite HFail, HKF.
    assert (Preflight.checkPreflight p false = None ↔ base_ok g) as ->.
    { destruct (Preflight.preflight_exact p false) as [HE _]. rewrite HE, HB, HC, HS, HU. unfold base_ok.
      split; [by intros [(? & ? & ? & ? & _) _]|intros (? & ? & ? & ?); split; [done|discriminate]]. }
    assert (base_ok g ∨ ¬ base_ok g) as HX.
    { unfold base_ok. destruct (g_Systemd g), (g_BTF g), (g_CGroup2 g), (g_Sudo g); (by left) || (right; intros (? & ? & ? & ?); discriminate). }
    assert (Preflight.vd_Status (Preflight.Classify (g_Features g) (g_Kernel g)) = Preflight.Fail ∨
      Preflight.vd_Status (Preflight.Classify (g_Features g) (g_Kernel g)) ≠ Preflight.Fail) as HV by (destruct (Preflight.vd_Status _); auto).
    rewrite (proj2 (Preflight.verdict_status (g_Features g) (g_Kernel g))) in HV.
    revert HX HV. generalize (base_ok g) (Preflight.cookie_bad (g_Features g) (g_Kernel g) ∨ Preflight.tracer_bad (g_Features g) (g_Kernel g)).
    clear. tauto.
  - intros HT. apply HOld in HT. destruct (proj1 (proj1 (Preflight.preflight_exact p true)) HP) as [_ [HL _]]; [done|].
    rewrite HK in HL. destruct HL as (v & Hv & Hb), HT as (w & Hw & Hb'). change minKernel with Preflight.minKernel in Hb'. congruence.
Qed.
Definition ex_probe (b : string → bool) : GuestProbe :=
  ParseGuestProbe (λ _, None) (Join (guest_output ex_texts b None ex_rows [] []) nl).
Definition ex_preflight : Preflight.preflight :=
  Preflight.parsePreflight (Join ["arch=aarch64"; "kernel=6.8.0-51-generic"; "btf=yes"; "cgroup2=no"; "systemd=yes"; "sudo=yes"] nl).
Definition ex_feats : string := Join [kv Preflight.KeyArch ""; kv Preflight.KeyDirectCalls ""; kv Preflight.Key ""] nl.
Lemma prereqs_agree_witness :
  let g := ex_probe (λ k, negb (String.eqb k "cgroup2")) in
  f_Title (CheckGuestPrereqs g "" podman0) = PNoCGroup2 ∧
  Preflight.checkPreflight ex_preflight false = Some Preflight.NoCGroup2 ∧
  (f_Status (CheckGuestPrereqs g "" podman0) = StatusFail ↔
    ¬ (Preflight.checkPreflight ex_preflight false = None ∧
       Preflight.checkKernelFeatures (λ _, None) ex_feats (Preflight.pf_Kernel ex_preflight) = None)).
Proof.
  cbv zeta. split; [vm_compute; reflexivity|]. split; [vm_compute; reflexivity|].
  refine (proj1 (prereqs_agree (λ _, None) ex_feats ex_preflight (ex_probe (λ k, negb (String.eqb k "cgroup2"))) podman0 _ _ _ _)).
  - vm_compute; reflexivity.
  - vm_compute; split_and!; reflexivity.
  - vm_compute; reflexivity.
  - vm_compute; discriminate.
Defined.

(** A distribution's own suffix hides the version: Debian's runc is not read, so
    one from before listenerPath is not warned of. *)
Lemma debian_runc_unread :
  parseRuncVersion "runc version 1.0.0~rc93+ds1" = None ∧ parseRuncVersion "runc version 1.0.0-rc93" = Some [1; 0; 0] ∧
  olderThan [1; 0; 0] minRunc = true.
Proof. vm_compute. split_and!; reflexivity. Qed.

(** ** Check 3 *)

Definition on_control (l : Listener) : Prop := l_Port l = ControlPort.
Definition dialable (ips : list string) (l : Listener) : Prop :=
  on_control l ∧ (l_Addr l ∈ ["0.0.0.0"; "::"; "*"] ∨ (l_Addr l ∉ ["127.0.0.1"; "::1"]) ∧ l_Addr l ∈ ips).
Lemma existsb_elem s ws : existsb (String.eqb s) ws = true ↔ s ∈ ws.
Proof.
  rewrite existsb_exists, list_elem_of_In. split; [by intros (x & H & ->%String.eqb_eq)|].
  intros H. exists s. split; [done|apply String.eqb_refl].
Qed.
Lemma bind_row_step ips b l :
  let b' := bind_row ips b l in
  (b_Any b' = true ↔ b_Any b = true ∨ on_control l) ∧ (Reachable b' = true ↔ Reachable b = true ∨ dialable ips l).
Proof.
  cbv zeta. unfold bind_row, dialable, on_control, Reachable. destruct b as [lo vz wi any addrs].
  destruct (Z.eqb_spec (l_Port l) ControlPort) as [E|E]; cbn [negb]; [|cbn; tauto].
  destruct (existsb _ ["127.0.0.1"; "::1"]) eqn:E1.
  { apply existsb_elem in E1. cbn. split; [tauto|]. split; [by left|]. intros [?|(_ & [H|[H _]])]; [done| |done].
    exfalso. revert E1 H. rewrite !elem_of_cons, elem_of_nil. intros [->|[->|[]]]; intuition discriminate. }
  assert (l_Addr l ∉ ["127.0.0.1"; "::1"]) by (rewrite <- existsb_elem; by rewrite E1).
  destruct (existsb _ ["0.0.0.0"; "::"; "*"]) eqn:E2.
  { apply existsb_elem in E2. cbn. rewrite orb_true_r. tauto. }
  assert (l_Addr l ∉ ["0.0.0.0"; "::"; "*"]) by (rewrite <- existsb_elem; by rewrite E2).
  destruct (existsb _ ips) eqn:E3.
  { apply existsb_elem in E3. cbn. tauto. }
  assert (l_Addr l ∉ ips) by (rewrite <- existsb_elem; by rewrite E3). cbn. tauto.
Qed.
Lemma BindOf_spec ls ips :
  (b_Any (BindOf ls ips) = true ↔ Exists on_control ls) ∧ (Reachable (BindOf ls ips) = true ↔ Exists (dialable ips) ls).
Proof.
  unfold BindOf. assert (∀ b, (b_Any (foldl (bind_row ips) b ls) = true ↔ b_Any b = true ∨ Exists on_control ls) ∧
    (Reachable (foldl (bind_row ips) b ls) = true ↔ Reachable b = true ∨ Exists (dialable ips) ls)) as H.
  { induction ls as [|l ls IH]; intros b; cbn [foldl]; [by rewrite !Exists_nil; tauto|].
    destruct (IH (bind_row ips b l)) as [-> ->], (bind_row_step ips b l) as [-> ->]. rewrite !Exists_cons. tauto. }
  destruct (H bind0) as [-> ->]. cbn. intuition discriminate.
Qed.

(** The agent check. On a guest that answered it is good exactly when the
    unit is active, the agent's version is this build's or not stated, something
    listens on the control port, and the Mac has a way to it: on a podman machine
    the agent's own publication is in gvproxy's table; elsewhere a listener is
    bound to the wildcard or to an address of the guest that is not loopback.
    It fails exactly when the agent is down, of another version, unbound, or
    known not to be published; a table that could not be read is a warning, and
    nothing else in the probe matters. *)
Theorem agent_verdict g cli pm :
  g_Ran g = true →
  let f := CheckAgent g (BindOf (g_Listeners g) (g_GuestIPs g)) cli "" pm in
  let up := g_AgentActive g = "active" ∧ g_AgentVersion g ∈ [""; cli] ∧ Exists on_control (g_Listeners g) in
  let reached :=
    if pm_Target pm then pe_Known (pm_Publish pm) = true ∧ pe_Local (pm_Publish pm) ≠ ""
    else Exists (dialable (g_GuestIPs g)) (g_Listeners g) in
  (f_Status f = StatusOK ↔ up ∧ reached) ∧
  (f_Status f = StatusFail ↔ ¬ up ∨ pm_Target pm = true ∧ pe_Known (pm_Publish pm) = true ∧ pe_Local (pm_Publish pm) = "") ∧
  f_Status f ∈ [StatusOK; StatusWarn; StatusFail] ∧ (f_Remedy f = None ↔ f_Status f = StatusOK).
Proof.
  intros HR. cbv zeta. unfold CheckAgent. rewrite HR. cbn [negb String.eqb].
  destruct (BindOf_spec (g_Listeners g) (g_GuestIPs g)) as [HA HB].
  set (bind := BindOf _ _) in *. clearbody bind.
  destruct (String.eqb_spec (g_AgentActive g) "active") as [E1|E1]; cbn [negb]; [|cbn; set_solver].
  assert (negb (String.eqb (g_AgentVersion g) "") && negb (String.eqb (g_AgentVersion g) cli) = false ↔ g_AgentVersion g ∈ [""; cli]) as HV.
  { rewrite !elem_of_cons, elem_of_nil. destruct (String.eqb_spec (g_AgentVersion g) ""), (String.eqb_spec (g_AgentVersion g) cli); cbn; intuition discriminate. }
  destruct (_ && _); [cbn; set_solver|]. assert (g_AgentVersion g ∈ [""; cli]) as HV' by (by apply HV). clear HV.
  destruct (b_Any bind); cbn [negb]; [|cbn; set_solver]. assert (Exists on_control (g_Listeners g)) as HA' by (by apply HA). clear HA.
  unfold podmanPublished. destruct (pm_Target pm).
  - destruct (pe_Known (pm_Publish pm)); cbn [negb]; [|cbn; set_solver].
    destruct (String.eqb_spec (pe_Local (pm_Publish pm)) ""); cbn [negb]; cbn; set_solver.
  - destruct (Reachable bind); cbn [negb]; cbn; set_solver.
Qed.
Lemma agent_verdict_witness :
  let g := ex_probe (λ _, true) in
  CheckAgent g (BindOf (g_Listeners g) (g_GuestIPs g)) "v2.1.0" "" podman0 =
    MkFinding IDAgent (AOk "v2.1.0") StatusOK [UnitIs "active" true; ListeningOn ["192.168.64.3"]] None ∧
  f_Status (CheckAgent g (BindOf (g_Listeners g) (g_GuestIPs g)) "v2.1.0" "" podman0) ∈ [StatusOK; StatusWarn; StatusFail].
Proof.
  cbv zeta. split; [vm_compute; reflexivity|].
  refine (proj1 (proj2 (proj2 (agent_verdict (ex_probe (λ _, true)) "v2.1.0" podman0 _)))). vm_compute; reflexivity.
Defined.

(** The guest's own addresses include those no Mac can dial: an agent bound only
    to the user-mode network's address passes for one on the vmnet address, which
    nothing listens on. *)
Lemma slirp_passes :
  let g := with_lists [MkListener "192.168.5.15" 4777] "" [] (ex_probe (λ _, true)) in
  g_GuestIPs g = ["192.168.5.15"; "192.168.64.3"] ∧
  CheckAgent g (BindOf (g_Listeners g) (g_GuestIPs g)) "v2.1.0" "" podman0 =
    MkFinding IDAgent (AOk "v2.1.0") StatusOK [UnitIs "active" true; ListeningOn ["192.168.5.15"]] None.
Proof. cbv zeta. split; vm_compute; reflexivity. Qed.
