(* ===== verification/DoctorNet.v ===== *)
(** * DoctorNet: doctor's checks of the path to the guest

    Checks 4 to 6 of [src/internal/doctor/checks.go] and what gather.go feeds
    them: the resolved endpoint, the vzNAT route as [netstat] and [arp] print
    it, and the Local Network discriminator. Evidence lines are left out. *)

From S2P Require Import Prelude GoStr GoPath DoctorAuth DoctorGuest NetIP.
From S2P Require Install Introspect Transport.
Open Scope string_scope.
Open Scope list_scope.
Open Scope Z_scope.

Abbreviation verdict T R := (Finding T Empty_set R).
Definition IDResolution : string := "resolution".
Definition IDVZNATRoute : string := "vznat-route".
Definition IDLocalNetwork : string := "local-network".

(** [limaaddr.Resolution], its source as spelled. *)
Definition SourceVZNATDirect : string := "vznat-direct".
Definition SourceVZNATLeases : string := "vznat-leases".
Definition SourceSSHForwarder : string := "ssh-forwarder".
Definition SourceUnresolved : string := "unresolved".
Record Resolution := MkResolution { res_Endpoint : string; res_Source : string; res_Note : string }.
Definition DefaultSubnet : prefix := Prefix (Addr4 0xc0a84000) 24.

(** ** 4. resolution *)

Record ResolutionInput := MkResolutionInput {
  ri_Res : Resolution; ri_Ran : bool; ri_Skip : string; ri_GuestUp : bool; ri_GuestUnknown : bool; ri_Podman : PodmanInput }.
Inductive res_title := RNotRun | RRecordMoved | RNoRecord | RPodman (ep src : string)
| RNoEndpointUp | RNoEndpointUnknown | RNoEndpointDown | RDirect (ep src : string) | RFellBack (src : string).
Inductive res_remedy := UpAndInstall | UpWrites | ReResolves | RunAsUser | SeeDirect.
Definition CheckResolution (i : ResolutionInput) : verdict res_title res_remedy :=
  let f t s r := MkFinding IDResolution t s [] r in
  let src := res_Source (ri_Res i) in let ep := res_Endpoint (ri_Res i) in
  if negb (String.eqb (ri_Skip i) "") || negb (ri_Ran i) then f RNotRun StatusSkip None
  else if pm_Target (ri_Podman i) then
    if negb (bool_decide (pm_Disagreements (ri_Podman i) = [])) then f RRecordMoved StatusFail (Some UpAndInstall)
    else if negb (pm_EUID0 (ri_Podman i)) && negb (pm_RecordPresent (ri_Podman i)) then f RNoRecord StatusWarn (Some UpWrites)
    else f (RPodman ep src) StatusOK None
  else if String.eqb src SourceUnresolved then
    if ri_GuestUp i then f RNoEndpointUp StatusFail (Some ReResolves)
    else if ri_GuestUnknown i then f RNoEndpointUnknown StatusWarn (Some RunAsUser)
    else f RNoEndpointDown StatusSkip None
  else if String.eqb src SourceVZNATDirect || String.eqb src SourceVZNATLeases then f (RDirect ep src) StatusOK None
  else f (RFellBack src) StatusWarn (Some SeeDirect).

(** ** 5. vznat-route *)

Definition parseRouteDest (s : string) : option prefix :=
  let fill octets := octets ++ replicate (4 - length octets) "0" in
  if String.eqb s "" || String.eqb s "default" then None
  else match Cut "/" s with
  | Some (addrPart, bitsPart) =>
      let octets := Split "." addrPart in
      let s := if (length octets <? 4)%nat then Join (fill octets) "." +:+ "/" +:+ bitsPart else s in
      match ParsePrefix s with
      | Some p => if Is4 (pfx_ip p) then Some (Masked p) else None
      | None => None
      end
  | None =>
      let octets := Split "." s in
      if (4 <? length octets)%nat then None
      else match ParseAddr (Join (fill octets) ".") with
      | Some a => if Is4 a then Some (Masked (PrefixFrom a (8 * Z.of_nat (length octets)))) else None
      | None => None
      end
  end.

Inductive routeClass := routeAbsent | routeConnected | routeStaticOnly | routeOther.
#[export] Instance routeClass_eq_dec : EqDecision routeClass.
Proof. solve_decision. Defined.

(** A row of the table, when it covers the subnet. *)
Definition covers (got want : prefix) : bool :=
  bool_decide (got = want) ||
  ((0 <? pfx_bits got) && (pfx_bits got <=? pfx_bits want) && PrefixContains got (pfx_ip want)).
Definition row_class (l : string) (subnet : prefix) : option routeClass :=
  match Fields l with
  | dest :: gw :: rest =>
      match parseRouteDest dest with
      | None => None
      | Some got =>
          if negb (covers got (Masked subnet)) then None
          else
            let flags := match rest with fl :: _ => fl | [] => "" end in
            if HasPrefix gw "link#" || (negb (String.eqb flags "") && negb (Contains flags "G")) then Some routeConnected
            else if Contains flags "G" && match ParseAddr gw with Some a => PrefixContains subnet a | None => false end then Some routeStaticOnly
            else Some routeOther
      end
  | _ => None
  end.
(** The loop: a connected route ends it, the last static and other lines are kept. *)
Fixpoint scan_routes (ls : list string) (subnet : prefix) (static_ other : string) : routeClass * string :=
  match ls with
  | [] => if negb (String.eqb static_ "") then (routeStaticOnly, static_)
          else if negb (String.eqb other "") then (routeOther, other) else (routeAbsent, "")
  | l :: ls =>
      match row_class l subnet with
      | Some routeConnected => (routeConnected, TrimSpace l)
      | Some routeStaticOnly => scan_routes ls subnet (TrimSpace l) other
      | Some _ => scan_routes ls subnet static_ (TrimSpace l)
      | None => scan_routes ls subnet static_ other
      end
  end.
Definition classifyRoute (netstat : string) (subnet : prefix) : routeClass * string :=
  scan_routes (Split "010" netstat) subnet "" "".
Definition RoutePresent (netstat : string) (subnet : prefix) : bool :=
  negb (bool_decide ((classifyRoute netstat subnet).1 = routeAbsent)).

Definition gatewayOf (p : prefix) : addr := Next (pfx_ip (Masked p)).
Definition netifOf (line fallback : string) : string :=
  match Fields line with _ :: _ :: _ :: netif :: _ => netif | _ => fallback end.
Definition ARPPresent (out : string) : bool :=
  let s := ToLower out in
  if String.eqb s "" || Contains s "no entry" then false else Contains s " at " && negb (Contains s "(incomplete)").
Definition arp_resolved (subnet : prefix) (line : string) : bool :=
  match IndexByte "(" line, IndexByte ")" line with
  | Some o, Some c =>
      if (c <=? o)%nat then false
      else match ParseAddr (str_take (c - (o + 1)) (str_drop (o + 1) line)) with
      | Some a => PrefixContains subnet a && Contains (ToLower line) " at " && negb (Contains (ToLower line) "(incomplete)")
      | None => false
      end
  | _, _ => false
  end.
Definition ARPSubnetEmpty (table : string) (subnet : prefix) : bool :=
  negb (existsb (arp_resolved subnet) (Split "010" table)).

Record RouteInput := MkRouteInput {
  rt_Podman : bool; rt_Subnet : prefix; rt_NetstatOut : string; rt_NetstatErr : string; rt_ARPOut : string;
  rt_CandidateIP : string; rt_GuestUp : bool; rt_ProbeOK : bool }.
Inductive route_title := VPodman | VUnreadable | VNoRoute (p : prefix) | VStaticReachable (p : prefix) | VStaticOnly (p : prefix)
| VPresent (p : prefix) | VInARP (p : prefix) (ip : string) | VNoARP (p : prefix) (ip : string).
(** The interface to bounce, after deleting the static or not. *)
Inductive route_remedy := Bounce (netif : string) (p : prefix) (gw : addr) | DeleteAndBounce (netif : string) (p : prefix) (gw : addr) | FirstTraffic.
Definition CheckVZNATRoute (i : RouteInput) : verdict route_title route_remedy :=
  let f t s r := MkFinding IDVZNATRoute t s [] r in
  if rt_Podman i then f VPodman StatusSkip None
  else
    let subnet := if PrefixIsValid (rt_Subnet i) then rt_Subnet i else DefaultSubnet in
    if negb (String.eqb (rt_NetstatErr i) "") then f VUnreadable StatusSkip None
    else
      let gw := gatewayOf subnet in
      let '(class, routeLine) := classifyRoute (rt_NetstatOut i) subnet in
      match class with
      | routeAbsent => f (VNoRoute subnet) StatusFail (Some (Bounce "bridge100" subnet gw))
      | routeStaticOnly =>
          let r := Some (DeleteAndBounce (netifOf routeLine "bridge100") subnet gw) in
          if rt_ProbeOK i then f (VStaticReachable subnet) StatusWarn r else f (VStaticOnly subnet) StatusFail r
      | _ =>
          if String.eqb (rt_CandidateIP i) "" then f (VPresent subnet) StatusOK None
          else if ARPPresent (rt_ARPOut i) then f (VInARP subnet (rt_CandidateIP i)) StatusOK None
          else if negb (rt_GuestUp i) || rt_ProbeOK i then f (VPresent subnet) StatusOK None
          else f (VNoARP subnet (rt_CandidateIP i)) StatusWarn (Some FirstTraffic)
      end.

(** ** 6. local-network *)

Inductive ProbeOutcome := ProbeNone | ProbeOK | ProbeFail | ProbeSkipped.
Inductive evidence_kind := KindNone | Unknown | Tier1 | Tier2.
Record RootEvidence := MkRoot { re_Kind : evidence_kind; re_Probe : ProbeOutcome }.
Record LocalNetworkInput := MkLocalNetwork {
  ln_UserProbe : ProbeOutcome; ln_Root : RootEvidence; ln_Subnet : prefix; ln_EUID0 : bool; ln_Skip : string;
  ln_VM : string; ln_Podman : bool }.
Inductive ln_title := LNPodman | LNNotProbed | LNRootReaches | LNRootFails | LNNotBlocking
| LNGateConfirmed | LNGateIndicated | LNNotGateAlone | LNUndetermined.
Definition rootDoctorCmd (vm : string) : string :=
  if String.eqb vm "" then "sudo drawbridge doctor" else "sudo drawbridge doctor -vm " +:+ vm.
Definition installCmd (vm : string) : string := "sudo drawbridge install -vm " +:+ (if String.eqb vm "" then "<vm>" else vm).
Inductive ln_remedy := RouteAndExtensions | Exemptions (install : option string) (subnet : prefix) | RunRootDoctor (cmd : string).
Definition lnRemedies (subnet : prefix) (vm : string) (daemonReaches : bool) : ln_remedy :=
  Exemptions (if daemonReaches then None else Some (installCmd vm)) subnet.
Definition CheckLocalNetwork (i : LocalNetworkInput) : verdict ln_title ln_remedy :=
  let f t s r := MkFinding IDLocalNetwork t s [] r in
  let subnet := if PrefixIsValid (ln_Subnet i) then ln_Subnet i else DefaultSubnet in
  if ln_Podman i then f LNPodman StatusSkip None
  else if negb (String.eqb (ln_Skip i) "") || match ln_UserProbe i with ProbeSkipped | ProbeNone => true | _ => false end then
    f LNNotProbed StatusSkip None
  else if ln_EUID0 i then
    match ln_UserProbe i with
    | ProbeOK => f LNRootReaches StatusOK None
    | _ => f LNRootFails StatusFail (Some RouteAndExtensions)
    end
  else match ln_UserProbe i with
  | ProbeOK => f LNNotBlocking StatusOK None
  | _ =>
      match re_Kind (ln_Root i), re_Probe (ln_Root i) with
      | Tier1, ProbeOK => f LNGateConfirmed StatusFail (Some (lnRemedies subnet (ln_VM i) false))
      | Tier2, ProbeOK => f LNGateIndicated StatusFail (Some (lnRemedies subnet (ln_VM i) true))
      | (Tier1 | Tier2), ProbeFail => f LNNotGateAlone StatusFail (Some RouteAndExtensions)
      | _, _ => f LNUndetermined StatusWarn (Some (RunRootDoctor (rootDoctorCmd (ln_VM i))))
      end
  end.

(** *** What gather.go feeds it *)

Definition tier2Evidence (s : option Introspect.Snap) : RootEvidence :=
  match s with
  | Some s =>
      let st := Introspect.sn_State s in
      let src := Introspect.rs_Source (Introspect.st_Resolution st) in
      if negb (Introspect.sn_Usable s) || negb (Introspect.st_EUID st =? 0) then MkRoot Unknown ProbeNone
      else if negb (String.eqb src SourceVZNATDirect) && negb (String.eqb src SourceVZNATLeases) then MkRoot Unknown ProbeNone
      else if negb (Introspect.mi_SessionUp (Introspect.st_Mirror st)) && negb (Introspect.sy_SessionUp (Introspect.st_Sync st)) then MkRoot Unknown ProbeNone
      else MkRoot Tier2 ProbeOK
  | None => MkRoot Unknown ProbeNone
  end.
Definition vznatCandidate (guestIPs : list string) (res : Resolution) (subnet : prefix) : string :=
  match List.find (λ ip, match ParseAddr ip with Some a => Is4 a && PrefixContains subnet a | None => false end) guestIPs with
  | Some ip => ip
  | None =>
      if HasPrefix (res_Source res) "vznat" then
        match SplitHostPort (TrimPrefix (res_Endpoint res) "tcp://") with Ok (host, _) => host | Err _ => "" end
      else ""
  end.
(** The probe: the resolver's own answer where it was a direct one, else a dial
    of the candidate. *)
Definition user_probe (dial : string → bool) (candidate : string) (res : Resolution) : ProbeOutcome :=
  if String.eqb candidate "" then ProbeSkipped
  else if String.eqb (res_Source res) SourceVZNATDirect || String.eqb (res_Source res) SourceVZNATLeases then ProbeOK
  else if dial (JoinHostPort candidate (Itoa ControlPort)) then ProbeOK else ProbeFail.

(** ** Routes *)

(** How macOS prints an IPv4 destination: its first [n] octets, bare for the
    prefix of those octets and with the length otherwise. *)
Definition abbrev (n : nat) (a : Z) : string := Join (take n (Itoa <$> [octet 3 a; octet 2 a; octet 1 a; octet 0 a])) ".".
Lemma abbrev_fill n a :
  (1 <= n <= 4)%nat → (∀ i, 0 <= i < 4 - Z.of_nat n → octet i a = 0) →
  Split "." (abbrev n a) = take n (Itoa <$> [octet 3 a; octet 2 a; octet 1 a; octet 0 a]) ∧
  Join (take n (Itoa <$> [octet 3 a; octet 2 a; octet 1 a; octet 0 a]) ++ replicate (4 - n) "0") "." = string4 a ∧
  has_byte "/" (abbrev n a) = false.
Proof.
  intros Hn H0.
  assert (Forall (λ w, str_forall is_dec w = true) (take n (Itoa <$> [octet 3 a; octet 2 a; octet 1 a; octet 0 a]))) as HD.
  { apply Forall_take, Forall_fmap. repeat constructor; apply Install.octet_text_ok, Install.octet_bound. }
  split_and!.
  - apply Split_Join; [destruct n; [lia|done]|]. eapply Forall_impl; [exact HD|]. intros w Hw. by apply (str_forall_has is_dec).
  - unfold string4. destruct n as [|[|[|[|[|n]]]]]; try lia; cbn [take fmap list_fmap replicate app Nat.sub];
      rewrite ?(H0 0), ?(H0 1), ?(H0 2) by lia; done.
  - unfold abbrev. set (ws := take n _) in *. clearbody ws. induction HD as [|w ws Hw HD IH]; [done|].
    destruct ws as [|w' ws]; [by apply (str_forall_has is_dec)|].
    change (Join (w :: w' :: ws) ".") with (w +:+ "." +:+ Join (w' :: ws) "."). rewrite !has_byte_app, IH.
    rewrite (str_forall_has _ "/" _ Hw) by done. done.
Qed.
Lemma Masked_valid a b : 0 <= b <= 32 → Masked (Prefix (Addr4 a) b) = Prefix (mask_addr (Addr4 a) b) b.
Proof.
  intros Hb. unfold Masked. cbn. rewrite (proj2 (Z.leb_le 0 b)), (proj2 (Z.leb_le b 32)) by lia. cbn.
  unfold PrefixFrom. cbn. rewrite (proj2 (Z.leb_le 0 b)), (proj2 (Z.leb_le b 32)) by lia. done.
Qed.

(** What [netstat] prints of a destination is read back: any number of octets
    that drops only zeros, with a length or standing for its classful one. *)
Lemma route_dest_reads_back n a b :
  (1 <= n <= 4)%nat → 0 <= a < 2 ^ 32 → 0 <= b <= 32 → (∀ i, 0 <= i < 4 - Z.of_nat n → octet i a = 0) →
  parseRouteDest (abbrev n a +:+ "/" +:+ Itoa b) = Some (Prefix (mask_addr (Addr4 a) b) b) ∧
  parseRouteDest (abbrev n a) = Some (Prefix (mask_addr (Addr4 a) (8 * Z.of_nat n)) (8 * Z.of_nat n)).
Proof.
  intros Hn Ha Hb H0. destruct (abbrev_fill n a Hn H0) as (HS & HJ & HF).
  set (ws := take n (Itoa <$> [octet 3 a; octet 2 a; octet 1 a; octet 0 a])) in *.
  assert (length ws = n) as HL by (subst ws; rewrite length_take; cbn; lia).
  assert (∃ c r, abbrev n a = String c r ∧ is_dec c = true) as (c & r & EC & Hc).
  { pose proof (Install.octet_bound 3 a) as HB. destruct (Itoa_dec (octet 3 a)) as [HD H1]; [lia|].
    unfold abbrev. destruct n as [|n]; [lia|]. cbn [fmap list_fmap take].
    destruct (Itoa (octet 3 a)) as [|c r]; [done|]. cbn in HD. apply andb_true_iff in HD as [Hc _].
    destruct (take n _) as [|w ws']; [by exists c, r|]. by eexists c, _. }
  assert (String.eqb (abbrev n a) "" = false ∧ String.eqb (abbrev n a) "default" = false) as [HN1 HN2].
  { rewrite EC. split; [done|]. apply String.eqb_neq. intros [= -> _]. done. }
  split.
  - unfold parseRouteDest. rewrite Cut_fresh by done.
    assert (String.eqb (abbrev n a +:+ "/" +:+ Itoa b) "" = false ∧ String.eqb (abbrev n a +:+ "/" +:+ Itoa b) "default" = false) as [-> ->].
    { rewrite EC. split; [done|]. apply String.eqb_neq. intros [= -> _]. done. }
    cbn [orb]. rewrite HS, HL.
    assert ((if (n <? 4)%nat then Join (ws ++ replicate (4 - n) "0") "." +:+ "/" +:+ Itoa b else abbrev n a +:+ "/" +:+ Itoa b) =
      prefix_string (Prefix (Addr4 a) b)) as ->.
    { rewrite Install.prefix_string_eq by lia. destruct (Nat.ltb_spec n 4); [by rewrite HJ|].
      rewrite <- HJ. replace (4 - n)%nat with 0%nat by lia. by rewrite app_nil_r. }
    rewrite Install.ParsePrefix_string by done. cbn [pfx_ip Is4]. by rewrite Masked_valid.
  - unfold parseRouteDest. rewrite HN1, HN2. cbn [orb].
    assert (Cut "/" (abbrev n a) = None) as -> by by apply Cut1_None.
    rewrite HS, HL, HJ, (proj2 (Nat.ltb_ge 4 n)) by lia. rewrite Install.ParseAddr_string4 by done. cbn [Is4].
    unfold PrefixFrom. cbn [withoutZone IsValid BitLen].
    rewrite (proj2 (Z.leb_le 0 _)), (proj2 (Z.leb_le _ 32)) by lia. cbn [andb]. by rewrite Masked_valid by lia.
Qed.

Lemma fields_spaces s : str_forall is_space s = true → fields_go s "" = [].
Proof. induction s as [|c s IH]; [done|]. cbn. intros [-> Hs]%andb_true_iff. by rewrite IH. Qed.
Lemma trim_left_nil f s : trim_left f s = "" → str_forall f s = true.
Proof. induction s as [|c s IH]; [done|]. cbn. destruct (f c); [auto|done]. Qed.
Lemma trim_right_nil f s : trim_right f s = "" → str_forall f s = true.
Proof. induction s as [|c s IH]; [done|]. cbn. destruct (trim_right f s); [destruct (f c)|]; auto; done. Qed.
Lemma trim_left_forall f s : str_forall f (trim_left f s) = true → str_forall f s = true.
Proof. induction s as [|c s IH]; [done|]. cbn. destruct (f c) eqn:E; [auto|cbn; by rewrite E]. Qed.
Lemma TrimSpace_nil s : TrimSpace s = "" → Fields s = [].
Proof. intros H%trim_right_nil%trim_left_forall. by apply fields_spaces. Qed.
Lemma row_class_line l subnet c : row_class l subnet = Some c → TrimSpace l ≠ "".
Proof. intros H E%TrimSpace_nil. unfold row_class in H. by rewrite E in H. Qed.

Definition rows (netstat : string) (subnet : prefix) : list routeClass := omap (λ l, row_class l subnet) (Split "010" netstat).
Definition best (cs : list routeClass) : routeClass :=
  if bool_decide (routeConnected ∈ cs) then routeConnected
  else if bool_decide (routeStaticOnly ∈ cs) then routeStaticOnly
  else if bool_decide (routeOther ∈ cs) then routeOther else routeAbsent.
Lemma row_class_present l subnet : row_class l subnet ≠ Some routeAbsent.
Proof.
  unfold row_class. destruct (Fields l) as [|d [|gw rest]]; [done..|]. destruct (parseRouteDest d); [|done].
  destruct (negb _); [done|]. destruct (_ || _); [done|]. by destruct (_ && _).
Qed.
(** The order of the rows does not matter: a connected route anywhere wins, then
    a static through the subnet's own gateway, then anything that covers it. *)
Lemma scan_routes_best ls subnet st ot :
  (scan_routes ls subnet st ot).1 =
    best (omap (λ l, row_class l subnet) ls ++ (if String.eqb st "" then [] else [routeStaticOnly]) ++
      (if String.eqb ot "" then [] else [routeOther])).
Proof.
  revert st ot. induction ls as [|l ls IH]; intros st ot; cbn [scan_routes].
  { destruct (String.eqb_spec st ""), (String.eqb_spec ot ""); done. }
  change (omap ?f (l :: ls)) with (match f l with Some y => y :: omap f ls | None => omap f ls end). cbn beta.
  pose proof (row_class_line l subnet) as HT. pose proof (row_class_present l subnet) as HP.
  assert (∀ a b : list routeClass, (∀ c, c ∈ a ↔ c ∈ b) → best a = best b) as HB.
  { intros a b H. unfold best. by rewrite !(bool_decide_ext _ _ (H _)). }
  destruct (row_class l subnet) as [[]|]; [done|done|..].
  - rewrite IH. apply HB. intros c. rewrite (proj2 (String.eqb_neq (TrimSpace l) "")) by by eapply HT.
    destruct (String.eqb st ""); set_solver.
  - rewrite IH. apply HB. intros c. rewrite (proj2 (String.eqb_neq (TrimSpace l) "")) by by eapply HT.
    destruct (String.eqb ot ""); set_solver.
  - apply IH.
Qed.
Lemma classifyRoute_best netstat subnet : (classifyRoute netstat subnet).1 = best (rows netstat subnet).
Proof. unfold classifyRoute. rewrite scan_routes_best. cbn. by rewrite !app_nil_r. Qed.

(** The route check. It fails exactly when the table was read and either no
    row covers the subnet, or one covers it through the subnet's own gateway,
    no row is the connected route, and the guest could not be reached; rows it
    cannot place never fail it, the order of the rows never matters, and a
    destination is read as macOS abbreviates it. A remedy is given exactly with
    a warning or a failure. *)
Theorem route_verdict i :
  let subnet := if PrefixIsValid (rt_Subnet i) then rt_Subnet i else DefaultSubnet in
  let cs := rows (rt_NetstatOut i) subnet in
  let f := CheckVZNATRoute i in
  (f_Status f = StatusFail ↔
     rt_Podman i = false ∧ rt_NetstatErr i = "" ∧
     (cs = [] ∨ (routeConnected ∉ cs) ∧ routeStaticOnly ∈ cs ∧ rt_ProbeOK i = false)) ∧
  (RoutePresent (rt_NetstatOut i) subnet = true ↔ cs ≠ []) ∧
  (f_Remedy f = None ↔ f_Status f ∉ [StatusWarn; StatusFail]) ∧
  (∀ n a b, (1 <= n <= 4)%nat → 0 <= a < 2 ^ 32 → 0 <= b <= 32 → (∀ j, 0 <= j < 4 - Z.of_nat n → octet j a = 0) →
     parseRouteDest (abbrev n a +:+ "/" +:+ Itoa b) = Some (Prefix (mask_addr (Addr4 a) b) b) ∧
     parseRouteDest (abbrev n a) = Some (Prefix (mask_addr (Addr4 a) (8 * Z.of_nat n)) (8 * Z.of_nat n))).
Proof.
  cbv zeta. set (subnet := if PrefixIsValid (rt_Subnet i) then rt_Subnet i else DefaultSubnet).
  set (cs := rows (rt_NetstatOut i) subnet).
  assert (routeAbsent ∉ cs) as HA.
  { subst cs. unfold rows. intros (l & _ & H)%list_elem_of_omap. by apply row_class_present in H. }
  assert (best cs = routeAbsent ↔ cs = []) as HN.
  { unfold best. split; [|by intros ->]. destruct cs as [|c cs]; [done|].
    repeat (case_bool_decide; [done|]). destruct c; set_solver. }
  assert (best cs = routeStaticOnly ↔ (routeConnected ∉ cs) ∧ routeStaticOnly ∈ cs) as HS.
  { unfold best. repeat case_bool_decide; naive_solver. }
  split_and!.
  - unfold CheckVZNATRoute. fold subnet. pose proof (classifyRoute_best (rt_NetstatOut i) subnet) as HC. fold cs in HC.
    destruct (classifyRoute _ _) as [class line]. cbn in HC. subst class.
    destruct (rt_Podman i); [naive_solver|]. destruct (String.eqb_spec (rt_NetstatErr i) ""); cbn [negb]; [|naive_solver].
    destruct (best cs) eqn:EB.
    + split; [intros _; split_and!; try done; left; by apply HN|done].
    + assert (cs ≠ []) by (intros E; by apply HN in E). assert (routeConnected ∈ cs) by (unfold best in EB; repeat (case_bool_decide; try done)).
      destruct (String.eqb (rt_CandidateIP i) ""), (ARPPresent (rt_ARPOut i)), (negb (rt_GuestUp i) || rt_ProbeOK i); naive_solver.
    + destruct (proj1 HS eq_refl) as [HS1 HS2]. assert (cs ≠ []) by (intros E; by apply HN in E).
      destruct (rt_ProbeOK i); naive_solver.
    + assert (cs ≠ []) by (intros E; by apply HN in E).
      assert (routeStaticOnly ∉ cs) by (unfold best in EB; repeat (case_bool_decide; try done)).
      destruct (String.eqb (rt_CandidateIP i) ""), (ARPPresent (rt_ARPOut i)), (negb (rt_GuestUp i) || rt_ProbeOK i); naive_solver.
  - unfold RoutePresent. rewrite classifyRoute_best. fold cs. rewrite negb_true_iff, bool_decide_eq_false. by rewrite HN.
  - unfold CheckVZNATRoute. fold subnet. destruct (classifyRoute _ _) as [class line].
    destruct (rt_Podman i); [set_solver|]. destruct (negb _); [set_solver|].
    destruct class; [set_solver| | |]; repeat (case_match; [set_solver|]); set_solver.
  - intros. by apply route_dest_reads_back.
Qed.

(** ** The Local Network discriminator *)

Definition names_gate (t : ln_title) : Prop := t = LNGateConfirmed ∨ t = LNGateIndicated.
(** A running root daemon that reaches the guest, in its own snapshot's words. *)
Definition root_reaches (s : Introspect.Snap) : Prop :=
  Introspect.sn_Usable s = true ∧ Introspect.st_EUID (Introspect.sn_State s) = 0 ∧
  Introspect.rs_Source (Introspect.st_Resolution (Introspect.sn_State s)) ∈ [SourceVZNATDirect; SourceVZNATLeases] ∧
  (Introspect.mi_SessionUp (Introspect.st_Mirror (Introspect.sn_State s)) = true ∨
   Introspect.sy_SessionUp (Introspect.st_Sync (Introspect.sn_State s)) = true).
Lemma tier2Evidence_spec m :
  (re_Kind (tier2Evidence m) = Tier2 ∧ re_Probe (tier2Evidence m) = ProbeOK ∧ ∃ s, m = Some s ∧ root_reaches s) ∨
  (tier2Evidence m = MkRoot Unknown ProbeNone ∧ ∀ s, m = Some s → ¬ root_reaches s).
Proof.
  unfold tier2Evidence, root_reaches. destruct m as [s|]; [|by right].
  destruct (Introspect.sn_Usable s) eqn:EU; [|right; split; [done|]; intros ? [= <-] (? & _); congruence].
  destruct (Z.eqb_spec (Introspect.st_EUID (Introspect.sn_State s)) 0); [|right; split; [done|]; intros ? [= <-] (_ & ? & _); congruence]. cbn [negb orb].
  set (src := Introspect.rs_Source (Introspect.st_Resolution (Introspect.sn_State s))).
  destruct (String.eqb_spec src SourceVZNATDirect), (String.eqb_spec src SourceVZNATLeases); cbn [negb andb].
  4: (right; split; [done|]; intros ? [= <-] (_ & _ & H & _); set_solver).
  all: destruct (Introspect.mi_SessionUp _) eqn:E1, (Introspect.sy_SessionUp _) eqn:E2; cbn [negb andb];
    first [left; split_and!; [done|done|]; eexists; split; [done|]; split_and!; [done|done|set_solver|by auto]
          | right; split; [done|]; intros ? [= <-] (_ & _ & _ & [?|?]); congruence].
Qed.

(** C31: the Local Network verdict over what doctor gathers. The permission gate
    is named only for an unprivileged dial that failed while a running root
    daemon's own usable snapshot says it reached the guest directly and holds a
    session, and then always; without that evidence the failing dial is
    reported as undetermined with the command that would settle it, so the user
    probe alone never names the gate. No run names it for a podman machine or
    under root, and every warning or failure carries its remedy. *)
Theorem local_network_verdict m i :
  ln_Root i = tier2Evidence m →
  let f := CheckLocalNetwork i in
  let asked := ln_Podman i = false ∧ ln_Skip i = "" in
  (names_gate (f_Title f) ↔
     asked ∧ ln_EUID0 i = false ∧ ln_UserProbe i = ProbeFail ∧ ∃ s, m = Some s ∧ root_reaches s) ∧
  (f_Title f = LNUndetermined ↔
     asked ∧ ln_EUID0 i = false ∧ ln_UserProbe i = ProbeFail ∧ ¬ ∃ s, m = Some s ∧ root_reaches s) ∧
  (f_Status f = StatusOK ↔ asked ∧ ln_UserProbe i = ProbeOK) ∧
  (f_Status f = StatusSkip ↔ ¬ asked ∨ ln_UserProbe i ∈ [ProbeSkipped; ProbeNone]) ∧
  (f_Remedy f = None ↔ f_Status f ∉ [StatusWarn; StatusFail]) ∧
  (names_gate (f_Title f) → ∃ subnet, f_Remedy f = Some (Exemptions None subnet)).
Proof.
  intros HR. cbv zeta. unfold CheckLocalNetwork, names_gate. rewrite HR.
  destruct (ln_Podman i); [cbn; set_solver|]. destruct (String.eqb_spec (ln_Skip i) "") as [HS|HS]; [|cbn; set_solver].
  cbn [negb orb].
  assert (∃ P : Prop, P = ∃ s, m = Some s ∧ root_reaches s) as [P EP] by by eexists.
  rewrite <- EP. assert ((tier2Evidence m = MkRoot Tier2 ProbeOK ∧ P) ∨ (tier2Evidence m = MkRoot Unknown ProbeNone ∧ ¬ P)) as HT.
  { destruct (tier2Evidence_spec m) as [(H1 & H2 & H3)|[H1 H2]]; rewrite EP.
    - left. split; [|done]. destruct (tier2Evidence m). by cbn in *; subst.
    - right. split; [done|]. intros (s & Hs & H). by apply (H2 s). }
  clear EP.
  destruct (ln_UserProbe i); [cbn; set_solver| | |cbn; set_solver].
  - destruct (ln_EUID0 i); cbn; set_solver.
  - destruct (ln_EUID0 i); [cbn; set_solver|]. destruct HT as [[-> HP]|[-> HP]]; cbn; set_solver.
Qed.
Lemma local_network_verdict_witness :
  CheckLocalNetwork (MkLocalNetwork ProbeFail (tier2Evidence None) DefaultSubnet false "" "lima:default" false) =
    MkFinding IDLocalNetwork LNUndetermined StatusWarn [] (Some (RunRootDoctor "sudo drawbridge doctor -vm lima:default")) ∧
  ∃ f : verdict ln_title ln_remedy, f_Title f = LNUndetermined ∧
    (f_Status f = StatusSkip ↔ ¬ (false = false ∧ "" = "") ∨ ProbeFail ∈ [ProbeSkipped; ProbeNone]).
Proof.
  split; [vm_compute; reflexivity|].
  exists (CheckLocalNetwork (MkLocalNetwork ProbeFail (tier2Evidence None) DefaultSubnet false "" "lima:default" false)).
  split; [vm_compute; reflexivity|].
  exact (proj1 (proj2 (proj2 (proj2 (local_network_verdict None
    (MkLocalNetwork ProbeFail (tier2Evidence None) DefaultSubnet false "" "lima:default" false) eq_refl))))).
Defined.

(** No evidence doctor gathers is of the conclusive kind, so the verdict that
    names the gate as confirmed, and the one that clears it because root fails
    too, are never given: the run under root answers before the table. *)
Theorem gate_confirmed_unreachable m i :
  ln_Root i = tier2Evidence m → f_Title (CheckLocalNetwork i) ∉ [LNGateConfirmed; LNNotGateAlone].
Proof.
  intros HR. unfold CheckLocalNetwork. rewrite HR.
  destruct (ln_Podman i); [cbn; set_solver|]. destruct (_ || _); [cbn; set_solver|].
  destruct (ln_EUID0 i), (ln_UserProbe i); try (cbn; set_solver).
  all: destruct (tier2Evidence_spec m) as [(-> & -> & _)|[-> _]]; cbn; set_solver.
Qed.

(** The resolver's answer stands for the probe whatever address the candidate
    is: a guest address nothing dialled is reported as reached. *)
Theorem probe_ok_undialed :
  ∃ guestIPs res c,
    vznatCandidate guestIPs res DefaultSubnet = c ∧ res_Endpoint res = "tcp://192.168.64.7:4777" ∧ c = "192.168.64.3" ∧
    ∀ dial, user_probe dial c res = ProbeOK.
Proof.
  exists ["192.168.5.15"; "192.168.64.3"], (MkResolution "tcp://192.168.64.7:4777" SourceVZNATLeases ""), "192.168.64.3".
  split_and!; [vm_compute; reflexivity|done|done|]. intros dial. by vm_compute.
Qed.
