(* ===== verification/DoctorProbe.v ===== *)
(** * DoctorProbe: doctor's half-close probe

    Check 8, [src/internal/doctor/probe.go], and what gather.go runs it with:
    the probe's reads over a connection that delivers bytes at given times, the
    transcript it returns and the verdict made of it. Lines of evidence and
    titles are constructors; the wording is left out. *)

From S2P Require Import Prelude GoStr GoPath DoctorAuth.
From S2P Require Transport NetIP.
Open Scope string_scope.
Open Scope list_scope.
Open Scope Z_scope.

Definition IDHalfClose : string := "half-close-probe".
Definition second : Z := 10 ^ 9.
Definition AgentPingEvery : Z := 15 * second.
Definition ProbeSnapshotWindow : Z := 1 * second.
Definition ProbePostFINWindow : Z := AgentPingEvery + 5 * second.
Definition ProbeBudget : Z := 60 * second.
Definition effectiveTimeout (timeout : Z) (probe : bool) : Z :=
  let t := if timeout <=? 0 then 30 * second else timeout in
  if probe && (t <? ProbeBudget) then ProbeBudget else t.

Record HalfCloseProbe := MkProbe {
  p_Ran : bool; p_Skip : string; p_Endpoint : string; p_Source : string; p_Loopback : bool; p_Auth : bool;
  p_Err : string; p_PreBytes : Z; p_PreEvents : Z; p_PostBytes : Z; p_PostEvents : Z; p_PostEOF : bool;
  p_Window : Z; p_DirectPath : bool; p_NEFilter : list string }.

(** ** The probe *)

(** A connection as the prober's reads see it: what each read returns and when,
    and when a read fails for another reason than its deadline. *)
Record conn := MkConn { arrivals : list (Z * string); closed : option Z }.
Record windowResult := MkWindow { w_bytes : Z; w_events : Z; w_eof : bool }.
Definition window0 : windowResult := MkWindow 0 0 false.
Fixpoint count_byte (c : ascii) (s : string) : Z :=
  match s with EmptyString => 0 | String d s => (if Ascii.eqb c d then 1 else 0) + count_byte c s end.
Definition got (out : windowResult) (chunk : string) : windowResult :=
  MkWindow (w_bytes out + Z.of_nat (String.length chunk)) (w_events out + count_byte "010" chunk) (w_eof out).
(** [readWindow], with the connection it leaves and the time it returns at. *)
Fixpoint read_loop (deadline : Z) (stopEarly : bool) (now : Z) (arr : list (Z * string)) (cl : option Z) (out : windowResult)
  : windowResult * (conn * Z) :=
  match arr with
  | (t, chunk) :: rest =>
      if t <? deadline then
        let out := got out chunk in let now := Z.max now t in
        if stopEarly && (0 <? w_events out) then (out, (MkConn rest cl, now)) else read_loop deadline stopEarly now rest cl out
      else (out, (MkConn arr cl, deadline))
  | [] =>
      match cl with
      | Some t => if t <? deadline then (MkWindow (w_bytes out) (w_events out) true, (MkConn [] cl, Z.max now t))
                  else (out, (MkConn [] cl, deadline))
      | None => (out, (MkConn [] cl, deadline))
      end
  end.
Definition readWindow (now window : Z) (stopEarly : bool) (c : conn) : windowResult * (conn * Z) :=
  read_loop (now + window) stopEarly now (arrivals c) (closed c) window0.

Definition is_localhost (s : string) : bool :=
  existsb (String.eqb (ToLower s)) ["localhost"; "localho" +:+ String "197" (String "191" "t")].
Definition loopbackEndpoint (ep : string) : bool :=
  match Transport.Parse ep with
  | Err _ => false
  | Ok e =>
      if negb (String.eqb (Transport.Scheme e) Transport.SchemeTCP) then true
      else match SplitHostPort (Transport.Addr e) with
      | Err _ => false
      | Ok (host, _) =>
          match NetIP.ParseAddr host with
          | Some a => NetIP.IsLoopback a
          | None => is_localhost host
          end
      end
  end.

Record HalfCloseTarget := MkTarget { t_Endpoint : string; t_Source : string; t_NEFilter : list string }.
(** What the steps before the reads give: whether a secret is configured, and
    the failures of the secret, the dial, the hello, the agent's proof and the
    half-close, as their messages. *)
Record steps := MkSteps {
  s_Secret : result string bool; s_Dial : option string; s_Hello : option string; s_Proof : option string;
  s_CloseWrite : option string }.
Definition first_err (s : steps) : option string :=
  match s_Secret s with
  | Err e => Some e
  | Ok _ => match s_Dial s with Some e => Some e | None => match s_Hello s with Some e => Some e | None => s_Proof s end end
  end.
Definition hung_up : string := "the agent ended the session before the probe closed its write half, so there was no half-close to test".
(** [runProbeWithWindow]: the session starts at [t0] and reads [c]; [fin], at the
    time the write half is closed, is what arrives afterwards. *)
Definition runProbeWithWindow (t : HalfCloseTarget) (s : steps) (window t0 : Z) (c : conn) (fin : Z → conn → conn) : HalfCloseProbe :=
  let p err pre post :=
    MkProbe true "" (t_Endpoint t) (t_Source t) (loopbackEndpoint (t_Endpoint t))
      (match s_Secret s with Ok a => a | Err _ => false end) err
      (w_bytes pre) (w_events pre) (w_bytes post) (w_events post) (w_eof post) window false (t_NEFilter t) in
  match first_err s with
  | Some e => p e window0 window0
  | None =>
      let '(pre, (c, now)) := readWindow t0 ProbeSnapshotWindow true c in
      if w_eof pre then p hung_up pre window0
      else match s_CloseWrite s with
      | Some e => p e pre window0
      | None => let '(post, _) := readWindow now window false (fin now c) in p "" pre post
      end
  end.
Definition RunHalfCloseProbe (t : HalfCloseTarget) (s : steps) := runProbeWithWindow t s ProbePostFINWindow.

(** What gather.go runs: [secret_ok] is whether the Mac's secret file is there and
    well formed, so that the run is given its path. *)
Definition not_asked (why : string) : HalfCloseProbe := MkProbe false why "" "" false false "" 0 0 0 0 false 0 false [].
Definition halfCloseInput (probe : bool) (endpoint source : string) (ran : bool) (filters : list string)
  (run : HalfCloseTarget → HalfCloseProbe) : HalfCloseProbe :=
  if negb probe then not_asked "the active half-close probe is opt-in; pass -probe to run it."
  else if negb ran || String.eqb endpoint "" then not_asked "no endpoint was resolved, so there is nothing to probe (see checks 1 and 4)."
  else run (MkTarget endpoint source filters).

(** ** The verdict *)

Inductive hc_title := HNotRun | HNoSession | HNoSnapshot | HStreams | HEndedAtFIN | HStarvedLoopback | HStarvedOwnPath | HStarved.
Inductive hc_line :=
| HSkipped (why : string) | HEndpoint (ep source : string) (auth : option bool) | HError (e : string) | HOtherChecks
| HCounts (preEvents preBytes window postEvents postBytes : Z) (eof : bool)
| HSilent | HDelivered | HEndedCleanly | HCannotTell | HNothingArrived | HSignature | HForwarder
| HOwnPath | HLoopbackOnly | HFilters (names : list string) | HNoFilter.
Inductive hc_remedy := CheckAgentAlive | UpgradePodman | DeactivateExtension | PinForwarder.
Definition pathCaveat (p : HalfCloseProbe) : hc_line := if p_DirectPath p then HOwnPath else HLoopbackOnly.
Definition CheckHalfClose (p : HalfCloseProbe) : Finding hc_title hc_line hc_remedy :=
  let f t s ev r := MkFinding IDHalfClose t s ev r in
  let caveat := if p_Loopback p then [pathCaveat p] else [] in
  if negb (p_Ran p) then
    f HNotRun StatusSkip [HSkipped (firstNonEmpty [p_Skip p; "the active half-close probe is opt-in; pass -probe to run it."])] None
  else if negb (String.eqb (p_Err p) "") then
    f HNoSession StatusSkip [HEndpoint (p_Endpoint p) (p_Source p) None; HError (p_Err p); HOtherChecks] None
  else
    let ev := [HEndpoint (p_Endpoint p) (p_Source p) (Some (p_Auth p));
      HCounts (p_PreEvents p) (p_PreBytes p) (p_Window p) (p_PostEvents p) (p_PostBytes p) (p_PostEOF p)] in
    if p_PreBytes p =? 0 then f HNoSnapshot StatusSkip (ev ++ [HSilent]) None
    else if 0 <? p_PostBytes p then
      f HStreams StatusOK (ev ++ [HDelivered] ++ (if p_PostEOF p then [HEndedCleanly] else []) ++ caveat) None
    else if p_PostEOF p then f HEndedAtFIN StatusSkip (ev ++ [HCannotTell] ++ caveat) None
    else
      let ev := ev ++ [HNothingArrived; HSignature] in
      if p_Loopback p && negb (p_DirectPath p) then f HStarvedLoopback StatusWarn (ev ++ [HLoopbackOnly]) (Some CheckAgentAlive)
      else if p_Loopback p then f HStarvedOwnPath StatusFail (ev ++ [HOwnPath; HForwarder]) (Some UpgradePodman)
      else match p_NEFilter p with
      | [] => f HStarved StatusFail (ev ++ [HNoFilter]) (Some PinForwarder)
      | names => f HStarved StatusFail (ev ++ [HFilters names]) (Some DeactivateExtension)
      end.

(** [Classify]'s word on the path: whether the endpoint is the provider's own. *)
Definition on_path (direct : bool) (p : HalfCloseProbe) : HalfCloseProbe :=
  MkProbe (p_Ran p) (p_Skip p) (p_Endpoint p) (p_Source p) (p_Loopback p) (p_Auth p) (p_Err p)
    (p_PreBytes p) (p_PreEvents p) (p_PostBytes p) (p_PostEvents p) (p_PostEOF p) (p_Window p) (p_DirectPath p || direct) (p_NEFilter p).

(** ** What the reads see *)

(** Deliveries at least every [gap] after [prev], until [until]. *)
Fixpoint paced (gap prev until : Z) (arr : list (Z * string)) : Prop :=
  match arr with
  | [] => until <= prev
  | (t, chunk) :: rest => prev <= t <= prev + gap ∧ chunk ≠ "" ∧ paced gap t until rest
  end.
Lemma got_bytes out chunk : chunk ≠ "" → w_bytes out < w_bytes (got out chunk).
Proof. unfold got. cbn. destruct chunk; [done|]. intros _. cbn [String.length]. lia. Qed.
Lemma got_mono out chunk : w_bytes out <= w_bytes (got out chunk).
Proof. unfold got. cbn. lia. Qed.
Lemma count_byte_nonneg c s : 0 <= count_byte c s.
Proof. induction s as [|d s IH]; [done|]. cbn. destruct (Ascii.eqb c d); lia. Qed.

(** A window over a paced connection that stays open ends in time, without an
    end, and leaves a paced connection. *)
Lemma read_loop_paced gap until deadline early prev now arr out :
  paced gap prev until arr → prev <= now <= deadline → w_eof out = false →
  let '(out', (c, now')) := read_loop deadline early now arr None out in
  w_eof out' = false ∧ w_bytes out <= w_bytes out' ∧ closed c = None ∧ now <= now' <= deadline ∧
  ∃ prev', prev' <= now' ∧ paced gap prev' until (arrivals c).
Proof.
  revert prev now out. induction arr as [|[t chunk] arr IH]; intros prev now out Hp Hn He.
  { cbn in *. split_and!; try done; try lia. exists prev. split; [lia|done]. }
  cbn [read_loop]. destruct Hp as (Ht & Hc & Hp). destruct (Z.ltb_spec t deadline) as [Hd|Hd].
  - destruct (early && _).
    + split_and!; try done; try lia; [apply got_mono|]. exists t. split; [lia|done].
    + assert (t <= Z.max now t <= deadline) as Hm by lia. assert (w_eof (got out chunk) = false) as He' by done.
      specialize (IH t _ _ Hp Hm He').
      destruct (read_loop deadline early (Z.max now t) arr None (got out chunk)) as [out' [c now']].
      destruct IH as (H1 & H2 & H3 & H4 & H5). pose proof (got_mono out chunk). split_and!; try done; try lia.
  - split_and!; try done; try lia. exists prev. split; [lia|]. cbn [arrivals paced]. split_and!; done || lia.
Qed.
(** A window that outlasts the pace sees something. *)
Lemma read_loop_delivers gap until deadline early prev now arr cl out :
  0 <= gap → paced gap prev until arr → deadline <= until → prev <= now → prev + gap < deadline →
  w_bytes out < w_bytes (read_loop deadline early now arr cl out).1.
Proof.
  intros Hg0. destruct arr as [|[t chunk] arr]; cbn [paced read_loop]; [lia|]. intros (Ht & Hc & Hp) Hu Hn Hg.
  rewrite (proj2 (Z.ltb_lt t deadline)) by lia. pose proof (got_bytes out chunk Hc) as HG.
  destruct (early && _); [done|]. eapply Z.lt_le_trans; [exact HG|].
  assert (∀ arr now out, w_bytes out <= w_bytes (read_loop deadline early now arr cl out).1) as HM; [|apply HM].
  clear. intros arr. induction arr as [|[t chunk] arr IH]; intros now out; cbn [read_loop].
  - destruct cl as [t|]; [destruct (t <? deadline)|]; cbn; lia.
  - destruct (t <? deadline); [|done]. destruct (early && _); [apply got_mono|].
    etrans; [apply (got_mono out chunk)|apply IH].
Qed.
(** What the path does with the bytes after the client's FIN. *)
Definition delivers (now : Z) (c : conn) : conn := c.
Definition starves (now : Z) (c : conn) : conn := MkConn [] None.
Definition ends (at_ : Z) (now : Z) (c : conn) : conn := MkConn [] (Some at_).

(** The verdict on a session that reached the FIN. *)
Lemma CheckHalfClose_session p :
  p_Ran p = true → p_Err p = "" → 0 < p_PreBytes p →
  let f := CheckHalfClose p in
  (0 < p_PostBytes p → f_Title f = HStreams ∧ f_Status f = StatusOK) ∧
  (p_PostBytes p = 0 → p_PostEOF p = true → f_Title f = HEndedAtFIN ∧ f_Status f = StatusSkip) ∧
  (p_PostBytes p = 0 → p_PostEOF p = false →
     f_Title f = (if p_Loopback p then if p_DirectPath p then HStarvedOwnPath else HStarvedLoopback else HStarved) ∧
     f_Status f = (if p_Loopback p && negb (p_DirectPath p) then StatusWarn else StatusFail) ∧
     (p_Loopback p = false → f_Remedy f = Some (if decide (p_NEFilter p = []) then PinForwarder else DeactivateExtension))).
Proof.
  intros HR HE HB. cbv zeta. unfold CheckHalfClose. rewrite HR, HE. cbn [negb String.eqb].
  rewrite (proj2 (Z.eqb_neq (p_PreBytes p) 0)) by lia. split_and!.
  - intros H. by rewrite (proj2 (Z.ltb_lt 0 _)).
  - intros -> ->. done.
  - intros -> ->. cbn [Z.ltb Z.compare]. destruct (p_Loopback p), (p_DirectPath p); cbn [negb andb]; try (split_and!; done).
    all: destruct (p_NEFilter p); split_and!; done.
Qed.

(** The transcript of one. *)
Lemma run_session t s window t0 c fin :
  first_err s = None → s_CloseWrite s = None → w_eof (readWindow t0 ProbeSnapshotWindow true c).1 = false →
  let '(pre, (c1, now)) := readWindow t0 ProbeSnapshotWindow true c in
  let post := (readWindow now window false (fin now c1)).1 in
  let p := runProbeWithWindow t s window t0 c fin in
  p_Ran p = true ∧ p_Err p = "" ∧ p_PreBytes p = w_bytes pre ∧ p_DirectPath p = false ∧
  p_Loopback p = loopbackEndpoint (t_Endpoint t) ∧ p_NEFilter p = t_NEFilter t ∧ p_PostBytes p = w_bytes post ∧ p_PostEOF p = w_eof post.
Proof.
  intros HE HC. unfold runProbeWithWindow. rewrite HE, HC. destruct (readWindow t0 _ true c) as [pre [c1 now]]. cbn [fst]. intros ->.
  by destruct (readWindow now window false (fin now c1)) as [post ?].
Qed.

(** C35: the probe tells the paths apart. Against an agent that sends its
    snapshot within a second and then something at least as often as its liveness
    ping, whose session the guest keeps through the client's FIN, a probe run
    with the shipped window is good exactly on a path that delivers; one that
    delivers nothing after the FIN is reported starved - a failure, with the
    network extensions to blame when there are any, and a warning only on a
    loopback endpoint that is not the provider's own path - and a session that
    ends at the FIN is a skip: no verdict at all. *)
Theorem half_close_discriminates t s t0 arr until direct :
  first_err s = None → s_CloseWrite s = None →
  paced AgentPingEvery t0 until arr → t0 + ProbeSnapshotWindow + ProbePostFINWindow <= until →
  (∃ t1 chunk rest, arr = (t1, chunk) :: rest ∧ t1 < t0 + ProbeSnapshotWindow) →
  let verdict fin := CheckHalfClose (on_path direct (RunHalfCloseProbe t s t0 (MkConn arr None) fin)) in
  let loop := loopbackEndpoint (t_Endpoint t) in
  f_Title (verdict delivers) = HStreams ∧ f_Status (verdict delivers) = StatusOK ∧
  f_Title (verdict starves) = (if loop then if direct then HStarvedOwnPath else HStarvedLoopback else HStarved) ∧
  f_Status (verdict starves) = (if loop && negb direct then StatusWarn else StatusFail) ∧
  (loop = false → f_Remedy (verdict starves) = Some (if decide (t_NEFilter t = []) then PinForwarder else DeactivateExtension)) ∧
  (∀ at_, at_ < t0 + ProbePostFINWindow → f_Title (verdict (ends at_)) = HEndedAtFIN ∧ f_Status (verdict (ends at_)) = StatusSkip).
Proof.
  intros HE HC HP HU (t1 & chunk & rest & HA & Ht1). cbv zeta.
  assert (0 <= ProbeSnapshotWindow) as HW by done.
  pose proof (read_loop_paced AgentPingEvery until (t0 + ProbeSnapshotWindow) true t0 t0 arr window0 HP ltac:(lia) eq_refl) as HL.
  assert (w_bytes window0 < w_bytes (read_loop (t0 + ProbeSnapshotWindow) true t0 arr None window0).1) as HB.
  { rewrite HA in *. destruct HP as (Ht & Hc & HP). cbn [read_loop]. rewrite (proj2 (Z.ltb_lt t1 _)) by done.
    pose proof (got_bytes window0 chunk Hc). destruct (_ && _); [done|].
    pose proof (read_loop_paced AgentPingEvery until (t0 + ProbeSnapshotWindow) true t1 (Z.max t0 t1) rest (got window0 chunk) HP ltac:(lia) eq_refl) as HL'.
    revert HL'. destruct (read_loop _ _ _ rest _ _) as [? [? ?]]. cbn [fst]. intros (_ & ? & _). lia. }
  pose proof (λ fin, run_session t s ProbePostFINWindow t0 (MkConn arr None) fin HE HC) as HR. unfold readWindow in HR at 1 2.
  cbn [arrivals closed] in HR.
  destruct (read_loop (t0 + ProbeSnapshotWindow) true t0 arr None window0) as [pre [c now]].
  destruct HL as (H1 & _ & H3 & H4 & prev & H5 & H6). cbn [fst] in HB, HR. change (w_bytes window0) with 0 in HB.
  assert (0 < w_bytes (read_loop (now + ProbePostFINWindow) false now (arrivals c) (closed c) window0).1) as HD.
  { change 0 with (w_bytes window0). apply (read_loop_delivers AgentPingEvery until _ _ prev); [done|done|lia..|].
    unfold ProbePostFINWindow, AgentPingEvery, second. lia. }
  assert (∀ fin, let p := on_path direct (RunHalfCloseProbe t s t0 (MkConn arr None) fin) in
    p_Ran p = true ∧ p_Err p = "" ∧ 0 < p_PreBytes p ∧ p_Loopback p = loopbackEndpoint (t_Endpoint t) ∧ p_DirectPath p = direct ∧
    p_NEFilter p = t_NEFilter t ∧ let post := (readWindow now ProbePostFINWindow false (fin now c)).1 in
    p_PostBytes p = w_bytes post ∧ p_PostEOF p = w_eof post) as HP'.
  { intros fin. destruct (HR fin H1) as (E1 & E2 & E3 & E4 & E5 & E6 & E7 & E8). unfold on_path, RunHalfCloseProbe.
    cbn [p_Ran p_Err p_PreBytes p_Loopback p_DirectPath p_NEFilter p_PostBytes p_PostEOF]. rewrite E4.
    split_and!; try done. lia. }
  assert (0 < w_bytes (readWindow now ProbePostFINWindow false (delivers now c)).1) as HD' by exact HD.
  assert (∀ at_ now, (readWindow now ProbePostFINWindow false (starves now c)).1 = window0 ∧
    (at_ < now + ProbePostFINWindow → (readWindow now ProbePostFINWindow false (ends at_ now c)).1 = MkWindow 0 0 true)) as HS.
  { clear. intros at_ now. split; [done|]. intros H. unfold readWindow. cbn [ends arrivals closed read_loop].
    by rewrite (proj2 (Z.ltb_lt at_ _)). }
  destruct (HP' delivers) as (D1 & D2 & D3 & _ & _ & _ & D4 & _). rewrite <- D4 in HD'.
  destruct (HP' starves) as (S1 & S2 & S3 & S4 & S5 & S6 & S7 & S8). rewrite (proj1 (HS 0 now)) in S7, S8.
  destruct (proj1 (CheckHalfClose_session _ D1 D2 D3) HD') as [G1 G2].
  destruct (proj2 (proj2 (CheckHalfClose_session _ S1 S2 S3)) S7 S8) as (G3 & G4 & G5). rewrite S4, S5 in G3, G4. rewrite S4, S6 in G5.
  split_and!; try done. intros at_ Ha. destruct (HP' (ends at_)) as (K1 & K2 & K3 & _ & _ & _ & K7 & K8).
  rewrite (proj2 (HS at_ now)) in K7, K8 by lia. by apply CheckHalfClose_session.
Qed.
Definition ex_target : HalfCloseTarget := MkTarget "tcp://192.168.64.3:4777" "vznat-direct" ["at.obdev.littlesnitch.networkextension"].
Definition ex_steps : steps := MkSteps (Ok true) None None None None.
Definition line (s : string) : string := s +:+ String "010" "".
Definition ex_stream : list (Z * string) :=
  [(second / 2, line "{snapshot}"); (15 * second, line "{ping}"); (30 * second, line "{ping}"); (45 * second, line "{ping}")].
Lemma half_close_discriminates_witness :
  f_Remedy (CheckHalfClose (RunHalfCloseProbe ex_target ex_steps 0 (MkConn ex_stream None) starves)) = Some DeactivateExtension ∧
  f_Title (CheckHalfClose (on_path false (RunHalfCloseProbe ex_target ex_steps 0 (MkConn ex_stream None) delivers))) = HStreams.
Proof.
  split; [vm_compute; reflexivity|].
  refine (proj1 (half_close_discriminates ex_target ex_steps 0 ex_stream (45 * second) false _ _ _ _ _)); [reflexivity|reflexivity|..].
  - unfold ex_stream, line. cbn [paced]. unfold AgentPingEvery, second. split_and!; discriminate || lia.
  - unfold ProbeSnapshotWindow, ProbePostFINWindow, AgentPingEvery, second. lia.
  - exists (second / 2), (line "{snapshot}"), [(15 * second, line "{ping}"); (30 * second, line "{ping}"); (45 * second, line "{ping}")].
    split; [reflexivity|]. vm_compute. reflexivity.
Defined.

(** A budget that runs out closes the connection, and a read of a closed
    connection is no timeout: a healthy session cut short is taken for one the
    agent ended at the FIN - a skip, not the starved signature. *)
Definition cut (at_ : Z) (now : Z) (c : conn) : conn :=
  MkConn (List.filter (λ p, p.1 <? at_) (arrivals c)) (Some at_).
Theorem cut_short_skips :
  f_Title (CheckHalfClose (RunHalfCloseProbe ex_target ex_steps 0 (MkConn ex_stream None) (cut (10 * second)))) = HEndedAtFIN ∧
  f_Status (CheckHalfClose (RunHalfCloseProbe ex_target ex_steps 0 (MkConn ex_stream None) (cut (10 * second)))) = StatusSkip ∧
  f_Status (CheckHalfClose (RunHalfCloseProbe ex_target ex_steps 0 (MkConn ex_stream None) delivers)) = StatusOK.
Proof. split_and!; vm_compute; reflexivity. Qed.

(** A reset counts as the agent's end all the same: whatever ends the session in
    the window, there is no verdict; and no transcript gives a warning or a
    failure without a session that outlived the FIN in silence. *)
Theorem blame_needs_silence p :
  f_Status (CheckHalfClose p) ∈ [StatusWarn; StatusFail] ↔
    p_Ran p = true ∧ p_Err p = "" ∧ p_PreBytes p ≠ 0 ∧ p_PostBytes p <= 0 ∧ p_PostEOF p = false.
Proof.
  unfold CheckHalfClose. destruct (p_Ran p); cbn [negb]; [|cbn; set_solver].
  destruct (String.eqb_spec (p_Err p) ""); cbn [negb]; [|cbn; set_solver].
  destruct (Z.eqb_spec (p_PreBytes p) 0); [cbn; set_solver|].
  destruct (Z.ltb_spec 0 (p_PostBytes p)). { cbn. split; [set_solver|lia]. }
  destruct (p_PostEOF p); [cbn; set_solver|].
  split; [done|]. intros _. destruct (p_Loopback p), (p_DirectPath p); cbn [negb andb]; try (cbn; set_solver); destruct (p_NEFilter p); cbn; set_solver.
Qed.
