(* ===== verification/Setup.v ===== *)
(** * Setup: laying the daemon down, taking it away, and looking at it

    [src/internal/install/install.go] and [status.go]: [Install], [Uninstall] and
    [Query] as sequences of system calls over a file system with owners, modes
    and symbolic links, each of which may fail, and between any two of which the
    logged-in user may change whatever that user may write. An absolute path is
    the list of its components. What the calls answer and what the user does is
    an [env]; progress lines are left out. *)

From S2P Require Import Prelude GoStr GoPath Plist.
From S2P Require DoctorAuth.
Open Scope string_scope.
Open Scope list_scope.
Open Scope Z_scope.

(** ** The file system *)

(** [strings.Contains] *)
Notation Contains := DoctorAuth.Contains.
Notation path := (list string).
Inductive node := Dir (uid perm : Z) | File (uid perm : Z) (data : string) | Link (target : path).
Notation fs := (gmap (list string) node).
Inductive errno := ENOENT | ENOTDIR | EEXIST | EISDIR | ELOOP | EIO.
#[export] Instance errno_eq : EqDecision errno.
Proof. solve_decision. Defined.
#[export] Instance node_eq : EqDecision node.
Proof. solve_decision. Defined.

Definition parts (s : string) : path := List.filter (λ c, negb (String.eqb c "")) (Split "/" s).
Definition MAXSYMLINKS : nat := 32.
(** Name resolution: links are followed wherever they stand, the last component
    may be absent. *)
Fixpoint walk (hops : nat) (f : fs) : path → path → result errno path :=
  fix go pre todo :=
    match todo with
    | [] => Ok pre
    | c :: rest =>
        match f !! (pre ++ [c]) with
        | Some (Link t) => match hops with O => Err ELOOP | S h => walk h f [] (t ++ rest) end
        | Some (Dir _ _) => go (pre ++ [c]) rest
        | Some (File _ _ _) => match rest with [] => Ok (pre ++ [c]) | _ => Err ENOTDIR end
        | None => match rest with [] => Ok (pre ++ [c]) | _ => Err ENOENT end
        end
    end.
Definition resolve (f : fs) (p : path) : result errno path := walk MAXSYMLINKS f [] p.
(** The place of a name in its directory; the name itself is not followed. *)
Definition entry (f : fs) (d : path) (name : string) : result errno path :=
  q ← resolve f d;
  match f !! q with Some (Dir _ _) => Ok (q ++ [name]) | Some _ => Err ENOTDIR | None => Err ENOENT end.
#[global] Arguments resolve : simpl never.
#[global] Arguments entry : simpl never.
Definition filepath_Dir (p : path) : path := removelast p.
Definition filepath_Base (p : path) : string := List.last p "".

(** [os.Stat] *)
Definition stat (f : fs) (p : path) : result errno node := q ← resolve f p; of_option ENOENT (f !! q).
Definition contents (f : fs) (p : path) : result errno string :=
  n ← stat f p; match n with File _ _ d => Ok d | _ => Err EISDIR end.
Definition with_mode (m : Z) (n : node) : node :=
  match n with Dir u _ => Dir u m | File u _ d => File u m d | Link t => Link t end.
Definition with_owner (u : Z) (n : node) : node :=
  match n with Dir _ m => Dir u m | File _ m d => File u m d | Link t => Link t end.
Definition change (g : node → node) (p : path) (f : fs) : result errno fs :=
  q ← resolve f p; match f !! q with Some n => Ok (<[q := g n]> f) | None => Err ENOENT end.
Definition mkdir (p : path) (mode : Z) (f : fs) : result errno fs :=
  match stat f p with
  | Ok (Dir _ _) => Ok f
  | Ok _ => Err ENOTDIR
  | Err ENOENT =>
      q ← entry f (filepath_Dir p) (filepath_Base p);
      match f !! q with None => Ok (<[q := Dir 0 mode]> f) | Some _ => Err EEXIST end
  | Err e => Err e
  end.
(** A new private file, under a name nothing has. *)
Definition create (d : path) (name : string) (f : fs) : result errno (fs * path) :=
  q ← entry f d name; match f !! q with None => Ok (<[q := File 0 384 ""]> f, q) | Some _ => Err EEXIST end.
(** Through the descriptor: the path is the one the file was created at. *)
Definition write (q : path) (data : string) (f : fs) : fs :=
  match f !! q with Some (File u m _) => <[q := File u m data]> f | _ => f end.
Definition rename (d : path) (old new : string) (f : fs) : result errno fs :=
  a ← entry f d old; b ← entry f d new;
  match f !! a, f !! b with
  | None, _ => Err ENOENT
  | Some (Dir _ _), _ => Err ENOTDIR
  | _, Some (Dir _ _) => Err EISDIR
  | Some n, _ => Ok (<[b := n]> (delete a f))
  end.
(** [os.Remove]: a file or a link, or an empty directory. *)
Definition below (d p : path) : Prop := d `prefix_of` p ∧ d ≠ p.
Definition is_empty_dir (f : fs) (q : path) : bool := bool_decide (map_Forall (λ p _, ¬ below q p) f).
Definition remove (p : path) (f : fs) : result errno fs :=
  q ← entry f (filepath_Dir p) (filepath_Base p);
  match f !! q with
  | None => Err ENOENT
  | Some (Dir _ _) => if is_empty_dir f q then Ok (delete q f) else Err EIO
  | Some _ => Ok (delete q f)
  end.

(** ** What the user may do meanwhile *)

Definition may_write (user : Z) (n : node) : bool :=
  match n with Dir u m | File u m _ => (u =? user) || negb (Z.land m 18 =? 0) | Link _ => false end.
Definition owner (n : node) : option Z := match n with Dir u _ | File u _ _ => Some u | Link _ => None end.
Definition is_link (o : option node) : bool := match o with Some (Link _) => true | _ => false end.
(** One move of the user: at a directory or file that user may write, everything
    below it, its mode and its bytes; never its owner, and nothing elsewhere. *)
Definition ustep (user : Z) (f f' : fs) : Prop :=
  ∃ d n n', f !! d = Some n ∧ may_write user n = true ∧ f' !! d = Some n' ∧ owner n' = owner n ∧
    ∀ p, ¬ d `prefix_of` p → f' !! p = f !! p.

(** ** Calls *)

(** The environment: what the user makes of the file system before a call; the
    call's failure, with how much of a write got through; the temporary's
    suffix; launchctl's output; the program launchd starts for the plist; what
    the installed binary prints for -version; an error's text. *)
Record env := MkEnv {
  e_user : nat → fs → fs; e_fault : nat → option (errno * nat); e_suffix : nat → string; e_reply : nat → string;
  e_start : fs → option string; e_version : option string; e_text : errno → string }.
(** The job, when loaded, is the program it was started from. [past] is every
    state a call left behind, the last first. *)
Record world := MkWorld { files : fs; job : option string; calls : nat; past : list (fs * option string) }.
Inductive setup_err :=
| EConfig (e : config_err) | NeedRoot | NoBinary (e : errno) | NotRegular | BootoutFailed (out : string) | Sys (e : errno)
| OwnedBy (p : path) (uid : Z) | OthersWrite (p : path) (perm : Z) | BootstrapFailed (out : string) | NotStarted
| ErrNotInstalled | VersionFailed | VersionEmpty.
Definition M (A : Type) := world → world * result setup_err A.
#[export] Instance M_ret : MRet M := λ A a w, (w, Ok a).
#[export] Instance M_bind : MBind M := λ A B k m w, match m w with (w', Ok a) => k a w' | (w', Err e) => (w', Err e) end.
Definition throw {A} (e : setup_err) : M A := λ w, (w, Err e).
(** [defer] *)
Definition finally {A B} (m : M A) (d : M B) : M A := λ w, let '(w', r) := m w in ((d w').1, r).
(** The error as a value. *)
Definition try {A} (m : M A) : M (result setup_err A) := λ w, let '(w', r) := m w in (w', Ok r).

Definition NewsyslogConf : string :=
  let t := String "009" "" in
  concat ["# logfilename"; t; t; "[owner:group]"; t; "mode count size when flags"; nl;
    "# drawbridged's log is opened by launchd (StandardOutPath), so there is no"; nl;
    "# process to signal on rotation (flag N) — and the running daemon keeps"; nl;
    "# appending to the rotated file until it restarts. See internal/install."; nl;
    LogPath; t; "root:wheel"; t; "644"; t; "5"; t; "1024"; t; "*"; t; "N"; nl].

Section calls.
Variable e : env.
Definition moment (w : world) (f : fs) (j : option string) : world := MkWorld f j (S (calls w)) ((f, j) :: past w).
Definition sys {A} (op : nat → fs → result errno (fs * A)) (torn : nat → fs → fs) : M A := λ w,
  let k := calls w in let f := e_user e k (files w) in
  match e_fault e k with
  | Some (en, n) => (moment w (torn n f) (job w), Err (Sys en))
  | None => match op k f with
            | Ok (f', a) => (moment w f' (job w), Ok a)
            | Err en => (moment w f (job w), Err (Sys en))
            end
  end.
Definition whole (n : nat) (f : fs) : fs := f.
Definition syscall (op : fs → result errno fs) : M () := sys (λ _ f, f ← op f; Ok (f, tt)) whole.
Definition query {A} (op : fs → result errno A) : M A := sys (λ _ f, a ← op f; Ok (f, a)) whole.
(** A launchctl run: whether it succeeded, and its output. *)
Definition launchctl (act : fs → option string → option (option string)) : M (bool * string) := λ w,
  let k := calls w in let f := e_user e k (files w) in
  match e_fault e k, act f (job w) with
  | None, Some j => (moment w f j, Ok (true, e_reply e k))
  | _, _ => (moment w f (job w), Ok (false, e_reply e k))
  end.

(** ** launchctl *)

Definition bootout : M () :=
  '(ok, out) ← launchctl (λ _ j, match j with Some _ => Some None | None => None end);
  if ok || Contains out "No such process" || Contains out "Could not find" then mret tt
  else throw (BootoutFailed (TrimSpace out)).
Definition bootstrap : M () :=
  '(ok, out) ← launchctl (λ f j, match j with Some _ => None | None => Some <$> e_start e f end);
  if (ok : bool) then mret tt else throw (BootstrapFailed (TrimSpace out)).

(** The patterns of [stateRE] and [pidRE]: [\s], and one match at a line's start. *)
Definition re_space (c : ascii) : bool := existsb (Z.eqb (code c)) [9; 10; 12; 13; 32].
Fixpoint first_line (s : string) : string :=
  match s with EmptyString => "" | String c s => if Ascii.eqb c "010" then "" else String c (first_line s) end.
(** The last character that is not a line's end. *)
Fixpoint last_of_line (s : string) : option string :=
  match s with
  | EmptyString => None
  | String c s => match last_of_line s with Some r => Some r | None => if Ascii.eqb c "010" then None else Some (String c "") end
  end.
Definition capture_text (s : string) : option string :=
  match trim_left re_space s with "" => last_of_line s | s' => Some (trim_right re_space (first_line s')) end.
Fixpoint digits_of (s : string) : string :=
  match s with String c s => if is_dec c then String c (digits_of s) else "" | EmptyString => "" end.
Definition capture_digits (s : string) : option string :=
  match digits_of (trim_left re_space s) with "" => None | d => Some d end.
(** [\t?] *)
Definition untab (s : string) : string := match s with String c s' => if Ascii.eqb c "009" then s' else s | EmptyString => "" end.
Definition match_field (strict : bool) (key : string) (capture : string → option string) (s : string) : option string :=
  let s := if strict then untab s else trim_left re_space s in
  rest ← CutPrefix key s; rest ← CutPrefix "=" (trim_left re_space rest); capture rest.
Fixpoint find_match (m : string → option string) (bol : bool) (s : string) : option string :=
  match (if bol then m s else None) with
  | Some r => Some r
  | None => match s with EmptyString => None | String c s' => find_match m (Ascii.eqb c "010") s' end
  end.
Definition parseState (s : string) : string :=
  match find_match (match_field true "state" capture_text) true s with
  | Some x => x
  | None => default "unknown" (find_match (match_field false "state" capture_text) true s)
  end.
Definition pid_of (o : option string) : option Z := d ← o; match Atoi d with Ok n => Some n | Err _ => None end.
Definition parsePID (s : string) : Z :=
  match pid_of (find_match (match_field true "pid" capture_digits) true s) with
  | Some n => n
  | None => default 0 (pid_of (find_match (match_field false "pid" capture_digits) true s))
  end.
Definition printJob : M (bool * string * Z) :=
  '(ok, out) ← launchctl (λ _ j, match j with Some _ => Some j | None => None end);
  if (ok : bool) then mret (true, parseState out, parsePID out) else mret (false, "", 0).
(** As many polls as fit before the deadline. *)
Fixpoint waitRunning (polls : nat) : M () :=
  '(loaded, state, pid) ← printJob;
  if loaded && String.eqb state "running" && (0 <? pid) then mret tt
  else match polls with O => throw NotStarted | S n => waitRunning n end.

(** ** Directories and files *)

Definition stat_ (p : path) : M node := query (λ f, stat f p).
Definition prefixes (p : path) : list path := (λ n, take n p) <$> seq 1 (length p).
Fixpoint each {A} (g : A → M ()) (l : list A) : M () :=
  match l with [] => mret tt | x :: l => g x ;; each g l end.
(** [os.MkdirAll]: the missing directories, top down. *)
Definition MkdirAll (p : path) (mode : Z) : M () := each (λ q, syscall (mkdir q mode)) (prefixes p).
Definition secureDirInfo (p : path) (n : node) : M () :=
  match n with
  | Dir u m | File u m _ =>
      if negb (u =? 0) then throw (OwnedBy p u) else if negb (Z.land m 18 =? 0) then throw (OthersWrite p m) else mret tt
  | Link _ => mret tt
  end.
Fixpoint check_from (cur rest : path) : M () :=
  n ← stat_ cur; secureDirInfo cur n;;
  match rest with [] => mret tt | c :: rest => check_from (cur ++ [c]) rest end.
Definition checkSecurePath (dir : path) : M () := check_from [] dir.
Definition ensureRootDir (dir : path) (mode : Z) : M () :=
  MkdirAll dir mode;; syscall (change (with_mode mode) dir);; syscall (change (with_owner 0) dir);; checkSecurePath dir.
Definition tmp_name (base : string) (k : nat) : string := "." +:+ base +:+ ".tmp" +:+ e_suffix e k.
Definition CreateTemp (d : path) (base : string) : M (string * path) :=
  sys (λ k f, '(f, q) ← create d (tmp_name base k) f; Ok (f, (tmp_name base k, q))) whole.
Definition tmp_write (q : path) (data : string) : M () :=
  sys (λ _ f, Ok (write q data f, tt)) (λ n, write q (str_take n data)).
Definition writeRootFile (dst : path) (data : string) (mode : Z) : M () :=
  let dir := filepath_Dir dst in
  '(tmp, q) ← CreateTemp dir (filepath_Base dst);
  finally
    (tmp_write q data;; syscall Ok (* Close *);;
     syscall (change (with_owner 0) (dir ++ [tmp]));; syscall (change (with_mode mode) (dir ++ [tmp]));;
     syscall (rename dir tmp (filepath_Base dst)))
    (syscall (remove (dir ++ [tmp]))).
Definition installFile (src dst : path) (mode : Z) : M () :=
  data ← query (λ f, contents f src); writeRootFile dst data mode.
Definition fileExists (p : path) : M bool := r ← try (stat_ p); mret (is_ok r).

(** ** The log *)

Definition window : Z := 65536.
Definition nl_char : ascii := "010"%char.
Definition is_agent_line (l : string) : bool := Contains l "agent " && Contains l "(source=".
(** Where the reading starts, and whether it starts inside a line. *)
Definition log_start (size since : Z) : Z * bool :=
  let off := if (0 <? since) && (since <=? size) then since else 0 in
  if window <? size - off then (size - window, true) else (off, false).
Definition tailLog (log : string) (since : Z) (n : nat) : list string * string :=
  let '(off, fragment) := log_start (Z.of_nat (String.length log)) since in
  let body := trim_right (Ascii.eqb nl_char) (str_drop (Z.to_nat off) log) in
  if String.eqb body "" then ([], "")
  else
    let lines := Split nl_char body in
    let lines := if fragment then tail lines else lines in
    (drop (length lines - n) lines, List.last (List.filter is_agent_line lines) "").
Definition logSize (p : path) : M Z :=
  r ← try (query (λ f, contents f p)); mret (match r with Ok log => Z.of_nat (String.length log) | Err _ => 0 end).

(** ** Status *)

Definition BinaryDir : path := parts "/usr/local/libexec".
Definition BinaryName : string := "drawbridged".
Definition BinaryPath : path := BinaryDir ++ [BinaryName].
Definition LogDir : path := parts "/Library/Logs/drawbridge".
Definition LogPath : path := LogDir ++ ["drawbridged.log"].
Definition NewsyslogPath : path := parts "/etc/newsyslog.d/drawbridge.conf".
Definition PlistPath : path := parts ("/Library/LaunchDaemons/" +:+ Label +:+ ".plist").

Record InstallStatus := MkStatus {
  is_PlistInstalled : bool; is_BinaryInstalled : bool; is_VM : string; is_Loaded : bool; is_State : string; is_PID : Z;
  is_LogPresent : bool; is_LogTail : list string; is_AgentLine : string; is_LogNote : string }.
Definition Installed (st : InstallStatus) : bool := is_PlistInstalled st || is_BinaryInstalled st.
Definition Running (st : InstallStatus) : bool := is_Loaded st && String.eqb (is_State st) "running".
Definition InstalledVM : M string :=
  r ← try (query (λ f, contents f PlistPath)); mret (match r with Ok blob => argFromPlist blob "-vm" | Err _ => "" end).
Definition queryFrom (since : Z) : M InstallStatus :=
  p ← fileExists PlistPath; b ← fileExists BinaryPath; vm ← InstalledVM; '(loaded, state, pid) ← printJob;
  log ← try (query (λ f, contents f LogPath));
  mret (match log with
        | Ok log => let '(t, agent) := tailLog log since 8 in MkStatus p b vm loaded state pid true t agent ""
        | Err (Sys ENOENT) => MkStatus p b vm loaded state pid false [] "" "no log yet — the daemon has not run"
        | Err (Sys en) => MkStatus p b vm loaded state pid false [] "" ("cannot read: " +:+ e_text e en)
        | Err _ => MkStatus p b vm loaded state pid false [] "" "cannot read"
        end).
Definition Query : M InstallStatus := queryFrom 0.
(** The exit code of [drawbridge status]. *)
Definition status_exit (st : InstallStatus) : Z := if Running st then 0 else if Installed st || is_Loaded st then 1 else 3.
Definition parseVersionOutput (out : string) : option string := last (Fields out).
Definition InstalledVersion : M string :=
  b ← fileExists BinaryPath;
  if negb b then throw ErrNotInstalled
  else match e_version e with
  | None => throw VersionFailed
  | Some out => match parseVersionOutput out with Some v => mret v | None => throw VersionEmpty end
  end.

(** ** Install *)

Definition checkBinary (p : path) : M path :=
  r ← try (stat_ p);
  match r with Ok (File _ _ _) => mret p | Ok _ => throw NotRegular | Err (Sys en) => throw (NoBinary en) | Err x => throw x end.
Definition resolveBinarySource (override : option path) (self : path) : M path :=
  match override with
  | Some p => checkBinary p
  | None => q ← query (λ f, _ ← stat f self; resolve f self); checkBinary (filepath_Dir q ++ [BinaryName])
  end.
(** The wait for the daemon's own line: as many looks as the deadline allows. *)
Fixpoint await_agent (looks : nat) (mark : Z) (st : InstallStatus) : M InstallStatus :=
  if negb (String.eqb (is_AgentLine st) "") then mret st
  else match looks with O => mret st | S n => st ← queryFrom mark; await_agent n mark st end.
(** Files first, the plist last, and only then the job. *)
Definition put_files (src : path) (plist : string) : M () :=
  ensureRootDir BinaryDir 493;; installFile src BinaryPath 493;;
  ensureRootDir LogDir 493;; writeRootFile NewsyslogPath NewsyslogConf 420;;
  ensureRootDir (filepath_Dir PlistPath) 493;; writeRootFile PlistPath plist 420.
Definition boot_out_loaded : M () := '(loaded, _, _) ← printJob; if (loaded : bool) then bootout else mret tt.
Definition Install (colima_home : string) (root : bool) (self : path) (polls looks : nat) (cfg : Config) (binSrc : option path) : M InstallStatus :=
  match RenderPlist colima_home cfg with
  | Err x => throw (EConfig x)
  | Ok plist =>
      if negb root then throw NeedRoot
      else
        src ← resolveBinarySource binSrc self; boot_out_loaded;; put_files src plist;;
        mark ← logSize LogPath; bootstrap;; waitRunning polls;; st ← queryFrom mark; await_agent looks mark st
  end.

(** ** Uninstall *)

Fixpoint remove_all (l : list path) (first : option setup_err) : M (option setup_err) :=
  match l with
  | [] => mret first
  | p :: l =>
      r ← try (syscall (remove p));
      remove_all l (match r with Ok _ | Err (Sys ENOENT) => first | Err x => match first with None => Some x | _ => first end end)
  end.
Definition Uninstall (root : bool) : M () :=
  if negb root then throw NeedRoot
  else boot_out_loaded;; first ← remove_all [PlistPath; BinaryPath; NewsyslogPath] None;
       match first with None => mret tt | Some x => throw x end.
End calls.

(** ** What only root can touch *)

(** A directory or file of root's that nobody else may write. *)
Definition guarded (n : node) : Prop :=
  match n with Dir u m | File u m _ => u = 0 ∧ Z.land m 18 = 0 | Link _ => False end.
(** [p] and every directory on the way to it. *)
Definition chain (f : fs) (p : path) : Prop := ∀ q, q `prefix_of` p → ∃ n, f !! q = Some n ∧ guarded n.
Definition bytes (n : node) : option string := match n with File _ _ d => Some d | _ => None end.
Definition holds (f : fs) (p : path) (b : option string) : Prop := chain f p ∧ ∃ n, f !! p = Some n ∧ bytes n = b.
Definition PlistDir : path := filepath_Dir PlistPath.
(** No link on the way to the two directories. *)
Definition linkless (f : fs) : Prop :=
  ∀ q, q `prefix_of` BinaryDir ∨ q `prefix_of` PlistDir → is_link (f !! q) = false.
(** The daemon's two files are whole, root's, and where only root can write. *)
Definition committed (plist : string) (f : fs) (data : string) : Prop :=
  holds f BinaryPath (Some data) ∧ holds f PlistPath (Some plist).

Lemma chain_prefix f p q : q `prefix_of` p → chain f p → chain f q.
Proof. intros H HC r Hr. apply HC. by trans q. Qed.
Lemma guarded_unwritable user n : user ≠ 0 → guarded n → may_write user n = false.
Proof.
  intros Hu. destruct n as [u m|u m d|t]; cbn; [intros [-> ->]..|done].
  all: rewrite (proj2 (Z.eqb_neq 0 user)) by done; done.
Qed.
Lemma ustep_chain user f f' p : user ≠ 0 → ustep user f f' → chain f p → f' !! p = f !! p.
Proof.
  intros Hu (d & n & n' & Hd & Hw & _ & _ & Hoff) HC. apply Hoff. intros Hp.
  destruct (HC d Hp) as (n1 & Hn1 & Hg). rewrite Hd in Hn1. injection Hn1 as <-.
  rewrite (guarded_unwritable user n) in Hw by done. done.
Qed.
(** Whatever the user does, what only root can touch stays. *)
Lemma user_chain user f f' p : user ≠ 0 → rtc (ustep user) f f' → chain f p → f' !! p = f !! p ∧ chain f' p.
Proof.
  intros Hu. induction 1 as [f|f f1 f' Hs _ IH]; [done|]. intros HC.
  assert (∀ q, q `prefix_of` p → f1 !! q = f !! q) as Hsame.
  { intros q Hq. eapply ustep_chain; [done..|]. by eapply chain_prefix. }
  assert (chain f1 p) as HC1 by (intros q Hq; rewrite Hsame by done; by apply HC).
  destruct (IH HC1) as [H1 H2]. rewrite H1, Hsame by done. done.
Qed.
Lemma user_holds user f f' p b : user ≠ 0 → rtc (ustep user) f f' → holds f p b → holds f' p b.
Proof. intros Hu Hs [HC Hb]. destruct (user_chain user f f' p Hu Hs HC) as [H1 H2]. split; [done|]. by rewrite H1. Qed.

Lemma walk_nil h f pre : walk h f pre [] = Ok pre.
Proof. by destruct h. Qed.
Lemma walk_step h f pre c rest :
  walk h f pre (c :: rest) =
    match f !! (pre ++ [c]) with
    | Some (Link t) => match h with O => Err ELOOP | S h => walk h f [] (t ++ rest) end
    | Some (Dir _ _) => walk h f (pre ++ [c]) rest
    | Some (File _ _ _) => match rest with [] => Ok (pre ++ [c]) | _ => Err ENOTDIR end
    | None => match rest with [] => Ok (pre ++ [c]) | _ => Err ENOENT end
    end.
Proof. by destruct h. Qed.
(** Without links a name is its own place. *)
Lemma walk_plain h f pre todo q :
  (∀ r, r `prefix_of` todo → is_link (f !! (pre ++ r)) = false) → walk h f pre todo = Ok q → q = pre ++ todo.
Proof.
  revert pre. induction todo as [|c rest IH]; intros pre HL; [destruct h; cbn; rewrite app_nil_r; by intros [= ->]|].
  rewrite walk_step.
  specialize (HL [c] ltac:(by apply prefix_cons, prefix_nil)) as HL1.
  destruct (f !! (pre ++ [c])) as [[u m|u m d|t]|] eqn:E; cbn in HL1; [|destruct rest; [|done]; by intros [= ->]|done|destruct rest; [|done]; by intros [= ->]].
  intros HW. rewrite (IH (pre ++ [c])); [by rewrite <- app_assoc| |done].
  intros r Hr. rewrite <- app_assoc. apply HL. by apply prefix_cons.
Qed.
Lemma resolve_plain f p q : (∀ r, r `prefix_of` p → is_link (f !! r) = false) → resolve f p = Ok q → q = p.
Proof. intros HL HW. by apply (walk_plain _ _ [] p q HL) in HW. Qed.
Lemma chain_plain f p r : chain f p → r `prefix_of` p → is_link (f !! r) = false.
Proof. intros HC Hr. destruct (HC r Hr) as (n & -> & Hg). by destruct n. Qed.
Lemma prefix_snoc_inv (p d : path) c : p `prefix_of` d ++ [c] → p `prefix_of` d ∨ p = d ++ [c].
Proof.
  intros [k Hk]. destruct k as [|x k _] using rev_ind; [rewrite app_nil_r in Hk; by right|].
  rewrite app_assoc in Hk. apply app_inj_tail in Hk as [-> ->]. left. by exists k.
Qed.
Lemma chain_snoc f d c n : chain f d → f !! (d ++ [c]) = Some n → guarded n → chain f (d ++ [c]).
Proof. intros HC Hn Hg p [Hp| ->]%prefix_snoc_inv; eauto. Qed.

(** ** Calls that leave the guarded files alone *)

(** Of the paths [K], what only root can touch stays whole; and no link appears
    on the way to the two directories. *)
Definition tame (K : list path) (f f' : fs) : Prop :=
  (∀ q b, q ∈ K → holds f q b → holds f' q b) ∧ (linkless f → linkless f').
#[export] Instance tame_refl K : Reflexive (tame K).
Proof. split; auto. Qed.
#[export] Instance tame_trans K : Transitive (tame K).
Proof. intros f g h [H1 H2] [H3 H4]. split; auto. Qed.
Lemma tame_sub K K' f f' : K ⊆ K' → tame K' f f' → tame K f f'.
Proof. intros HK [H1 H2]. split; auto. Qed.

(** Pointwise: a guarded node stays guarded with its bytes, and no node becomes a link. *)
Definition kept (o o' : option node) : Prop :=
  (∀ n, o = Some n → guarded n → ∃ n', o' = Some n' ∧ guarded n' ∧ bytes n' = bytes n) ∧ (is_link o = false → is_link o' = false).
Lemma kept_refl o : kept o o.
Proof. split; [naive_solver|done]. Qed.
Lemma holds_kept f f' q b : (∀ p, p `prefix_of` q → kept (f !! p) (f' !! p)) → holds f q b → holds f' q b.
Proof.
  intros HP [HC (n & Hn & <-)]. split.
  - intros p Hp. destruct (HC p Hp) as (m & Hm & Hg). destruct (proj1 (HP p Hp) m Hm Hg) as (m' & ? & ? & ?). eauto.
  - destruct (HC q ltac:(done)) as (m & Hm & Hg). rewrite Hn in Hm. injection Hm as <-.
    destruct (proj1 (HP q ltac:(done)) n Hn Hg) as (m' & ? & ? & ?). eauto.
Qed.
(** Only at [X] does anything change that is not [kept]. *)
Lemma tame_kept K f f' :
  (∀ q p, q ∈ K → p `prefix_of` q → kept (f !! p) (f' !! p)) →
  (∀ p, p `prefix_of` BinaryDir ∨ p `prefix_of` PlistDir → is_link (f !! p) = false → is_link (f' !! p) = false) → tame K f f'.
Proof. intros HK HL. split; [|intros H q Hq; apply HL, H; done]. intros q b Hq. apply holds_kept. eauto. Qed.
Lemma tame_all_kept K f f' : (∀ p, kept (f !! p) (f' !! p)) → tame K f f'.
Proof. intros H. apply tame_kept; [auto|]. intros p _. apply (H p). Qed.
Lemma kept_insert (f : fs) q n p : kept (f !! q) (Some n) → kept (f !! p) (<[q := n]> f !! p).
Proof. intros H. destruct (decide (q = p)) as [->|Hn]; [by rewrite lookup_insert_eq|]. rewrite lookup_insert_ne by done. apply kept_refl. Qed.

Lemma mkdir_tame K p mode f f' : mkdir p mode f = Ok f' → tame K f f'.
Proof.
  unfold mkdir. destruct (stat f p) as [[| |]|[]]; try done; [by intros [= ->]|].
  destruct (entry _ _ _) as [q|]; cbn; [|done]. destruct (f !! q) eqn:E; [done|]. intros [= <-].
  apply tame_all_kept. intros r. apply kept_insert. rewrite E. by split.
Qed.
Lemma change_tame K g p f f' : (∀ n, kept (Some n) (Some (g n))) → change g p f = Ok f' → tame K f f'.
Proof.
  intros Hg. unfold change. destruct (resolve f p) as [q|]; cbn; [|done]. destruct (f !! q) as [n|] eqn:E; [|done]. intros [= <-].
  apply tame_all_kept. intros r. apply kept_insert. by rewrite E.
Qed.
Lemma with_mode_kept m : Z.land m 18 = 0 → ∀ n, kept (Some n) (Some (with_mode m n)).
Proof. intros Hm n. split; [|by destruct n]. intros ? [= <-]. destruct n; cbn; [intros [-> _]; eexists; done..|done]. Qed.
Lemma with_owner_kept n : kept (Some n) (Some (with_owner 0 n)).
Proof. split; [|by destruct n]. intros ? [= <-]. destruct n; cbn; [intros [_ ?]; eexists; done..|done]. Qed.

(** A name that ends none of the paths to [K] and to the two directories. *)
Definition foreign (K : list path) (c : string) : Prop :=
  (∀ q, q ∈ K → c ∉ q) ∧ c ∉ BinaryDir ∧ c ∉ PlistDir.
Lemma foreign_ne K c q p (d : path) : foreign K c → q ∈ K → p `prefix_of` q → d ++ [c] ≠ p.
Proof.
  intros [H _] Hq [k ->] <-. apply (H _ Hq). rewrite !elem_of_app. left; right. by left.
Qed.
Lemma foreign_dir_ne K c p (d : path) : foreign K c → p `prefix_of` BinaryDir ∨ p `prefix_of` PlistDir → d ++ [c] ≠ p.
Proof.
  intros (_ & H1 & H2) [[k Hk]|[k Hk]] <-; [apply H1|apply H2]; rewrite Hk, !elem_of_app; left; right; by left.
Qed.
Lemma entry_is f d c q : entry f d c = Ok q → ∃ r, resolve f d = Ok r ∧ q = r ++ [c].
Proof. unfold entry. destruct (resolve f d) as [r|]; cbn; [|done]. destruct (f !! r) as [[]|]; try done. intros [= <-]. eauto. Qed.
(** Only at foreign names does anything change. *)
Lemma tame_foreign K (S : string → Prop) f f' :
  (∀ c, S c → foreign K c) → (∀ p, (∀ d c, S c → p ≠ d ++ [c]) → f' !! p = f !! p) → tame K f f'.
Proof.
  intros HF Hoff. apply tame_kept.
  - intros q p Hq Hp. rewrite Hoff; [apply kept_refl|]. intros d c Hc E. by apply (foreign_ne K c q p d (HF c Hc)).
  - intros p Hp. rewrite Hoff; [done|]. intros d c Hc E. by apply (foreign_dir_ne K c p d (HF c Hc)).
Qed.
Lemma create_tame K d c f f' q : foreign K c → create d c f = Ok (f', q) → tame K f f' ∧ ∃ r, q = r ++ [c].
Proof.
  intros HF. unfold create. destruct (entry f d c) as [q'|] eqn:E; cbn; [|done]. apply entry_is in E as (r & _ & ->).
  destruct (f !! _) eqn:E; [done|]. intros [= <- <-]. split; [|eauto].
  apply (tame_foreign K (eq c)); [by intros ? <-|]. intros p Hp. rewrite lookup_insert_ne; [done|]. intros <-. by apply (Hp r c).
Qed.
Lemma write_tame K r c data f : foreign K c → tame K f (write (r ++ [c]) data f).
Proof.
  intros HF. unfold write. destruct (f !! _) as [[| |]|]; try done.
  apply (tame_foreign K (eq c)); [by intros ? <-|]. intros p Hp. rewrite lookup_insert_ne; [done|]. intros <-. by apply (Hp r c).
Qed.
Lemma rename_tame K d old new f f' : foreign K old → foreign K new → rename d old new f = Ok f' → tame K f f'.
Proof.
  intros H1 H2. unfold rename. destruct (entry f d old) as [a|] eqn:Ea; cbn; [|done]. destruct (entry f d new) as [b|] eqn:Eb; cbn; [|done].
  apply entry_is in Ea as (ra & _ & ->). apply entry_is in Eb as (rb & _ & ->).
  intros H. assert (∃ n, f' = <[rb ++ [new] := n]> (delete (ra ++ [old]) f)) as [n ->].
  { destruct (f !! (ra ++ [old])) as [[]|]; try done; destruct (f !! (rb ++ [new])) as [[]|]; try done; injection H as <-; eauto. }
  apply (tame_foreign K (λ c, c = old ∨ c = new)); [by intros ? [->| ->]|]. intros p Hp.
  rewrite lookup_insert_ne, lookup_delete_ne; [done|..]; intros <-; [apply (Hp ra old)|apply (Hp rb new)]; auto.
Qed.
Lemma remove_at d c f f' : remove (d ++ [c]) f = Ok f' → ∃ q, entry f d c = Ok q ∧ f' = delete q f.
Proof.
  unfold remove, filepath_Dir, filepath_Base. rewrite removelast_last, List.last_last.
  destruct (entry f d c) as [q|] eqn:E; cbn; [|done]. intros H. exists q. split; [done|].
  destruct (f !! _) as [[]|]; try done; [destruct (is_empty_dir _ _); [|done]|..]; by injection H as <-.
Qed.
Lemma remove_tame K d c f f' : foreign K c → remove (d ++ [c]) f = Ok f' → tame K f f'.
Proof.
  intros HF (q & (r & _ & ->)%entry_is & ->)%remove_at.
  apply (tame_foreign K (eq c)); [by intros ? <-|]. intros p Hp. rewrite lookup_delete_ne; [done|]. intros <-. by apply (Hp r c).
Qed.

(** ** Runs that leave them alone *)

Section quiet.
Context (e : env) (K : list path) (R : option string → option string → Prop) `{!PreOrder R}.
Hypothesis user_tame : ∀ k f, tame K f (e_user e k f).

(** From one world to a later one: the job moved by [R], the files [tame]. *)
Record after (w w' : world) : Prop := MkAfter {
  after_files : tame K (files w) (files w'); after_job : R (job w) (job w');
  after_past : ∃ l, past w' = l ++ past w ∧ Forall (λ s, R (job w) s.2 ∧ tame K (files w) s.1) l }.
#[local] Instance after_refl : Reflexive after.
Proof. intros w. split; [done..|]. by exists []. Qed.
#[local] Instance after_trans : Transitive after.
Proof.
  intros w1 w2 w3 [F1 J1 (l1 & P1 & Q1)] [F2 J2 (l2 & P2 & Q2)]. split; [by trans (files w2)|by trans (job w2)|].
  exists (l2 ++ l1). rewrite P2, P1, app_assoc. split; [done|]. apply Forall_app. split; [|done].
  eapply Forall_impl; [done|]. intros s [H1 H2]. split; [by trans (job w2)|by trans (files w2)].
Qed.
Definition quiet {A} (m : M A) : Prop := ∀ w, after w (m w).1.
Lemma after_moment w f j : tame K (files w) f → R (job w) j → after w (moment w f j).
Proof. intros Hf Hj. split; [done..|]. exists [(f, j)]. split; [done|]. by constructor. Qed.

Lemma quiet_ret {A} (a : A) : quiet (mret a). Proof. intros w. done. Qed.
Lemma quiet_throw {A} x : quiet (throw x : M A). Proof. intros w. done. Qed.
Lemma quiet_bind {A B} (m : M A) (k : A → M B) : quiet m → (∀ a, quiet (k a)) → quiet (m ≫= k).
Proof.
  intros Hm Hk w. unfold mbind, M_bind. specialize (Hm w). destruct (m w) as [w1 [a|x]]; [|done]. cbn in *. trans w1; [done|]. apply Hk.
Qed.
Lemma quiet_try {A} (m : M A) : quiet m → quiet (try m).
Proof. intros Hm w. unfold try. specialize (Hm w). by destruct (m w). Qed.
Lemma quiet_finally {A B} (m : M A) (d : M B) : quiet m → quiet d → quiet (finally m d).
Proof. intros Hm Hd w. unfold finally. specialize (Hm w). destruct (m w) as [w1 r]. cbn in *. trans w1; [done|]. apply Hd. Qed.
Lemma quiet_sys {A} (op : nat → fs → result errno (fs * A)) torn :
  (∀ k f f' a, op k f = Ok (f', a) → tame K f f') → (∀ n f, tame K f (torn n f)) → quiet (sys e op torn).
Proof.
  intros Hop Ht w. unfold sys. pose proof (user_tame (calls w) (files w)) as HU.
  destruct (e_fault e (calls w)) as [[en n]|]; [|destruct (op _ _) as [[f' a]|en] eqn:E]; apply after_moment; try done.
  - by trans (e_user e (calls w) (files w)).
  - trans (e_user e (calls w) (files w)); [done|]. by eapply Hop.
Qed.
Lemma quiet_syscall op : (∀ f f', op f = Ok f' → tame K f f') → quiet (syscall e op).
Proof. intros H. apply quiet_sys; [|done]. intros _ f f' []. destruct (op f) as [g|] eqn:E; cbn; [|done]. intros [= <-]. auto. Qed.
Lemma quiet_query {A} (op : fs → result errno A) : quiet (query e op).
Proof. apply quiet_sys; [|done]. intros _ f f' a. destruct (op f); cbn; [|done]. by intros [= <- <-]. Qed.
Lemma quiet_launchctl act : (∀ f j j', act f j = Some j' → R j j') → quiet (launchctl e act).
Proof.
  intros H w. unfold launchctl. pose proof (user_tame (calls w) (files w)) as HU.
  destruct (e_fault e (calls w)); [by apply after_moment|]. destruct (act _ _) eqn:E; apply after_moment; try done. by eapply H.
Qed.

Lemma quiet_printJob : quiet (printJob e).
Proof.
  apply quiet_bind; [apply quiet_launchctl; intros f [] ? [= <-]; done|]. intros [[] out]; apply quiet_ret.
Qed.
Lemma quiet_stat p : quiet (stat_ e p). Proof. apply quiet_query. Qed.
Lemma quiet_exists p : quiet (fileExists e p).
Proof. apply quiet_bind; [apply quiet_try, quiet_stat|]. intros r. apply quiet_ret. Qed.
Lemma quiet_wait polls : quiet (waitRunning e polls).
Proof.
  induction polls as [|n IH]; cbn [waitRunning]; (apply quiet_bind; [apply quiet_printJob|]); intros [[l s] p];
    (destruct (_ && _); [apply quiet_ret|]); [apply quiet_throw|done].
Qed.
Lemma quiet_each {A} (g : A → M ()) l : (∀ a, quiet (g a)) → quiet (each g l).
Proof. intros Hg. induction l as [|a l IH]; [apply quiet_ret|]. apply quiet_bind; [apply Hg|]. by intros _. Qed.
Lemma quiet_check rest : ∀ cur, quiet (check_from e cur rest).
Proof.
  assert (∀ p n, quiet (secureDirInfo p n)) as HS.
  { intros p []; cbn; try apply quiet_ret; (destruct (_ =? _); cbn; [|apply quiet_throw]); (destruct (_ =? _); cbn; [apply quiet_ret|apply quiet_throw]). }
  induction rest as [|c rest IH]; intros cur; cbn [check_from]; (apply quiet_bind; [apply quiet_stat|]); intros n; (apply quiet_bind; [apply HS|]); intros _;
    [apply quiet_ret|apply IH].
Qed.
Lemma quiet_ensure dir mode : Z.land mode 18 = 0 → quiet (ensureRootDir e dir mode).
Proof.
  intros Hm. unfold ensureRootDir, MkdirAll. apply quiet_bind; [apply quiet_each; intros q; apply quiet_syscall, mkdir_tame|]. intros _.
  apply quiet_bind; [apply quiet_syscall; intros f f'; apply change_tame, with_mode_kept, Hm|]. intros _.
  apply quiet_bind; [apply quiet_syscall; intros f f'; apply change_tame, with_owner_kept|]. intros _. apply quiet_check.
Qed.
Lemma quiet_writeRootFile d base data mode :
  Z.land mode 18 = 0 → foreign K base → (∀ k, foreign K (tmp_name e base k)) → quiet (writeRootFile e (d ++ [base]) data mode).
Proof.
  intros Hm HB HT. unfold writeRootFile, filepath_Dir, filepath_Base. rewrite removelast_last, List.last_last.
  assert (∀ w, match CreateTemp e d base w with (_, Ok (t, q)) => foreign K t ∧ ∃ r, q = r ++ [t] | _ => True end) as HC.
  { intros w. unfold CreateTemp, sys. destruct (e_fault e _) as [[]|]; [done|].
    destruct (create d _ _) as [[f' q]|] eqn:E; cbn; [|done]. split; [apply HT|]. by apply (create_tame K) in E as [_ ?]. }
  intros w. specialize (HC w). unfold mbind, M_bind.
  assert (quiet (CreateTemp e d base)) as HQ.
  { apply quiet_sys; [|done]. intros k f f' [t q]. destruct (create d _ _) as [[g r]|] eqn:E; cbn; [|done]. intros [= <- <- <-].
    by apply (create_tame K) in E as [? _]. }
  specialize (HQ w). destruct (CreateTemp e d base w) as [w1 [[t q]|x]]; [|done]. destruct HC as [HF (r & ->)]. cbn in HQ.
  trans w1; [done|]. apply quiet_finally; [|apply quiet_syscall; intros f f'; by apply remove_tame].
  apply quiet_bind. { apply quiet_sys; [intros _ f f' [] [= <-]|intros n f]; by apply write_tame. }
  intros _. apply quiet_bind; [apply quiet_syscall; by intros f f' [= <-]|]. intros _.
  apply quiet_bind; [apply quiet_syscall; intros f f'; apply change_tame, with_owner_kept|]. intros _.
  apply quiet_bind; [apply quiet_syscall; intros f f'; apply change_tame, with_mode_kept, Hm|]. intros _.
  apply quiet_syscall. intros f f'. by apply rename_tame.
Qed.
Lemma quiet_InstalledVM : quiet (InstalledVM e).
Proof. apply quiet_bind; [apply quiet_try, quiet_query|]. intros r. apply quiet_ret. Qed.
Lemma quiet_queryFrom since : quiet (queryFrom e since).
Proof.
  unfold queryFrom. apply quiet_bind; [apply quiet_exists|]. intros p. apply quiet_bind; [apply quiet_exists|]. intros b.
  apply quiet_bind; [apply quiet_InstalledVM|]. intros vm. apply quiet_bind; [apply quiet_printJob|]. intros [[l s] pid].
  apply quiet_bind; [apply quiet_try, quiet_query|]. intros r. apply quiet_ret.
Qed.
Lemma quiet_await looks mark : ∀ st, quiet (await_agent e looks mark st).
Proof.
  induction looks as [|n IH]; intros st; cbn [await_agent]; (destruct (negb _); [apply quiet_ret|]); [apply quiet_ret|].
  apply quiet_bind; [apply quiet_queryFrom|]. apply IH.
Qed.
Lemma quiet_logSize p : quiet (logSize e p).
Proof. apply quiet_bind; [apply quiet_try, quiet_query|]. intros r. apply quiet_ret. Qed.
Lemma quiet_checkBinary p : quiet (checkBinary e p).
Proof.
  apply quiet_bind; [apply quiet_try, quiet_stat|]. intros [[]|[]]; first [apply quiet_ret|apply quiet_throw].
Qed.
Lemma quiet_resolveBinarySource o self : quiet (resolveBinarySource e o self).
Proof.
  destruct o as [p|]; [apply quiet_checkBinary|]. apply quiet_bind; [apply quiet_query|]. intros q. apply quiet_checkBinary.
Qed.
(** Booting out takes the job away, or leaves it. *)
Lemma quiet_boot_out : (∀ j, R j None) → quiet (boot_out_loaded e).
Proof.
  intros HN. apply quiet_bind; [apply quiet_printJob|]. intros [[[] s] p]; [|apply quiet_ret].
  apply quiet_bind; [apply quiet_launchctl; intros f [] ? [= <-]; auto|]. intros [ok out]. destruct (_ || _); [apply quiet_ret|apply quiet_throw].
Qed.
End quiet.

(** ** What a successful run has established *)

Lemma bind_Ok {A B} (m : M A) (k : A → M B) w w' b :
  (m ≫= k) w = (w', Ok b) → ∃ w1 a, m w = (w1, Ok a) ∧ k a w1 = (w', Ok b).
Proof. unfold mbind, M_bind. destruct (m w) as [w1 [a|x]]; [|done]. eauto. Qed.
Ltac bind_Ok H w a E := apply bind_Ok in H as (w & a & E & H).
Lemma sys_Ok (e : env) {A} (op : nat → fs → result errno (fs * A)) torn w w' a :
  sys e op torn w = (w', Ok a) → ∃ f', op (calls w) (e_user e (calls w) (files w)) = Ok (f', a) ∧ w' = moment w f' (job w).
Proof.
  unfold sys. destruct (e_fault e _) as [[en n]|]; [done|]. destruct (op _ _) as [[f' b]|]; [|done]. intros [= <- <-]. eauto.
Qed.
Lemma syscall_Ok (e : env) op w w' a :
  syscall e op w = (w', Ok a) → op (e_user e (calls w) (files w)) = Ok (files w').
Proof.
  intros H. apply sys_Ok in H as (f' & H & ->). destruct (op _) as [g|]; cbn in H; [|done]. by injection H as <- _.
Qed.
Lemma query_Ok (e : env) {A} (op : fs → result errno A) w w' a :
  query e op w = (w', Ok a) → op (files w') = Ok a ∧ files w' = e_user e (calls w) (files w) ∧ w' = moment w (files w') (job w).
Proof.
  intros H. apply sys_Ok in H as (f' & H & ->). destruct (op _) as [g|] eqn:E; cbn in H; [|done]. by injection H as <- <-.
Qed.

Section exact.
Context (e : env) (user : Z).
Hypothesis user_is : user ≠ 0.
Hypothesis user_moves : ∀ k f, rtc (ustep user) f (e_user e k f).
Hypothesis plants_no_link : ∀ k f, linkless f → linkless (e_user e k f).

Lemma user_tame K k f : tame K f (e_user e k f).
Proof. split; [|apply plants_no_link]. intros q b _ H. by apply (user_holds user f). Qed.
Lemma user_keeps k f p : chain f p → e_user e k f !! p = f !! p ∧ chain (e_user e k f) p.
Proof. by apply (user_chain user). Qed.

Definition guarded_dir (d : path) : Prop := d = BinaryDir ∨ d = PlistDir.
Lemma linkless_on f d r : linkless f → guarded_dir d → r `prefix_of` d → is_link (f !! r) = false.
Proof. intros H [->| ->] Hr; apply H; auto. Qed.

(** The check's soundness: it goes down from the root, so that whatever it has
    found to be root's cannot change while it looks further. *)
Lemma check_ok d : guarded_dir d → ∀ rest cur w w',
  cur ++ rest = d → linkless (files w) → (∀ q, below q cur → ∃ n, files w !! q = Some n ∧ guarded n) →
  check_from e cur rest w = (w', Ok tt) → chain (files w') d ∧ linkless (files w').
Proof.
  intros Hd. induction rest as [|c rest IH]; intros cur w w' Hcur HL HB H; cbn [check_from] in H.
  all: bind_Ok H w1 n Hs; bind_Ok H w2 u Hi.
  all: apply query_Ok in Hs as (Hs & Hf & Hw1); assert (linkless (files w1)) as HL1 by (rewrite Hf; by apply plants_no_link).
  all: assert (cur `prefix_of` d) as Hpre by (rewrite <- Hcur; by apply prefix_app_r).
  all: unfold stat in Hs; apply result_bind_Ok in Hs as (q & Hq & Hn%of_option_Ok);
    apply resolve_plain in Hq as ->; [|intros r Hr; apply (linkless_on _ d); [done..|by trans cur]].
  all: assert (guarded n ∧ w2 = w1) as [Hg ->] by
    (pose proof (linkless_on _ d cur HL1 Hd Hpre) as HNL; rewrite Hn in HNL;
     destruct n as [u' m|u' m x|t]; cbn in Hi, HNL |- *; [..|done];
     (destruct (Z.eqb_spec u' 0); [|done]); (destruct (Z.eqb_spec (Z.land m 18) 0); [|done]); by injection Hi).
  all: assert (chain (files w1) cur) as HC.
  1,3: intros r Hr; destruct (decide (r = cur)) as [->|Hne]; [by exists n|];
    destruct (user_keeps (calls w) (files w) r) as [Hk _];
    [intros s Hsr; apply HB; split; [by trans r|]; intros ->; apply Hne; by apply (anti_symm prefix)|];
    rewrite Hf, Hk; by apply HB.
  - injection H as <-. rewrite app_nil_r in Hcur. by subst cur.
  - apply (IH (cur ++ [c]) w1); [by rewrite <- app_assoc|done| |done].
    intros r [Hr Hne]. apply prefix_snoc_inv in Hr as [Hr|]; [by apply HC|done].
Qed.
Lemma ensure_ok d mode w w' :
  guarded_dir d → Z.land mode 18 = 0 → linkless (files w) → ensureRootDir e d mode w = (w', Ok tt) → chain (files w') d ∧ linkless (files w').
Proof.
  intros Hd Hm HL H. unfold ensureRootDir in H. bind_Ok H w1 u1 H1. bind_Ok H w2 u2 H2. bind_Ok H w3 u3 H3.
  apply (check_ok d Hd d [] w3); [done| |by intros q [Hq%prefix_nil_inv Hn]|done].
  assert (linkless (files w1)) as HL1.
  { assert (quiet [] (=) (MkdirAll e d mode)) as HQ.
    { apply quiet_each; [apply _|]. intros q. apply quiet_syscall; [apply _|apply user_tame|intros f f'; apply mkdir_tame]. }
    destruct (HQ w) as [[_ HF] _ _]. rewrite H1 in HF. by apply HF. }
  apply syscall_Ok in H2. apply (change_tame [] _ _ _ _ (with_mode_kept _ Hm)) in H2 as [_ H2].
  apply syscall_Ok in H3. apply (change_tame [] _ _ _ _ with_owner_kept) in H3 as [_ H3].
  apply H3, plants_no_link, H2, plants_no_link, HL1.
Qed.

(** The temporary: a file of root's in a directory of root's. *)
Record temp (d : path) (t : string) (m : Z) (x : string) (f : fs) : Prop := MkTemp {
  temp_dir : chain f d; temp_file : f !! (d ++ [t]) = Some (File 0 m x); temp_mode : Z.land m 18 = 0 }.
Lemma temp_chain d t m x f : temp d t m x f → chain f (d ++ [t]).
Proof. intros [H1 H2 H3]. by eapply chain_snoc. Qed.
Lemma temp_user d t m x k f : temp d t m x f → temp d t m x (e_user e k f).
Proof.
  intros HT. destruct (user_keeps k f _ (temp_chain _ _ _ _ _ HT)) as [H1 H2]. destruct HT as [C F Hm].
  split; [|by rewrite H1|done]. eapply chain_prefix; [|done]. by apply prefix_app_r.
Qed.
Lemma not_prefix_snoc (d : path) c q : q `prefix_of` d → d ++ [c] ≠ q.
Proof. intros Hq <-. apply prefix_length in Hq. rewrite length_app in Hq. cbn in Hq. lia. Qed.
Lemma chain_insert f d c n : chain f d → chain (<[d ++ [c] := n]> f) d.
Proof. intros HC q Hq. rewrite lookup_insert_ne by by apply not_prefix_snoc. by apply HC. Qed.
Lemma temp_insert d t f m x : chain f d → Z.land m 18 = 0 → temp d t m x (<[d ++ [t] := File 0 m x]> f).
Proof. intros HC Hm. split; [by apply chain_insert|by rewrite lookup_insert_eq|done]. Qed.
Lemma entry_chain f d c q : chain f d → entry f d c = Ok q → q = d ++ [c].
Proof. intros HC H. apply entry_is in H as (r & Hr & ->). apply resolve_plain in Hr as ->; [done|]. intros p Hp. by apply (chain_plain f d). Qed.
Lemma temp_change d t m x g m' f f' :
  temp d t m x f → g (File 0 m x) = File 0 m' x → Z.land m' 18 = 0 → change g (d ++ [t]) f = Ok f' → temp d t m' x f'.
Proof.
  intros HT Hg Hm. pose proof (temp_chain _ _ _ _ _ HT) as HC. destruct HT as [C F _]. unfold change.
  destruct (resolve f (d ++ [t])) as [q|] eqn:E; cbn; [|done]. apply resolve_plain in E as ->; [|intros r Hr; by apply (chain_plain f (d ++ [t]))].
  rewrite F, Hg. intros [= <-]. by apply temp_insert.
Qed.
Lemma tmp_name_ne base k : tmp_name e base k ≠ base.
Proof. intros H. apply (f_equal String.length) in H. unfold tmp_name in H. rewrite !append_length in H. cbn in H. lia. Qed.

(** In a directory only root can write, a successful replacement leaves the
    whole new file, root's, with the mode asked for. *)
Lemma writeRootFile_ok d base data mode w w' :
  Z.land mode 18 = 0 → chain (files w) d → writeRootFile e (d ++ [base]) data mode w = (w', Ok tt) →
  chain (files w') (d ++ [base]) ∧ files w' !! (d ++ [base]) = Some (File 0 mode data).
Proof.
  intros Hm HC. unfold writeRootFile, filepath_Dir, filepath_Base. rewrite removelast_last, List.last_last. intros H.
  bind_Ok H w1 tq H1. destruct tq as [t q].
  assert (t = tmp_name e base (calls w) ∧ q = d ++ [t] ∧ temp d t 384 "" (files w1)) as (Ht & -> & T1).
  { apply sys_Ok in H1 as (f' & H1 & ->). cbn. destruct (user_keeps (calls w) (files w) d HC) as [_ HC1].
    unfold create in H1. destruct (entry _ d _) as [r|] eqn:E; cbn in H1; [|done]. apply entry_chain in E as ->; [|done].
    destruct (_ !! _); [done|]. injection H1 as <- <- <-. split_and!; [done..|]. by apply temp_insert. }
  assert (t ≠ base) as Htb by (rewrite Ht; apply tmp_name_ne). clear H1 Ht HC w.
  unfold finally in H. destruct ((_ : M ()) w1) as [w6 r6] eqn:HB. injection H as <- ->.
  bind_Ok HB w2 u2 H2. bind_Ok HB w3 u3 H3. bind_Ok HB w4 u4 H4. bind_Ok HB w5 u5 H5.
  assert (temp d t 384 data (files w2)) as T2.
  { apply sys_Ok in H2 as (f' & [= <-] & ->). cbn. apply (temp_user _ _ _ _ (calls w1)) in T1. unfold write. destruct T1 as [C F M].
    rewrite F. by apply temp_insert. }
  apply syscall_Ok, result_Ok_inj in H3. apply (temp_user _ _ _ _ (calls w2)) in T2. rewrite H3 in T2.
  apply syscall_Ok, (temp_change d t 384 data _ 384 _ _ (temp_user _ _ _ _ _ _ T2)) in H4; [|done..].
  apply syscall_Ok, (temp_change d t 384 data _ mode _ _ (temp_user _ _ _ _ _ _ H4)) in H5; [|done..].
  assert (chain (files w6) (d ++ [base]) ∧ files w6 !! (d ++ [base]) = Some (File 0 mode data)) as [C6 F6].
  { apply syscall_Ok in HB. apply (temp_user _ _ _ _ (calls w5)) in H5. destruct H5 as [C F _]. unfold rename in HB.
    destruct (entry _ d t) as [a|] eqn:Ea; cbn in HB; [|done]. apply entry_chain in Ea as ->; [|done].
    destruct (entry _ d base) as [b|] eqn:Eb; cbn in HB; [|done]. apply entry_chain in Eb as ->; [|done]. rewrite F in HB.
    assert (files w6 = <[d ++ [base] := File 0 mode data]> (delete (d ++ [t]) (e_user e (calls w5) (files w5)))) as ->
      by (destruct (_ !! (d ++ [base])) as [[]|]; try done; by injection HB).
    split; [|by rewrite lookup_insert_eq]. eapply chain_snoc; [|by rewrite lookup_insert_eq|done].
    apply chain_insert. intros p Hp. rewrite lookup_delete_ne by by apply not_prefix_snoc. by apply C. }
  destruct (user_keeps (calls w6) (files w6) _ C6) as [U1 U2]. unfold syscall, sys, whole.
  destruct (e_fault e (calls w6)) as [[en n]|]; cbn [moment files fst]; [by rewrite U1|].
  destruct (remove _ _) as [g|] eqn:E; cbn [mbind result_bind moment files fst]; [|by rewrite U1].
  apply remove_at in E as (a & Ea & ->).
  apply entry_chain in Ea as ->; [|eapply chain_prefix; [|exact U2]; by apply prefix_app_r].
  assert (∀ p, p `prefix_of` d ++ [base] → d ++ [t] ≠ p) as Hne.
  { intros p [Hp| ->]%prefix_snoc_inv; [by apply not_prefix_snoc|]. intros E2. apply app_inj_tail in E2 as [_ ?]. done. }
  split; [intros p Hp; rewrite lookup_delete_ne by (by apply Hne); by apply U2|].
  rewrite lookup_delete_ne by by apply Hne. by rewrite U1.
Qed.
End exact.

(** ** Installing *)

(** The job is left alone or taken away. *)
Definition same_or_out (j j' : option string) : Prop := j' = j ∨ j' = None.
#[export] Instance same_or_out_pre : PreOrder same_or_out.
Proof. split; [by left|]. intros ???[->| ->]; [done|]. intros [->| ->]; by right. Qed.
Lemma foreign_by (g : string → bool) K c :
  forallb (forallb g) (BinaryDir :: PlistDir :: K) = true → g c = false → foreign K c.
Proof.
  intros H Hc. assert (∀ q, q ∈ BinaryDir :: PlistDir :: K → c ∉ q) as HN.
  { intros q Hq Hcq. rewrite forallb_forall in H. specialize (H q (proj1 (list_elem_of_In _ _) Hq)).
    rewrite forallb_forall in H. specialize (H c (proj1 (list_elem_of_In _ _) Hcq)). congruence. }
  split_and!; [intros q Hq; apply HN; right; right; done|apply HN; by left|apply HN; right; by left].
Qed.
Definition undotted (x : string) : bool := negb (HasPrefix x ".").
Lemma undotted_tmp e base k : undotted (tmp_name e base k) = false.
Proof. unfold undotted, tmp_name. by rewrite HasPrefix_app. Qed.

Section install.
Context (e : env) (user : Z).
Hypothesis user_is : user ≠ 0.
Hypothesis user_moves : ∀ k f, rtc (ustep user) f (e_user e k f).
Hypothesis plants_no_link : ∀ k f, linkless f → linkless (e_user e k f).
Hypothesis starts : ∀ f d, e_start e f = Some d → contents f BinaryPath = Ok d.
Context (plist : string) (j0 : option string).

(** What every state has to be: the job as it was, or none, or the new one over
    two files that are whole. *)
Definition sound (s : fs * option string) : Prop :=
  s.2 = j0 ∨ s.2 = None ∨ ∃ data, s.2 = Some data ∧ committed plist s.1 data.
Definition read_from (rd : option (path * string)) (w : world) : Prop :=
  match rd with Some (src, d) => ∃ s, s ∈ past w ∧ contents s.1 src = Ok d | None => True end.
Record before (hs : list (path * option string)) (rd : option (path * string)) (w : world) : Prop := MkBefore {
  bf_past : Forall sound (past w); bf_job : same_or_out j0 (job w); bf_links : linkless (files w);
  bf_holds : ∀ q b, (q, b) ∈ hs → holds (files w) q b; bf_read : read_from rd w }.
Record after_start (rd : option (path * string)) (data : string) (w : world) : Prop := MkRun {
  as_past : Forall sound (past w); as_job : job w = Some data; as_files : committed plist (files w) data; as_read : read_from rd w }.

Definition runs {A} (P : world → Prop) (m : M A) (Q : A → world → Prop) : Prop :=
  ∀ w, P w → let '(w', r) := m w in Forall sound (past w') ∧ match r with Ok a => Q a w' | Err _ => True end.
Lemma runs_bind {A B} P (m : M A) Q (k : A → M B) S : runs P m Q → (∀ a, runs (Q a) (k a) S) → runs P (m ≫= k) S.
Proof.
  intros Hm Hk w HP. unfold mbind, M_bind. specialize (Hm w HP). destruct (m w) as [w1 [a|x]]; [|done]. by apply Hk, Hm.
Qed.
Lemma runs_some {X A} (P : X → world → Prop) (m : M A) Q : (∀ x, runs (P x) m Q) → runs (λ w, ∃ x, P x w) m Q.
Proof. intros H w [x Hx]. by apply (H x). Qed.
Lemma runs_post {A} P (m : M A) (Q Q' : A → world → Prop) : (∀ a w, Q a w → Q' a w) → runs P m Q → runs P m Q'.
Proof. intros HQ H w Hw. specialize (H w Hw). destruct (m w) as [w' [a|]]; [|done]. destruct H. auto. Qed.
Lemma read_after rd w l w' : past w' = l ++ past w → read_from rd w → read_from rd w'.
Proof. intros Hl. destruct rd as [[src d]|]; [|done]. intros (s & Hs & H). exists s. split; [|done]. rewrite Hl. apply elem_of_app. by right. Qed.
Lemma before_after K hs rd w w' : (∀ q b, (q, b) ∈ hs → q ∈ K) → before hs rd w → after K same_or_out w w' → before hs rd w'.
Proof.
  intros HK [H1 H2 H3 H4 H5] [F J (l & Hl & HF)]. split.
  - rewrite Hl. apply Forall_app. split; [|done]. eapply Forall_impl; [done|]. intros s [Hs _].
    assert (same_or_out j0 s.2) as [?|?] by (by trans (job w)); [left|right; left]; done.
  - by trans (job w).
  - by apply F.
  - intros q b Hq. apply F; eauto.
  - by eapply read_after.
Qed.
Lemma runs_before K hs rd {A} (m : M A) (Q : A → world → Prop) :
  (∀ q b, (q, b) ∈ hs → q ∈ K) → quiet K same_or_out m → (∀ w w' a, before hs rd w → m w = (w', Ok a) → before hs rd w' → Q a w') →
  runs (before hs rd) m Q.
Proof.
  intros HK HQ HR w HB. specialize (HQ w). destruct (m w) as [w' r] eqn:E. cbn in HQ. pose proof (before_after K hs rd w w' HK HB HQ) as HB'.
  split; [by destruct HB'|]. destruct r as [a|]; [|done]. by apply (HR w w' a).
Qed.
Lemma runs_after rd data {A} (m : M A) : quiet [BinaryPath; PlistPath] (=) m → runs (after_start rd data) m (λ _, after_start rd data).
Proof.
  intros HQ w [H1 H2 [H3 H4] H5]. specialize (HQ w). destruct (m w) as [w' r]. cbn in HQ. destruct HQ as [F J (l & Hl & HF)].
  assert (∀ f, tame [BinaryPath; PlistPath] (files w) f → committed plist f data) as HC.
  { intros f [Hf _]. split; apply Hf; try done; [left|right; left]. }
  assert (Forall sound (past w')) as HS.
  { rewrite Hl. apply Forall_app. split; [|done]. eapply Forall_impl; [done|]. intros s [Hs Hf]. right; right. exists data. split; [by rewrite <- Hs|auto]. }
  split; [done|]. destruct r; [|done]. split; [done|by rewrite <- J|auto|by eapply read_after].
Qed.
Lemma runs_bootstrap rd data :
  runs (before [(BinaryPath, Some data); (PlistPath, Some plist)] rd) (bootstrap e) (λ _, after_start rd data).
Proof.
  intros w [H1 H2 H3 H4 H5].
  assert (committed plist (files w) data) as [C1 C2] by (split; apply H4; [left|right; left]).
  set (f := e_user e (calls w) (files w)).
  assert (committed plist f data) as HC by (split; (eapply user_holds; [done|apply user_moves|done])).
  unfold bootstrap, mbind, M_bind, launchctl. fold f.
  assert (Forall sound ((f, job w) :: past w)) as HS by (constructor; [destruct H2 as [?|?]; [left|right; left]; done|done]).
  destruct (e_fault e (calls w)); [done|]. destruct (job w) as [j|] eqn:EJ; [done|]. cbn.
  destruct (e_start e f) as [d|] eqn:ES; cbn; [|done]. apply starts in ES.
  assert (d = data) as ->.
  { destruct HC as [[HCh (n & Hn & Hb)] _]. unfold contents, stat in ES. destruct (resolve f BinaryPath) as [q|] eqn:E; cbn in ES; [|done].
    apply resolve_plain in E as ->; [|intros r Hr; by apply (chain_plain f BinaryPath)]. rewrite Hn in ES. cbn in ES.
    destruct n; cbn in ES, Hb; congruence. }
  assert (Forall sound ((f, Some data) :: past w)) by (constructor; [right; right; eauto|done]).
  split; [done|]. split; [done|done|done|]. by apply (read_after rd w [(f, Some data)]).
Qed.

Lemma tame_user K k f : tame K f (e_user e k f).
Proof. by apply (user_tame e user). Qed.
Lemma runs_ensure d hs rd :
  guarded_dir d → runs (before hs rd) (ensureRootDir e d 493) (λ _ w, before hs rd w ∧ chain (files w) d).
Proof.
  intros Hd. apply (runs_before (fst <$> hs)); [intros q b Hq; apply list_elem_of_fmap; by exists (q, b)| |].
  - apply quiet_ensure; [apply _|apply tame_user|done].
  - intros w w' [] HB H HB'. split; [done|]. by apply (ensure_ok e user user_is user_moves plants_no_link d 493 w w' Hd); [|apply HB|].
Qed.
Lemma runs_write d base data mode hs rd :
  Z.land mode 18 = 0 → forallb (forallb (λ x, undotted x && negb (String.eqb x base))) (BinaryDir :: PlistDir :: (fst <$> hs)) = true →
  runs (before hs rd) (writeRootFile e (d ++ [base]) data mode) (λ _, before hs rd) ∧
  runs (λ w, before hs rd w ∧ chain (files w) d) (writeRootFile e (d ++ [base]) data mode)
    (λ _, before ((d ++ [base], Some data) :: hs) rd).
Proof.
  intros Hm HF.
  assert (quiet (fst <$> hs) same_or_out (writeRootFile e (d ++ [base]) data mode)) as HQ.
  { apply quiet_writeRootFile; [apply _|apply tame_user|done|..].
    - eapply foreign_by; [exact HF|]. cbn beta. by rewrite String.eqb_refl, andb_false_r.
    - intros k. eapply foreign_by; [exact HF|]. cbn beta. by rewrite undotted_tmp. }
  assert (∀ (q : path) b, (q, b) ∈ hs → q ∈ fst <$> hs) as HK by (intros q b Hq; apply list_elem_of_fmap; by exists (q, b)).
  split; [by apply (runs_before (fst <$> hs))|]. intros w [HB HC].
  pose proof (runs_before (fst <$> hs) hs rd _ (λ _, before hs rd) HK HQ ltac:(done) w HB) as HR.
  destruct (writeRootFile e (d ++ [base]) data mode w) as [w' [[]|x]] eqn:E; [|done]. destruct HR as [HS [P1 P2 P3 P4 P5]]. split; [done|].
  destruct (writeRootFile_ok e user user_is user_moves d base data mode w w' Hm HC E) as [C F].
  split; try done. intros q b [[= -> ->]|Hq]%elem_of_cons; [|by apply P4]. split; [done|]. eauto.
Qed.
Lemma NewsyslogPath_eq : NewsyslogPath = filepath_Dir NewsyslogPath ++ ["drawbridge.conf"].
Proof. vm_compute. reflexivity. Qed.
Lemma PlistPath_eq : PlistPath = PlistDir ++ [Label +:+ ".plist"].
Proof. vm_compute. reflexivity. Qed.
Lemma runs_put src :
  runs (before [] None) (put_files e src plist)
    (λ _ w, ∃ data, before [(BinaryPath, Some data); (PlistPath, Some plist)] (Some (src, data)) w).
Proof.
  unfold put_files, installFile. apply (runs_bind _ _ _ _ _ (runs_ensure BinaryDir [] None ltac:(by left))). intros _.
  apply (runs_bind _ _ (λ _ w, ∃ data, before [(BinaryPath, Some data)] (Some (src, data)) w)).
  { apply (runs_bind _ _ (λ data w, before [] (Some (src, data)) w ∧ chain (files w) BinaryDir)).
    - intros w [HB HC]. assert (quiet [BinaryDir] same_or_out (query e (λ f, contents f src))) as HQ by (apply quiet_query; [apply _|apply tame_user]).
      specialize (HQ w). destruct (query _ _ w) as [w' r] eqn:E. cbn in HQ. pose proof (before_after _ [] None w w' ltac:(by intros ?? ?%elem_of_nil) HB HQ) as HB'.
      split; [by destruct HB'|]. destruct r as [data|]; [|done]. apply query_Ok in E as (E1 & E2 & E3).
      assert (chain (files w') BinaryDir) as HC' by (rewrite E2; by apply (user_chain user (files w))). split; [|done].
      destruct HB' as [B1 B2 B3 B4 _]. split; try done. exists (files w', job w). split; [|done]. rewrite E3. by left.
    - intros data. eapply runs_post; [|exact (proj2 (runs_write BinaryDir BinaryName data 493 [] (Some (src, data)) eq_refl ltac:(vm_compute; reflexivity)))].
      intros ? w HB. by exists data. }
  intros _. apply runs_some. intros data. set (hs := [(BinaryPath, Some data)]). set (rd := Some (src, data)).
  apply (runs_bind _ _ (λ _, before hs rd)).
  { apply (runs_before [BinaryPath]); [by intros q b [[= -> ->]|?%elem_of_nil]%elem_of_cons; [left|]| |done].
    apply quiet_ensure; [apply _|apply tame_user|done]. }
  intros _. apply (runs_bind _ _ (λ _, before hs rd)).
  { rewrite NewsyslogPath_eq. by apply (proj1 (runs_write (filepath_Dir NewsyslogPath) "drawbridge.conf" NewsyslogConf 420 hs rd eq_refl ltac:(vm_compute; reflexivity))). }
  intros _. apply (runs_bind _ _ _ _ _ (runs_ensure PlistDir hs rd ltac:(by right))). intros _. rewrite PlistPath_eq.
  eapply runs_post; [|exact (proj2 (runs_write PlistDir (Label +:+ ".plist") plist 420 hs rd eq_refl ltac:(vm_compute; reflexivity)))].
  intros ? w [P1 P2 P3 P4 P5]. exists data. split; try done. intros q b Hq. apply P4. unfold hs. rewrite !elem_of_cons in Hq |- *. tauto.
Qed.
Lemma runs_pure {A} (φ : Prop) P (m : M A) Q : (φ → runs P m Q) → runs (λ w, P w ∧ φ) m Q.
Proof. intros H w [Hw HP]. by apply H. Qed.
Lemma checkBinary_is p w w' src : checkBinary e p w = (w', Ok src) → src = p.
Proof.
  intros H. bind_Ok H w1 r H1. destruct r as [[]|[]]; try done. by injection H.
Qed.
Lemma runs_Install ch self polls looks cfg bin :
  RenderPlist ch cfg = Ok plist →
  runs (before [] None) (Install e ch true self polls looks cfg bin)
    (λ _ w, ∃ src data, after_start (Some (src, data)) data w ∧ ∀ p, bin = Some p → src = p).
Proof.
  intros HP. unfold Install. rewrite HP. cbn [negb].
  assert (∀ (q : path) b, (q, b) ∈ ([] : list (path * option string)) → q ∈ ([] : list path)) as HN by (intros ?? []%elem_of_nil).
  apply (runs_bind _ _ (λ src w, before [] None w ∧ ∀ p, bin = Some p → src = p)).
  { apply (runs_before []); [done|apply quiet_resolveBinarySource; [apply _|apply tame_user]|].
    intros w w' src _ HR HB. split; [done|]. intros p ->. by eapply checkBinary_is. }
  intros src. apply runs_pure. intros Hsrc. apply (runs_bind _ _ (λ _, before [] None)).
  { apply (runs_before []); [done| |done]. apply quiet_boot_out; [apply _|apply tame_user|by right]. }
  intros _. apply (runs_bind _ _ _ _ _ (runs_put src)). intros _. apply runs_some. intros data.
  set (hs := [(BinaryPath, Some data); (PlistPath, Some plist)]). set (rd := Some (src, data)).
  apply (runs_bind _ _ (λ _, before hs rd)).
  { apply (runs_before [BinaryPath; PlistPath]); [|apply quiet_logSize; [apply _|apply tame_user]|done].
    unfold hs. intros q b. rewrite !elem_of_cons, elem_of_nil. intros [[= -> ->]|[[= -> ->]|[]]]; auto. }
  intros mark. apply (runs_bind _ _ _ _ _ (runs_bootstrap rd data)). intros _.
  assert (∀ {A} (m : M A), quiet [BinaryPath; PlistPath] (=) m → runs (after_start rd data) m (λ _, after_start rd data)) as HA by (intros; by apply runs_after).
  apply (runs_bind _ _ _ _ _ (HA _ _ (quiet_wait _ _ _ (tame_user _) polls))). intros _.
  apply (runs_bind _ _ _ _ _ (HA _ _ (quiet_queryFrom _ _ _ (tame_user _) mark))). intros st.
  eapply runs_post; [|exact (HA _ _ (quiet_await _ _ _ (tame_user _) looks mark st))].
  intros ? w HW. by exists src, data.
Qed.
End install.

(** C5: installing, whatever goes wrong and whatever the user does meanwhile. In
    every state the installation goes through, with any call failing and any
    write torn, the job is the one there was, or none, or a new one whose binary
    and plist are whole, root's, and in directories only root can write, down
    from the root: no failure leaves a job on a half-written file. Success means
    the last: the running program is byte for byte what the source held when it
    was read, and nothing the user does afterwards changes it. The user may move
    between any two calls, but plants no link on the way to the two directories. *)
Theorem install_commits e user ch self polls looks cfg plist bin w :
  user ≠ 0 → (∀ k f, rtc (ustep user) f (e_user e k f)) → (∀ k f, linkless f → linkless (e_user e k f)) →
  (∀ f d, e_start e f = Some d → contents f BinaryPath = Ok d) →
  RenderPlist ch cfg = Ok plist → linkless (files w) → past w = [] →
  let '(w', r) := Install e ch true self polls looks cfg bin w in
  (∀ f j, (f, j) ∈ past w' → j = job w ∨ j = None ∨ ∃ data, j = Some data ∧ committed plist f data) ∧
  (is_ok r = true → ∃ src data, job w' = Some data ∧
     (∀ f, rtc (ustep user) (files w') f → committed plist f data) ∧
     (∃ f j, (f, j) ∈ past w' ∧ contents f src = Ok data) ∧ ∀ p, bin = Some p → src = p).
Proof.
  intros Hu HM HL HS HP HL0 Hw.
  assert (before plist (job w) [] None w) as HB by (split; [by rewrite Hw|by left|done|by intros q b ?%elem_of_nil|done]).
  pose proof (runs_Install e user Hu HM HL HS plist (job w) ch self polls looks cfg bin HP w HB) as HR.
  destruct (Install _ _ _ _ _ _ _ _ w) as [w' r]. destruct HR as [HF HQ]. split.
  - intros f j Hfj. rewrite Forall_forall in HF. exact (HF _ Hfj).
  - destruct r as [st|]; [|done]. intros _. destruct HQ as (src & data & [_ H2 [H3 H4] ([f j] & Hs & Hc)] & Hsrc).
    exists src, data. split_and!; [done|intros g Hg; split; by apply (user_holds user (files w'))|by exists f, j|done].
Qed.

(** A Mac, and its user rebuilding the daemon all along. *)
Definition home : path := ["Users"; "me"].
Definition build : path := home ++ ["drawbridged"].
Definition ex_mac (local : node) : fs :=
  list_to_map [([], Dir 0 493); (["usr"], Dir 0 493); (["usr"; "local"], local); (["Library"], Dir 0 493); (["Library"; "LaunchDaemons"], Dir 0 493);
    (["Library"; "Logs"], Dir 0 493); (["etc"], Dir 0 493); (["etc"; "newsyslog.d"], Dir 0 493); (["Users"], Dir 0 493); (home, Dir 501 493);
    (build, File 501 493 "v1")].
Definition rebuild (k : nat) (f : fs) : fs :=
  if bool_decide (f !! home = Some (Dir 501 493)) then <[build := File 501 493 ("v" +:+ Itoa (Z.of_nat k))]> f else f.
Definition ex_env (user : nat → fs → fs) : env :=
  MkEnv user (λ _, None) (λ _, "7") (λ _, concat [tab; "state = running"; nl; tab; "pid = 71"; nl])
    (λ f, match contents f BinaryPath with Ok d => Some d | Err _ => None end) None (λ _, "").
Definition ex_world (f : fs) : world := MkWorld f None 0 [].
Definition ex_install (e : env) (f : fs) : world * result setup_err InstallStatus :=
  Install e "/Users/me/.colima" true [] 3 3 ex_config (Some build) (ex_world f).
Lemma rebuild_moves k f : rtc (ustep 501) f (rebuild k f).
Proof.
  unfold rebuild. case_bool_decide as E; [|done]. apply rtc_once. exists home, (Dir 501 493), (Dir 501 493). split_and!; try done.
  - by rewrite lookup_insert_ne.
  - intros p Hp. rewrite lookup_insert_ne; [done|]. intros <-. apply Hp. by exists ["drawbridged"].
Qed.
Lemma rebuild_links k f : linkless f → linkless (rebuild k f).
Proof.
  unfold rebuild. case_bool_decide; [|done]. intros HL q Hq. destruct (decide (build = q)) as [<-|Hn]; [by rewrite lookup_insert_eq|].
  rewrite lookup_insert_ne by done. by apply HL.
Qed.
Lemma ex_mac_links u m : linkless (ex_mac (Dir u m)).
Proof.
  intros q Hq. unfold ex_mac. destruct (list_to_map _ !! q) as [n|] eqn:E; [|done]. apply elem_of_list_to_map_2 in E.
  rewrite !elem_of_cons, elem_of_nil in E. destruct n as [| |t]; try done. naive_solver.
Qed.
(** What runs is what was read, of a file its owner never stops rewriting. *)
Lemma install_commits_witness :
  let '(w', r) := ex_install (ex_env rebuild) (ex_mac (Dir 0 493)) in
  job w' = Some "v11" ∧ is_ok r = true ∧
  (is_ok r = true → ∃ src data, job w' = Some data ∧
     (∀ f, rtc (ustep 501) (files w') f → committed (match RenderPlist "/Users/me/.colima" ex_config with Ok p => p | Err _ => "" end) f data) ∧
     (∃ f j, (f, j) ∈ past w' ∧ contents f src = Ok data) ∧ ∀ p, Some build = Some p → src = p).
Proof.
  pose proof (install_commits (ex_env rebuild) 501 "/Users/me/.colima" [] 3 3 ex_config
    (match RenderPlist "/Users/me/.colima" ex_config with Ok p => p | Err _ => "" end) (Some build) (ex_world (ex_mac (Dir 0 493)))) as H.
  specialize (H ltac:(done) rebuild_moves rebuild_links).
  specialize (H ltac:(intros f d; cbn [e_start ex_env]; destruct (contents f BinaryPath) as [x|]; [intros [= ->]; reflexivity|intros [=]])).
  specialize (H ltac:(vm_compute; reflexivity) (ex_mac_links 0 493) ltac:(reflexivity)).
  assert ((let '(w', r) := ex_install (ex_env rebuild) (ex_mac (Dir 0 493)) in (job w', is_ok r)) = (Some "v11", true)) as HC by (vm_compute; reflexivity).
  unfold ex_install in *. destruct (Install _ _ _ _ _ _ _ _ _) as [w' r]. destruct H as [_ H]. injection HC as H1 H2.
  split; [exact H1|]. split; [exact H2|]. exact H.
Defined.

(** ** What the check does not see *)

(** It looks through links. A user who owns /usr/local plants a link there that
    leads, over one more of the user's own, back to /usr/local: [ensureRootDir]
    then makes root the owner of the user's /usr/local, the check passes, the
    daemon is installed, and turning the second link around puts the user's own
    program where launchd starts root's. *)
Definition planted : fs :=
  <[BinaryDir := Link (home ++ ["hop"])]> (<[home ++ ["hop"] := Link ["usr"; "local"]]> (ex_mac (Dir 501 493))).
Definition turned (f : fs) : fs :=
  <[home ++ ["hop"] := Link (home ++ ["x"])]> (<[home ++ ["x"] := Dir 501 493]> (<[home ++ ["x"; "drawbridged"] := File 501 493 "theirs"]> f)).
Lemma planted_link_escalates :
  let '(w', r) := ex_install (ex_env (λ _ f, f)) planted in
  is_ok r = true ∧ files w' !! ["usr"; "local"] = Some (Dir 0 493) ∧ contents (files w') BinaryPath = Ok "v1" ∧
  ustep 501 (files w') (turned (files w')) ∧ contents (turned (files w')) BinaryPath = Ok "theirs".
Proof.
  destruct (ex_install _ _) as [w' r] eqn:E. assert (w' = (ex_install (ex_env (λ _ f, f)) planted).1) as Hw by by rewrite E.
  assert (r = (ex_install (ex_env (λ _ f, f)) planted).2) as -> by by rewrite E. subst w'. clear E.
  split; [vm_compute; reflexivity|]. split; [vm_compute; reflexivity|]. split; [vm_compute; reflexivity|].
  split; [|vm_compute; reflexivity]. exists home, (Dir 501 493), (Dir 501 493).
  split; [vm_compute; reflexivity|]. split; [done|]. split; [vm_compute; reflexivity|]. split; [done|].
  intros p Hp. unfold turned. rewrite !lookup_insert_ne; [done|..]; intros <-; apply Hp; by eexists.
Qed.
(** "There is no repair we should be making to someone's /usr/local": where the
    user owns it and what is in it, the directory is root's by the time the
    check refuses, and the daemon that was running is gone. *)
Lemma repaired_then_refused :
  let '(w', r) := Install (ex_env (λ _ f, f)) "/Users/me/.colima" true [] 3 3 ex_config (Some build)
    (MkWorld (<[BinaryDir := Dir 501 509]> (ex_mac (Dir 501 493))) (Some "v0") 0 []) in
  r = Err (OwnedBy ["usr"; "local"] 501) ∧ files w' !! BinaryDir = Some (Dir 0 493) ∧ job w' = None.
Proof. vm_compute. done. Qed.

(** ** Uninstalling *)

Definition is_file (o : option node) : bool := match o with Some (File _ _ _) | None => true | _ => false end.
(** A file taken away is on nobody's way. *)
Lemma walk_delete h f pre todo q r :
  is_file (f !! q) = true → is_file (f !! r) = false → walk h f pre todo = Ok r → walk h (delete q f) pre todo = Ok r.
Proof.
  intros Hq Hr. revert pre todo. induction h as [|h IH]; intros pre todo; revert pre;
    (induction todo as [|c rest IHt]; intros pre; [by rewrite !walk_nil|]); rewrite !walk_step.
  all: destruct (decide (q = pre ++ [c])) as [->|Hn];
    [intros HW; exfalso; destruct (f !! (pre ++ [c])) as [[]|] eqn:E; cbn in Hq; try done; destruct rest; try done; injection HW as <-; rewrite E in Hr; done|].
  all: rewrite lookup_delete_ne by done; destruct (f !! (pre ++ [c])) as [[]|]; try done; first [apply IHt|apply IH].
Qed.
(** [p] names the place [q], where there is a file or nothing. *)
Definition place (f : fs) (p q : path) : Prop := entry f (filepath_Dir p) (filepath_Base p) = Ok q ∧ is_file (f !! q) = true.
Lemma place_delete f p q x : is_file (f !! x) = true → place f p q → place (delete x f) p q.
Proof.
  intros Hx [HE HF]. split.
  - unfold entry in *. apply result_bind_Ok in HE as (r & Hr & H). assert (∃ u m, f !! r = Some (Dir u m)) as (u & m & Hd) by (destruct (f !! r) as [[]|]; try done; eauto).
    unfold resolve in *. rewrite (walk_delete _ _ _ _ x r Hx ltac:(by rewrite Hd) Hr). cbn.
    rewrite lookup_delete_ne by (intros ->; by rewrite Hd in Hx). done.
  - destruct (decide (x = q)) as [->|Hn]; [by rewrite lookup_delete_eq|]. by rewrite lookup_delete_ne.
Qed.
Lemma places_gone f f' ps qs :
  Forall2 (place f) ps qs → (∀ q, q ∉ qs → f' !! q = f !! q) → (∀ q, q ∈ qs → f' !! q = None) → Forall2 (place f') ps qs.
Proof.
  intros HP Hoff Hgone. assert (f' = foldr delete f qs) as ->.
  { apply map_eq. intros q. destruct (decide (q ∈ qs)) as [Hq|Hq]; [rewrite Hgone by done; symmetry|rewrite Hoff by done; symmetry]; clear -Hq.
    - induction qs as [|x qs IH]; [by apply elem_of_nil in Hq|]. cbn. destruct (decide (x = q)) as [->|Hn]; [by rewrite lookup_delete_eq|].
      rewrite lookup_delete_ne by done. apply IH. by apply elem_of_cons in Hq as [->|].
    - induction qs as [|x qs IH]; [done|]. apply not_elem_of_cons in Hq as [Hn Hq]. cbn. rewrite lookup_delete_ne by done. by apply IH. }
  assert (Forall (λ q, is_file (f !! q) = true) qs) as HF by (clear -HP; induction HP as [|p q ps qs [_ H] _ IH]; by constructor).
  clear Hoff Hgone. eapply Forall2_impl; [done|]. intros p q Hpq. clear HP.
  induction HF as [|x l Hx HF IH]; [done|]. cbn. apply place_delete; [|done]. clear -Hx. induction l as [|y l IH]; [done|]. cbn.
  destruct (decide (y = x)) as [->|Hn]; [by rewrite lookup_delete_eq|]. by rewrite lookup_delete_ne.
Qed.
Lemma remove_place f p q : place f p q → remove p f = match f !! q with None => Err ENOENT | Some _ => Ok (delete q f) end.
Proof. intros [HE HF]. unfold remove. rewrite HE. cbn. by destruct (f !! q) as [[]|]. Qed.

Section uninstall.
Context (e : env).
Hypothesis no_user : ∀ k f, e_user e k f = f.
(** A call that fails does not claim the file is gone. *)
Hypothesis faults : ∀ k n, e_fault e k ≠ Some (ENOENT, n).
Definition faultless : Prop := ∀ k, e_fault e k = None.
Lemma remove_step p q w :
  place (files w) p q →
  let '(w', r) := syscall e (remove p) w in
  job w' = job w ∧ (files w' = files w ∨ files w' = delete q (files w)) ∧
  (r = Ok tt ∨ r = Err (Sys ENOENT) → files w' !! q = None) ∧ (faultless → r = Ok tt ∨ r = Err (Sys ENOENT)).
Proof.
  intros HP. unfold syscall, sys, whole. rewrite no_user, (remove_place _ _ _ HP). destruct (e_fault e (calls w)) as [[en n]|] eqn:E.
  - cbn. split_and!; [done|by left| |intros H; rewrite H in E; done]. intros [?|[= ->]]; [done|]. by destruct (faults (calls w) n).
  - destruct (files w !! q) as [nd|] eqn:EQ; cbn.
    + split_and!; [done|by right|by rewrite lookup_delete_eq|by left].
    + split_and!; [done|by left|done|by right].
Qed.
Lemma remove_all_gone ps qs w first :
  Forall2 (place (files w)) ps qs →
  let '(w', r) := remove_all e ps first w in
  job w' = job w ∧ (∀ q, q ∉ qs → files w' !! q = files w !! q) ∧ (∀ q, files w !! q = None → files w' !! q = None) ∧
  ∃ res, r = Ok res ∧ (res = None → first = None ∧ ∀ q, q ∈ qs → files w' !! q = None) ∧ (faultless → res = first ∧ ∀ q, q ∈ qs → files w' !! q = None).
Proof.
  revert qs w first. induction ps as [|p ps IH]; intros qs w first HF.
  { inversion HF; subst. cbn. split_and!; [done..|]. exists first. split_and!; [done|..]; intros ?; split; try done; by intros q ?%elem_of_nil. }
  inversion HF as [|? q ? qs' HP HF']; subst. cbn [remove_all]. unfold mbind, M_bind, try.
  pose proof (remove_step p q w HP) as HS. destruct (syscall e (remove p) w) as [w1 r1]. destruct HS as (J & F & G & Fl).
  assert (Forall2 (place (files w1)) ps qs') as HF1.
  { destruct F as [->| ->]; [done|]. eapply Forall2_impl; [done|]. intros a b. apply place_delete, HP. }
  set (first' := match r1 with Ok _ | Err (Sys ENOENT) => first | Err x => match first with None => Some x | _ => first end end).
  specialize (IH qs' w1 first' HF1). destruct (remove_all e ps first' w1) as [w' r]. destruct IH as (J' & Off & Gone & res & -> & H1 & H2).
  assert (first' = None → first = None ∧ (r1 = Ok tt ∨ r1 = Err (Sys ENOENT))) as HN.
  { unfold first'. destruct r1 as [[]|x]; [by auto|]. destruct x as [| | | | |[]| | | | | | |]; first [by auto|by destruct first]. }
  split_and!; [by rewrite J'| | |].
  - intros x [Hx Hxs]%not_elem_of_cons. rewrite Off by done. destruct F as [->| ->]; [done|]. by rewrite lookup_delete_ne.
  - intros x Hx. apply Gone. destruct F as [->| ->]; [done|]. destruct (decide (q = x)) as [->|]; [by rewrite lookup_delete_eq|by rewrite lookup_delete_ne].
  - exists res. split_and!; [done|..].
    + intros Hr. destruct (H1 Hr) as [H3 H4]. destruct (HN H3) as [-> H5]. split; [done|]. intros x [->|Hx]%elem_of_cons; [|by apply H4].
      apply Gone, G, H5.
    + intros Hf. destruct (H2 Hf) as [-> H4]. specialize (Fl Hf). split; [by destruct Fl; subst r1|].
      intros x [->|Hx]%elem_of_cons; [apply Gone, G, Fl|by apply H4].
Qed.
Lemma boot_out_spec w :
  let '(w', r) := boot_out_loaded e w in files w' = files w ∧ (faultless → r = Ok tt ∧ job w' = None).
Proof.
  unfold boot_out_loaded, printJob, bootout, mbind, M_bind, launchctl. rewrite !no_user.
  destruct (e_fault e (calls w)) as [[en n]|] eqn:E1.
  - split; [done|]. intros H. rewrite H in E1. done.
  - destruct (job w) as [j|] eqn:EJ; cbn -[Contains]; [|by split]. rewrite !no_user.
    destruct (e_fault e (S (calls w))) as [[en n]|] eqn:E2; cbn -[Contains].
    + destruct (_ || _); cbn; (split; [done|]); intros H; rewrite H in E2; done.
    + by split.
Qed.
Definition targets : list path := [PlistPath; BinaryPath; NewsyslogPath].
Lemma uninstall_once w qs :
  Forall2 (place (files w)) targets qs →
  let '(w', r) := Uninstall e true w in
  (∀ q, q ∉ qs → files w' !! q = files w !! q) ∧ (∀ q, files w !! q = None → files w' !! q = None) ∧
  (r = Ok tt → ∀ q, q ∈ qs → files w' !! q = None) ∧ (faultless → r = Ok tt ∧ job w' = None).
Proof.
  intros HP. unfold Uninstall. cbn [negb]. pose proof (boot_out_spec w) as HB. unfold mbind, M_bind.
  destruct (boot_out_loaded e w) as [w1 [[]|x]]; destruct HB as [HE HB].
  2: { rewrite HE. split_and!; try done; intros Hf; by destruct (HB Hf). }
  rewrite <- HE in HP |- *. pose proof (remove_all_gone targets qs w1 None HP) as HR. fold targets.
  destruct (remove_all e targets None w1) as [w' r]. destruct HR as (J & Off & Gone & res & -> & H1 & H2).
  assert (∀ x, match res with None => mret tt | Some x => throw x end w' = (w', x) → (res = None ∧ x = Ok tt) ∨ (∃ y, res = Some y ∧ x = Err y)) as HX
    by (destruct res; intros x [= <-]; eauto).
  destruct (match res with None => mret tt | Some x => throw x end w') as [w2 r2] eqn:E2.
  assert (w2 = w') as -> by (destruct res; by injection E2). destruct (HX _ eq_refl) as [[-> ->]|(y & -> & ->)].
  - split_and!; [done|done|intros _; by apply H1|]. intros Hf. split; [done|]. rewrite J. by apply HB.
  - split_and!; [done|done|done|]. intros Hf. by destruct (H2 Hf).
Qed.
End uninstall.

(** C38: uninstalling. Whatever fails, nothing but the three files is touched, and
    success means all three are gone; the log stays. When no call fails it
    succeeds, the job is gone, and uninstalling again succeeds and changes
    nothing. *)
Theorem uninstall_exact e w qs :
  (∀ k f, e_user e k f = f) → (∀ k n, e_fault e k ≠ Some (ENOENT, n)) →
  Forall2 (place (files w)) targets qs →
  let '(w', r) := Uninstall e true w in
  (∀ q, q ∉ qs → files w' !! q = files w !! q) ∧
  (r = Ok tt → ∀ q, q ∈ qs → files w' !! q = None) ∧
  ((∀ k, e_fault e k = None) → r = Ok tt ∧ job w' = None ∧
     let '(w'', r'') := Uninstall e true w' in r'' = Ok tt ∧ job w'' = None ∧ files w'' = files w').
Proof.
  intros HU HF HP. pose proof (uninstall_once e HU HF w qs HP) as H1. destruct (Uninstall e true w) as [w' r]. destruct H1 as (Off & Gone & HG & Hf).
  split_and!; [done|done|]. intros H0. destruct (Hf H0) as [-> HJ]. split_and!; [done..|].
  assert (Forall2 (place (files w')) targets qs) as HP' by (by eapply places_gone; [exact HP|done|apply HG]).
  pose proof (uninstall_once e HU HF w' qs HP') as H2. destruct (Uninstall e true w') as [w'' r'']. destruct H2 as (Off' & Gone' & HG' & Hf').
  destruct (Hf' H0) as [-> ->]. split_and!; [done..|]. apply map_eq. intros q. destruct (decide (q ∈ qs)) as [Hq|Hq]; [|by apply Off'].
  rewrite (HG eq_refl q Hq). apply Gone', HG; done.
Qed.
Definition ex_removed : fs :=
  <[PlistPath := File 0 420 "p"]> (<[BinaryDir := Dir 0 493]> (<[BinaryPath := File 0 493 "v1"]> (<[NewsyslogPath := File 0 420 "n"]>
    (<[LogDir := Dir 0 493]> (<[LogPath := File 0 420 "a line"]> (ex_mac (Dir 0 493))))))).
Lemma uninstall_exact_witness :
  let '(w', r) := Uninstall (ex_env (λ _ f, f)) true (MkWorld ex_removed (Some "v1") 0 []) in
  r = Ok tt ∧ job w' = None ∧ files w' !! BinaryPath = None ∧ files w' !! LogPath = Some (File 0 420 "a line").
Proof.
  pose proof (uninstall_exact (ex_env (λ _ f, f)) (MkWorld ex_removed (Some "v1") 0 []) targets ltac:(reflexivity) ltac:(intros ?? [=])
    ltac:(repeat first [apply Forall2_nil_2|apply Forall2_cons_2; [split; vm_compute; reflexivity|]])) as H.
  assert (LogPath ∉ targets) as HL by (apply (bool_decide_unpack _); vm_compute; exact I).
  destruct (Uninstall _ _ _) as [w' r]. destruct H as (H1 & H2 & H3). destruct (H3 ltac:(reflexivity)) as (-> & HJ & _).
  split; [reflexivity|]. split; [exact HJ|]. split; [apply H2; [reflexivity|right; left]|]. rewrite (H1 _ HL). vm_compute. reflexivity.
Defined.

(** ** The log's tail *)

Definition log_lines (ls : list string) : string := concat ((λ l, l +:+ String nl_char "") <$> ls).
Definition is_line (l : string) : Prop := has_byte nl_char l = false.
Lemma concat_app a b : concat (a ++ b) = concat a +:+ concat b.
Proof. induction a as [|x a IH]; [done|]. cbn. by rewrite IH, append_assoc'. Qed.
Lemma log_lines_snoc ls l : log_lines (ls ++ [l]) = log_lines ls +:+ l +:+ String nl_char "".
Proof. unfold log_lines. rewrite fmap_app, concat_app. cbn. by rewrite append_nil_r. Qed.
Lemma Split_lines ls : ls ≠ [] → Forall is_line ls → ∃ body, log_lines ls = body +:+ String nl_char "" ∧ Split nl_char body = ls.
Proof.
  intros Hn HF. exists (Join ls (String nl_char "")). split; [|by apply Split_Join].
  induction ls as [|l ls IH]; [done|]. destruct ls as [|l' ls]; [cbn; by rewrite append_nil_r|].
  change (log_lines (l :: l' :: ls)) with ((l +:+ String nl_char "") +:+ log_lines (l' :: ls)).
  change (Join (l :: l' :: ls) (String nl_char "")) with (l +:+ String nl_char "" +:+ Join (l' :: ls) (String nl_char "")).
  inversion HF; subst. rewrite IH by done. by rewrite !append_assoc'.
Qed.
Lemma trim_right_drop f k s :
  trim_right f (str_drop k s) = str_drop k (trim_right f s).
Proof.
  revert k. induction s as [|c s IH]; intros k; [by destruct k|]. destruct k as [|k]; [done|]. cbn [str_drop trim_right]. rewrite IH.
  destruct (trim_right f s) as [|d r]; [|done]. destruct (f c); by destruct k.
Qed.
Lemma Split_drop c k s : tail (Split c (str_drop k s)) `suffix_of` tail (Split c s).
Proof.
  revert k. induction s as [|d s IH]; intros k; [by destruct k|]. destruct k as [|k]; [done|]. cbn [str_drop].
  specialize (IH k). destruct (Split_cons c s) as (w & ws & E). cbn [Split]. rewrite E in IH |- *. cbn [tail] in IH.
  destruct (Ascii.eqb c d); cbn [tail]; [|done]. by apply suffix_cons_r.
Qed.
Lemma trim_right_last f c s : f c = true → trim_right f (s +:+ String c "") = trim_right f s.
Proof. intros Hc. induction s as [|d s IH]; cbn; [by rewrite Hc|]. by rewrite IH. Qed.
Lemma drop_suffix {A} k (l : list A) : drop k l `suffix_of` l.
Proof. exists (take k l). by rewrite take_drop. Qed.
(** What the new lines are, once the ends of the last are trimmed. *)
Lemma log_body ls l :
  Forall is_line (ls ++ [l]) → l ≠ "" →
  trim_right (Ascii.eqb nl_char) (log_lines (ls ++ [l])) = log_lines ls +:+ l ∧ Split nl_char (log_lines ls +:+ l) = ls ++ [l] ∧
  log_lines ls +:+ l ≠ "".
Proof.
  intros HF Hl. destruct (Split_lines (ls ++ [l])) as (body & Hb & HS); [by destruct ls|done|].
  rewrite log_lines_snoc, <- append_assoc' in Hb. apply append_inj_r in Hb as <-. split_and!; [|done|].
  - rewrite log_lines_snoc, <- append_assoc', trim_right_last by done. apply trim_right_tail; [|done]. apply trim_right_none.
    apply Forall_app in HF as [_ HF]. inversion HF as [|? ? HL _]; subst. unfold is_line in HL. clear -HL. induction l as [|d l IH]; [done|].
    cbn in HL |- *. apply orb_false_iff in HL as [-> HL]. by apply IH.
  - destruct (log_lines ls); [done|]. done.
Qed.
Lemma last_elem {A} (l : list A) d : List.last l d = d ∨ List.last l d ∈ l.
Proof. induction l as [|x [|y l] IH]; [by left|right; by left|]. destruct IH as [IH|IH]; [by left|right; right; exact IH]. Qed.
Lemma agent_among ls : let a := List.last (List.filter is_agent_line ls) "" in a = "" ∨ a ∈ ls ∧ is_agent_line a = true.
Proof.
  cbv zeta. destruct (last_elem (List.filter is_agent_line ls) "") as [H|H]; [by left|right].
  apply list_elem_of_In, filter_In in H as [H1 H2]. split; [by apply list_elem_of_In|done].
Qed.
Lemma log_start_mark o k : 0 <= o → 0 <= k → ∃ j, log_start (o + k) o = (o + j, window <? k) ∧ 0 <= j ∧ (k <= window → j = 0).
Proof.
  intros Ho Hk. unfold log_start.
  assert ((if (0 <? o) && (o <=? o + k) then o else 0) = o) as -> by (destruct (Z.ltb_spec 0 o), (Z.leb_spec o (o + k)); cbn; lia).
  replace (o + k - o) with k by lia. destruct (Z.ltb_spec window k).
  - exists (k - window). split_and!; [f_equal; lia|lia|lia].
  - exists 0. split_and!; [f_equal; lia|lia|done].
Qed.
(** The tail of the log. Read from the mark taken before the daemon was
    started, it holds lines written since and none from before: the last [n] of
    them, whole, and the last that says which transport the daemon took; of more
    than the window, still whole lines from the end. *)
Theorem tail_fresh old ls n :
  Forall is_line ls → List.last ls "-" ≠ "" →
  let '(t, agent) := tailLog (old +:+ log_lines ls) (Z.of_nat (String.length old)) n in
  t `suffix_of` ls ∧ (length t <= n)%nat ∧ (agent = "" ∨ agent ∈ ls ∧ is_agent_line agent = true) ∧
  (Z.of_nat (String.length (log_lines ls)) <= window →
     t = drop (length ls - n) ls ∧ agent = List.last (List.filter is_agent_line ls) "").
Proof.
  intros HF Hlast. unfold tailLog. rewrite append_length, Nat2Z.inj_add.
  destruct (log_start_mark (Z.of_nat (String.length old)) (Z.of_nat (String.length (log_lines ls)))) as (j & -> & Hj & Hj0); [lia..|].
  rewrite Z2Nat.inj_add, Nat2Z.id, str_drop_app_add, trim_right_drop by lia.
  destruct ls as [|l ls' _] using rev_ind; [destruct (Z.to_nat j); cbn; (split_and!; [apply suffix_nil|lia|by left|by rewrite drop_nil])|].
  rewrite List.last_last in Hlast. destruct (log_body ls' l HF Hlast) as (-> & HS & HB). set (ls := ls' ++ [l]) in *. set (B := log_lines ls' +:+ l) in *.
  destruct (Z.ltb_spec window (Z.of_nat (String.length (log_lines ls)))) as [Hw|Hw].
  - destruct (String.eqb_spec (str_drop (Z.to_nat j) B) "") as [_|_]; [split_and!; auto; [apply suffix_nil|cbn; lia|lia]|].
    pose proof (Split_drop nl_char (Z.to_nat j) B) as HD. rewrite HS in HD. set (t := tail (Split _ _)) in *. clearbody t.
    assert (t `suffix_of` ls) as HT by (trans (tail ls); [done|]; destruct ls; [done|by apply suffix_cons_r]).
    split_and!; [trans t; [apply drop_suffix|done]|rewrite length_drop; lia| |lia].
    destruct (agent_among t) as [?|[? ?]]; [by left|right]. split; [|done]. destruct HT as [x ->]. apply elem_of_app. by right.
  - rewrite (Hj0 Hw). change (str_drop (Z.to_nat 0) B) with (str_drop 0 B). rewrite str_drop_0, (proj2 (String.eqb_neq B "")), HS by done.
    split_and!; [|rewrite length_drop; lia|apply agent_among|done]. apply drop_suffix.
Qed.
Definition agent_line : string := "agent tcp://192.168.64.3:4777 (source=lease)".
Lemma tail_fresh_witness :
  tailLog ("agent tcp://10.0.0.1:4777 (source=flag)" +:+ String nl_char "" +:+ log_lines ["up"; agent_line; "mirror 22"]) 40 2 =
    ([agent_line; "mirror 22"], agent_line) ∧
  [agent_line; "mirror 22"] `suffix_of` ["up"; agent_line; "mirror 22"].
Proof.
  split; [vm_compute; reflexivity|].
  pose proof (tail_fresh ("agent tcp://10.0.0.1:4777 (source=flag)" +:+ String nl_char "") ["up"; agent_line; "mirror 22"] 2
    ltac:(repeat first [apply Forall_nil_2|apply Forall_cons_2; [vm_compute; reflexivity|]]) ltac:(discriminate)) as H.
  destruct (tailLog _ _ _) as [t a] eqn:E. destruct H as (_ & _ & _ & H). destruct (H ltac:(vm_compute; discriminate)) as [_ _].
  exists ["up"]. reflexivity.
Defined.
(** A log rotated under the mark is newer throughout. *)
Lemma tail_rotated log since n : Z.of_nat (String.length log) < since → tailLog log since n = tailLog log 0 n.
Proof. intros H. unfold tailLog, log_start. destruct (Z.leb_spec since (Z.of_nat (String.length log))); [lia|]. by rewrite andb_false_r. Qed.

(** ** launchctl's print *)

(** A line that does not start with the field, after its one tab. *)
Definition no_field (key l : string) : Prop := is_line l ∧ CutPrefix key (untab l) = None.
Lemma CutPrefix_line key l r : is_line key → CutPrefix key l = None → CutPrefix key (l +:+ String nl_char r) = None.
Proof.
  revert l. induction key as [|k key IH]; intros l Hk; [done|]. unfold is_line in Hk. cbn [has_byte] in Hk. apply orb_false_iff in Hk as [Hk1 Hk2].
  destruct l as [|c l]; cbn [CutPrefix String.append].
  - intros _. rewrite Ascii.eqb_sym, Hk1. done.
  - destruct (Ascii.eqb k c); [by apply IH|done].
Qed.
Lemma no_field_unmatched key cap l r : is_line key → no_field key l → match_field true key cap (l +:+ String nl_char r) = None.
Proof.
  intros Hk (_ & H). unfold match_field.
  assert (untab (l +:+ String nl_char r) = untab l +:+ String nl_char r) as ->
    by (destruct l as [|c l]; [done|]; cbn [String.append untab]; by destruct (Ascii.eqb c "009")).
  by rewrite CutPrefix_line.
Qed.
Lemma find_match_line m l r : is_line l → m (l +:+ String nl_char r) = None → find_match m true (l +:+ String nl_char r) = find_match m true r.
Proof.
  intros Hl Hm. assert (∀ x, has_byte nl_char x = false → find_match m false (x +:+ String nl_char r) = find_match m true r) as HF.
  { induction x as [|c x IH]; [done|]. cbn [has_byte]. intros [H1 H2]%orb_false_iff. cbn [String.append find_match].
    replace (Ascii.eqb c "010") with false by (rewrite Ascii.eqb_sym; symmetry; exact H1). by apply IH. }
  destruct l as [|c l]; cbn [String.append find_match] in *; rewrite Hm; [done|]. unfold is_line in Hl. cbn [has_byte] in Hl.
  apply orb_false_iff in Hl as [H1 H2]. replace (Ascii.eqb c "010") with false by (rewrite Ascii.eqb_sym; symmetry; exact H1). by apply HF.
Qed.
Lemma first_line_of v r : is_line v → first_line (v +:+ String nl_char r) = v.
Proof.
  unfold is_line. induction v as [|c v IH]; [done|]. cbn [has_byte]. intros [H1 H2]%orb_false_iff. cbn [String.append first_line].
  replace (Ascii.eqb c "010") with false by (rewrite Ascii.eqb_sym; symmetry; exact H1). f_equal. by apply IH.
Qed.
Lemma trim_left_length f s : (String.length (trim_left f s) <= String.length s)%nat.
Proof. induction s as [|d s IH]; cbn; [lia|]. destruct (f d); cbn; lia. Qed.
Lemma trim_left_fixed f c v r : trim_left f (String c v) = String c v → trim_left f (String c v +:+ r) = String c v +:+ r.
Proof.
  cbn. destruct (f c); [|done]. intros H. exfalso. apply (f_equal String.length) in H. pose proof (trim_left_length f v). cbn in H. lia.
Qed.
(** The job's own state is read, to the end of its line, whatever the nested
    blocks before and after it call theirs. *)
Lemma own_state pre v post :
  Forall (no_field "state") pre → is_line v → v ≠ "" → trim_left re_space v = v → trim_right re_space v = v →
  parseState (log_lines pre +:+ tab +:+ "state = " +:+ v +:+ String nl_char post) = v.
Proof.
  intros HF Hv Hne Hl Hr. unfold parseState.
  assert (find_match (match_field true "state" capture_text) true (log_lines pre +:+ tab +:+ "state = " +:+ v +:+ String nl_char post) = Some v) as ->; [|done].
  induction HF as [|l pre Hline HF IH].
  - assert (match_field true "state" capture_text (tab +:+ "state = " +:+ v +:+ String nl_char post) = Some v) as HM.
    { change (capture_text (" " +:+ v +:+ String nl_char post) = Some v). unfold capture_text.
      change (trim_left re_space (" " +:+ v +:+ String nl_char post)) with (trim_left re_space (v +:+ String nl_char post)).
      destruct v as [|c v]; [done|]. rewrite trim_left_fixed by done.
      change (Some (trim_right re_space (first_line (String c v +:+ String nl_char post))) = Some (String c v)). by rewrite first_line_of, Hr. }
    change (log_lines [] +:+ ?x) with x. unfold tab in *. cbn [String.append find_match] in *. by rewrite HM.
  - unfold log_lines. cbn [fmap list_fmap concat]. fold (log_lines pre). rewrite !append_assoc'. cbn [String.append].
    rewrite find_match_line; [done|by destruct Hline|]. by apply no_field_unmatched.
Qed.
Example ex_print :
  let out := log_lines [String "009" (String "009" "state = active"); String "009" "state = not running  "; String "009" "pid = 71"] in
  parseState out = "not running" ∧ parsePID out = 71 ∧ parseState "x" = "unknown".
Proof. vm_compute. done. Qed.
