(* ===== verification/DoctorHost.v ===== *)
(** * DoctorHost: doctor's checks of the Mac, and the report

    Checks 1, 7, 9, 10 and 11 of [src/internal/doctor/checks.go], the choice of
    the target and of the daemon that serves it (gather.go), and [Classify], the
    whole report over everything gathered. Lines of evidence, titles and
    remedies are constructors, with what is printed into them as arguments. *)

From S2P Require Import Prelude GoStr GoPath VmRef DoctorAuth DoctorGuest DoctorNet.
From S2P Require Introspect Forwarding VmRecord DoctorProbe Setup.
Open Scope string_scope.
Open Scope list_scope.
Open Scope Z_scope.

Definition IDProviders : string := "providers".
Definition IDNEFilter : string := "ne-filter".
Definition IDDaemon : string := "daemon".
Definition IDCoexistence : string := "coexistence".
Definition IDSkipVisible : string := "skip-visibility".

(** ** 1. providers *)

Record ProvidersInput := MkProviders {
  pi_Providers : list string; pi_Instances : list Instance; pi_ListErrors : list string; pi_RootScoped : bool;
  pi_Podman : PodmanInput }.
Inductive provider_line :=
| NoStateDir | Detected (providers : list string) | ListWarning (e : string) | UserScoped | RootHalf
| MachineRunning (i : Instance) (known : option (bool * option Z)) | InstanceRunning (i : Instance)
| InstanceStopped (i : Instance) | NotDialable (i : Instance) | OneMachineRuns.
Inductive provider_title := NoneInstalled | NotListable | SomeUnattachable (attachable not : nat) | NothingRunning | SomeRunning (n : nat).
Inductive hint :=
| PodmanRecreate (name : string) | ColimaSwitchDefault | ColimaSwitch (profile : string) | LimactlEdit (name : string)
| NewColima | NewLima | NewPodman | PodmanStart (name : string) | ColimaStartDefault | ColimaStart (profile : string) | LimactlStart (name : string).
Inductive provider_remedy := InstallProvider | SwitchTo (h : list hint) | Start_ (h : list hint).

Definition vz_hint (i : Instance) : hint :=
  if String.eqb (i_Provider i) ProviderPodman then PodmanRecreate (i_Name i)
  else if String.eqb (i_Provider i) ProviderColima then
    let profile := TrimPrefix (i_Name i) "colima-" in
    if String.eqb profile "colima" then ColimaSwitchDefault else ColimaSwitch profile
  else LimactlEdit (i_Name i).
Definition vzSwitchHints (insts : list Instance) : list hint := vz_hint <$> insts.
Definition start_hint (i : Instance) : hint :=
  if String.eqb (i_Provider i) ProviderPodman then PodmanStart (i_Name i)
  else if String.eqb (i_Provider i) ProviderColima then
    let profile := TrimPrefix (i_Name i) "colima-" in
    if String.eqb profile "colima" then ColimaStartDefault else ColimaStart profile
  else LimactlStart (i_Name i).
Definition startHints (insts : list Instance) : list hint :=
  match insts with [] => [NewColima; NewLima; NewPodman] | _ => start_hint <$> insts end.
Definition podmanProviderEvidence (i : Instance) (pm : PodmanInput) : provider_line :=
  if negb (pm_Target pm) || negb (String.eqb (pm_Instance pm) (i_Name i)) || negb (String.eqb (pm_ConfigErr pm) "") then MachineRunning i None
  else
    let port := VmRecord.mc_Port (pm_Config pm) in
    MachineRunning i (Some (VmRecord.mc_Rootful (pm_Config pm), if port =? 0 then None else Some port)).
Definition is_podman (i : Instance) : bool := String.eqb (i_Provider i) ProviderPodman.
Definition CheckProviders (i : ProvidersInput) : Finding provider_title provider_line provider_remedy :=
  let f t s ev r := MkFinding IDProviders t s ev r in
  match pi_Providers i with
  | [] => f NoneInstalled StatusFail [NoStateDir] (Some InstallProvider)
  | ps =>
      let ev := Detected ps :: (ListWarning <$> pi_ListErrors i) in
      if pi_RootScoped i && bool_decide (pi_Instances i = []) then f NotListable StatusSkip (ev ++ [UserScoped; RootHalf]) None
      else
        let stopped := List.filter (λ x, negb (i_Running x)) (pi_Instances i) in
        let attachable := List.filter (λ x, i_Running x && i_Attachable x) (pi_Instances i) in
        let unattachable := List.filter (λ x, i_Running x && negb (i_Attachable x)) (pi_Instances i) in
        let ev := ev ++ ((λ x, if is_podman x then podmanProviderEvidence x (pi_Podman i) else InstanceRunning x) <$> attachable) ++
          (InstanceStopped <$> stopped) ++ (NotDialable <$> unattachable) in
        match unattachable, attachable with
        | _ :: _, _ => f (SomeUnattachable (length attachable) (length unattachable)) StatusWarn ev (Some (SwitchTo (vzSwitchHints unattachable)))
        | [], [] => f NothingRunning StatusWarn ev (Some (Start_ (startHints stopped)))
        | [], _ => f (SomeRunning (length attachable)) StatusOK (ev ++ if existsb is_podman stopped then [OneMachineRuns] else []) None
        end
  end.

(** ** 7. ne-filter *)

Record NEExtension := MkExtension { ne_TeamID : string; ne_BundleID : string; ne_Name : string; ne_State : string }.
Definition tab : ascii := "009"%char.
Definition is_bracket (c : ascii) : bool := Ascii.eqb c "[" || Ascii.eqb c "]".
(** A row of the network category, from its tab-separated columns. *)
Definition extension_of (cols : list string) : option NEExtension :=
  if (length cols <? 6)%nat then None
  else
    let state := trim_right is_bracket (trim_left is_bracket (TrimSpace (List.last cols ""))) in
    if negb (Contains state "activated") then None
    else
      let col n := TrimSpace (nth n cols "") in
      let bundle := match Cut " " (col 3%nat) with Some (b, _) => b | None => col 3%nat end in
      if String.eqb bundle "" then None else Some (MkExtension (col 2%nat) bundle (col 4%nat) state).
Fixpoint scan_extensions (inNetwork : bool) (ls : list string) : list NEExtension :=
  match ls with
  | [] => []
  | line :: ls =>
      let trimmed := TrimSpace line in
      if HasPrefix trimmed "---" then scan_extensions (Contains trimmed "network_extension") ls
      else if negb inNetwork || String.eqb trimmed "" then scan_extensions inNetwork ls
      else match extension_of (Split tab line) with
      | Some e => e :: scan_extensions inNetwork ls
      | None => scan_extensions inNetwork ls
      end
  end.
Definition ParseSystemExtensions (out : string) : list NEExtension := scan_extensions false (Split "010" out).

Inductive ne_title := NotEnumerated | NoneActivated | SomeActivated (n : nat).
Inductive ne_line := EnumError (e : string) | ExtensionIs (name bundle state : string) | FilterSignatures.
Inductive ne_remedy := DeactivateOrPin.
Definition CheckNEFilter (exts : list NEExtension) (probeErr : string) : Finding ne_title ne_line ne_remedy :=
  let f t s ev r := MkFinding IDNEFilter t s ev r in
  if negb (String.eqb probeErr "") then f NotEnumerated StatusSkip [EnumError probeErr] None
  else match exts with
  | [] => f NoneActivated StatusOK [] None
  | _ => f (SomeActivated (length exts)) StatusWarn
      (((λ e, ExtensionIs (firstNonEmpty [ne_Name e; ne_BundleID e]) (ne_BundleID e) (ne_State e)) <$> exts) ++ [FilterSignatures])
      (Some DeactivateOrPin)
  end.

(** ** 10. coexistence *)

Record CoexistenceInput := MkCoexistence {
  ci_Known : bool; ci_Fwd : Forwarding.Forwarding; ci_Err : string; ci_Skip : string; ci_BindFailed : list Introspect.MirrorEntry }.
Inductive co_title := CoSkipped | CoUnread | CoNoForwarder | CoNothing | CoControlOnly | CoActive | CoNotPublished | CoPublished.
Inductive co_line := CoWhy (why : string) | ForwarderIs (f : Forwarding.Forwarding) | GvproxyForwards (f : Forwarding.Forwarding)
| BindFailed_ (e : Introspect.MirrorEntry) | ControlIsOurs | DegradesToIt | BridgedIsNotOurs.
Inductive co_remedy := IgnoreRule | NetworkHost.
Definition bindFailedLines (entries : list Introspect.MirrorEntry) : list co_line := BindFailed_ <$> entries.
Definition coverageBeyondControl (s : Forwarding.PortSet) : bool :=
  existsb (λ r, (Forwarding.Lo r <? ControlPort) || (ControlPort <? Forwarding.Hi r)) s.
Definition checkPodmanCoexistence (i : CoexistenceInput) (bf : list co_line) : Finding co_title co_line co_remedy :=
  let f t s ev r := MkFinding IDCoexistence t s ev r in
  let ev := GvproxyForwards (ci_Fwd i) :: bf in
  if negb (Forwarding.Active (ci_Fwd i)) then f CoNotPublished StatusOK ev None
  else f CoPublished StatusWarn (ev ++ [BridgedIsNotOurs]) (Some NetworkHost).
Definition CheckCoexistence (i : CoexistenceInput) : Finding co_title co_line co_remedy :=
  let f t s ev r := MkFinding IDCoexistence t s ev r in
  let bf := bindFailedLines (ci_BindFailed i) in
  if negb (String.eqb (ci_Skip i) "") then f CoSkipped StatusSkip (CoWhy (ci_Skip i) :: bf) None
  else if negb (String.eqb (ci_Err i) "") then f CoUnread StatusSkip (CoWhy (ci_Err i) :: bf) None
  else if negb (ci_Known i) then f CoNoForwarder StatusSkip bf None
  else
    let fwd := ci_Fwd i in
    if String.eqb (Forwarding.fw_Provider fwd) ProviderPodman then checkPodmanCoexistence i bf
    else
      let ev := ForwarderIs fwd :: bf in
      if negb (Forwarding.Active fwd) then f CoNothing StatusOK ev None
      else if negb (coverageBeyondControl (Forwarding.Loopback fwd)) && negb (coverageBeyondControl (Forwarding.Wildcard fwd)) then
        f CoControlOnly StatusOK (ev ++ [ControlIsOurs]) None
      else f CoActive StatusWarn (ev ++ [DegradesToIt]) (Some IgnoreRule).

(** ** 11. skip-visibility *)

Record SkipInput := MkSkip {
  si_LogTail : list string; si_Known : bool; si_Daemon : string; si_Skip : list Z; si_Skipped : list Introspect.MirrorEntry }.
Inductive skip_line := SkipsAre (daemon : string) (ports : list Z) | DeclinedEntry (e : Introspect.MirrorEntry) | SkipLog (l : string) | DefaultSkips.
Definition CheckSkipVisibility (i : SkipInput) : Finding unit skip_line Empty_set :=
  MkFinding IDSkipVisible tt StatusInfo
    ((if si_Known i then SkipsAre (si_Daemon i) (si_Skip i) :: (DeclinedEntry <$> si_Skipped i) else []) ++
     ((λ l, SkipLog (TrimSpace l)) <$> List.filter (λ l, Contains l "skip-list") (si_LogTail i)) ++ [DefaultSkips]) None.

(** ** 9. daemon *)

Record DaemonInput := MkDaemon {
  di_Status : Setup.InstallStatus; di_InstalledVersion : string; di_VersionErr : string; di_CLIVersion : string;
  di_Snapshots : list Introspect.Snap; di_SnapshotProblems : list string }.

Definition snapshotVersionSkew (snaps : list Introspect.Snap) (cli : string) : option Introspect.Snap :=
  List.find (λ s, let v := Introspect.st_Version (Introspect.sn_State s) in
    negb (String.eqb v "" || String.eqb cli "") && negb (String.eqb v cli)) snaps.
Definition isRootSnapshot (s : Introspect.Snap) : bool :=
  String.eqb (Introspect.sn_Path s) RootSocketPath || (Introspect.sn_Usable s && (Introspect.st_EUID (Introspect.sn_State s) =? 0)).
(** The root daemon's snapshot and a user's; both there is the fight. *)
Definition fightingDaemons (snaps : list Introspect.Snap) : option Introspect.Snap * option Introspect.Snap * bool :=
  let root := List.find isRootSnapshot snaps in let user := List.find (λ s, negb (isRootSnapshot s)) snaps in
  (root, user, match root, user with Some _, Some _ => true | _, _ => false end).
Definition liveSnapshot (snaps : list Introspect.Snap) : option Introspect.Snap := List.find Introspect.sn_Usable snaps.
(** The pid, when the daemon says one, and the socket. *)
Definition daemonWho (s : option Introspect.Snap) : option (option Z * string) :=
  (λ s, (if Introspect.sn_Usable s && (0 <? Introspect.st_PID (Introspect.sn_State s)) then Some (Introspect.st_PID (Introspect.sn_State s)) else None,
         Introspect.sn_Path s)) <$> s.
Definition countEntries (es : list Introspect.MirrorEntry) (state : string) : nat :=
  length (List.filter (λ e, String.eqb (Introspect.me_State e) state) es).
Definition logHighlights (tail : list string) : list string :=
  TrimSpace <$> List.filter (λ l, Contains l "refused reverse dial to" || Contains l "nonzero reserved byte in activation header") tail.

Inductive daemon_line :=
| Artifacts (plist binary : bool) (launchd : option (string * option Z)) | NoArtifacts | VersionIs (v : string) | VersionUnread (e : string)
| LogLine (l : string) | NotASnapshot (e : string)
| OtherSchema (path : string) (schema : Z) (version : string) | DaemonAt (path version : string) (pid euid : Z) (vm : string)
| EndpointIs (ep source : string) | NoteIs (n : string) | AuthIs (mode secret : string)
| SessionsAre (mirror : bool) (entries bound : nat) (sync : bool) (advertised : nat) (parked : Z)
| RefusalIs (id line : string) (predates : option Z) | AdvertisesNothing (install : option string)
| WhoeverBindsFirst | ForegroundPorts (install : string).
Definition ring_ids : list string := ["reverse-dial-refused"; "activation-reserved-byte"; "advertised-emptied"; "advertised-none"].
Definition EntryBound : string := "bound".
Definition refusal_lines (sy : Introspect.Sync) (rs : list Introspect.Refusal) : list daemon_line :=
  (λ r, RefusalIs (Introspect.rf_ID r) (TrimSpace (Introspect.rf_Line r))
     (if Introspect.sy_SessionUp sy && negb (Introspect.sy_Since sy =? 0) && (Introspect.rf_At r <? Introspect.sy_Since sy)
      then Some (Introspect.rf_At r) else None)) <$>
  List.filter (λ r, existsb (String.eqb (Introspect.rf_ID r)) ring_ids) rs.
Definition snapshot_lines (s : Introspect.Snap) : list daemon_line :=
  let st := Introspect.sn_State s in
  if negb (Introspect.sn_Usable s) then
    [OtherSchema (Introspect.sn_Path s) (Introspect.st_Schema st) (firstNonEmpty [Introspect.st_Version st; "unknown"])]
  else
    let res := Introspect.st_Resolution st in let au := Introspect.st_Auth st in
    let mi := Introspect.st_Mirror st in let sy := Introspect.st_Sync st in
    [DaemonAt (Introspect.sn_Path s) (Introspect.st_Version st) (Introspect.st_PID st) (Introspect.st_EUID st)
       (firstNonEmpty [Introspect.vm_Ref (Introspect.st_VM st); "unknown"]);
     EndpointIs (firstNonEmpty [Introspect.rs_Endpoint res; "none"]) (Introspect.rs_Source res)] ++
    when (negb (String.eqb (Introspect.rs_Note res) "")) (NoteIs (Introspect.rs_Note res)) ++
    [AuthIs (firstNonEmpty [Introspect.au_Mode au; "unknown"]) (firstNonEmpty [Introspect.au_SecretState au; "unknown"]);
     SessionsAre (Introspect.mi_SessionUp mi) (length (Introspect.mi_Entries mi)) (countEntries (Introspect.mi_Entries mi) EntryBound)
       (Introspect.sy_SessionUp sy) (length (Introspect.sy_Advertised sy)) (Introspect.sy_PoolParked sy)] ++
    refusal_lines sy (Introspect.st_RecentRefusals st) ++
    when (Introspect.sy_SessionUp sy && bool_decide (Introspect.sy_Advertised sy = []) && bool_decide (Introspect.sy_UDPPorts sy = []))
      (AdvertisesNothing (if Introspect.st_EUID st =? 0 then None else Some (installCmd (Introspect.vm_Ref (Introspect.st_VM st))))).
Definition snapshotEvidence (snaps : list Introspect.Snap) : list daemon_line := snaps ≫= snapshot_lines.

Inductive daemon_title :=
| DVersion (installed cli : string) | DRunningVersion (version cli : string) | DFighting | DForeground (pid : Z) | DNotInstalled
| DNotLoaded | DState (state : string) | DRunning (version : string) (pid : Z).
Inductive daemon_remedy := Upgrade (install up : string) | StopOne (root user : option (option Z * string)) | InstallOrRun | Rebootstrap (install : string) | SeeLog.
Definition CheckDaemon (i : DaemonInput) : Finding daemon_title daemon_line daemon_remedy :=
  let f t s ev r := MkFinding IDDaemon t s ev r in
  let st := di_Status i in let version := di_InstalledVersion i in let cli := di_CLIVersion i in
  let log l := when (negb (String.eqb l "")) (LogLine l) in
  let ev :=
    [if Setup.Installed st || Setup.is_Loaded st then
       Artifacts (Setup.is_PlistInstalled st) (Setup.is_BinaryInstalled st)
         (if Setup.is_Loaded st then Some (Setup.is_State st, if 0 <? Setup.is_PID st then Some (Setup.is_PID st) else None) else None)
     else NoArtifacts] ++
    (if negb (String.eqb version "") then [VersionIs version]
     else when (negb (String.eqb (di_VersionErr i) "") && Setup.is_BinaryInstalled st) (VersionUnread (di_VersionErr i))) ++
    (if String.eqb (Setup.is_AgentLine st) "" then [] else [LogLine (TrimSpace (Setup.is_AgentLine st))]) ++
    (LogLine <$> logHighlights (Setup.is_LogTail st)) ++ log (Setup.is_LogNote st) ++
    snapshotEvidence (di_Snapshots i) ++ (NotASnapshot <$> di_SnapshotProblems i) in
  let '(root, user, fighting) := fightingDaemons (di_Snapshots i) in
  let vm :=
    if String.eqb (Setup.is_VM st) "" then
      match root with Some s => if Introspect.sn_Usable s then Introspect.vm_Ref (Introspect.st_VM (Introspect.sn_State s)) else "" | None => "" end
    else Setup.is_VM st in
  let upgrade := Upgrade (installCmd vm) (firstNonEmpty [vm; "<vm>"]) in
  if negb (String.eqb version "") && negb (String.eqb version cli) then f (DVersion version cli) StatusFail ev (Some upgrade)
  else match snapshotVersionSkew (di_Snapshots i) cli with
  | Some s => f (DRunningVersion (Introspect.st_Version (Introspect.sn_State s)) cli) StatusFail ev (Some upgrade)
  | None =>
      if fighting then f DFighting StatusWarn (ev ++ [WhoeverBindsFirst]) (Some (StopOne (daemonWho root) (daemonWho user)))
      else if negb (Setup.Installed st) && negb (Setup.is_Loaded st) then
        match liveSnapshot (di_Snapshots i) with
        | Some s =>
            f (DForeground (Introspect.st_PID (Introspect.sn_State s))) StatusOK
              (ev ++ [ForegroundPorts (installCmd (Introspect.vm_Ref (Introspect.st_VM (Introspect.sn_State s))))]) None
        | None => f DNotInstalled StatusWarn ev (Some InstallOrRun)
        end
      else if Setup.Installed st && negb (Setup.is_Loaded st) then f DNotLoaded StatusWarn ev (Some (Rebootstrap (installCmd vm)))
      else if Setup.is_Loaded st && negb (Setup.Running st) then f (DState (firstNonEmpty [Setup.is_State st; "unknown"])) StatusWarn ev (Some SeeLog)
      else f (DRunning (firstNonEmpty [version; "installed"]) (Setup.is_PID st)) StatusOK ev None
  end.

(** ** When they fail *)

(** A remedy comes exactly with a warning or a failure. *)
Definition remedied {T E R} (f : Finding T E R) : Prop := f_Remedy f = None ↔ f_Status f ∉ [StatusWarn; StatusFail].
Ltac remedied := cbn; set_solver.
Lemma providers_spec i :
  let f := CheckProviders i in remedied f ∧ f_Status f ≠ StatusInfo ∧ f_ID f = IDProviders ∧
  (f_Status f = StatusFail ↔ pi_Providers i = []) ∧
  (f_Status f = StatusOK ↔ pi_Providers i ≠ [] ∧ eligible (pi_Instances i) ≠ [] ∧
     ∀ x, x ∈ pi_Instances i → i_Running x = true → i_Attachable x = true).
Proof.
  cbv zeta. unfold CheckProviders, remedied. destruct (pi_Providers i) as [|p ps]; [cbn; split_and!; try done; [set_solver|naive_solver]|].
  destruct (bool_decide_reflect (pi_Instances i = [])) as [E|E].
  { rewrite andb_true_r. destruct (pi_RootScoped i); [cbn; split_and!; try done; [set_solver|rewrite E; naive_solver]|].
    rewrite E. cbn. split_and!; try done; [set_solver|naive_solver]. }
  rewrite andb_false_r. unfold eligible.
  assert ((List.filter (λ x, i_Running x && negb (i_Attachable x)) (pi_Instances i) = []) ↔
    (∀ x, x ∈ pi_Instances i → i_Running x = true → i_Attachable x = true)) as HU.
  { clear E. induction (pi_Instances i) as [|x l IH]; [split; [|done]; intros _ x Hx; by apply elem_of_nil in Hx|].
    cbn. destruct (i_Running x) eqn:ER, (i_Attachable x) eqn:EA; cbn.
    2: { split; [done|]. intros H. specialize (H x ltac:(left) ER). congruence. }
    all: rewrite IH; split; [intros H y [->|Hy]%elem_of_cons; auto; congruence|intros H y Hy; apply H; by right]. }
  set (un := List.filter _ _) in *. set (at_ := List.filter (λ x, i_Running x && i_Attachable x) _). clearbody at_.
  destruct un as [|u un]; [destruct at_ as [|a at_]|].
  - cbn. split_and!; try done; [set_solver|naive_solver].
  - cbn. split_and!; try done; [set_solver|]. split; [intros _; split_and!; [done|done|by apply HU]|done].
  - cbn. split_and!; try done; [set_solver|]. split; [done|]. intros (_ & _ & H). by apply HU in H.
Qed.
Lemma ne_spec exts err :
  let f := CheckNEFilter exts err in remedied f ∧ f_ID f = IDNEFilter ∧ f_Status f ∉ [StatusFail; StatusInfo] ∧
  (f_Status f = StatusWarn ↔ err = "" ∧ exts ≠ []).
Proof.
  cbv zeta. unfold CheckNEFilter, remedied. destruct (String.eqb_spec err ""), exts; cbn; split_and!; try done; try set_solver; naive_solver.
Qed.
(** The forwarder takes a port drawbridge would mirror. *)
Definition takes_ports (f : Forwarding.Forwarding) : Prop :=
  Forwarding.Active f = true ∧
  (Forwarding.fw_Provider f = ProviderPodman ∨ ∃ r p, (r ∈ Forwarding.Loopback f ∨ r ∈ Forwarding.Wildcard f) ∧ Forwarding.Lo r <= p <= Forwarding.Hi r ∧ p ≠ ControlPort).
Lemma beyond_iff s : Forall (λ r, Forwarding.Lo r <= Forwarding.Hi r) s →
  coverageBeyondControl s = true ↔ ∃ r p, r ∈ s ∧ Forwarding.Lo r <= p <= Forwarding.Hi r ∧ p ≠ ControlPort.
Proof.
  intros HF. unfold coverageBeyondControl. rewrite existsb_exists. split.
  - intros (r & Hr%list_elem_of_In & H). rewrite Forall_forall in HF. specialize (HF r Hr).
    apply orb_true_iff in H as [H%Z.ltb_lt|H%Z.ltb_lt]; [exists r, (Forwarding.Lo r)|exists r, (Forwarding.Hi r)]; split_and!; done || lia.
  - intros (r & p & Hr & Hp & Hn). exists r. split; [by apply list_elem_of_In|].
    apply orb_true_iff. rewrite !Z.ltb_lt. lia.
Qed.
Lemma coexistence_spec i :
  let f := CheckCoexistence i in remedied f ∧ f_ID f = IDCoexistence ∧ f_Status f ∉ [StatusFail; StatusInfo] ∧
  (Forall (λ r, Forwarding.Lo r <= Forwarding.Hi r) (Forwarding.Loopback (ci_Fwd i) ++ Forwarding.Wildcard (ci_Fwd i)) →
   f_Status f = StatusWarn ↔ ci_Skip i = "" ∧ ci_Err i = "" ∧ ci_Known i = true ∧ takes_ports (ci_Fwd i)).
Proof.
  cbv zeta. unfold CheckCoexistence, checkPodmanCoexistence, remedied, takes_ports.
  destruct (String.eqb_spec (ci_Skip i) ""); cbn [negb]; [|cbn; split_and!; done || set_solver].
  destruct (String.eqb_spec (ci_Err i) ""); cbn [negb]; [|cbn; split_and!; done || set_solver].
  destruct (ci_Known i); cbn [negb]; [|cbn; split_and!; done || set_solver].
  destruct (Forwarding.Active (ci_Fwd i)); cbn [negb].
  2: { destruct (String.eqb _ _); cbn; split_and!; try done; try set_solver; intros _; naive_solver. }
  destruct (String.eqb_spec (Forwarding.fw_Provider (ci_Fwd i)) ProviderPodman); cbn [negb].
  { cbn. split_and!; try done; set_solver. }
  rewrite <- negb_orb. destruct (coverageBeyondControl _ || _) eqn:EC; cbn [negb].
  - cbn. split_and!; try done; [set_solver..|]. intros [H1 H2]%Forall_app. split; [|done]. intros _. split_and!; try done. right.
    apply orb_true_iff in EC as [EC|EC]; apply beyond_iff in EC as (r & p & Hr & ?); try done; exists r, p; eauto.
  - cbn. split_and!; try done; [set_solver..|]. intros [H1 H2]%Forall_app. split; [done|]. intros (_ & _ & _ & _ & [?|(r & p & Hr & Hp)]); [done|].
    apply orb_false_iff in EC as [E1 E2]. destruct Hr as [Hr|Hr].
    + rewrite (proj2 (beyond_iff _ H1)) in E1; [done|eauto].
    + rewrite (proj2 (beyond_iff _ H2)) in E2; [done|eauto].
Qed.
Lemma skip_spec i : let f := CheckSkipVisibility i in remedied f ∧ f_ID f = IDSkipVisible ∧ f_Status f = StatusInfo.
Proof. cbv zeta. unfold remedied. cbn. split_and!; try done. set_solver. Qed.

(** Some daemon, installed or answering, says it is of another build. *)
Definition skewed (i : DaemonInput) : Prop :=
  di_InstalledVersion i ∉ [""; di_CLIVersion i] ∨
  di_CLIVersion i ≠ "" ∧ ∃ s, s ∈ di_Snapshots i ∧ Introspect.st_Version (Introspect.sn_State s) ∉ [""; di_CLIVersion i].
(** A root daemon and a user's answer together. *)
Definition fighting (i : DaemonInput) : Prop :=
  ∃ s t, s ∈ di_Snapshots i ∧ t ∈ di_Snapshots i ∧ isRootSnapshot s = true ∧ isRootSnapshot t = false.
Definition serving (i : DaemonInput) : Prop :=
  let st := di_Status i in
  if Setup.Installed st || Setup.is_Loaded st then Setup.Running st = true else ∃ s, s ∈ di_Snapshots i ∧ Introspect.sn_Usable s = true.
Lemma find_none {A} (f : A → bool) l : List.find f l = None ↔ ¬ ∃ x, x ∈ l ∧ f x = true.
Proof.
  split.
  - intros H (x & Hx%list_elem_of_In & Hf). eapply List.find_none in H; [|exact Hx]. congruence.
  - intros H. destruct (List.find f l) as [x|] eqn:E; [|done]. apply List.find_some in E as [Hx Hf]. exfalso. apply H.
    exists x. split; [by apply list_elem_of_In|done].
Qed.
Lemma find_is {A} (f : A → bool) l x : List.find f l = Some x → x ∈ l ∧ f x = true.
Proof. intros [H1 H2]%List.find_some. split; [by apply list_elem_of_In|done]. Qed.
Lemma not_among s a : negb (String.eqb s "") && negb (String.eqb s a) = true ↔ s ∉ [""; a].
Proof.
  rewrite !elem_of_cons, elem_of_nil. destruct (String.eqb_spec s ""), (String.eqb_spec s a); cbn; split; intros; try done; try tauto.
Qed.
Lemma skewed_case i :
  (negb (String.eqb (di_InstalledVersion i) "") && negb (String.eqb (di_InstalledVersion i) (di_CLIVersion i)) = true ∧ skewed i) ∨
  (negb (String.eqb (di_InstalledVersion i) "") && negb (String.eqb (di_InstalledVersion i) (di_CLIVersion i)) = false ∧
    ((∃ s, snapshotVersionSkew (di_Snapshots i) (di_CLIVersion i) = Some s ∧ skewed i) ∨
     (snapshotVersionSkew (di_Snapshots i) (di_CLIVersion i) = None ∧ ¬ skewed i))).
Proof.
  unfold skewed. pose proof (not_among (di_InstalledVersion i) (di_CLIVersion i)) as HI.
  destruct (_ && _) eqn:E; [left; split; [done|]; left; by apply HI|right]. split; [done|].
  assert (¬ (di_InstalledVersion i ∉ [""; di_CLIVersion i])) as HI' by (rewrite <- HI; congruence). clear HI E.
  assert (∀ s : Introspect.Snap, let v := Introspect.st_Version (Introspect.sn_State s) in
    negb (String.eqb v "" || String.eqb (di_CLIVersion i) "") && negb (String.eqb v (di_CLIVersion i)) = true ↔
    di_CLIVersion i ≠ "" ∧ v ∉ [""; di_CLIVersion i]) as HS.
  { intros s v. rewrite negb_orb, <- not_among. rewrite !andb_true_iff, !negb_true_iff, !String.eqb_neq. tauto. }
  unfold snapshotVersionSkew. destruct (List.find _ _) as [s|] eqn:EF.
  - left. exists s. split; [done|]. right. apply find_is in EF as [Hs Hf]. apply HS in Hf as [H1 H2]. eauto.
  - right. split; [done|]. intros [H|(H1 & s & Hs & H2)]; [done|]. apply find_none in EF. apply EF. exists s. split; [done|].
    by apply HS.
Qed.
Lemma fighting_case i :
  let '(_, _, b) := fightingDaemons (di_Snapshots i) in b = true ↔ fighting i.
Proof.
  unfold fightingDaemons, fighting. destruct (List.find isRootSnapshot _) as [s|] eqn:E1.
  - apply find_is in E1 as [H1 H2]. destruct (List.find (λ s, negb _) _) as [t|] eqn:E2.
    + apply find_is in E2 as [H3 H4%negb_true_iff]. split; [|done]. intros _. by exists s, t.
    + split; [done|]. intros (_ & t & _ & Ht & _ & Hr). apply find_none in E2. exfalso. apply E2. exists t. by rewrite Hr.
  - split; [by destruct (List.find _ _)|]. intros (t & _ & Ht & _ & Hr & _). apply find_none in E1. exfalso. apply E1. by exists t.
Qed.

(** The daemon check. It fails exactly when the installed daemon or one that
    answers says it is of another build; else two daemons of different users are
    a warning; else it is good exactly when something serves: the installed job
    is running, or nothing is installed and a daemon whose snapshot this build
    reads answers. The remedy comes exactly with a warning or a failure. *)
Lemma daemon_spec i :
  let f := CheckDaemon i in
  (f_Status f = StatusFail ↔ skewed i) ∧
  (f_Status f = StatusOK ↔ ¬ skewed i ∧ ¬ fighting i ∧ serving i) ∧
  f_ID f = IDDaemon ∧ f_Status f ∈ [StatusOK; StatusWarn; StatusFail] ∧ remedied f.
Proof.
  cbv zeta. unfold CheckDaemon, remedied. pose proof (fighting_case i) as HF.
  destruct (fightingDaemons (di_Snapshots i)) as [[root user] fight].
  destruct (skewed_case i) as [[-> HS]|[-> [(s & -> & HS)|[-> HS]]]]; [cbn; split_and!; try done; set_solver..|].
  destruct fight. { assert (fighting i) by (by apply HF). cbn. split_and!; try done; set_solver. }
  assert (¬ fighting i) as HF' by (rewrite <- HF; done). clear HF. unfold serving, liveSnapshot.
  destruct (Setup.Installed (di_Status i)) eqn:EI; cbn [negb andb orb].
  - destruct (Setup.is_Loaded (di_Status i)) eqn:EL; cbn [negb andb].
    + destruct (Setup.Running (di_Status i)); cbn; split_and!; try done; set_solver.
    + unfold Setup.Running. rewrite EL. cbn. split_and!; try done; set_solver.
  - destruct (Setup.is_Loaded (di_Status i)) eqn:EL; cbn [negb andb].
    + destruct (Setup.Running (di_Status i)); cbn; split_and!; try done; set_solver.
    + destruct (List.find _ _) as [s|] eqn:E.
      * apply find_is in E as [E1 E2]. cbn. split_and!; try done; [|set_solver..]. split; [|done]. intros _. split_and!; [done|done|by exists s].
      * apply find_none in E. cbn. split_and!; try done; set_solver.
Qed.


(** ** The extension list *)

(** What a row gives is among its own columns, and only a row of at least six
    columns with a state and a bundle gives anything. *)
Lemma extension_of_spec cols e :
  extension_of cols = Some e →
  (6 <= length cols)%nat ∧ ne_BundleID e ≠ "" ∧ Contains (ne_State e) "activated" = true ∧ ne_Name e = TrimSpace (nth 4 cols "").
Proof.
  unfold extension_of. destruct (Nat.ltb_spec (length cols) 6); [done|]. destruct (Contains _ _) eqn:EC; [|done]. cbn [negb].
  destruct (String.eqb_spec (match Cut " " (TrimSpace (nth 3 cols "")) with Some (b, _) => b | None => TrimSpace (nth 3 cols "") end) ""); [done|].
  by intros [= <-].
Qed.
(** Nothing outside the network category is reported. *)
Lemma no_network_none ls :
  (∀ l, l ∈ ls → HasPrefix (TrimSpace l) "---" = true → Contains (TrimSpace l) "network_extension" = false) → scan_extensions false ls = [].
Proof.
  induction ls as [|l ls IH]; [done|]. intros H. cbn [scan_extensions negb orb].
  destruct (HasPrefix (TrimSpace l) "---") eqn:E.
  - rewrite (H l ltac:(left) E). apply IH. intros x Hx. apply H. by right.
  - apply IH. intros x Hx. apply H. by right.
Qed.
Definition ex_row (state : string) : string :=
  Join ["*"; "*"; "W5364U7YZB"; "io.example.ext (1.2 (3)/1)"; "Example Extension"; state] (String tab "").
Definition ex_listing (state : string) : string :=
  Join ["1 extension(s)"; "--- com.apple.system_extension.network_extension"; "enabled"; ex_row state; "--- com.apple.system_extension.driver_extension";
        ex_row "[activated enabled]"] nl.
Example ex_extensions :
  ParseSystemExtensions (ex_listing "[activated enabled]") = [MkExtension "W5364U7YZB" "io.example.ext" "Example Extension" "activated enabled"].
Proof. vm_compute. reflexivity. Qed.
(** "a deactivated extension filters nothing", yet the word is looked for inside
    the state, and it is inside "deactivated" too: such a row is reported, and
    the check warns. *)
Lemma deactivated_reported :
  f_Status (CheckNEFilter (ParseSystemExtensions (ex_listing "[deactivated]")) "") = StatusWarn.
Proof. vm_compute. reflexivity. Qed.
