(* ===== verification/Doctor.v ===== *)
(** * Doctor: a whole run

    [src/internal/doctor/gather.go]: the choice of the target and of the daemon
    that serves it, what each check is fed, and [Classify]. What the processes,
    sockets and files answered is one record; the parallel probes and their
    deadlines are left out. *)

From S2P Require Import Prelude GoStr GoPath VmRef DoctorAuth DoctorGuest DoctorNet DoctorProbe DoctorHost NetIP.
From S2P Require Introspect Forwarding VmRecord Plist Preflight Setup.
Open Scope string_scope.
Open Scope list_scope.
Open Scope Z_scope.

(** ** The report *)

Record Inputs := MkInputs {
  in_CLIVersion : string; in_Providers : ProvidersInput; in_GuestSkip : string; in_Guest : GuestProbe; in_Bind : AgentBind;
  in_Resolution : ResolutionInput; in_Route : RouteInput; in_LocalNetwork : LocalNetworkInput;
  in_NEExtensions : list NEExtension; in_NEErr : string; in_Daemon : DaemonInput; in_Coexistence : CoexistenceInput;
  in_Podman : PodmanInput; in_SkipVisible : SkipInput; in_Auth : AuthInput; in_HalfClose : HalfCloseProbe }.
(** A finding of any check, as its consumers key on it. *)
Record row := MkRow { row_ID : string; row_Status : Status; row_Remedy : bool }.
Definition row_of {T E R} (f : Finding T E R) : row :=
  MkRow (f_ID f) (f_Status f) (match f_Remedy f with Some _ => true | None => false end).
Definition providers_for (i : Inputs) : ProvidersInput :=
  let p := in_Providers i in MkProviders (pi_Providers p) (pi_Instances p) (pi_ListErrors p) (pi_RootScoped p) (in_Podman i).
Definition resolution_for (i : Inputs) : ResolutionInput :=
  let r := in_Resolution i in MkResolutionInput (ri_Res r) (ri_Ran r) (ri_Skip r) (ri_GuestUp r) (ri_GuestUnknown r) (in_Podman i).
Definition route_for (i : Inputs) : RouteInput :=
  let r := in_Route i in
  MkRouteInput (pm_Target (in_Podman i)) (rt_Subnet r) (rt_NetstatOut r) (rt_NetstatErr r) (rt_ARPOut r) (rt_CandidateIP r) (rt_GuestUp r) (rt_ProbeOK r).
Definition local_for (i : Inputs) : LocalNetworkInput :=
  let l := in_LocalNetwork i in
  MkLocalNetwork (ln_UserProbe l) (ln_Root l) (ln_Subnet l) (ln_EUID0 l) (ln_Skip l) (ln_VM l) (pm_Target (in_Podman i)).
Definition Classify (i : Inputs) : list row :=
  [row_of (CheckProviders (providers_for i)); row_of (CheckGuestPrereqs (in_Guest i) (in_GuestSkip i) (in_Podman i));
   row_of (CheckAgent (in_Guest i) (in_Bind i) (in_CLIVersion i) (in_GuestSkip i) (in_Podman i));
   row_of (CheckResolution (resolution_for i)); row_of (CheckVZNATRoute (route_for i)); row_of (CheckLocalNetwork (local_for i));
   row_of (CheckNEFilter (in_NEExtensions i) (in_NEErr i)); row_of (CheckHalfClose (on_path (pm_Target (in_Podman i)) (in_HalfClose i)));
   row_of (CheckDaemon (in_Daemon i)); row_of (CheckCoexistence (in_Coexistence i)); row_of (CheckSkipVisibility (in_SkipVisible i))] ++
  (row_of <$> CheckAuth (in_Auth i)).
Definition exit_code (i : Inputs) : Z := ExitCode (row_Status <$> Classify i).

(** ** The target *)

Definition ref0 : Ref := MkRef "" "" "" "" "".
Definition dq (s : string) : string := String "034" (s +:+ String "034" "").
Section target.
Variable colima_home : string.
(** An instance's own sentence on why nothing can attach to it. *)
Variable attach_note : Instance → string.

Definition rootSkip (ref : Ref) (whose : string) : string :=
  "limactl is user-scoped and refuses euid 0, so the provider and guest halves run only as your own user — this run carries the root half of the discriminator against " +:+
  r_Provider ref +:+ ":" +:+ r_Instance ref +:+ whose +:+ " (-vm overrides)".
Definition parse_or0 (s : string) : Ref := match ParseRef colima_home s with Ok r => r | Err _ => ref0 end.
Definition rootTarget (arg installedVM : string) : Ref * string :=
  let arg := TrimSpace arg in
  if String.eqb arg "" then
    match (if String.eqb (TrimSpace installedVM) "" then Err InvalidName else ParseRef colima_home installedVM) with
    | Ok r => (r, rootSkip r ", the installed daemon's VM")
    | Err _ => let ref := parse_or0 Plist.DefaultVM in (ref, rootSkip ref ", drawbridged's default VM (no installed daemon names one)")
    end
  else let ref := parse_or0 arg in (ref, rootSkip ref "").

(** The target, the reason the guest's checks skip, and the error: a bad ref, or
    a VM that is not there. *)
Inductive target_err := BadRef (e : ref_err) | NoSuchInstance (text : string).
Definition selectTarget (arg : string) (insts : list Instance) : Ref * string * option target_err :=
  let arg := TrimSpace arg in
  if String.eqb arg "" then
    match eligible insts with
    | [] => (ref0, "no running VM to attach to: start one, then re-run (`drawbridge doctor -vm provider:name` names one explicitly)", None)
    | [i] => match refFor colima_home i with Ok ref => (ref, "", None) | Err e => (ref0, "", Some (BadRef e)) end
    | several => (ref0, "several VMs are running (" +:+ Join (qualify <$> several) ", " +:+ ") — pass -vm provider:name", None)
    end
  else match ParseRef colima_home arg with
  | Err e => (ref0, "", Some (BadRef e))
  | Ok ref =>
      match List.find (λ i, String.eqb (i_Provider i) (r_Provider ref) && String.eqb (i_Name i) (r_Instance ref)) insts with
      | Some i =>
          if negb (i_Running i) then (ref, qualify i +:+ " is not running", None)
          else if negb (i_Attachable i) then
            (ref, qualify i +:+ " runs on " +:+ i_VMType i +:+ ": " +:+ firstNonEmpty [attach_note i; "no host-reachable guest IP"], None)
          else (ref, "", None)
      | None =>
          let text := "no " +:+ r_Provider ref +:+ " instance named " +:+ dq (r_Instance ref) in
          (ref, text +:+ " on this Mac", Some (NoSuchInstance text))
      end
  end.
End target.

Definition matchSnapshot (snaps : list Introspect.Snap) (ref : Ref) : option Introspect.Snap :=
  if String.eqb (r_Provider ref) "" then None
  else List.find (λ s,
    let vm := Introspect.st_VM (Introspect.sn_State s) in
    Introspect.sn_Usable s &&
    ((String.eqb (Introspect.vm_Provider vm) (r_Provider ref) && String.eqb (Introspect.vm_Instance vm) (r_Instance ref)) ||
     (String.eqb (Introspect.vm_Provider vm) "" && negb (String.eqb (Introspect.vm_Ref vm) "") && String.eqb (Introspect.vm_Ref vm) (r_Spec ref)))) snaps.
Definition entriesInState (s : option Introspect.Snap) (state : string) : list Introspect.MirrorEntry :=
  match s with
  | Some s =>
      if negb (Introspect.sn_Usable s) then []
      else List.filter (λ e, String.eqb (Introspect.me_State e) state) (Introspect.mi_Entries (Introspect.st_Mirror (Introspect.sn_State s)))
  | None => []
  end.
Definition EntrySkipped : string := "skipped".
Definition EntryBindFailed : string := "bind-failed".

(** ** Gathering *)

(** What was asked for and what answered. A list of instances fails as
    root-scoped or otherwise; [o_Forwarding] is [None] for a provider that
    reports no forwarder. *)
Record observed := MkObserved {
  o_VM : string; o_Subnet : prefix; o_Probe : bool; o_CLIVersion : string; o_EUID0 : bool; o_ColimaHome : string;
  o_Installed : Setup.InstallStatus; o_Pinned : option string; o_Version : result (option string) string;
  o_Listed : list (string * result (bool * string) (list Instance)); o_AttachNote : Instance → string; o_RefErr : ref_err → string;
  o_Snaps : list Introspect.Snap; o_SnapProblems : list string;
  o_Netstat : string * string; o_SysExt : string * string; o_ARP : string → string;
  o_Shell : result string string; o_Unmarshal : string → option Preflight.Report;
  o_Entries : string → option (list Forwarding.gvproxyForward); o_FwdErr : Forwarding.fwd_err → string;
  o_Forwarding : option (result string Forwarding.Forwarding);
  o_Lima : Ref → Resolution; o_PodmanRecord : Ref → Resolution; o_Dial : string → bool;
  o_Machine : result string VmRecord.MachineConfig; o_RecordPath : string; o_Record : result VmRecord.read_err VmRecord.VmRec;
  o_MacDropin : option string; o_MacSecret : Ref → SecretFile; o_RunProbe : string → HalfCloseTarget → HalfCloseProbe }.
Definition fwd0 : Forwarding.Forwarding := Forwarding.MkForwarding "" "" false [] [].
Definition res0 : Resolution := MkResolution "" "" "".
Definition err_text (o : observed) (e : target_err) : string := match e with BadRef e => o_RefErr o e | NoSuchInstance t => t end.

(** A podman machine never reaches the lease database, and root never its record. *)
Definition resolveTarget (o : observed) (ref : Ref) : Resolution :=
  if negb (String.eqb (r_Provider ref) ProviderPodman) then o_Lima o ref
  else if o_EUID0 o then MkResolution (default "" (o_Pinned o)) VmRecord.Source "running as root"
  else o_PodmanRecord o ref.
(** Step 1: every provider listed. *)
Definition list_providers (l : list (string * result (bool * string) (list Instance))) : ProvidersInput :=
  MkProviders (fst <$> l)
    (l ≫= λ p, match p.2 with Ok insts => insts | Err _ => [] end)
    (omap (λ p : string * result (bool * string) (list Instance), match p.2 with Ok _ => None | Err (_, e) => Some (p.1 +:+ ": " +:+ e) end) l)
    (existsb (λ p : string * result (bool * string) (list Instance), match p.2 with Err (rs, _) => rs | Ok _ => false end) l) podman0.
(** Step 2: the target, why the guest's checks skip, and how the VM is named;
    [None] when doctor itself cannot gather. *)
Definition choose_target (o : observed) (pr : ProvidersInput) : option (Ref * string * string) :=
  let name ref := r_Provider ref +:+ ":" +:+ r_Instance ref in
  if o_EUID0 o then
    let '(ref, skip) := rootTarget (o_ColimaHome o) (o_VM o) (Setup.is_VM (o_Installed o)) in Some (ref, skip, name ref)
  else
    let '(ref, skip, err) := selectTarget (o_ColimaHome o) (o_AttachNote o) (o_VM o) (pi_Instances pr) in
    match err with
    | Some e => if bool_decide (pi_Providers pr = []) then None else
        let skip := err_text o e in Some (ref, skip, if String.eqb skip "" then name ref else "")
    | None => Some (ref, skip, if String.eqb skip "" then name ref else "")
    end.
Definition sessions_of (matched : option Introspect.Snap) : Sessions :=
  match matched with
  | Some s =>
      let st := Introspect.sn_State s in let mi := Introspect.st_Mirror st in let sy := Introspect.st_Sync st in
      MkSessions (Introspect.mi_SessionUp mi) (Introspect.sy_SessionUp sy) (Introspect.mi_Since mi) (Introspect.sy_Since sy)
  | None => MkSessions false false 0 0
  end.
Definition skip_input (st : Setup.InstallStatus) (matched : option Introspect.Snap) : SkipInput :=
  match matched with
  | Some s => MkSkip (Setup.is_LogTail st) true (Introspect.sn_Path s) (Introspect.mi_Skip (Introspect.st_Mirror (Introspect.sn_State s)))
      (entriesInState matched EntrySkipped)
  | None => MkSkip (Setup.is_LogTail st) false "" [] []
  end.
Definition auth_gathered (o : observed) (ref : Ref) (skip : string) (g : GuestProbe) (res : Resolution) (matched : option Introspect.Snap) : AuthInput :=
  let a := authInput (if String.eqb (r_Provider ref) "" then None else Some ref) skip (o_MacSecret o) (g_Ran g) (g_Err g) (g_Secret g)
    (Setup.is_LogTail (o_Installed o)) (res_Source res) (sessions_of matched) in
  MkAuthInput (i_VM a) (i_Mac a) (i_Guest a) (i_MacSkip a) (i_GuestSkip a)
    (i_Evidence a ++ match matched with Some s => MatchAuthRing (Introspect.st_RecentRefusals (Introspect.sn_State s)) | None => [] end)
    (i_ResolutionSource a) (i_Sessions a).
(** The forwarder's state: the provider's word, and for a podman machine the
    table the guest script brought back. *)
Definition forwarding_gathered (o : observed) (ref : Ref) (skip : string) (g : GuestProbe) : bool * Forwarding.Forwarding * string :=
  if String.eqb (r_Provider ref) ProviderPodman then
    match podmanForwarding (o_Entries o) (r_Instance ref) g with
    | Ok f => (true, f, "")
    | Err e => (false, fwd0, match e with inl t => t | inr e => o_FwdErr o e end)
    end
  else if String.eqb skip "" then
    match o_Forwarding o with Some (Ok f) => (true, f, "") | Some (Err e) => (false, fwd0, e) | None => (false, fwd0, "") end
  else (false, fwd0, "").

Definition Gather (o : observed) : option Inputs :=
  if negb (String.eqb (TrimSpace (o_VM o)) "") && negb (is_ok (ParseRef (o_ColimaHome o) (o_VM o))) then None
  else
    let pr := list_providers (o_Listed o) in
    '(ref, skip, vm) ← choose_target o pr;
    let haveTarget := String.eqb skip "" || o_EUID0 o in
    let resSkip := if o_EUID0 o then "" else skip in
    let guest :=
      if String.eqb skip "" then
        match o_Shell o with Ok out => ParseGuestProbe (o_Unmarshal o) out | Err e => guest0 false ("the guest shell failed: " +:+ e) end
      else guest0 false "" in
    let res := if haveTarget then resolveTarget o ref else res0 in
    let matched := matchSnapshot (o_Snaps o) ref in
    let bind := BindOf (g_Listeners guest) (g_GuestIPs guest) in
    let podman := podmanInput (o_Entries o) (r_Provider ref) (r_Instance ref) guest (pi_Instances pr) (o_EUID0 o) (o_Machine o)
      (o_Pinned o) (o_RecordPath o) (o_Record o) (o_MacDropin o) in
    let exts := ParseSystemExtensions (o_SysExt o).1 in
    let '(fwdKnown, fwd, fwdErr) := forwarding_gathered o ref skip guest in
    let subnet := if PrefixIsValid (o_Subnet o) then o_Subnet o else DefaultSubnet in
    let candidate := vznatCandidate (g_GuestIPs guest) res subnet in
    let probe := user_probe (o_Dial o) candidate res in
    let auth := auth_gathered o ref skip guest res matched in
    let secret := if s_Present (i_Mac auth) && negb (s_Malformed (i_Mac auth)) then s_Path (i_Mac auth) else "" in
    Some (MkInputs (o_CLIVersion o) pr skip guest bind
      (MkResolutionInput res haveTarget resSkip (String.eqb skip "") (o_EUID0 o) podman0)
      (MkRouteInput false subnet (o_Netstat o).1 (o_Netstat o).2 (if String.eqb candidate "" then "" else o_ARP o candidate) candidate haveTarget
         (match probe with ProbeOK => true | _ => false end))
      (MkLocalNetwork probe (tier2Evidence matched) subnet (o_EUID0 o) resSkip vm false)
      exts (o_SysExt o).2
      (MkDaemon (o_Installed o) (match o_Version o with Ok v => v | Err _ => "" end) (match o_Version o with Err (Some e) => e | _ => "" end)
         (o_CLIVersion o) (o_Snaps o) (o_SnapProblems o))
      (MkCoexistence fwdKnown fwd fwdErr skip (entriesInState matched EntryBindFailed))
      podman (skip_input (o_Installed o) matched) auth
      (halfCloseInput (o_Probe o) (res_Endpoint res) (res_Source res) haveTarget (ne_BundleID <$> exts) (o_RunProbe o secret))).
(** The exit code of a run: 2 when doctor itself could not gather. *)
Definition doctor (o : observed) : Z := match Gather o with Some i => exit_code i | None => 2 end.

(** ** The report's shape *)

Definition catalog : list string :=
  [IDProviders; IDGuestPrereqs; IDAgent; IDResolution; IDVZNATRoute; IDLocalNetwork; IDNEFilter; IDHalfClose; IDDaemon; IDCoexistence; IDSkipVisible].
Definition wf_row (r : row) : Prop := row_Remedy r = true ↔ row_Status r ∈ [StatusWarn; StatusFail].
Lemma row_remedied {T E R} (f : Finding T E R) : remedied f → wf_row (row_of f).
Proof.
  unfold remedied, wf_row, row_of. cbn. intros H. destruct (f_Remedy f); destruct (f_Status f); set_solver.
Qed.
Lemma resolution_spec i :
  let f := CheckResolution i in
  remedied f ∧ f_ID f = IDResolution ∧ f_Status f ≠ StatusInfo ∧
  (f_Status f = StatusFail ↔ ri_Skip i = "" ∧ ri_Ran i = true ∧
     if pm_Target (ri_Podman i) then pm_Disagreements (ri_Podman i) ≠ []
     else res_Source (ri_Res i) = SourceUnresolved ∧ ri_GuestUp i = true).
Proof.
  cbv zeta. unfold CheckResolution, remedied. destruct (String.eqb_spec (ri_Skip i) ""), (ri_Ran i); cbn [negb orb];
    try (cbn; split_and!; done || set_solver).
  destruct (pm_Target (ri_Podman i)).
  - destruct (bool_decide_reflect (pm_Disagreements (ri_Podman i) = [])); cbn [negb]; [|cbn; split_and!; done || set_solver].
    destruct (_ && _); cbn; split_and!; done || set_solver.
  - destruct (String.eqb_spec (res_Source (ri_Res i)) SourceUnresolved).
    + destruct (ri_GuestUp i); [cbn; split_and!; done || set_solver|]. destruct (ri_GuestUnknown i); cbn; split_and!; done || set_solver.
    + destruct (_ || _); cbn; split_and!; done || set_solver.
Qed.
Lemma local_remedied i : let f := CheckLocalNetwork i in remedied f ∧ f_ID f = IDLocalNetwork ∧ f_Status f ≠ StatusInfo.
Proof.
  cbv zeta. unfold CheckLocalNetwork, remedied. destruct (ln_Podman i); [cbn; split_and!; done || set_solver|].
  destruct (_ || _); [cbn; split_and!; done || set_solver|].
  destruct (ln_EUID0 i), (ln_UserProbe i); try (cbn; split_and!; done || set_solver).
  all: destruct (re_Kind (ln_Root i)), (re_Probe (ln_Root i)); cbn; split_and!; done || set_solver.
Qed.
Lemma half_close_remedied p : let f := CheckHalfClose p in remedied f ∧ f_ID f = IDHalfClose ∧ f_Status f ≠ StatusInfo.
Proof.
  cbv zeta. unfold CheckHalfClose, remedied. destruct (p_Ran p); cbn [negb]; [|cbn; split_and!; done || set_solver].
  destruct (String.eqb (p_Err p) ""); cbn [negb]; [|cbn; split_and!; done || set_solver].
  destruct (p_PreBytes p =? 0); [cbn; split_and!; done || set_solver|]. destruct (0 <? p_PostBytes p); [cbn; split_and!; done || set_solver|].
  destruct (p_PostEOF p); [cbn; split_and!; done || set_solver|].
  destruct (p_Loopback p), (p_DirectPath p); cbn [negb andb]; try (cbn; split_and!; done || set_solver).
  all: destruct (p_NEFilter p); cbn; split_and!; done || set_solver.
Qed.
Lemma route_remedied i : let f := CheckVZNATRoute i in remedied f ∧ f_ID f = IDVZNATRoute ∧ f_Status f ≠ StatusInfo.
Proof.
  cbv zeta. unfold CheckVZNATRoute, remedied. destruct (rt_Podman i); [cbn; split_and!; done || set_solver|].
  destruct (String.eqb (rt_NetstatErr i) ""); cbn [negb]; [|cbn; split_and!; done || set_solver].
  destruct (classifyRoute _ _) as [[] l]; try (cbn; split_and!; done || set_solver).
  2: destruct (rt_ProbeOK i); cbn; split_and!; done || set_solver.
  all: destruct (String.eqb (rt_CandidateIP i) ""); [cbn; split_and!; done || set_solver|];
    destruct (ARPPresent _); [cbn; split_and!; done || set_solver|]; destruct (_ || _); cbn; split_and!; done || set_solver.
Qed.
Lemma prereqs_shape g skip pm : let f := CheckGuestPrereqs g skip pm in remedied f ∧ f_ID f = IDGuestPrereqs ∧ f_Status f ≠ StatusInfo.
Proof.
  cbv zeta. unfold remedied. destruct (String.eqb_spec skip "") as [->|Hs].
  2: { unfold CheckGuestPrereqs. rewrite (proj2 (String.eqb_neq skip "")) by done. cbn. split_and!; done || set_solver. }
  destruct (g_Ran g) eqn:ER; [|unfold CheckGuestPrereqs; rewrite ER; cbn; split_and!; done || set_solver].
  destruct (prereqs_status g pm ER) as (_ & _ & H1 & H2 & _). split_and!.
  - rewrite H2. revert H1. destruct (f_Status _); set_solver.
  - clear. unfold CheckGuestPrereqs, check_runtimes. repeat (case_match; [done|]). all: repeat case_match; done.
  - revert H1. destruct (f_Status _); set_solver.
Qed.
Lemma agent_shape g bind cli skip pm : let f := CheckAgent g bind cli skip pm in remedied f ∧ f_ID f = IDAgent ∧ f_Status f ≠ StatusInfo.
Proof.
  cbv zeta. unfold remedied, CheckAgent. destruct (String.eqb skip ""); cbn [negb]; [|cbn; split_and!; done || set_solver].
  destruct (g_Ran g); cbn [negb]; [|cbn; split_and!; done || set_solver].
  destruct (String.eqb (g_AgentActive g) "active"); cbn [negb]; [|cbn; split_and!; done || set_solver].
  destruct (negb (String.eqb (g_AgentVersion g) "") && _); [cbn; split_and!; done || set_solver|].
  destruct (b_Any bind); cbn [negb]; [|cbn; split_and!; done || set_solver].
  destruct (pm_Target pm); [destruct (podmanPublished _) as [[] []]|destruct (Reachable bind)]; cbn; split_and!; done || set_solver.
Qed.
(** The authentication block: its main finding, between one on the files and one
    on who answered. *)
Definition primary_ids : list string := [IDAuth; IDAuthMacMissing; IDAuthGuestMissing; IDAuthMismatch].
Lemma primary_shape i : f_ID (primaryAuthFinding i) ∈ primary_ids ∧ f_Status (primaryAuthFinding i) ≠ StatusInfo.
Proof.
  unfold primaryAuthFinding, primary_ids. destruct (negb _); [cbn; set_solver|]. destruct (_ || _).
  { destruct (negb (s_Present (i_Mac i))); cbn; set_solver. }
  destruct (s_Present (i_Mac i)), (s_Present (i_Guest i)); [destruct (negb _)|..]; cbn; set_solver.
Qed.
Lemma perms_id i f : checkAuthFilePerms i = Some f → f_ID f = IDAuthFilePerms.
Proof. unfold checkAuthFilePerms. destruct (splitStale _ _) as [[] []], (bad_files i); intros; simplify_eq; done. Qed.
Lemma wrong_peer_id i f : checkWrongPeer i = Some f → f_ID f = IDAuthWrongPeer.
Proof. unfold checkWrongPeer. destruct (negb _); [done|]. destruct (splitStale _ _) as [[] []]; intros; simplify_eq; done. Qed.
Lemma auth_shape i :
  ∃ pre post, f_ID <$> CheckAuth i = pre ++ [f_ID (primaryAuthFinding i)] ++ post ∧
    pre ∈ [[]; [IDAuthFilePerms]] ∧ post ∈ [[]; [IDAuthWrongPeer]].
Proof.
  exists (f_ID <$> opt_list (checkAuthFilePerms i)), (f_ID <$> opt_list (checkWrongPeer i)). unfold CheckAuth. rewrite !fmap_app. split; [done|].
  destruct (checkAuthFilePerms i) as [f|] eqn:E1, (checkWrongPeer i) as [g|] eqn:E2; cbn;
    rewrite ?(perms_id _ _ E1), ?(wrong_peer_id _ _ E2); set_solver.
Qed.

Fixpoint distinct (l : list string) : bool :=
  match l with [] => true | x :: l => negb (existsb (String.eqb x) l) && distinct l end.
Lemma distinct_NoDup l : distinct l = true → NoDup l.
Proof.
  induction l as [|x l IH]; [constructor|]. cbn. intros [H1%negb_true_iff H2]%andb_true_iff.
  constructor; [rewrite <- existsb_elem; congruence|auto].
Qed.
(** C37: every report is well formed, whatever was gathered. It holds the eleven
    checks in the catalog's order and then the authentication block, its main
    finding between at most one on the files and one on the peer, so that no ID
    is ever repeated; a remedy comes exactly with a warning or a failure; only
    what is never a verdict is informational; and the exit code is 1 exactly when
    some finding failed, else 0. *)
Theorem report_well_formed i :
  let r := Classify i in
  (∃ pre id post, row_ID <$> r = catalog ++ pre ++ [id] ++ post ∧
     pre ∈ [[]; [IDAuthFilePerms]] ∧ id ∈ primary_ids ∧ post ∈ [[]; [IDAuthWrongPeer]]) ∧
  NoDup (row_ID <$> r) ∧ Forall wf_row r ∧
  Forall (λ x, row_Status x = StatusInfo → row_ID x ∈ [IDSkipVisible; IDAuthFilePerms; IDAuthWrongPeer]) r ∧
  exit_code i ∈ [0; 1] ∧ (exit_code i = 1 ↔ Exists (λ x, row_Status x = StatusFail) r).
Proof.
  cbv zeta.
  destruct (providers_spec (providers_for i)) as (P1 & P2 & P3 & _), (prereqs_shape (in_Guest i) (in_GuestSkip i) (in_Podman i)) as (G1 & G2 & G3),
    (agent_shape (in_Guest i) (in_Bind i) (in_CLIVersion i) (in_GuestSkip i) (in_Podman i)) as (A1 & A2 & A3),
    (resolution_spec (resolution_for i)) as (R1 & R2 & R3 & _), (route_remedied (route_for i)) as (V1 & V2 & V3),
    (local_remedied (local_for i)) as (L1 & L2 & L3), (ne_spec (in_NEExtensions i) (in_NEErr i)) as (N1 & N2 & N3 & _),
    (half_close_remedied (on_path (pm_Target (in_Podman i)) (in_HalfClose i))) as (H1 & H2 & H3),
    (daemon_spec (in_Daemon i)) as (_ & _ & D2 & D3 & D1), (coexistence_spec (in_Coexistence i)) as (C1 & C2 & C3 & _),
    (skip_spec (in_SkipVisible i)) as (S1 & S2 & _).
  destruct (auth_shape (in_Auth i)) as (pre & post & HA & Hpre & Hpost). destruct (primary_shape (in_Auth i)) as [Hid Hinfo].
  assert (row_ID <$> Classify i = catalog ++ pre ++ [f_ID (primaryAuthFinding (in_Auth i))] ++ post) as HI.
  { unfold Classify. rewrite fmap_app.
    assert (∀ l : list finding, row_ID <$> (row_of <$> l) = f_ID <$> l) as -> by (intros l; by rewrite <- list_fmap_compose).
    rewrite HA. cbn [fmap list_fmap row_of row_ID]. by rewrite P3, G2, A2, R2, V2, L2, N2, H2, D2, C2, S2. }
  split_and!.
  - eauto 8.
  - rewrite HI. revert Hpre Hpost Hid. unfold primary_ids. rewrite !elem_of_cons, !elem_of_nil.
    generalize (f_ID (primaryAuthFinding (in_Auth i))). intros id [->|[->|[]]] [->|[->|[]]] [->|[->|[->|[->|[]]]]]; apply distinct_NoDup; vm_compute; reflexivity.
  - unfold Classify. apply Forall_app. split; [repeat (apply Forall_cons; split; [by apply row_remedied|]); done|].
    apply Forall_fmap, Forall_forall. intros f Hf. apply row_remedied. by apply (auth_verdict (in_Auth i)).
  - unfold Classify. apply Forall_app. split.
    + assert (f_Status (CheckNEFilter (in_NEExtensions i) (in_NEErr i)) ≠ StatusInfo) as N4 by (intros E; apply N3; rewrite E; right; left).
      assert (f_Status (CheckCoexistence (in_Coexistence i)) ≠ StatusInfo) as C4 by (intros E; apply C3; rewrite E; right; left).
      assert (f_Status (CheckDaemon (in_Daemon i)) ≠ StatusInfo) as D4.
      { intros E. rewrite E, !elem_of_cons, elem_of_nil in D3. by destruct D3 as [?|[?|[?|[]]]]. }
      repeat (apply Forall_cons; split; [cbn [row_of row_Status row_ID]; intros E; try contradiction|]); [|done].
      rewrite S2. left.
    + apply Forall_fmap, Forall_forall. intros f Hf E. cbn in *. unfold CheckAuth in Hf. rewrite !elem_of_app in Hf.
      destruct Hf as [Hf|[->%list_elem_of_singleton|Hf]]; [|done|].
      * destruct (checkAuthFilePerms _) as [x|] eqn:E1; [|by apply elem_of_nil in Hf]. apply list_elem_of_singleton in Hf as ->.
        rewrite (perms_id _ _ E1). right; left.
      * destruct (checkWrongPeer _) as [x|] eqn:E1; [|by apply elem_of_nil in Hf]. apply list_elem_of_singleton in Hf as ->.
        rewrite (wrong_peer_id _ _ E1). right; right; left.
  - unfold exit_code, ExitCode. destruct (existsb _ _); [right; left|left].
  - unfold exit_code. rewrite ExitCode_iff, list_elem_of_fmap, Exists_exists. naive_solver.
Qed.

(** ** What fails a run *)

Definition answered (i : Inputs) : Prop := in_GuestSkip i = "" ∧ g_Ran (in_Guest i) = true.
Definition guest_lacks (g : GuestProbe) : Prop :=
  ¬ base_ok g ∨ Preflight.cookie_bad (g_Features g) (g_Kernel g) ∨ Preflight.tracer_bad (g_Features g) (g_Kernel g).
Definition agent_lacks (g : GuestProbe) (cli : string) (pm : PodmanInput) : Prop :=
  ¬ (g_AgentActive g = "active" ∧ g_AgentVersion g ∈ [""; cli] ∧ Exists on_control (g_Listeners g)) ∨
  pm_Target pm = true ∧ pe_Known (pm_Publish pm) = true ∧ pe_Local (pm_Publish pm) = "".
(** The endpoint is lost: the record no longer fits the machine, or nothing was
    found while the guest is up. *)
Definition endpoint_lost (i : Inputs) : Prop :=
  ri_Skip (in_Resolution i) = "" ∧ ri_Ran (in_Resolution i) = true ∧
  if pm_Target (in_Podman i) then pm_Disagreements (in_Podman i) ≠ []
  else res_Source (ri_Res (in_Resolution i)) = SourceUnresolved ∧ ri_GuestUp (in_Resolution i) = true.
Definition route_lost (r : RouteInput) : Prop :=
  let cs := rows (rt_NetstatOut r) (if PrefixIsValid (rt_Subnet r) then rt_Subnet r else DefaultSubnet) in
  rt_NetstatErr r = "" ∧ (cs = [] ∨ (routeConnected ∉ cs) ∧ routeStaticOnly ∈ cs ∧ rt_ProbeOK r = false).
Definition dial_blocked (l : LocalNetworkInput) (m : option Introspect.Snap) : Prop :=
  ln_Skip l = "" ∧ ln_UserProbe l = ProbeFail ∧ (ln_EUID0 l = true ∨ ∃ s, m = Some s ∧ root_reaches s).
Definition starved (p : HalfCloseProbe) (direct : bool) : Prop :=
  p_Ran p = true ∧ p_Err p = "" ∧ p_PreBytes p ≠ 0 ∧ p_PostBytes p <= 0 ∧ p_PostEOF p = false ∧
  (p_Loopback p = false ∨ p_DirectPath p = true ∨ direct = true).
Definition auth_broken (a : AuthInput) : Prop :=
  let m := i_Mac a in let g := i_Guest a in
  comparable a ∧ (s_Present m ≠ s_Present g ∨ s_Present m = true ∧ s_Present g = true ∧ s_Digest m ≠ s_Digest g) ∨
  bad_files a ≠ [] ∨ live_evidence a [IDAuthFilePerms] ∨ digestsMatch a = true ∧ live_evidence a [IDAuthMismatch; IDAuthWrongPeer].

Lemma prereqs_fails g skip pm : f_Status (CheckGuestPrereqs g skip pm) = StatusFail ↔ skip = "" ∧ g_Ran g = true ∧ guest_lacks g.
Proof.
  destruct (String.eqb_spec skip "") as [->|Hs].
  2: { unfold CheckGuestPrereqs. rewrite (proj2 (String.eqb_neq skip "")) by done. cbn. naive_solver. }
  destruct (g_Ran g) eqn:ER; [|unfold CheckGuestPrereqs; rewrite ER; cbn; naive_solver].
  rewrite (proj1 (prereqs_status g pm ER)). unfold guest_lacks. tauto.
Qed.
Lemma agent_fails g cli skip pm :
  f_Status (CheckAgent g (BindOf (g_Listeners g) (g_GuestIPs g)) cli skip pm) = StatusFail ↔ skip = "" ∧ g_Ran g = true ∧ agent_lacks g cli pm.
Proof.
  destruct (String.eqb_spec skip "") as [->|Hs].
  2: { unfold CheckAgent. rewrite (proj2 (String.eqb_neq skip "")) by done. cbn. naive_solver. }
  destruct (g_Ran g) eqn:ER; [|unfold CheckAgent; rewrite ER; cbn; naive_solver].
  rewrite (proj1 (proj2 (agent_verdict g cli pm ER))). unfold agent_lacks. tauto.
Qed.
Lemma local_fails l m :
  ln_Root l = tier2Evidence m → f_Status (CheckLocalNetwork l) = StatusFail ↔ ln_Podman l = false ∧ dial_blocked l m.
Proof.
  intros HR. unfold CheckLocalNetwork, dial_blocked. rewrite HR.
  destruct (ln_Podman l); [cbn; naive_solver|]. destruct (String.eqb_spec (ln_Skip l) "") as [HS|HS]; [|cbn; naive_solver].
  cbn [negb orb]. destruct (ln_UserProbe l); [cbn; naive_solver|..|cbn; naive_solver].
  - destruct (ln_EUID0 l); cbn; naive_solver.
  - destruct (ln_EUID0 l); [cbn; naive_solver|]. destruct (tier2Evidence_spec m) as [(-> & -> & H)|[-> H]]; cbn.
    + split; [|done]. intros _. split_and!; try done. by right.
    + split; [done|]. intros (_ & _ & _ & [?|(s & Hs & H')]); [done|]. by destruct (H s Hs).
Qed.
Lemma starved_fails p direct : f_Status (CheckHalfClose (on_path direct p)) = StatusFail ↔ starved p direct.
Proof.
  unfold starved, CheckHalfClose, on_path. cbn [p_Ran p_Err p_PreBytes p_PostBytes p_PostEOF p_Loopback p_DirectPath p_NEFilter].
  destruct (p_Ran p); cbn [negb]; [|cbn; naive_solver].
  destruct (String.eqb_spec (p_Err p) ""); cbn [negb]; [|cbn; naive_solver].
  destruct (Z.eqb_spec (p_PreBytes p) 0); [cbn; naive_solver|].
  destruct (Z.ltb_spec 0 (p_PostBytes p)). { cbn. split; [done|lia]. }
  destruct (p_PostEOF p); [cbn; naive_solver|].
  destruct (p_Loopback p), (p_DirectPath p), direct; cbn [negb andb orb]; try (cbn; naive_solver); destruct (p_NEFilter p); cbn; naive_solver.
Qed.

(** The target of a run, and everything that fails one. *)
Definition target_of (o : observed) : Ref :=
  match choose_target o (list_providers (o_Listed o)) with Some (ref, _, _) => ref | None => ref0 end.
Definition run_fails (i : Inputs) (matched : option Introspect.Snap) : Prop :=
  pi_Providers (in_Providers i) = [] ∨
  answered i ∧ (guest_lacks (in_Guest i) ∨ agent_lacks (in_Guest i) (in_CLIVersion i) (in_Podman i)) ∨
  endpoint_lost i ∨
  pm_Target (in_Podman i) = false ∧ (route_lost (in_Route i) ∨ dial_blocked (in_LocalNetwork i) matched) ∨
  starved (in_HalfClose i) (pm_Target (in_Podman i)) ∨
  skewed (in_Daemon i) ∨ auth_broken (in_Auth i).
(** What every gathered input has. *)
Lemma Gather_shape o i :
  Gather o = Some i →
  in_Bind i = BindOf (g_Listeners (in_Guest i)) (g_GuestIPs (in_Guest i)) ∧
  ln_Root (in_LocalNetwork i) = tier2Evidence (matchSnapshot (o_Snaps o) (target_of o)).
Proof.
  unfold Gather, target_of. destruct (_ && _); [done|]. destruct (choose_target _ _) as [[[ref skip] vm]|]; [|done]. cbn [mbind option_bind].
  destruct (forwarding_gathered _ _ _ _) as [[a b] c]. by intros [= <-].
Qed.

(** C27: the exit code of a run. [drawbridge doctor] exits 1 exactly when the Mac
    has no provider, the guest answered and lacks something or its agent is not
    up and reachable, the endpoint is lost, the route to the subnet is lost, a
    dial fails that a running root daemon's snapshot or this very root run shows
    is not the guest's doing, the half-close probe starved, a daemon is of
    another build, or the two secrets disagree, are unusable or were refused;
    else 0. The route and the dial never count for a podman machine, a loopback
    starvation only where loopback is the path, and a daemon of another VM is
    never taken for the target's. *)
Theorem doctor_exit o i :
  Gather o = Some i →
  (doctor o = 1 ↔ run_fails i (matchSnapshot (o_Snaps o) (target_of o))) ∧ doctor o ∈ [0; 1].
Proof.
  intros HG. destruct (Gather_shape o i HG) as (HB & HR). unfold run_fails.
  split; [|unfold doctor; rewrite HG; unfold exit_code, ExitCode; destruct (existsb _ _); [right; left|left]].
  unfold doctor. rewrite HG. unfold exit_code, Classify. rewrite ExitCode_iff, fmap_app, elem_of_app.
  assert (StatusFail ∈ row_Status <$> (row_of <$> CheckAuth (in_Auth i)) ↔ auth_broken (in_Auth i)) as ->.
  { rewrite <- (proj1 (proj2 (auth_verdict (in_Auth i)))), ExitCode_iff.
    assert (row_Status <$> (row_of <$> CheckAuth (in_Auth i)) = f_Status <$> CheckAuth (in_Auth i)) as -> by by rewrite <- list_fmap_compose. done. }
  cbn [fmap list_fmap row_of row_Status]. rewrite !elem_of_cons, elem_of_nil, !(symmetry_iff (=) StatusFail).
  destruct (providers_spec (providers_for i)) as (_ & _ & _ & -> & _). rewrite prereqs_fails, HB, agent_fails.
  destruct (resolution_spec (resolution_for i)) as (_ & _ & _ & ->). rewrite (proj1 (route_verdict (route_for i))).
  rewrite (local_fails (local_for i) (matchSnapshot (o_Snaps o) (target_of o))) by done.
  destruct (ne_spec (in_NEExtensions i) (in_NEErr i)) as (_ & _ & N & _), (coexistence_spec (in_Coexistence i)) as (_ & _ & C & _).
  assert (¬ f_Status (CheckNEFilter (in_NEExtensions i) (in_NEErr i)) = StatusFail) by (intros E; apply N; rewrite E; left).
  assert (¬ f_Status (CheckCoexistence (in_Coexistence i)) = StatusFail) by (intros E; apply C; rewrite E; left).
  rewrite starved_fails, (proj1 (daemon_spec (in_Daemon i))). destruct (skip_spec (in_SkipVisible i)) as (_ & _ & ->).
  unfold answered, endpoint_lost, route_lost. cbn. unfold dial_blocked. cbn. intuition congruence.
Qed.
Definition ex_route : string := Join ["Destination        Gateway            Flags               Netif Expire"; "192.168.64         link#22            UC                   bridge100      !"] nl.
Definition ex_lima : Instance := MkInstance "lima" "default" "vz" "lima-default" true "52:55:55:aa:bb:cc" true.
Definition ex_answers (k : string) : string :=
  if String.eqb k "secret-digest" then "ab12" else if String.eqb k "secret-size" then "65"
  else if String.eqb k "secret-mode" then "600" else if String.eqb k "secret-owner" then "root:root" else ex_texts k.
Definition ex_yes (lacking k : string) : bool := negb (String.eqb k lacking).
Definition ex_observed (lacking cli : string) : observed :=
  MkObserved "" PrefixZero false cli false "" (Setup.MkStatus true true "lima:default" true "running" 71 true [] "" "") None (Ok "v2.1.0")
    [("lima", Ok [ex_lima])] (λ _, "") (λ _, "bad -vm") [] [] (ex_route, "") ("", "") (λ _, "? (192.168.64.3) at 52:55:55:aa:bb:cc on bridge100")
    (Ok (Join (guest_output ex_answers (ex_yes lacking) None ex_rows [] []) nl)) (λ _, None) (λ _, None) (λ _, "") (Some (Ok fwd0))
    (λ _, MkResolution "tcp://192.168.64.3:4777" SourceVZNATDirect "") (λ _, res0) (λ _, true) (Err "") "" (Err VmRecord.ErrAbsent) None
    (λ _, MkSecretFile "/m" true "600" "u" 65 "ab12" false "") (λ _ _, not_asked "").
Lemma doctor_exit_witness :
  doctor (ex_observed "" "v2.1.0") = 0 ∧ doctor (ex_observed "btf" "v2.1.0") = 1 ∧ doctor (ex_observed "" "v2.2.0") = 1 ∧
  match Gather (ex_observed "btf" "v2.1.0") with Some i => run_fails i None | None => False end.
Proof.
  split; [vm_compute; reflexivity|]. split; [vm_compute; reflexivity|]. split; [vm_compute; reflexivity|].
  destruct (Gather (ex_observed "btf" "v2.1.0")) as [i|] eqn:E; [|vm_compute in E; discriminate].
  refine (proj1 (proj1 (doctor_exit (ex_observed "btf" "v2.1.0") i E)) _). vm_compute; reflexivity.
Defined.

(** What another VM's daemon says changes nothing but the daemon check: of two
    sets of snapshots in which the same one serves the target, every other
    finding is the same. *)
Definition with_snaps (snaps : list Introspect.Snap) (o : observed) : observed :=
  let '(MkObserved vm sub pr cli eu ch ins pin ver li an re _ sp ns se arp sh um en fe fo lima pod di ma rp rc md ms rn) := o in
  MkObserved vm sub pr cli eu ch ins pin ver li an re snaps sp ns se arp sh um en fe fo lima pod di ma rp rc md ms rn.
Theorem foreign_daemons o snaps i :
  Gather o = Some i → matchSnapshot snaps (target_of o) = matchSnapshot (o_Snaps o) (target_of o) →
  ∃ i', Gather (with_snaps snaps o) = Some i' ∧
    ∀ n, n ≠ 8%nat → Classify i' !! n = Classify i !! n.
Proof.
  destruct o. unfold Gather, target_of, forwarding_gathered, auth_gathered, resolveTarget.
  cbn [with_snaps o_VM o_Subnet o_Probe o_CLIVersion o_EUID0 o_ColimaHome o_Installed o_Pinned o_Version o_Listed o_AttachNote o_RefErr
    o_Snaps o_SnapProblems o_Netstat o_SysExt o_ARP o_Shell o_Unmarshal o_Entries o_FwdErr o_Forwarding o_Lima o_PodmanRecord o_Dial
    o_Machine o_RecordPath o_Record o_MacDropin o_MacSecret o_RunProbe].
  destruct (_ && _); [done|].
  intros HG HM. revert HG HM.
  change (choose_target (MkObserved _ _ _ _ _ _ _ _ _ _ _ _ snaps _ _ _ _ _ _ _ _ _ _ _ _ _ _ _ _ _ _) ?l) with
    (choose_target (MkObserved o_VM0 o_Subnet0 o_Probe0 o_CLIVersion0 o_EUID1 o_ColimaHome0 o_Installed0 o_Pinned0 o_Version0 o_Listed0 o_AttachNote0
      o_RefErr0 o_Snaps0 o_SnapProblems0 o_Netstat0 o_SysExt0 o_ARP0 o_Shell0 o_Unmarshal0 o_Entries0 o_FwdErr0 o_Forwarding0 o_Lima0 o_PodmanRecord0
      o_Dial0 o_Machine0 o_RecordPath0 o_Record0 o_MacDropin0 o_MacSecret0 o_RunProbe0) l).
  destruct (choose_target _ _) as [[[ref skip] vm]|]; [|done]. cbn [mbind option_bind].
  destruct (if String.eqb (r_Provider ref) ProviderPodman then _ else _) as [[known fwd] err].
  intros [= <-] HM. eexists. split; [reflexivity|]. rewrite HM. intros n Hn.
  do 8 (destruct n as [|n]; [reflexivity|]). destruct n as [|n]; [done|]. reflexivity.
Qed.

(** Without a -vm, the root run's target is the installed daemon's own. *)
Lemma root_target ch vm r : ParseRef ch vm = Ok r → TrimSpace vm ≠ "" → (rootTarget ch "" vm).1 = r.
Proof. intros H Hn. unfold rootTarget. change (String.eqb (TrimSpace "") "") with true. rewrite (proj2 (String.eqb_neq _ "")) by done. by rewrite H. Qed.
