(* ===== verification/TuiLog.v ===== *)
(** * TuiLog: the terminal UI's scroll region and its log of refusals

    [src/internal/tui/scroll.go] and the log of [refusals.go]: the offset and
    window every scrolled region shares, the client-side log a daemon's ring is
    folded into at each fetch, its unseen counter, and its groups by cause.
    Rendering is left out. *)

From S2P Require Import Prelude GoStr Introspect.
Open Scope string_scope.
Open Scope list_scope.
Open Scope Z_scope.

(** ** Scrolling *)

Record scrollState := MkScroll { sc_offset : Z; sc_follow : bool }.
Definition maxOffset (total visible : Z) : Z := if (visible <? 1) || (total <=? visible) then 0 else total - visible.
Definition clamp (total visible : Z) (s : scrollState) : scrollState :=
  let max := maxOffset total visible in
  if sc_follow s then MkScroll max true
  else
    let o := sc_offset s in
    let o := if max <? o then max else o in
    MkScroll (if o <? 0 then 0 else o) false.
Definition scroll_up (n total visible : Z) (s : scrollState) : scrollState :=
  let o := sc_offset (clamp total visible s) - n in MkScroll (if o <? 0 then 0 else o) false.
Definition scroll_down (n total visible : Z) (s : scrollState) : scrollState :=
  let s := clamp total visible s in
  let o := sc_offset s + n in let max := maxOffset total visible in
  MkScroll (if max <=? o then max else o) (sc_follow s).
Definition scroll_top (s : scrollState) : scrollState := MkScroll 0 false.
Definition scroll_bottom (total visible : Z) (s : scrollState) : scrollState := MkScroll (maxOffset total visible) true.
Definition reveal (first last total visible : Z) (s : scrollState) : scrollState :=
  let o := sc_offset (clamp total visible s) in
  let o := if o + visible <=? last then last - visible + 1 else o in
  let o := if first <? o then first else o in
  clamp total visible (MkScroll (if o <? 0 then 0 else o) false).
Definition window (total visible : Z) (s : scrollState) : Z * Z :=
  if (visible <? 1) || (total <? 1) then (0, 0)
  else
    let lo := sc_offset (clamp total visible s) in
    let hi := lo + visible in (lo, if total <? hi then total else hi).

Lemma maxOffset_eq total visible : maxOffset total visible = if visible <? 1 then 0 else Z.max 0 (total - visible).
Proof. unfold maxOffset. destruct (Z.ltb_spec visible 1), (Z.leb_spec total visible); cbn; lia. Qed.
Lemma maxOffset_nonneg total visible : 0 <= maxOffset total visible.
Proof. rewrite maxOffset_eq. destruct (visible <? 1); lia. Qed.
Lemma clamp_eq total visible s :
  clamp total visible s = MkScroll (if sc_follow s then maxOffset total visible else Z.max 0 (Z.min (sc_offset s) (maxOffset total visible))) (sc_follow s).
Proof.
  unfold clamp. pose proof (maxOffset_nonneg total visible). set (M := maxOffset _ _) in *. clearbody M.
  destruct (sc_follow s); [done|]. f_equal. destruct (Z.ltb_spec M (sc_offset s)); [destruct (Z.ltb_spec M 0)|destruct (Z.ltb_spec (sc_offset s) 0)]; lia.
Qed.
Lemma window_eq total visible s :
  1 <= visible → 1 <= total →
  window total visible s = (sc_offset (clamp total visible s), Z.min total (sc_offset (clamp total visible s) + visible)).
Proof.
  intros Hv Ht. unfold window. rewrite (proj2 (Z.ltb_ge visible 1)), (proj2 (Z.ltb_ge total 1)) by lia. cbn [orb].
  f_equal. destruct (Z.ltb_spec total (sc_offset (clamp total visible s) + visible)); lia.
Qed.
(** What is drawn is always inside the content, fills the region when the
    content does, and ends at the last line when following. *)
Lemma window_fills total visible s :
  0 <= total → let '(lo, hi) := window total visible s in
  0 <= lo <= hi ∧ hi <= total ∧ hi - lo = (if visible <? 1 then 0 else Z.min visible total) ∧ (sc_follow s = true → 1 <= visible → hi = total).
Proof.
  intros Ht. destruct (Z.ltb_spec visible 1) as [Hv|Hv].
  { unfold window. rewrite (proj2 (Z.ltb_lt visible 1)) by lia. cbn. split_and!; lia. }
  destruct (Z.ltb_spec total 1) as [Ht'|Ht'].
  { unfold window. rewrite (proj2 (Z.ltb_lt total 1)), orb_true_r by lia. split_and!; lia. }
  rewrite window_eq, clamp_eq, maxOffset_eq, (proj2 (Z.ltb_ge visible 1)) by lia. cbn. destruct (sc_follow s); split_and!; intros; try done; lia.
Qed.
Lemma reveal_eq first last total visible s :
  reveal first last total visible s =
    let o := sc_offset (clamp total visible s) in
    MkScroll (Z.max 0 (Z.min (Z.max 0 (Z.min first (Z.max o (last - visible + 1)))) (maxOffset total visible))) false.
Proof.
  unfold reveal. cbn zeta. set (o := sc_offset (clamp total visible s)). rewrite clamp_eq. cbn. f_equal. f_equal. f_equal.
  assert ((if o + visible <=? last then last - visible + 1 else o) = Z.max o (last - visible + 1)) as -> by (destruct (Z.leb_spec (o + visible) last); lia).
  set (a := Z.max o _). assert ((if first <? a then first else a) = Z.min first a) as -> by (destruct (Z.ltb_spec first a); lia).
  destruct (Z.ltb_spec (Z.min first a) 0); lia.
Qed.
(** The block is in the window after [reveal], wholly when it fits; one that
    already is does not move. *)
Lemma reveal_shows first last total visible s :
  0 <= first <= last → last < total → 1 <= visible →
  let '(lo, hi) := window total visible (reveal first last total visible s) in
  lo <= first < hi ∧ (last - first < visible → last < hi) ∧
  (let '(lo', hi') := window total visible s in lo' <= first → last < hi' → (lo, hi) = (lo', hi')).
Proof.
  intros H1 H2 Hv. rewrite !window_eq, reveal_eq by lia. cbn zeta. set (o := sc_offset (clamp total visible s)) in *.
  assert (0 <= o <= maxOffset total visible) as Ho.
  { unfold o. rewrite clamp_eq. cbn. pose proof (maxOffset_nonneg total visible). destruct (sc_follow s); lia. }
  clearbody o. rewrite clamp_eq. cbn. rewrite maxOffset_eq, (proj2 (Z.ltb_ge visible 1)) in * by lia.
  split_and!; try lia. intros. f_equal; lia.
Qed.
(** A line down and a line up undo each other inside the content. *)
Lemma down_up total visible s :
  let s' := clamp total visible s in
  sc_offset s' < maxOffset total visible → scroll_up 1 total visible (scroll_down 1 total visible s') = MkScroll (sc_offset s') false.
Proof.
  cbv zeta. unfold scroll_up, scroll_down. rewrite !clamp_eq. cbn. pose proof (maxOffset_nonneg total visible). set (M := maxOffset _ _) in *. clearbody M.
  destruct (sc_follow s); [lia|]. intros Hlt. f_equal.
  destruct (Z.leb_spec M (Z.max 0 (Z.min (Z.max 0 (Z.min (sc_offset s) M)) M) + 1)); cbn; destruct (Z.ltb_spec (Z.max 0 (Z.min M M) - 1) 0); try lia.
  all: match goal with |- context [if ?a <? 0 then _ else _] => destruct (Z.ltb_spec a 0) end; lia.
Qed.

(** ** The log *)

Definition refusalCap : nat := 512.
Definition refusalKey (r : Refusal) : string :=
  (if rf_At r <? 0 then "-" +:+ Itoa (- rf_At r) else Itoa (rf_At r)) +:+ String "000" (rf_ID r +:+ String "000" (rf_Line r)).
(** The ring's entries the log does not have yet. *)
Fixpoint add_new (seen : list string) (ring : list Refusal) : list Refusal :=
  match ring with
  | [] => []
  | r :: ring => if existsb (String.eqb (refusalKey r)) seen then add_new seen ring else r :: add_new (refusalKey r :: seen) ring
  end.
Definition lastn {A} (n : nat) (l : list A) : list A := drop (length l - n) l.
Definition accumulate (log ring : list Refusal) : list Refusal :=
  match add_new (refusalKey <$> log) ring with
  | [] => log
  | add => let out := log ++ add in if (refusalCap <? length out)%nat then lastn refusalCap out else out
  end.

(** How many have landed in a log since its pane showed the one marked. *)
Fixpoint after_mark (mark : string) (log : list Refusal) : option nat :=
  match log with
  | [] => None
  | r :: log => match after_mark mark log with
                | Some n => Some n
                | None => if String.eqb (refusalKey r) mark then Some (length log) else None
                end
  end.
Definition unseen (log : list Refusal) (mark : option string) : nat :=
  match mark with
  | None => length log
  | Some k => default (length log) (after_mark k log)
  end.

(** ** Groups by cause *)

Record refusalGroup := MkGroup { gr_id : string; gr_count : nat; gr_first : Z; gr_last : Z; gr_line : string }.
Fixpoint add_to_group (r : Refusal) (gs : list refusalGroup) : list refusalGroup :=
  match gs with
  | [] => [MkGroup (rf_ID r) 1 (rf_At r) (rf_At r) (rf_Line r)]
  | g :: gs =>
      if String.eqb (gr_id g) (rf_ID r) then MkGroup (gr_id g) (S (gr_count g)) (gr_first g) (rf_At r) (rf_Line r) :: gs
      else g :: add_to_group r gs
  end.
(** [sort.SliceStable]: an element goes before the first that is later. *)
Fixpoint insert_by {A} (lt : A → A → bool) (x : A) (l : list A) : list A :=
  match l with [] => [x] | y :: l => if lt x y then x :: y :: l else y :: insert_by lt x l end.
Definition sort_stable {A} (lt : A → A → bool) (l : list A) : list A := foldl (λ acc x, insert_by lt x acc) [] l.
Definition groupRefusals (log : list Refusal) : list refusalGroup :=
  sort_stable (λ a b, gr_last a <? gr_last b) (foldl (λ gs r, add_to_group r gs) [] log).

(** ** The log is what the rings showed *)

(** A daemon's whole history of refusals, read at growing lengths: each fetch
    sees the ring, the last [RingSize] of them. *)
Definition ring_at (h : list Refusal) (n : nat) : list Refusal := Snapshot (record_all (take n h)).
Fixpoint observe (log : list Refusal) (h : list Refusal) (ns : list nat) : list Refusal :=
  match ns with [] => log | n :: ns => observe (accumulate log (ring_at h n)) h ns end.
(** What each fetch can show for the first time: from where the last one ended,
    or from where the ring has not yet overwritten. *)
Fixpoint segments (from : nat) (h : list Refusal) (ns : list nat) : list Refusal :=
  match ns with [] => [] | n :: ns => drop (Nat.max from (n - RingSize)) (take n h) ++ segments n h ns end.
Fixpoint ascending (from : nat) (ns : list nat) : Prop := match ns with [] => True | n :: ns => (from <= n)%nat ∧ ascending n ns end.

Lemma ring_at_eq h n : ring_at h n = lastn RingSize (take n h).
Proof. unfold ring_at, lastn. by destruct (ring_exact (take n h)). Qed.
Lemma lastn_suffix {A} n (l : list A) : lastn n l `suffix_of` l.
Proof. exists (take (length l - n) l). unfold lastn. by rewrite take_drop. Qed.
Lemma lastn_app {A} n (l k : list A) : lastn n (lastn n l ++ k) = lastn n (l ++ k).
Proof.
  unfold lastn. rewrite !length_app, length_drop. rewrite !drop_app, !drop_drop, length_drop. f_equal; f_equal; lia.
Qed.
Lemma suffix_lastn {A} n (a l : list A) : a `suffix_of` l → (length a <= n)%nat → a `suffix_of` lastn n l.
Proof.
  intros [x ->] Hn. unfold lastn. rewrite length_app, drop_app_le by lia. by eexists.
Qed.
Lemma add_new_split seen a b :
  (∀ r, r ∈ a → refusalKey r ∈ seen) → (∀ r, r ∈ b → refusalKey r ∉ seen) → NoDup (refusalKey <$> b) → add_new seen (a ++ b) = b.
Proof.
  intros Ha. induction a as [|r a IH]; cbn [app add_new].
  - clear Ha. revert seen. induction b as [|r b IH]; intros seen Hb Hd; [done|]. cbn [add_new]. cbn in Hd. apply NoDup_cons in Hd as [Hr Hd].
    destruct (existsb _ seen) eqn:E.
    + apply existsb_exists in E as (k & Hk%list_elem_of_In & Hkr%String.eqb_eq). subst k. by destruct (Hb r ltac:(left)).
    + f_equal. apply IH; [|done]. intros x Hx [He|Hs]%elem_of_cons; [|by apply (Hb x); [right|]].
      apply Hr. rewrite <- He. apply list_elem_of_fmap. by exists x.
  - intros Hb Hd. assert (existsb (String.eqb (refusalKey r)) seen = true) as ->.
    { apply existsb_exists. exists (refusalKey r). rewrite String.eqb_refl. split; [|done]. apply list_elem_of_In, Ha. by left. }
    apply IH; [|done..]. intros x Hx. apply Ha. by right.
Qed.
Lemma accumulate_new log ring a b :
  ring = a ++ b → (∀ r, r ∈ a → r ∈ log) → (∀ r s, r ∈ b → s ∈ log → refusalKey r ≠ refusalKey s) → NoDup (refusalKey <$> b) →
  (length log <= refusalCap)%nat → accumulate log ring = lastn refusalCap (log ++ b).
Proof.
  intros -> Ha Hb Hd Hl. unfold accumulate. rewrite add_new_split; [|..|done].
  - destruct b as [|r b].
    + rewrite app_nil_r. unfold lastn. by replace (length log - refusalCap)%nat with 0%nat by lia.
    + destruct (Nat.ltb_spec refusalCap (length (log ++ r :: b))); [done|]. unfold lastn. by replace (_ - refusalCap)%nat with 0%nat by lia.
  - intros r Hr. apply list_elem_of_fmap. exists r. auto.
  - intros r Hr (s & He & Hs)%list_elem_of_fmap. by apply (Hb r s).
Qed.
Lemma NoDup_apart {A B} (f : A → B) l k r s : NoDup (f <$> (l ++ k)) → r ∈ k → s ∈ l → f r ≠ f s.
Proof.
  rewrite fmap_app, NoDup_app. intros (_ & H & _) Hr Hs He. apply (H (f s)); apply list_elem_of_fmap; eauto.
Qed.
Lemma drop_take_apart {A} (l : list A) p n : (p <= n)%nat → take n l = take p l ++ drop p (take n l).
Proof. intros Hp. rewrite <- (take_drop p (take n l)) at 1. by rewrite take_take, Nat.min_l. Qed.
(** The ring at [n]: what the one at [p] had, and what is new. *)
Lemma ring_split h p n :
  (p <= n <= length h)%nat →
  ∃ a, ring_at h n = a ++ drop (Nat.max p (n - RingSize)) (take n h) ∧ a `suffix_of` ring_at h p ∧ (length a <= RingSize)%nat.
Proof.
  intros Hn. rewrite !ring_at_eq. unfold lastn. rewrite !length_take, !Nat.min_l by lia. destruct (Nat.le_gt_cases p (n - RingSize)) as [Hp|Hp].
  - exists []. rewrite Nat.max_r by done. split_and!; [done|apply suffix_nil|cbn; lia].
  - rewrite Nat.max_l by lia. exists (drop (n - RingSize) (take p h)). split_and!.
    + rewrite (drop_take_apart h p n) at 1 by lia. rewrite drop_app_le; [done|]. rewrite length_take. lia.
    + replace (n - RingSize)%nat with ((p - RingSize) + (n - RingSize - (p - RingSize)))%nat by lia. rewrite <- drop_drop. apply suffix_drop.
    + rewrite length_drop, length_take. lia.
Qed.
(** The step: seen up to [p], [S] shown so far. *)
Lemma observe_step h p n S :
  NoDup (refusalKey <$> h) → (p <= n <= length h)%nat → S `sublist_of` take p h → ring_at h p `suffix_of` S →
  let new := drop (Nat.max p (n - RingSize)) (take n h) in
  accumulate (lastn refusalCap S) (ring_at h n) = lastn refusalCap (S ++ new) ∧
  S ++ new `sublist_of` take n h ∧ ring_at h n `suffix_of` S ++ new.
Proof.
  intros Hd Hp HS Hr new. pose proof (drop_take_apart h p n ltac:(lia)) as Hsplit.
  assert (new `sublist_of` drop p (take n h)) as Hnew.
  { unfold new. replace (Nat.max p (n - RingSize))%nat with (p + (Nat.max p (n - RingSize) - p))%nat by lia. rewrite <- drop_drop. apply sublist_drop. }
  destruct (ring_split h p n Hp) as (a & Ha & Has & Hal). fold new in Ha.
  assert (a `suffix_of` S) as HaS by (by trans (ring_at h p)).
  assert (NoDup (refusalKey <$> take p h ++ drop p (take n h))) as Hd'.
  { rewrite <- Hsplit. eapply sublist_NoDup; [exact Hd|]. apply fmap_sublist, sublist_take. }
  split_and!; [|rewrite Hsplit; by apply sublist_app|].
  - rewrite (accumulate_new _ _ a new Ha); [by apply lastn_app|..].
    + intros r Hra. assert (a `suffix_of` lastn refusalCap S) as [x ->] by (apply suffix_lastn; [done|]; unfold refusalCap, RingSize in *; lia).
      apply elem_of_app. by right.
    + intros r s Hrn Hs. eapply NoDup_apart; [exact Hd'|by eapply elem_of_sublist|]. eapply elem_of_sublist; [|exact HS].
      destruct (lastn_suffix refusalCap S) as [x ->]. apply elem_of_app. by right.
    + rewrite fmap_app in Hd'. apply NoDup_app in Hd' as (_ & _ & Hd'). eapply sublist_NoDup; [exact Hd'|]. by apply fmap_sublist.
    + unfold lastn. rewrite length_drop. lia.
  - rewrite Ha. destruct HaS as [x ->]. exists x. by rewrite app_assoc.
Qed.
Lemma observe_from h ns : ∀ p S,
  NoDup (refusalKey <$> h) → ascending p ns → (∀ n, n ∈ ns → (n <= length h)%nat) → S `sublist_of` take p h → ring_at h p `suffix_of` S →
  observe (lastn refusalCap S) h ns = lastn refusalCap (S ++ segments p h ns).
Proof.
  induction ns as [|n ns IH]; intros p S Hd HA HB HS HR; cbn [observe segments]; [by rewrite app_nil_r|].
  destruct HA as [Hpn HA]. destruct (observe_step h p n S Hd ltac:(split; [done|apply HB; left]) HS HR) as (-> & H1 & H2).
  rewrite (IH n) by (try done; intros m Hm; apply HB; by right). by rewrite <- app_assoc.
Qed.
(** The log loses only what the ring had already overwritten. After any
    number of fetches it is, oldest dropped past its cap, every refusal some
    ring showed, once and in the daemon's order; and when no more than a ring's
    worth happen between two fetches, nothing after the first is missing. *)
Lemma observe_all h ns :
  NoDup (refusalKey <$> h) → ascending 0 ns → (∀ n, n ∈ ns → (n <= length h)%nat) →
  observe [] h ns = lastn refusalCap (segments 0 h ns) ∧
  (∀ m n1 ms, ns = n1 :: ms → last ns = Some m →
     (∀ i a b, ns !! i = Some a → ns !! S i = Some b → (b - a <= RingSize)%nat) → segments 0 h ns = drop (n1 - RingSize) (take m h)).
Proof.
  intros Hd HA HB. split.
  - change ([] : list Refusal) with (lastn refusalCap (@nil Refusal)) at 1. apply (observe_from h ns 0 []); done.
  - intros m n1 ms -> Hlast Hgap. cbn [segments]. rewrite Nat.max_r by lia. destruct HA as [_ HA].
    assert (∀ k, (k <= n1)%nat → drop k (take n1 h) ++ segments n1 h ms = drop k (take m h)) as HS; [|apply HS; lia].
    revert n1 Hlast HA HB Hgap. induction ms as [|n ms IH]; intros n1 Hlast HA HB Hgap k Hk.
    + injection Hlast as ->. by rewrite app_nil_r.
    + cbn [segments]. destruct HA as [Hn HA]. pose proof (Hgap 0%nat n1 n eq_refl eq_refl). rewrite Nat.max_l by lia. rewrite app_assoc.
      assert (drop k (take n1 h) ++ drop n1 (take n h) = drop k (take n h)) as ->.
      { rewrite (drop_take_apart h n1 n) at 2 by done. pose proof (HB n1 ltac:(left)). by rewrite drop_app_le by (rewrite length_take; lia). }
      apply IH; [done|done|intros x Hx; apply HB; by right|intros i a b H1 H2; apply (Hgap (S i) a b); done|lia].
Qed.

(** The footer's counter: with the last entry of [log] marked, what has landed
    since, capped like the log. *)
Lemma after_mark_notin k log : k ∉ refusalKey <$> log → after_mark k log = None.
Proof.
  induction log as [|r log IH]; cbn; [done|]. intros [Hr Hl]%not_elem_of_cons. rewrite IH by done. by rewrite (proj2 (String.eqb_neq _ _)).
Qed.
Lemma after_mark_here k a r b : refusalKey r = k → k ∉ refusalKey <$> b → after_mark k (a ++ r :: b) = Some (length b).
Proof.
  intros Hk Hb. induction a as [|x a IH]; cbn; [|by rewrite IH]. by rewrite after_mark_notin, Hk, String.eqb_refl.
Qed.
Lemma unseen_counts log r b :
  NoDup (refusalKey <$> (log ++ [r]) ++ b) → unseen (lastn refusalCap ((log ++ [r]) ++ b)) (Some (refusalKey r)) = Nat.min (length b) refusalCap.
Proof.
  intros Hd. assert (refusalKey r ∉ refusalKey <$> b) as Hb.
  { intros (x & Hx & Hxb)%list_elem_of_fmap. eapply (NoDup_apart refusalKey _ b x r Hd); [done|set_solver|done]. }
  unfold unseen, lastn. destruct (decide (length b < refusalCap)%nat) as [Hl|Hl].
  - rewrite drop_app_le, drop_app_le by (rewrite !length_app in *; cbn; lia). rewrite <- app_assoc. cbn [app].
    rewrite after_mark_here by done. cbn. lia.
  - rewrite drop_app_ge by (rewrite !length_app in *; cbn; lia). rewrite after_mark_notin.
    + cbn. rewrite length_drop, !length_app. cbn. lia.
    + intros (x & Hx & Hxb)%list_elem_of_fmap. apply Hb, list_elem_of_fmap. exists x. split; [done|]. by eapply elem_of_sublist, sublist_drop.
Qed.

(** A group per cause, once each, that counts all of it and shows the newest. *)
Definition of_cause (id : string) (log : list Refusal) : list Refusal := filter (λ r, rf_ID r = id) log.
Definition group_of (log : list Refusal) (g : refusalGroup) : Prop :=
  ∃ r0 rn, head (of_cause (gr_id g) log) = Some r0 ∧ last (of_cause (gr_id g) log) = Some rn ∧
    gr_count g = length (of_cause (gr_id g) log) ∧ gr_first g = rf_At r0 ∧ gr_last g = rf_At rn ∧ gr_line g = rf_Line rn.
Lemma of_cause_snoc id log r : of_cause id (log ++ [r]) = of_cause id log ++ (if String.eqb (rf_ID r) id then [r] else []).
Proof.
  unfold of_cause. rewrite filter_app. f_equal. destruct (String.eqb_spec (rf_ID r) id); [by rewrite filter_cons_True|by rewrite filter_cons_False].
Qed.
Lemma group_of_other log r g : rf_ID r ≠ gr_id g → group_of log g → group_of (log ++ [r]) g.
Proof. unfold group_of. intros Hn. by rewrite of_cause_snoc, (proj2 (String.eqb_neq _ _)), app_nil_r. Qed.
Lemma add_to_group_spec log r gs :
  (∀ g, g ∈ gs → group_of log g) → NoDup (gr_id <$> gs) → (rf_ID r ∉ gr_id <$> gs → of_cause (rf_ID r) log = []) →
  (∀ g, g ∈ add_to_group r gs → group_of (log ++ [r]) g) ∧
  NoDup (gr_id <$> add_to_group r gs) ∧ (∀ id, id ∈ gr_id <$> add_to_group r gs ↔ id = rf_ID r ∨ id ∈ gr_id <$> gs).
Proof.
  induction gs as [|g gs IH]; intros HG HD HN; cbn [add_to_group].
  - split_and!; [|cbn; by apply NoDup_singleton|cbn; set_solver]. intros g ->%list_elem_of_singleton. exists r, r. cbn.
    rewrite of_cause_snoc, HN, String.eqb_refl by set_solver. done.
  - cbn in HD. apply NoDup_cons in HD as [Hg HD]. destruct (String.eqb_spec (gr_id g) (rf_ID r)) as [He|Hn].
    + split_and!; [|cbn; by apply NoDup_cons|cbn; set_solver]. intros x [->|Hx]%elem_of_cons.
      * destruct (HG g ltac:(left)) as (r0 & rn & H0 & Hl & Hc & Hf & _). exists r0, r. cbn. rewrite of_cause_snoc, He, String.eqb_refl, <- He.
        rewrite last_snoc, length_app, Hc. split_and!; try done; [|cbn; lia]. destruct (of_cause (gr_id g) log); [done|]. by injection H0 as ->.
      * apply group_of_other; [|apply HG; by right]. intros E. apply Hg. rewrite He, E. by apply list_elem_of_fmap_2.
    + destruct IH as (H1 & H2 & H3); [intros x Hx; apply HG; by right|done|intros Hx; apply HN; set_solver|].
      split_and!; [|cbn|cbn; set_solver].
      * intros x [->|Hx]%elem_of_cons; [|by apply H1]. apply group_of_other; [congruence|apply HG; left].
      * apply NoDup_cons. split; [|done]. rewrite H3. intros [?|?]; congruence.
Qed.
Lemma groups_spec log :
  let gs := foldl (λ gs r, add_to_group r gs) [] log in
  (∀ g, g ∈ gs → group_of log g) ∧ NoDup (gr_id <$> gs) ∧ (∀ id, id ∈ gr_id <$> gs ↔ id ∈ rf_ID <$> log).
Proof.
  induction log as [|r log IH] using rev_ind; [cbn; split_and!; [set_solver|constructor|done]|].
  cbn zeta in *. rewrite foldl_snoc. destruct IH as (H1 & H2 & H3).
  destruct (add_to_group_spec log r (foldl (λ gs r, add_to_group r gs) [] log) H1 H2) as (A1 & A2 & A3).
  { rewrite H3. intros Hn. unfold of_cause. destruct (filter _ log) as [|x l] eqn:E; [done|]. exfalso. apply Hn.
    assert (x ∈ filter (λ r0, rf_ID r0 = rf_ID r) log) as [<- Hx]%list_elem_of_filter by (rewrite E; left). by apply list_elem_of_fmap_2. }
  split_and!; [done|done|]. intros id. rewrite A3, H3, fmap_app. cbn. set_solver.
Qed.
Lemma insert_by_perm {A} lt (x : A) l : insert_by lt x l ≡ₚ x :: l.
Proof. induction l as [|y l IH]; cbn; [done|]. destruct (lt x y); [done|]. rewrite IH. apply perm_swap. Qed.
Lemma sort_stable_perm {A} lt (l : list A) : sort_stable lt l ≡ₚ l.
Proof.
  unfold sort_stable. induction l as [|x l IH] using rev_ind; [done|]. rewrite foldl_snoc, insert_by_perm, IH. by rewrite Permutation_app_comm.
Qed.
Lemma insert_by_sorted {A} (lt : A → A → bool) (R : A → A → Prop) x l :
  (∀ a b, lt a b = true → R a b) → (∀ a b, lt a b = false → R b a) → Transitive R →
  StronglySorted R l → StronglySorted R (insert_by lt x l).
Proof.
  intros H1 H2 HT. induction l as [|y l IH]; intros Hs; cbn; [by repeat constructor|]. apply StronglySorted_inv in Hs as [Hs Hy].
  destruct (lt x y) eqn:E; constructor; auto.
  - by constructor.
  - constructor; [auto|]. eapply Forall_impl; [exact Hy|]. intros z. apply HT. auto.
  - rewrite insert_by_perm. constructor; auto.
Qed.
Lemma sort_stable_sorted {A} (lt : A → A → bool) (R : A → A → Prop) l :
  (∀ a b, lt a b = true → R a b) → (∀ a b, lt a b = false → R b a) → Transitive R → StronglySorted R (sort_stable lt l).
Proof.
  intros H1 H2 HT. unfold sort_stable. induction l as [|x l IH] using rev_ind; [constructor|]. rewrite foldl_snoc. by eapply insert_by_sorted.
Qed.
Lemma groupRefusals_spec log :
  let gs := groupRefusals log in
  (∀ g, g ∈ gs → group_of log g) ∧ NoDup (gr_id <$> gs) ∧ (∀ id, id ∈ gr_id <$> gs ↔ id ∈ rf_ID <$> log) ∧
  StronglySorted (λ a b, gr_last a <= gr_last b) gs.
Proof.
  cbn zeta. unfold groupRefusals. destruct (groups_spec log) as (H1 & H2 & H3). split_and!.
  - intros g. rewrite sort_stable_perm. apply H1.
  - by rewrite sort_stable_perm.
  - intros id. by rewrite sort_stable_perm.
  - apply sort_stable_sorted; [intros a b; lia|intros a b; lia|intros a b c; lia].
Qed.
