(* ===== verification/Tui.v ===== *)
(** * Tui: the terminal UI's state machine

    [src/internal/tui/]: the model, its [Update] and everything [Update] calls
    (model.go, switcher.go, pulse.go, motion.go, keys.go, doctorview.go,
    refusals.go), the layout arithmetic the scroll keys depend on, and the row
    count of every screen (dashboard.go, attention.go). The text of a line is
    not modelled: a screen is the list of its lines, whatever they hold. *)

From S2P Require Import Prelude GoStr NetIP VmRef Introspect DoctorAuth TuiLog.
Open Scope string_scope.
Open Scope list_scope.
Open Scope Z_scope.

(** ** The state (model.go, doctorview.go) *)

Inductive pane := paneNone | paneRefusals.
Inductive view := viewDashboard | viewDoctor.
Inductive overlay := overlayNone | overlaySwitcher | overlayHelp.
Inductive region := regionMirror | regionRefusals | regionHelp | regionDoctor | regionNone.
Inductive doctorPhase := doctorIdle | doctorRunning | doctorDone | doctorFailed.
#[export] Instance pane_eq_dec : EqDecision pane. Proof. solve_decision. Defined.
#[export] Instance view_eq_dec : EqDecision view. Proof. solve_decision. Defined.
#[export] Instance overlay_eq_dec : EqDecision overlay. Proof. solve_decision. Defined.
#[export] Instance region_eq_dec : EqDecision region. Proof. solve_decision. Defined.
#[export] Instance doctorPhase_eq_dec : EqDecision doctorPhase. Proof. solve_decision. Defined.

Definition maxMissedTicks : Z := 30.

(** What the flags carry to the doctor view untouched, and a doctor run's
    options. *)
Record PassThrough := MkPass { pt_Subnet : option NetIP.prefix; pt_HWAddr : string; pt_Timeout : Z }.
Record Options := MkOptions { op_VM : string; op_Pass : PassThrough; op_CLIVersion : string }.
Record DoctorOptions := MkDoctorOptions { do_VM : string; do_Pass : PassThrough; do_CLIVersion : string; do_Probe : bool }.
(** A report, its sentences as text; an empty remedy is [None]. *)
Abbreviation shown := (Finding string string string).
Record Report := MkReport { rp_VM : string; rp_Findings : list shown }.
Definition report0 : Report := MkReport "" [].

Record pulse := MkPulse { pu_from : string; pu_at : Z }.

(** [cancel] is the cancel function of the run started under that generation. *)
Record doctorState := MkDoctor {
  d_phase : doctorPhase; d_gen : Z; d_cancel : option Z; d_since : Z; d_probe : bool; d_frame : Z; d_restore : doctorPhase;
  d_report : Report; d_ranAt : Z; d_elapsed : Z; d_err : option string; d_cursor : Z; d_expanded : gmap string bool }.
Definition doctor0 : doctorState :=
  MkDoctor doctorIdle 0 None 0 false 0 doctorIdle report0 0 0 None 0 ∅.

(** The model's fields, in groups that are written together: what never
    changes, what is known of the daemons, the logs kept of them, what the
    screen is showing, the selection flash, the mirror row cursor. *)
Record Conf := MkConf { c_opts : Options; c_version : string; c_pinProvider : string; c_pinInstance : string }.
Record Fleet := MkFleet {
  f_snaps : list Snap; f_skewed : list Snap; f_problems : list string; f_fetchedAt : option Z; f_fetching : bool;
  f_selected : string; f_pinned : bool; f_missedTicks : gmap string Z }.
Record Logs := MkLogs { l_refusals : gmap string (list Refusal); l_refusalsSeen : gmap string string; l_pulses : gmap string pulse }.
Record Screen := MkScreen {
  s_width : Z; s_height : Z; s_pane : pane; s_view : view; s_overlay : overlay; s_refusalsGrouped : bool;
  s_cursor : Z; s_scroll : scrollState; s_syncExpanded : bool }.
Record Flash := MkFlash { fl_left : Z; fl_gen : Z }.
Record MirrorRow := MkRow { mr_cursor : Z; mr_detail : bool; mr_moved : bool }.
Record Model := MkModel {
  m_conf : Conf; m_fleet : Fleet; m_logs : Logs; m_screen : Screen; m_flash : Flash; m_row : MirrorRow; m_doctor : doctorState;
  m_now : Z }.

Abbreviation m_snaps m := (f_snaps (m_fleet m)).
Abbreviation m_selected m := (f_selected (m_fleet m)).
Abbreviation m_missed m := (f_missedTicks (m_fleet m)).
Abbreviation m_refusals m := (l_refusals (m_logs m)).
Abbreviation m_scroll m := (s_scroll (m_screen m)).

Definition with_fleet (f : Fleet) (m : Model) : Model :=
  MkModel (m_conf m) f (m_logs m) (m_screen m) (m_flash m) (m_row m) (m_doctor m) (m_now m).
Definition with_logs (l : Logs) (m : Model) : Model :=
  MkModel (m_conf m) (m_fleet m) l (m_screen m) (m_flash m) (m_row m) (m_doctor m) (m_now m).
Definition with_screen (s : Screen) (m : Model) : Model :=
  MkModel (m_conf m) (m_fleet m) (m_logs m) s (m_flash m) (m_row m) (m_doctor m) (m_now m).
Definition with_flash (f : Flash) (m : Model) : Model :=
  MkModel (m_conf m) (m_fleet m) (m_logs m) (m_screen m) f (m_row m) (m_doctor m) (m_now m).
Definition with_row (r : MirrorRow) (m : Model) : Model :=
  MkModel (m_conf m) (m_fleet m) (m_logs m) (m_screen m) (m_flash m) r (m_doctor m) (m_now m).
Definition with_doctor (d : doctorState) (m : Model) : Model :=
  MkModel (m_conf m) (m_fleet m) (m_logs m) (m_screen m) (m_flash m) (m_row m) d (m_now m).
Definition with_now (t : Z) (m : Model) : Model :=
  MkModel (m_conf m) (m_fleet m) (m_logs m) (m_screen m) (m_flash m) (m_row m) (m_doctor m) t.

(** One field of the screen, or of the fleet, at a time. *)
Definition scr_size w h s := MkScreen w h (s_pane s) (s_view s) (s_overlay s) (s_refusalsGrouped s) (s_cursor s) (s_scroll s) (s_syncExpanded s).
Definition scr_pane p s := MkScreen (s_width s) (s_height s) p (s_view s) (s_overlay s) (s_refusalsGrouped s) (s_cursor s) (s_scroll s) (s_syncExpanded s).
Definition scr_view v s := MkScreen (s_width s) (s_height s) (s_pane s) v (s_overlay s) (s_refusalsGrouped s) (s_cursor s) (s_scroll s) (s_syncExpanded s).
Definition scr_overlay o s := MkScreen (s_width s) (s_height s) (s_pane s) (s_view s) o (s_refusalsGrouped s) (s_cursor s) (s_scroll s) (s_syncExpanded s).
Definition scr_grouped g s := MkScreen (s_width s) (s_height s) (s_pane s) (s_view s) (s_overlay s) g (s_cursor s) (s_scroll s) (s_syncExpanded s).
Definition scr_cursor c s := MkScreen (s_width s) (s_height s) (s_pane s) (s_view s) (s_overlay s) (s_refusalsGrouped s) c (s_scroll s) (s_syncExpanded s).
Definition scr_scroll c s := MkScreen (s_width s) (s_height s) (s_pane s) (s_view s) (s_overlay s) (s_refusalsGrouped s) (s_cursor s) c (s_syncExpanded s).
Definition scr_expanded x s := MkScreen (s_width s) (s_height s) (s_pane s) (s_view s) (s_overlay s) (s_refusalsGrouped s) (s_cursor s) (s_scroll s) x.
Definition on_screen (f : Screen → Screen) (m : Model) : Model := with_screen (f (m_screen m)) m.
Definition select (path : string) (pinned : bool) (m : Model) : Model :=
  let f := m_fleet m in
  with_fleet (MkFleet (f_snaps f) (f_skewed f) (f_problems f) (f_fetchedAt f) (f_fetching f) path pinned (f_missedTicks f)) m.
Definition set_fetching (b : bool) (m : Model) : Model :=
  let f := m_fleet m in
  with_fleet (MkFleet (f_snaps f) (f_skewed f) (f_problems f) (f_fetchedAt f) b (f_selected f) (f_pinned f) (f_missedTicks f)) m.

(** What arrives, and what [Update] asks the runtime for. Canceling a gather's
    context is the one effect [Update] has of its own. *)
Inductive msg :=
  | WindowSizeMsg (width height : Z)
  | KeyMsg (key : string)
  | TickMsg (now : Z)
  | SnapshotsMsg (snaps : list (option Snap)) (problems : list string) (at_ : Z)
  | DoctorDoneMsg (gen : Z) (report : Report) (ranAt elapsed : Z)
  | DoctorFailedMsg (gen : Z) (err : string) (ranAt elapsed : Z)
  | DoctorTickMsg (gen : Z)
  | FlashMsg (gen : Z).
Inductive cmd := TickCmd | FetchCmd | GatherCmd (gen : Z) (opts : DoctorOptions) | DoctorTickCmd (gen : Z) | FlashTickCmd (gen : Z)
  | Cancel (gen : Z) | Quit.

(** ** The keys (keys.go) *)

Definition binding := list string.
Definition matches (b : binding) (key : string) : bool := existsb (String.eqb key) b.
Definition kQuit : binding := ["q"; "ctrl+c"].
Definition kHelp : binding := ["?"].
Definition kEsc : binding := ["esc"].
Definition kNextDaemon : binding := ["tab"; "l"; "right"].
Definition kPrevDaemon : binding := ["shift+tab"; "h"; "left"].
Definition kSelectDaemon : binding := ["1"; "2"; "3"; "4"; "5"; "6"; "7"; "8"; "9"].
Definition kSwitcher : binding := ["v"].
Definition kRefusals : binding := ["r"].
Definition kDoctor : binding := ["d"].
Definition kSyncExpand : binding := ["x"].
Definition kGroupRefusals : binding := ["u"].
Definition kRowDetail : binding := ["enter"].
Definition kLineDown : binding := ["j"; "down"].
Definition kLineUp : binding := ["k"; "up"].
Definition kPageDown : binding := ["pgdown"; " "].
Definition kPageUp : binding := ["pgup"; "b"].
Definition kTop : binding := ["g"].
Definition kBottom : binding := ["G"].
Definition kExpand : binding := ["enter"].
Definition kRerun : binding := ["R"].
Definition kProbe : binding := ["p"].
Definition kSwitcherMove : binding := ["j"; "k"; "up"; "down"].
Definition kSwitcherSelect : binding := ["enter"].
Definition kSwitcherClose : binding := ["esc"; "v"].
(** The help overlay's groups, and the keys each view dispatches. *)
Definition groups : list (string * list binding) :=
  [("Global", [kQuit; kHelp; kEsc; kNextDaemon; kPrevDaemon; kSelectDaemon; kSwitcher; kRefusals; kDoctor; kSyncExpand; kGroupRefusals; kRowDetail]);
   ("Scrolling", [kLineDown; kLineUp; kPageDown; kPageUp; kTop; kBottom]);
   ("Doctor view", [kExpand; kRerun; kProbe]);
   ("Switcher overlay", [kSwitcherMove; kSwitcherSelect; kSwitcherClose])].
Definition dispatchedBindings : list binding :=
  [kQuit; kHelp; kEsc; kNextDaemon; kPrevDaemon; kSelectDaemon; kSwitcher; kRefusals; kDoctor; kSyncExpand; kGroupRefusals; kRowDetail;
   kLineDown; kLineUp; kPageDown; kPageUp; kTop; kBottom].
Definition doctorBindings : list binding :=
  [kQuit; kHelp; kEsc; kExpand; kRerun; kProbe; kLineDown; kLineUp; kPageDown; kPageUp; kTop; kBottom;
   kNextDaemon; kPrevDaemon; kSelectDaemon; kSwitcher; kRefusals; kDoctor].
Definition switcherBindings : list binding :=
  [kQuit; kHelp; kNextDaemon; kPrevDaemon; kSelectDaemon; kSwitcherMove; kSwitcherSelect; kSwitcherClose; kPageDown; kPageUp; kTop; kBottom].
(** [int(msg.String()[0]-'0') - 1]: the subtraction is a byte's. *)
Definition numberKey (key : string) : Z :=
  match key with String c _ => (code c - 48) mod 256 - 1 | "" => -1 end.

Section tui.
(** The environment's override of the root socket's path, the linked version and
    [ColimaHome()]. *)
Variable env : string.
Variable buildVersion : string.
Variable colima_home : string.

(** ** The daemons (switcher.go, model.go) *)

Definition root_path : string := EffectiveRootSocketPath env.
Definition is_root (path : string) : bool := String.eqb path root_path.
Definition path_lt (a b : string) : bool :=
  if is_root a then negb (is_root b) else if is_root b then false else String.ltb a b.
Definition sortSnaps : list Snap → list Snap := sort_stable (λ a b, path_lt (sn_Path a) (sn_Path b)).

Definition vmKey (s : Snap) : string :=
  let vm := st_VM (sn_State s) in
  if negb (String.eqb (vm_Provider vm) "") && negb (String.eqb (vm_Instance vm) "") then vm_Provider vm +:+ ":" +:+ vm_Instance vm
  else vm_Ref vm.
Definition missed_of (m : Model) (s : Snap) : Z := default 0 (m_missed m !! sn_Path s).
Definition stale (m : Model) (s : Snap) : bool := 0 <? missed_of m s.
Definition answering (m : Model) : list Snap := filter (λ s, missed_of m s = 0) (m_snaps m).
(** The first root daemon another one shares a VM with, and that one. *)
Definition rival (l : list Snap) (r : Snap) : option (Snap * Snap) :=
  if negb (is_root (sn_Path r)) || String.eqb (vmKey r) "" then None
  else pair r <$> find (λ u, negb (is_root (sn_Path u)) && String.eqb (vmKey u) (vmKey r)) l.
Definition fightingPair (l : list Snap) : option (Snap * Snap) := head (omap (rival l) l).
(** A snapshot of the list is identified by its path, no two having the same
    ([fleet_ok]), where the code compares pointers. *)
Definition orderedSnaps (m : Model) : list Snap :=
  match fightingPair (answering m) with
  | None => m_snaps m
  | Some (root, user) =>
      let out := mjoin ((λ s, if String.eqb (sn_Path s) (sn_Path user) then [] else if String.eqb (sn_Path s) (sn_Path root) then [s; user] else [s]) <$> m_snaps m) in
      if Nat.eqb (length out) (length (m_snaps m)) then out else m_snaps m
  end.
Inductive daemonRow := RowDaemon (s : Snap) | RowSkewed (s : Snap) | RowUnreadable (err : string).
Definition selectable (r : daemonRow) : option Snap := match r with RowDaemon s => Some s | _ => None end.
Definition row_snap (r : daemonRow) : option Snap := match r with RowDaemon s | RowSkewed s => Some s | RowUnreadable _ => None end.
Definition daemonRows (m : Model) : list daemonRow :=
  (RowDaemon <$> orderedSnaps m) ++ (RowSkewed <$> f_skewed (m_fleet m)) ++ (RowUnreadable <$> f_problems (m_fleet m)).
Definition selectableRows (m : Model) : list Snap := omap selectable (daemonRows m).
(** The first position a predicate holds at. *)
Fixpoint index_of {A} (f : A → bool) (l : list A) : option nat :=
  match l with [] => None | x :: l => if f x then Some 0%nat else S <$> index_of f l end.
Definition rowIndexOf (path : string) (m : Model) : Z :=
  default 0 (Z.of_nat <$> index_of (λ r, match row_snap r with Some s => String.eqb (sn_Path s) path | None => false end) (daemonRows m)).
(** The header's [daemon N/M]: the last row of that path, from 1. *)
Definition daemonPos (m : Model) : Z * Z :=
  let rows := selectableRows m in
  (foldl (λ pos '(i, s), if String.eqb (sn_Path s) (m_selected m) then Z.of_nat i + 1 else pos) 0 (imap pair rows), Z.of_nat (length rows)).

Definition selectedIndex (m : Model) : option nat := index_of (λ s, String.eqb (sn_Path s) (m_selected m)) (m_snaps m).
Definition selectedSnap (m : Model) : option Snap := selectedIndex m ≫= λ i, m_snaps m !! i.
Definition matchesVM (provider instance_ spec : string) (s : Snap) : bool :=
  let vm := st_VM (sn_State s) in
  if negb (String.eqb (vm_Provider vm) "") && negb (String.eqb (vm_Instance vm) "")
  then String.eqb (vm_Provider vm) provider && String.eqb (vm_Instance vm) instance_
  else String.eqb (vm_Ref vm) spec.

(** ** The mirror table's rows (dashboard.go) *)

Definition EntryBound : string := "bound".
Definition EntrySkipped : string := "skipped".
Definition EntryBindFailed : string := "bind-failed".
Definition stateRank (st : string) : Z :=
  if String.eqb st EntryBindFailed then 0 else if String.eqb st EntryBound then 2 else if String.eqb st EntrySkipped then 3 else 1.
Definition entry_lt (a b : MirrorEntry) : bool :=
  if negb (stateRank (me_State a) =? stateRank (me_State b)) then stateRank (me_State a) <? stateRank (me_State b)
  else if negb (String.eqb (me_Proto a) (me_Proto b)) then String.ltb (me_Proto a) (me_Proto b)
  else me_Port a <? me_Port b.
Definition sortedEntries : list MirrorEntry → list MirrorEntry := sort_stable entry_lt.
Definition mirrorEntries (m : Model) : list MirrorEntry :=
  match selectedSnap m with None => [] | Some s => sortedEntries (mi_Entries (st_Mirror (sn_State s))) end.
(** A stored cursor seated among [n] rows; none is [-1]. *)
Definition seat (cursor n : Z) : Z := if n =? 0 then -1 else Z.min (Z.max cursor 0) (n - 1).
Definition mirrorCursorIndex (m : Model) : Z := seat (mr_cursor (m_row m)) (Z.of_nat (length (mirrorEntries m))).

(** A table's window over its rows; [more n] is the [… +n more] line. *)
Definition windowRows {A} (more : Z → A) (rows : list A) (s : scrollState) (visible : Z) : list A :=
  let n := Z.of_nat (length rows) in
  if visible <=? 0 then []
  else if n <=? visible then rows
  else if sc_offset s =? 0 then take (Z.to_nat (visible - 1)) rows ++ [more (n - (visible - 1))]
  else let '(lo, hi) := window n visible s in take (Z.to_nat (hi - lo)) (drop (Z.to_nat lo) rows).

(** The sync table: the advertised ports, a long ephemeral run of one protocol
    folded into a row. *)
Definition ephemeralMin : Z := 49152.
Definition foldEphemeral : Z := 3.
Definition adv_lt (a b : Advertised) : bool :=
  if negb (String.eqb (ad_Proto a) (ad_Proto b)) then String.ltb (ad_Proto a) (ad_Proto b) else ad_Port a <? ad_Port b.
Definition sortedAdvertised (sy : Sync) : list Advertised := sort_stable adv_lt (sy_Advertised sy ++ (MkAdvertised "udp" <$> sy_UDPPorts sy)).
Inductive sync_row := PortRow (a : Advertised) | FoldRow (eph : list Advertised).
Fixpoint split_ephemeral (rows : list Advertised) : list Advertised * list Advertised :=
  match rows with
  | [] => ([], [])
  | a :: rest => if ephemeralMin <=? ad_Port a then ([], rows) else let '(low, eph) := split_ephemeral rest in (a :: low, eph)
  end.
Definition protoRows (expanded : bool) (rows : list Advertised) : list sync_row :=
  let '(low, eph) := split_ephemeral rows in
  (PortRow <$> low) ++ (if expanded || (Z.of_nat (length eph) <? foldEphemeral) then PortRow <$> eph else [FoldRow eph]).
(** The runs of one protocol. *)
Fixpoint proto_runs (rows : list Advertised) : list (list Advertised) :=
  match rows with
  | [] => []
  | a :: rows => match proto_runs rows with
                 | (b :: run) :: runs => if String.eqb (ad_Proto a) (ad_Proto b) then (a :: b :: run) :: runs else [a] :: (b :: run) :: runs
                 | runs => [a] :: runs
                 end
  end.
Definition syncRows (expanded : bool) (rows : list Advertised) : list sync_row := mjoin (protoRows expanded <$> proto_runs rows).

(** ** What is on the other daemons (attention.go, refusals.go) *)

Definition unseenRefusals (m : Model) (path : string) : nat :=
  unseen (default [] (m_refusals m !! path)) (l_refusalsSeen (m_logs m) !! path).
Definition versionSkew (m : Model) (st : State) : bool := negb (String.eqb (st_Version st) "") && negb (String.eqb (st_Version st) (c_version (m_conf m))).
Inductive item := NotAnswering | BindFailed (n : nat) | MirrorDown | SyncDown | SecretIs (state : string) | Skew | Refusals (n : nat).
Definition attentionItems (m : Model) (s : Snap) : list item :=
  let st := sn_State s in
  let failed := count (λ e, String.eqb (me_State e) EntryBindFailed) (mi_Entries (st_Mirror st)) in
  let news := unseenRefusals m (sn_Path s) in
  (if stale m s then [NotAnswering] else []) ++
  (if (0 <? failed)%nat then [BindFailed failed] else []) ++
  (if mi_SessionUp (st_Mirror st) then [] else [MirrorDown]) ++
  (if sy_SessionUp (st_Sync st) then [] else [SyncDown]) ++
  (if negb (String.eqb (au_Mode (st_Auth st)) "none") && negb (String.eqb (au_SecretState (st_Auth st)) "ok") then [SecretIs (au_SecretState (st_Auth st))] else []) ++
  (if versionSkew m st then [Skew] else []) ++
  (if (0 <? news)%nat then [Refusals news] else []).
Definition attentionSegments (m : Model) : list (string * list item) :=
  omap (λ s, if String.eqb (sn_Path s) (m_selected m) then None
             else match attentionItems m s with [] => None | items => Some (sn_Path s, items) end) (m_snaps m).

(** ** Layout: how many rows each part takes (dashboard.go) *)

Definition minWidth : Z := 44.
Definition minHeight : Z := 12.
Definition wideWidth : Z := 100.
Definition count_if (b : bool) : Z := if b then 1 else 0.
Definition lenZ {A} (l : list A) : Z := Z.of_nat (length l).
Definition wide (m : Model) : bool := wideWidth <=? s_width (m_screen m).
(** A card is its body between two border rows. *)
Definition card_rows (body : Z) : Z := body + 2.
Definition skewCard_rows : Z := card_rows 2.
Definition noticeLines (m : Model) : Z := skewCard_rows * lenZ (f_skewed (m_fleet m)) + lenZ (f_problems (m_fleet m)).
Definition bannerLines (m : Model) : Z := match fightingPair (answering m) with None => 0 | Some _ => 1 end.
Definition attentionLines (m : Model) : Z := match attentionSegments m with [] => 0 | _ => 1 end.
Definition chromeLines (m : Model) : Z := 1 + bannerLines m + attentionLines m + noticeLines m.
Definition summaryLines (m : Model) (s : Snap) : Z :=
  let note := negb (String.eqb (rs_Note (st_Resolution (sn_State s))) "") in
  if wide m then card_rows (count_if (stale m s) + count_if (versionSkew m (sn_State s)) + 1 + count_if note + 1)
  else count_if (stale m s) + 2 + count_if note + 2.
Definition minPaneLines : Z := 6.
Definition panePercent : Z := 40.
Definition paneLines (m : Model) : Z :=
  match s_pane (m_screen m) with
  | paneNone => 0
  | paneRefusals => let h := s_height (m_screen m) in Z.min (Z.max minPaneLines (Z.quot (h * panePercent) 100)) (Z.max 1 (h - 2))
  end.
Definition entryDetailRows (e : MirrorEntry) : Z := 3 + count_if (String.eqb (me_State e) EntryBound).
Definition detailLines (m : Model) : Z :=
  if negb (mr_detail (m_row m)) || negb (bool_decide (s_view (m_screen m) = viewDashboard)) then 0
  else match mirrorEntries m !! Z.to_nat (mirrorCursorIndex m) with
       | None => 0
       | Some e => 1 + entryDetailRows e
       end.
Definition rowBudget (m : Model) (s : Snap) : Z :=
  let fixed := chromeLines m + summaryLines m s + 1 + 2 + (paneLines m + detailLines m) in Z.max 1 (s_height (m_screen m) - fixed).
Definition helpVisible (m : Model) : Z := Z.max 1 (s_height (m_screen m) - 6).
(** A group is its title and its bindings; groups in one column have a blank
    row between them. *)
Definition group_rows (g : string * list binding) : Z := 1 + lenZ (snd g).
Definition column_rows (gs : list (string * list binding)) : Z := foldr Z.add 0 (group_rows <$> gs) + Z.max 0 (lenZ gs - 1).
Definition helpBody_rows (m : Model) : Z :=
  if wide m then Z.max (column_rows (take 1 groups)) (column_rows (drop 1 groups)) else column_rows groups.
(** An expanded finding's evidence and remedy, a row for each of their lines. *)
Definition text_rows (s : string) : Z := lenZ (Split "010" (trim_right (Ascii.eqb "010") s)).
Definition evidenceLines (f : shown) : Z :=
  foldr Z.add 0 (text_rows <$> f_Evidence f) + match f_Remedy f with None => 0 | Some r => text_rows r end.
Definition finding_rows (d : doctorState) (f : shown) : Z :=
  1 + if default false (d_expanded d !! f_ID f) then evidenceLines f else 0.
Fixpoint starts_from (d : doctorState) (row : Z) (fs : list shown) : list Z :=
  match fs with [] => [] | f :: fs => row :: starts_from d (row + finding_rows d f) fs end.
Definition doctorRows (d : doctorState) : Z * list Z :=
  let fs := rp_Findings (d_report d) in (foldr Z.add 0 (finding_rows d <$> fs), starts_from d 0 fs).
Definition doctorBudget (m : Model) : Z := Z.max 1 (s_height (m_screen m) - (chromeLines m + 1 + 1 + 1 + paneLines m)).

(** ** The one region the keys drive (scroll.go) *)

Definition scrollRegion (m : Model) : region :=
  let s := m_screen m in
  match s_overlay s with
  | overlayHelp => regionHelp
  | overlaySwitcher => regionNone
  | overlayNone => match s_view s, s_pane s with
                   | viewDoctor, _ => regionDoctor
                   | _, paneRefusals => regionRefusals
                   | _, _ => regionMirror
                   end
  end.
Definition freshScroll (m : Model) : scrollState := MkScroll 0 (bool_decide (scrollRegion m = regionRefusals)).
(** The mirror table's window: its own scroll when it is what the keys drive. *)
Definition tableScroll (m : Model) : scrollState := if bool_decide (scrollRegion m = regionMirror) then m_scroll m else MkScroll 0 false.
Definition scrollVisible (m : Model) : Z :=
  if (s_width (m_screen m) <=? 0) || (s_height (m_screen m) <=? 0) then 0
  else match scrollRegion m with
  | regionHelp => helpVisible m
  | regionRefusals => Z.max 0 (paneLines m - 1)
  | regionDoctor => doctorBudget m
  | regionNone => 0
  | regionMirror => match selectedSnap m with None => 0 | Some s => rowBudget m s end
  end.
Definition selected_log (m : Model) : list Refusal := default [] (m_refusals m !! m_selected m).
Definition log_rows (m : Model) : Z :=
  if s_refusalsGrouped (m_screen m) then lenZ (groupRefusals (selected_log m)) else lenZ (selected_log m).
Definition scrollTotal (m : Model) : Z :=
  match scrollRegion m with
  | regionHelp => helpBody_rows m
  | regionRefusals => log_rows m
  | regionDoctor => fst (doctorRows (m_doctor m))
  | regionNone => 0
  | regionMirror => match selectedSnap m with None => 0 | Some s => lenZ (mi_Entries (st_Mirror (sn_State s))) end
  end.

(** ** Selecting a daemon (model.go, refusals.go, motion.go) *)

Definition markRefusalsSeen (m : Model) : Model :=
  match s_pane (m_screen m), last (selected_log m) with
  | paneRefusals, Some r =>
      let l := m_logs m in with_logs (MkLogs (l_refusals l) (<[m_selected m := refusalKey r]> (l_refusalsSeen l)) (l_pulses l)) m
  | _, _ => m
  end.
Definition selectPath (path : string) (m : Model) : Model :=
  let m := select path true m in
  let m := on_screen (scr_scroll (freshScroll m)) m in
  let m := on_screen (scr_cursor (rowIndexOf path m)) m in
  markRefusalsSeen (with_row (MkRow 0 false false) m).
Definition step (n : Z) (m : Model) : Model :=
  let rows := selectableRows m in
  match rows with
  | [] => m
  | _ =>
      let i := match index_of (λ s, String.eqb (sn_Path s) (m_selected m)) rows with
               | None => 0
               | Some j => Z.rem (Z.of_nat j + n + lenZ rows) (lenZ rows)
               end in
      match rows !! Z.to_nat i with Some s => selectPath (sn_Path s) m | None => m end
  end.
Definition selectNth (i : Z) (m : Model) : Model * bool :=
  if i <? 0 then (m, false)
  else match selectableRows m !! Z.to_nat i with None => (m, false) | Some s => (selectPath (sn_Path s) m, true) end.
Definition flashFrames : Z := 5.
Definition armFlash (m : Model) : Model * list cmd :=
  let gen := fl_gen (m_flash m) + 1 in (with_flash (MkFlash flashFrames gen) m, [FlashTickCmd gen]).
Definition tickFlash (gen : Z) (m : Model) : Model * list cmd :=
  let f := m_flash m in
  if negb (gen =? fl_gen f) || (fl_left f <=? 0) then (m, [])
  else
    let left := fl_left f - 1 in
    (with_flash (MkFlash left (fl_gen f)) m, if left <=? 0 then [] else [FlashTickCmd (fl_gen f)]).

(** ** A fetch lands (model.go, pulse.go, refusals.go) *)

Definition pulseTTL : Z := 5000000000.
Definition pulseKey (path : string) (e : MirrorEntry) : string :=
  path +:+ String "000" (me_Proto e +:+ String "000" (Itoa (me_Port e))).
Definition usable (snaps : list (option Snap)) : list Snap := omap (λ o, s ← o; if sn_Usable s then Some s else None) snaps.
Definition entries_of (s : Snap) : list MirrorEntry := mi_Entries (st_Mirror (sn_State s)).
(** What each row said at the last fetch, of the paths that answered it. *)
Definition prev_states (m : Model) : gmap string string :=
  foldl (λ p s, foldl (λ p e, <[pulseKey (sn_Path s) e := me_State e]> p) p (entries_of s)) ∅ (answering m).
Definition pulse_of (m : Model) (at_ : Z) (s : Snap) (out : gmap string pulse) (e : MirrorEntry) : gmap string pulse :=
  let k := pulseKey (sn_Path s) e in
  let known := existsb (λ o, String.eqb (sn_Path o) (sn_Path s)) (answering m) in
  match prev_states m !! k with
  | Some old =>
      if negb (String.eqb old (me_State e)) then <[k := MkPulse old at_]> out
      else match l_pulses (m_logs m) !! k with Some p => if at_ - pu_at p <? pulseTTL then <[k := p]> out else out | None => out end
  | None =>
      if known then <[k := MkPulse "" at_]> out
      else match l_pulses (m_logs m) !! k with Some p => if at_ - pu_at p <? pulseTTL then <[k := p]> out else out | None => out end
  end.
Definition mergePulses (m : Model) (snaps : list (option Snap)) (at_ : Z) : gmap string pulse :=
  foldl (λ out s, foldl (pulse_of m at_ s) out (entries_of s)) ∅ (usable snaps).
(** The marker a row carries now. *)
Definition entryPulse (m : Model) (path : string) (e : MirrorEntry) : option pulse :=
  p ← l_pulses (m_logs m) !! pulseKey path e; if m_now m - pu_at p <? pulseTTL then Some p else None.

Definition fresh_of (snaps : list (option Snap)) : gmap string Snap := foldl (λ f s, <[sn_Path s := s]> f) ∅ (usable snaps).
(** The loop over the known snapshots: what is kept, who missed, what is left
    of the fresh ones. *)
Fixpoint keep (old_missed : gmap string Z) (fresh : gmap string Snap) (missed : gmap string Z) (snaps : list Snap)
  : list Snap * gmap string Z * gmap string Snap :=
  match snaps with
  | [] => ([], missed, fresh)
  | s :: snaps =>
      match fresh !! sn_Path s with
      | Some f => let '(kept, missed, fresh) := keep old_missed (delete (sn_Path s) fresh) missed snaps in (f :: kept, missed, fresh)
      | None =>
          let n := default 0 (old_missed !! sn_Path s) + 1 in
          if maxMissedTicks <? n then keep old_missed fresh missed snaps
          else let '(kept, missed, fresh) := keep old_missed fresh (<[sn_Path s := n]> missed) snaps in (s :: kept, missed, fresh)
      end
  end.
(** A log under its path, none under an empty one. *)
Definition put_log (path : string) (log : list Refusal) (out : gmap string (list Refusal)) : gmap string (list Refusal) :=
  match log with [] => out | _ => <[path := log]> out end.
Definition mergeRefusals (old : gmap string (list Refusal)) (kept : list Snap) (fresh : list (option Snap)) : gmap string (list Refusal) :=
  let out := foldl (λ out s, put_log (sn_Path s) (default [] (old !! sn_Path s)) out) ∅ kept in
  foldl (λ out s, put_log (sn_Path s) (accumulate (default [] (out !! sn_Path s)) (st_RecentRefusals (sn_State s))) out) out (usable fresh).
Definition pruneSeen (seen : gmap string string) (logs : gmap string (list Refusal)) : gmap string string :=
  filter (λ kv, is_Some (logs !! fst kv)) seen.
Definition resolveSelection (m : Model) : Model :=
  let pin := if f_pinned (m_fleet m) || String.eqb (c_pinProvider (m_conf m)) "" then None
             else find (matchesVM (c_pinProvider (m_conf m)) (c_pinInstance (m_conf m)) (op_VM (c_opts (m_conf m)))) (m_snaps m) in
  match pin with
  | Some s => select (sn_Path s) true m
  | None =>
      match selectedIndex m with
      | Some _ => m
      | None => select (match m_snaps m with [] => "" | s :: _ => sn_Path s end) (f_pinned (m_fleet m)) m
      end
  end.
(** The left over fresh snapshots come in a map's own order, which sorting
    forgets ([sortSnaps_canonical]). *)
Definition applySnapshots (snaps : list (option Snap)) (problems : list string) (at_ : Z) (m : Model) : Model :=
  let f := m_fleet m in
  let pulses := mergePulses m snaps at_ in
  let skewed := omap (λ o, s ← o; if sn_Usable s then None else Some s) snaps in
  let '(kept, missed, fresh) := keep (f_missedTicks f) (fresh_of snaps) ∅ (f_snaps f) in
  let kept := sortSnaps (kept ++ (map_to_list fresh).*2) in
  let refusals := mergeRefusals (m_refusals m) kept snaps in
  let m := with_logs (MkLogs refusals (pruneSeen (l_refusalsSeen (m_logs m)) refusals) pulses) m in
  let m := with_fleet (MkFleet kept skewed problems (Some at_) false (f_selected f) (f_pinned f) missed) (with_now at_ m) in
  markRefusalsSeen (resolveSelection m).

(** ** The doctor view (doctorview.go) *)

Definition d_cursorIndex (d : doctorState) : Z := seat (d_cursor d) (lenZ (rp_Findings (d_report d))).
Definition doctorOptions (probe : bool) (m : Model) : DoctorOptions :=
  let o := c_opts (m_conf m) in
  let vm := if String.eqb (op_VM o) "" then match selectedSnap m with Some s => vm_Ref (st_VM (sn_State s)) | None => "" end else op_VM o in
  MkDoctorOptions vm (op_Pass o) (c_version (m_conf m)) probe.
Definition stop (d : doctorState) : doctorState * list cmd :=
  (MkDoctor (if bool_decide (d_phase d = doctorRunning) then d_restore d else d_phase d) (d_gen d + 1) None (d_since d) (d_probe d) (d_frame d)
     (d_restore d) (d_report d) (d_ranAt d) (d_elapsed d) (d_err d) (d_cursor d) (d_expanded d),
   match d_cancel d with Some g => [Cancel g] | None => [] end).
Definition startDoctor (probe : bool) (m : Model) : Model * list cmd :=
  let '(d, cancels) := stop (m_doctor m) in
  let d' := MkDoctor doctorRunning (d_gen d) (Some (d_gen d)) (m_now m) probe 0 (d_phase d) (d_report d) (d_ranAt d) (d_elapsed d) (d_err d)
              (d_cursor d) (d_expanded d) in
  (on_screen (scr_scroll (MkScroll 0 false)) (with_doctor d' m), cancels ++ [GatherCmd (d_gen d) (doctorOptions probe m); DoctorTickCmd (d_gen d)]).
Definition openDoctor (m : Model) : Model * list cmd :=
  match s_view (m_screen m) with
  | viewDoctor => (m, [])
  | viewDashboard =>
      let m := on_screen (scr_view viewDoctor) m in
      let m := on_screen (scr_scroll (freshScroll m)) m in
      if bool_decide (d_phase (m_doctor m) = doctorIdle) then startDoctor false m else (m, [])
  end.
(** The least scroll that shows the selected finding. *)
Definition revealCursor (m : Model) : Model :=
  if negb (bool_decide (scrollRegion m = regionDoctor)) then m
  else
    let '(rows, starts) := doctorRows (m_doctor m) in
    let i := d_cursorIndex (m_doctor m) in
    if i <? 0 then m
    else match starts !! Z.to_nat i with
    | None => m
    | Some first =>
        let last := match starts !! Z.to_nat (i + 1) with Some next => next - 1 | None => rows - 1 end in
        on_screen (scr_scroll (reveal first last rows (doctorBudget m) (m_scroll m))) m
    end.
Definition with_expanded (c : Z) (x : gmap string bool) (d : doctorState) : doctorState :=
  MkDoctor (d_phase d) (d_gen d) (d_cancel d) (d_since d) (d_probe d) (d_frame d) (d_restore d) (d_report d) (d_ranAt d) (d_elapsed d) (d_err d) c x.
Definition toggleExpanded (d : doctorState) : doctorState :=
  let i := d_cursorIndex d in
  if i <? 0 then d
  else match rp_Findings (d_report d) !! Z.to_nat i with
       | None => d
       | Some f => with_expanded (d_cursor d) (<[f_ID f := negb (default false (d_expanded d !! f_ID f))]> (d_expanded d)) d
       end.
Definition moveDoctorCursor (n : Z) (m : Model) : Model :=
  let d := m_doctor m in let len := lenZ (rp_Findings (d_report d)) in
  if len =? 0 then m
  else revealCursor (with_doctor (with_expanded (Z.min (Z.max (d_cursorIndex d + n) 0) (len - 1)) (d_expanded d) d) m).
Definition current_run (gen : Z) (d : doctorState) : bool := bool_decide (d_phase d = doctorRunning) && (gen =? d_gen d).
Definition applyDoctorDone (gen : Z) (report : Report) (ranAt elapsed : Z) (m : Model) : Model :=
  let d := m_doctor m in
  if negb (current_run gen d) then m
  else revealCursor (with_doctor (MkDoctor doctorDone (d_gen d) None (d_since d) (d_probe d) (d_frame d) (d_restore d) report ranAt elapsed None
                                    (d_cursor d) (d_expanded d)) m).
Definition applyDoctorFailed (gen : Z) (err : string) (ranAt elapsed : Z) (m : Model) : Model :=
  let d := m_doctor m in
  if negb (current_run gen d) then m
  else with_doctor (MkDoctor doctorFailed (d_gen d) None (d_since d) (d_probe d) (d_frame d) (d_restore d) (d_report d) ranAt elapsed (Some err)
                      (d_cursor d) (d_expanded d)) m.
Definition tickDoctor (gen : Z) (m : Model) : Model * list cmd :=
  let d := m_doctor m in
  if negb (current_run gen d) then (m, [])
  else (with_doctor (MkDoctor (d_phase d) (d_gen d) (d_cancel d) (d_since d) (d_probe d) (d_frame d + 1) (d_restore d) (d_report d) (d_ranAt d)
                       (d_elapsed d) (d_err d) (d_cursor d) (d_expanded d)) m, [DoctorTickCmd gen]).
Definition handleDoctorKey (key : string) (m : Model) : option (Model * list cmd) :=
  let page := Z.max 1 (doctorBudget m) in let all := lenZ (rp_Findings (d_report (m_doctor m))) in
  if matches kEsc key then
    if bool_decide (d_phase (m_doctor m) = doctorRunning) then let '(d, cancels) := stop (m_doctor m) in Some (with_doctor d m, cancels)
    else let m := on_screen (scr_view viewDashboard) m in Some (on_screen (scr_scroll (freshScroll m)) m, [])
  else if matches kRerun key then Some (startDoctor false m)
  else if matches kProbe key then Some (startDoctor true m)
  else if matches kExpand key then Some (revealCursor (with_doctor (toggleExpanded (m_doctor m)) m), [])
  else if matches kLineDown key then Some (moveDoctorCursor 1 m, [])
  else if matches kLineUp key then Some (moveDoctorCursor (-1) m, [])
  else if matches kPageDown key then Some (moveDoctorCursor page m, [])
  else if matches kPageUp key then Some (moveDoctorCursor (- page) m, [])
  else if matches kTop key then Some (moveDoctorCursor (- all) m, [])
  else if matches kBottom key then Some (moveDoctorCursor all m, [])
  else None.

(** ** The switcher and the mirror row (switcher.go, model.go) *)

Definition cursorIndex (m : Model) : Z := seat (s_cursor (m_screen m)) (lenZ (daemonRows m)).
Definition moveCursor (n : Z) (m : Model) : Model :=
  on_screen (scr_cursor (Z.min (Z.max (cursorIndex m + n) 0) (Z.max (lenZ (daemonRows m) - 1) 0))) m.
Definition moveMirrorCursor (n : Z) (m : Model) : Model :=
  let len := lenZ (mirrorEntries m) in
  if len =? 0 then m
  else
    let c := Z.min (Z.max (mirrorCursorIndex m + n) 0) (len - 1) in
    let m := with_row (MkRow c (mr_detail (m_row m)) true) m in
    on_screen (scr_scroll (reveal c c len (scrollVisible m) (m_scroll m))) m.
Definition handleSwitcherKey (key : string) (m : Model) : Model * list cmd :=
  let len := lenZ (daemonRows m) in
  if matches kSwitcherClose key then (on_screen (scr_overlay overlayNone) m, [])
  else if matches kSwitcherSelect key then
    let i := cursorIndex m in
    match (if i <? 0 then None else daemonRows m !! Z.to_nat i ≫= selectable) with
    | Some s => armFlash (on_screen (scr_overlay overlayNone) (selectPath (sn_Path s) m))
    | None => (m, [])
    end
  else if matches kSwitcherMove key then (moveCursor (if matches ["j"; "down"] key then 1 else -1) m, [])
  else if matches kPageDown key || matches kBottom key then (moveCursor len m, [])
  else if matches kPageUp key || matches kTop key then (moveCursor (- len) m, [])
  else if matches kNextDaemon key then armFlash (step 1 m)
  else if matches kPrevDaemon key then armFlash (step (-1) m)
  else if matches kSelectDaemon key then
    match selectNth (numberKey key) m with
    | (next, true) => armFlash (on_screen (scr_overlay overlayNone) next)
    | (_, false) => (m, [])
    end
  else (m, []).

(** ** The dispatch (model.go) *)

Definition rescroll (m : Model) : Model := on_screen (scr_scroll (freshScroll m)) m.
Definition scroll_key (row : Z) (f : scrollState → scrollState) (m : Model) : Model :=
  if bool_decide (scrollRegion m = regionMirror) then moveMirrorCursor row m else on_screen (scr_scroll (f (m_scroll m))) m.
(** The keys every view falls through to. *)
Definition handleGlobalKey (key : string) (m : Model) : Model * list cmd :=
  let s := m_screen m in
  let visible := scrollVisible m in let total := scrollTotal m in let all := lenZ (mirrorEntries m) in
  if matches kEsc key then
    (if negb (bool_decide (s_overlay s = overlayNone)) then on_screen (scr_overlay overlayNone) m
     else if mr_detail (m_row m) then with_row (MkRow (mr_cursor (m_row m)) false (mr_moved (m_row m))) m
     else match s_pane s with paneRefusals => rescroll (on_screen (scr_pane paneNone) m) | paneNone => m end, [])
  else if matches kNextDaemon key then armFlash (step 1 m)
  else if matches kPrevDaemon key then armFlash (step (-1) m)
  else if matches kSelectDaemon key then
    match selectNth (numberKey key) m with (next, true) => armFlash next | (next, false) => (next, []) end
  else if matches kSwitcher key then
    let m := on_screen (scr_overlay overlaySwitcher) m in (on_screen (scr_cursor (rowIndexOf (m_selected m) m)) m, [])
  else if matches kDoctor key then openDoctor m
  else if matches kRefusals key then
    (markRefusalsSeen (rescroll (on_screen (scr_pane (match s_pane s with paneRefusals => paneNone | paneNone => paneRefusals end)) m)), [])
  else if matches kSyncExpand key then
    (match s_view s with viewDashboard => on_screen (scr_expanded (negb (s_syncExpanded s))) m | viewDoctor => m end, [])
  else if matches kGroupRefusals key then
    (match s_pane s with paneRefusals => rescroll (on_screen (scr_grouped (negb (s_refusalsGrouped s))) m) | paneNone => m end, [])
  else if matches kRowDetail key then
    (if bool_decide (s_view s = viewDashboard) && bool_decide (scrollRegion m = regionMirror) && (0 <? all) then
       let r := m_row m in with_row (MkRow (mr_cursor r) (negb (mr_detail r)) (mr_moved r || negb (mr_detail r))) m
     else m, [])
  else if matches kLineDown key then (scroll_key 1 (scroll_down 1 total visible) m, [])
  else if matches kLineUp key then (scroll_key (-1) (scroll_up 1 total visible) m, [])
  else if matches kPageDown key then (scroll_key (Z.max 1 visible) (scroll_down visible total visible) m, [])
  else if matches kPageUp key then (scroll_key (- Z.max 1 visible) (scroll_up visible total visible) m, [])
  else if matches kTop key then (scroll_key (- all) scroll_top m, [])
  else if matches kBottom key then (scroll_key all (scroll_bottom total visible) m, [])
  else (m, []).
Definition handleKey (key : string) (m : Model) : Model * list cmd :=
  if matches kQuit key then (m, [Quit])
  else if matches kHelp key then
    (on_screen (scr_overlay (match s_overlay (m_screen m) with overlayHelp => overlayNone | _ => overlayHelp end)) m, [])
  else match s_overlay (m_screen m) with
  | overlaySwitcher => handleSwitcherKey key m
  | _ =>
      match (if bool_decide (s_view (m_screen m) = viewDoctor) then handleDoctorKey key m else None) with
      | Some r => r
      | None => handleGlobalKey key m
      end
  end.
Definition wantFetch (m : Model) : bool := negb (f_fetching (m_fleet m)).
Definition Update (x : msg) (m : Model) : Model * list cmd :=
  match x with
  | WindowSizeMsg w h => (on_screen (scr_size w h) m, [])
  | KeyMsg key => handleKey key m
  | TickMsg now =>
      let m := with_now now m in
      if wantFetch m then (set_fetching true m, [TickCmd; FetchCmd]) else (m, [TickCmd])
  | SnapshotsMsg snaps problems at_ => (applySnapshots snaps problems at_ m, [])
  | DoctorDoneMsg gen report ranAt elapsed => (applyDoctorDone gen report ranAt elapsed m, [])
  | DoctorFailedMsg gen err ranAt elapsed => (applyDoctorFailed gen err ranAt elapsed m, [])
  | DoctorTickMsg gen => tickDoctor gen m
  | FlashMsg gen => tickFlash gen m
  end.
Definition Init : list cmd := [TickCmd; FetchCmd].
Definition newModel (opts : Options) (now : Z) : Model :=
  let '(p, i) := if String.eqb (op_VM opts) "" then ("", "")
                 else match ParseRef colima_home (op_VM opts) with Ok ref => (r_Provider ref, r_Instance ref) | Err _ => ("", "") end in
  MkModel (MkConf opts (if String.eqb (op_CLIVersion opts) "" then buildVersion else op_CLIVersion opts) p i)
    (MkFleet [] [] [] None true "" false ∅) (MkLogs ∅ ∅ ∅)
    (MkScreen 0 0 paneNone viewDashboard overlayNone false 0 (MkScroll 0 false) false) (MkFlash 0 0) (MkRow 0 false false) doctor0 now.

(** ** The screen, line by line (model.go, dashboard.go, doctorview.go) *)

(** A line, and the text each part puts in its own; [t_helpCard] is the help
    card's lines over the window's height, and [t_over] one of them on a line of
    the screen. *)
Record Text := MkText {
  t_line : Type; t_blank : t_line; t_tooSmall : t_line; t_footer : Model → t_line;
  t_chrome : Model → list t_line; t_noDaemonCard : Model → list t_line; t_switcherCard : Model → list t_line;
  t_summary : Model → Snap → list t_line; t_tableLines : Model → Snap → Z → list t_line;
  t_doctorRunningLines : Model → list t_line; t_doctorReportLines : Model → list t_line; t_doctorFailedLines : Model → list t_line;
  t_doctorIdleLine : t_line;
  t_detailRule : Model → MirrorEntry → t_line; t_stateLine : Model → MirrorEntry → t_line; t_meaningLine : Model → MirrorEntry → t_line;
  t_tryLine : Model → MirrorEntry → t_line; t_trafficLine : Model → MirrorEntry → t_line;
  t_refusalRule : Model → t_line; t_refusalEmpty : Model → t_line; t_refusalLine : Refusal → t_line; t_refusalGroupLine : refusalGroup → t_line;
  t_helpCard : Model → list t_line; t_over : t_line → t_line → t_line; t_dim : t_line → t_line }.
Section screen.
Variable T : Text.
#[local] Abbreviation line := (t_line T).
#[local] Abbreviation blank := (t_blank T).
#[local] Abbreviation tooSmall := (t_tooSmall T).
#[local] Abbreviation footer := (t_footer T).
#[local] Abbreviation chrome := (t_chrome T).
#[local] Abbreviation noDaemonCard := (t_noDaemonCard T).
#[local] Abbreviation switcherCard := (t_switcherCard T).
#[local] Abbreviation summary := (t_summary T).
#[local] Abbreviation tableLines := (t_tableLines T).
#[local] Abbreviation doctorRunningLines := (t_doctorRunningLines T).
#[local] Abbreviation doctorReportLines := (t_doctorReportLines T).
#[local] Abbreviation doctorFailedLines := (t_doctorFailedLines T).
#[local] Abbreviation doctorIdleLine := (t_doctorIdleLine T).
#[local] Abbreviation detailRule := (t_detailRule T).
#[local] Abbreviation stateLine := (t_stateLine T).
#[local] Abbreviation meaningLine := (t_meaningLine T).
#[local] Abbreviation tryLine := (t_tryLine T).
#[local] Abbreviation trafficLine := (t_trafficLine T).
#[local] Abbreviation refusalRule := (t_refusalRule T).
#[local] Abbreviation refusalEmpty := (t_refusalEmpty T).
#[local] Abbreviation refusalLine := (t_refusalLine T).
#[local] Abbreviation refusalGroupLine := (t_refusalGroupLine T).
#[local] Abbreviation helpCard := (t_helpCard T).
#[local] Abbreviation over := (t_over T).
#[local] Abbreviation dim := (t_dim T).
Definition slice (first last : Z) (l : list line) : list line := take (Z.to_nat (last - first)) (drop (Z.to_nat first) l).
Definition entryRows (m : Model) (e : MirrorEntry) : list line :=
  [stateLine m e; meaningLine m e; tryLine m e] ++ (if String.eqb (me_State e) EntryBound then [trafficLine m e] else []).
Definition detailPane (m : Model) : list line :=
  if detailLines m =? 0 then []
  else match mirrorEntries m !! Z.to_nat (mirrorCursorIndex m) with
       | None => []
       | Some e => detailRule m e :: entryRows m e
       end.
(** The pane's window: its own scroll when it is what the keys drive, its newest
    lines otherwise. *)
Definition paneScroll (m : Model) : scrollState :=
  if bool_decide (scrollRegion m = regionRefusals) then m_scroll m else MkScroll 0 true.
Definition refusalBody (m : Model) : list line :=
  match selected_log m with
  | [] => [refusalEmpty m]
  | log => if s_refusalsGrouped (m_screen m) then refusalGroupLine <$> groupRefusals log else refusalLine <$> log
  end.
Definition refusalPane (m : Model) : list line :=
  let h := paneLines m in
  if h <=? 0 then []
  else
    let body := refusalBody m in
    let '(first, last) := window (lenZ body) (h - 1) (paneScroll m) in
    let out := refusalRule m :: slice first last body in
    let out := out ++ replicate (Z.to_nat h - length out) blank in
    take (Nat.min (length out) (Z.to_nat h)) out.
Definition frame (body : list line) (m : Model) : list line :=
  let pane := detailPane m ++ refusalPane m in
  let rows := Z.to_nat (Z.max 0 (s_height (m_screen m) - 1 - lenZ pane)) in
  let body := take rows body in
  body ++ replicate (rows - length body) blank ++ pane ++ [footer m].
Definition dashboardView (m : Model) : list line :=
  match selectedSnap m with
  | None => frame (chrome m ++ noDaemonCard m) m
  | Some s => frame (chrome m ++ summary m s ++ tableLines m s (rowBudget m s)) m
  end.
Definition switcherView (m : Model) : list line := frame (chrome m ++ [blank] ++ switcherCard m) m.
Definition doctorView (m : Model) : list line :=
  frame (chrome m ++ match d_phase (m_doctor m) with
                     | doctorRunning => doctorRunningLines m
                     | doctorDone => doctorReportLines m
                     | doctorFailed => doctorFailedLines m
                     | doctorIdle => [doctorIdleLine]
                     end) m.
(** The card's lines over the screen's from line [y] on, moved up when it would
    run past the end. *)
Definition overlayCompose (bg card : list line) (y : Z) : list line :=
  let card := take (length bg) card in
  let y := if lenZ bg <? y + lenZ card then Z.max 0 (lenZ bg - lenZ card) else y in
  imap (λ i l, if (Z.of_nat i <? y) || (y + lenZ card <=? Z.of_nat i) then dim l
               else match card !! Z.to_nat (Z.of_nat i - y) with Some c => over l c | None => dim l end) bg.
Definition helpView (m : Model) : list line :=
  let base := match s_view (m_screen m) with viewDashboard => dashboardView m | viewDoctor => doctorView m end in
  overlayCompose base (helpCard m) (Z.max 0 (Z.quot (s_height (m_screen m) - lenZ (helpCard m)) 2)).
Definition tooSmallView (m : Model) : list line :=
  let height := s_height (m_screen m) in
  let lines := replicate (Z.to_nat (Z.max 0 (Z.quot (height - 1) 2))) blank ++ [tooSmall] in
  take (Z.to_nat height) (lines ++ replicate (Z.to_nat height - length lines) blank).
Definition View (m : Model) : list line :=
  let s := m_screen m in
  if (s_width s <=? 0) || (s_height s <=? 0) then []
  else if (s_width s <? minWidth) || (s_height s <? minHeight) then tooSmallView m
  else match s_overlay s with
  | overlayHelp => helpView m
  | overlaySwitcher => switcherView m
  | overlayNone => match s_view s with viewDoctor => doctorView m | viewDashboard => dashboardView m end
  end.
End screen.
End tui.
