(* ===== verification/TuiSpec.v ===== *)
(** * TuiSpec: what the terminal UI promises

    The model of [Tui] run against the runtime that delivers its messages: the
    commands in flight, the invariant of the state, the selection, the logs, the
    rows of the screen and of its tables, the keys; and how its layers get in each
    other's way. *)

From S2P Require Import Prelude GoStr NetIP VmRef Introspect DoctorAuth TuiLog Tui.
Open Scope string_scope.
Open Scope list_scope.
Open Scope Z_scope.

(** ** The runtime: commands in flight, one message at a time *)

Record Sys := MkSys { y_model : Model; y_out : list cmd; y_cancelled : list Z }.
(** The commands that run on their own and come back with a message. *)
Definition async (c : cmd) : bool := match c with Cancel _ | Quit => false | _ => true end.
Definition cancel_of (c : cmd) : option Z := match c with Cancel g => Some g | _ => None end.
Definition completes (c : cmd) (x : msg) : Prop :=
  match c, x with
  | TickCmd, TickMsg _ | FetchCmd, SnapshotsMsg _ _ _ => True
  | GatherCmd g _, (DoctorDoneMsg h _ _ _ | DoctorFailedMsg h _ _ _) | DoctorTickCmd g, DoctorTickMsg h | FlashTickCmd g, FlashMsg h => g = h
  | _, _ => False
  end.
Definition by_user (x : msg) : bool := match x with WindowSizeMsg _ _ | KeyMsg _ => true | _ => false end.
Definition deliver (env : string) (x : msg) (out : list cmd) (y : Sys) : Sys :=
  let '(m, cs) := Update env x (y_model y) in MkSys m (out ++ List.filter async cs) (y_cancelled y ++ omap cancel_of cs).
Inductive sys_step (env : string) (y : Sys) : Sys → Prop :=
  | user_acts x : by_user x = true → sys_step env y (deliver env x (y_out y) y)
  | command_lands c x pre post : y_out y = pre ++ c :: post → completes c x → sys_step env y (deliver env x (pre ++ post) y).
Inductive running (env : string) (m0 : Model) : Sys → Prop :=
  | started : running env m0 (MkSys m0 Init [])
  | stepped y y' : running env m0 y → sys_step env y y' → running env m0 y'.

Definition is_tick (c : cmd) : bool := match c with TickCmd => true | _ => false end.
Definition is_fetch (c : cmd) : bool := match c with FetchCmd => true | _ => false end.
Definition is_gather (g : Z) (c : cmd) : bool := match c with GatherCmd h _ => g =? h | _ => false end.
Definition is_spin (g : Z) (c : cmd) : bool := match c with DoctorTickCmd h => g =? h | _ => false end.
Definition is_flash (g : Z) (c : cmd) : bool := match c with FlashTickCmd h => g =? h | _ => false end.
Definition is_running (m : Model) : bool := bool_decide (d_phase (m_doctor m) = doctorRunning).
Definition ones (b : bool) : nat := if b then 1 else 0.

Section run.
Variable env : string.

(** What matters to the commands in flight; and what no key changes. *)
Definition core (m m' : Model) : Prop :=
  f_fetching (m_fleet m') = f_fetching (m_fleet m) ∧ m_flash m' = m_flash m ∧
  d_phase (m_doctor m') = d_phase (m_doctor m) ∧ d_gen (m_doctor m') = d_gen (m_doctor m) ∧
  d_cancel (m_doctor m') = d_cancel (m_doctor m) ∧ d_restore (m_doctor m') = d_restore (m_doctor m) ∧ d_err (m_doctor m') = d_err (m_doctor m) ∧ m_conf m' = m_conf m.
Definition quiet (m m' : Model) : Prop :=
  core m m' ∧ m_snaps m' = m_snaps m ∧ f_skewed (m_fleet m') = f_skewed (m_fleet m) ∧ f_problems (m_fleet m') = f_problems (m_fleet m) ∧
  m_missed m' = m_missed m ∧ m_refusals m' = m_refusals m ∧ m_now m' = m_now m.
Inductive effect (m : Model) : Model * list cmd → Prop :=
  | E_quiet m' : quiet m m' → effect m (m', [])
  | E_quit : effect m (m, [Quit])
  | E_flash m' : quiet m m' → effect m (armFlash m')
  | E_start m' probe : quiet m m' → effect m (startDoctor probe m')
  | E_stop : d_phase (m_doctor m) = doctorRunning → effect m (with_doctor (fst (stop (m_doctor m))) m, snd (stop (m_doctor m))).

Lemma quiet_refl m : quiet m m. Proof. done. Qed.
Lemma core_trans m1 m2 m3 : core m1 m2 → core m2 m3 → core m1 m3.
Proof. unfold core. intros (->&->&->&->&->&->&->&->). done. Qed.
Lemma quiet_trans m1 m2 m3 : quiet m1 m2 → quiet m2 m3 → quiet m1 m3.
Proof. unfold quiet. intros (H1&->&->&->&->&->&->) (H2&H). split; [by eapply core_trans|done]. Qed.
Lemma quiet_screen f m : quiet m (on_screen f m). Proof. done. Qed.
Lemma quiet_seen m : quiet m (markRefusalsSeen m).
Proof. unfold markRefusalsSeen. by repeat case_match. Qed.
Lemma quiet_selectPath p m : quiet m (selectPath env p m).
Proof. unfold selectPath. eapply quiet_trans; [|apply quiet_seen]. done. Qed.
Lemma quiet_step n m : quiet m (Tui.step env n m).
Proof. unfold step. destruct (selectableRows env m); [done|]. destruct (_ !! _); [apply quiet_selectPath|done]. Qed.
Lemma quiet_nth i m : quiet m (fst (selectNth env i m)).
Proof. unfold selectNth. destruct (_ <? _); [done|]. destruct (_ !! _); [apply quiet_selectPath|done]. Qed.
Lemma quiet_reveal m : quiet m (revealCursor env m).
Proof. unfold revealCursor. destruct (negb _); [done|]. destruct (doctorRows _). destruct (_ <? 0); [done|]. by destruct (_ !! _). Qed.
Lemma quiet_moveMirror n m : quiet m (moveMirrorCursor env n m).
Proof. unfold moveMirrorCursor. by destruct (_ =? _). Qed.
Lemma quiet_moveDoctor n m : quiet m (moveDoctorCursor env n m).
Proof. unfold moveDoctorCursor. destruct (_ =? _); [done|]. eapply quiet_trans; [|apply quiet_reveal]. done. Qed.
Lemma quiet_expand m : quiet m (revealCursor env (with_doctor (toggleExpanded (m_doctor m)) m)).
Proof.
  eapply quiet_trans; [|apply quiet_reveal]. unfold toggleExpanded. destruct (_ <? 0); [done|]. by destruct (_ !! _).
Qed.
Lemma quiet_scroll_key n f m : quiet m (scroll_key env n f m).
Proof. unfold scroll_key. destruct (bool_decide _); [apply quiet_moveMirror|done]. Qed.
#[local] Arguments count : simpl never.
Create HintDb tui.
Hint Resolve quiet_refl quiet_screen quiet_seen quiet_selectPath quiet_step quiet_nth quiet_reveal quiet_moveMirror quiet_moveDoctor
  quiet_expand quiet_scroll_key E_quiet E_quit E_flash E_start E_stop : tui.

Lemma quiet_nth_eq i m next ok : selectNth env i m = (next, ok) → quiet m next.
Proof. intros H. pose proof (quiet_nth i m) as Hq. by rewrite H in Hq. Qed.
Lemma switcher_effect key m : effect m (handleSwitcherKey env key m).
Proof.
  unfold handleSwitcherKey. destruct (matches kSwitcherClose key); [auto with tui|].
  destruct (matches kSwitcherSelect key).
  { cbv zeta. match goal with |- effect _ (match ?x with Some _ => _ | None => _ end) => destruct x as [s|] end; [|auto with tui].
    apply E_flash. eapply quiet_trans; [apply quiet_selectPath|done]. }
  destruct (matches kSwitcherMove key); [apply E_quiet, quiet_screen|].
  destruct (_ || _); [apply E_quiet, quiet_screen|]. destruct (_ || _); [apply E_quiet, quiet_screen|].
  destruct (matches kNextDaemon key); [auto with tui|]. destruct (matches kPrevDaemon key); [auto with tui|].
  destruct (matches kSelectDaemon key); [|auto with tui]. destruct (selectNth env _ m) as [next ok] eqn:E. apply quiet_nth_eq in E.
  destruct ok; auto with tui.
Qed.
Lemma doctor_effect key m r : handleDoctorKey env key m = Some r → effect m r.
Proof.
  unfold handleDoctorKey. destruct (matches kEsc key).
  { destruct (bool_decide_reflect (d_phase (m_doctor m) = doctorRunning)) as [Hr|_].
    - intros [= <-]. by apply E_stop.
    - intros [= <-]. by apply E_quiet. }
  repeat (match goal with |- (if ?b then _ else _) = _ → _ => destruct b; [intros [= <-]; auto with tui|] end). done.
Qed.
Lemma open_effect m : effect m (openDoctor m).
Proof.
  unfold openDoctor. destruct (s_view _); [|auto with tui]. destruct (bool_decide _); [by apply E_start|by apply E_quiet].
Qed.
Lemma global_effect key m : effect m (handleGlobalKey env key m).
Proof.
  unfold handleGlobalKey. destruct (matches kEsc key).
  { apply E_quiet. destruct (negb _); [done|]. destruct (mr_detail _); [done|]. by destruct (s_pane _). }
  destruct (matches kNextDaemon key); [auto with tui|]. destruct (matches kPrevDaemon key); [auto with tui|].
  destruct (matches kSelectDaemon key).
  { destruct (selectNth env _ m) as [next ok] eqn:E. apply quiet_nth_eq in E. destruct ok; auto with tui. }
  destruct (matches kSwitcher key); [by apply E_quiet|]. destruct (matches kDoctor key); [apply open_effect|].
  destruct (matches kRefusals key); [apply E_quiet; eapply quiet_trans; [|apply quiet_seen]; done|].
  destruct (matches kSyncExpand key); [apply E_quiet; by destruct (s_view _)|].
  destruct (matches kGroupRefusals key); [apply E_quiet; by destruct (s_pane _)|].
  destruct (matches kRowDetail key); [apply E_quiet; by destruct (_ && _)|].
  repeat (match goal with |- effect _ (if ?b then _ else _) => destruct b; [apply E_quiet, quiet_scroll_key|] end). auto with tui.
Qed.
Lemma key_effect key m : effect m (handleKey env key m).
Proof.
  unfold handleKey. destruct (matches kQuit key); [auto with tui|]. destruct (matches kHelp key); [auto with tui|].
  destruct (s_overlay _); try apply switcher_effect.
  all: match goal with |- effect _ (match ?x with Some _ => _ | None => _ end) => destruct x as [r|] eqn:E end; [|apply global_effect];
    destruct (bool_decide _); [by eapply doctor_effect|done].
Qed.

(** ** The commands in flight *)

Definition flash_on (m : Model) : bool := 0 <? fl_left (m_flash m).
Record in_flight (y : Sys) : Prop := {
  if_tick : count is_tick (y_out y) = 1%nat;
  if_fetch : count is_fetch (y_out y) = ones (f_fetching (m_fleet (y_model y)));
  if_flash : count (is_flash (fl_gen (m_flash (y_model y)))) (y_out y) = ones (flash_on (y_model y));
  if_flash_le g : FlashTickCmd g ∈ y_out y → g <= fl_gen (m_flash (y_model y));
  if_gather : count (is_gather (d_gen (m_doctor (y_model y)))) (y_out y) = ones (is_running (y_model y));
  if_gather_old g o : GatherCmd g o ∈ y_out y → g <= d_gen (m_doctor (y_model y)) ∧ (g ∈ y_cancelled y ∨ is_running (y_model y) = true ∧ g = d_gen (m_doctor (y_model y)));
  if_spin : (ones (is_running (y_model y)) <= count (is_spin (d_gen (m_doctor (y_model y)))) (y_out y) <= 1)%nat;
  if_spin_le g : DoctorTickCmd g ∈ y_out y → g <= d_gen (m_doctor (y_model y));
  if_cancel : d_cancel (m_doctor (y_model y)) = if is_running (y_model y) then Some (d_gen (m_doctor (y_model y))) else None;
  if_cancelled g : g ∈ y_cancelled y → g < d_gen (m_doctor (y_model y));
  if_restore : d_restore (m_doctor (y_model y)) ≠ doctorRunning;
  if_err : d_phase (m_doctor (y_model y)) = doctorFailed ∨ d_phase (m_doctor (y_model y)) = doctorRunning ∧ d_restore (m_doctor (y_model y)) = doctorFailed →
           d_err (m_doctor (y_model y)) ≠ None }.
Lemma in_flight_perm m out out' can : out ≡ₚ out' → in_flight (MkSys m out can) → in_flight (MkSys m out' can).
Proof.
  intros Hp []. cbn in *. constructor; cbn; try (by rewrite <- (count_perm _ _ _ Hp)); try done; intros *; rewrite <- Hp; eauto.
Qed.
(** None of a kind past the last generation. *)
Lemma count_none {A} (f : A → bool) l : (∀ x, x ∈ l → f x = false) → count f l = 0%nat.
Proof. intros H. destruct (count f l) eqn:E; [done|]. destruct (proj1 (count_pos f l)) as (x & Hx & Hf); [lia|]. by rewrite H in Hf. Qed.
Lemma no_gather g out : (∀ h o, GatherCmd h o ∈ out → h <= g) → count (is_gather (g + 1)) out = 0%nat.
Proof. intros H. apply count_none. intros [] Hx; cbn; try done. apply H in Hx. lia. Qed.
Lemma no_spin g out : (∀ h, DoctorTickCmd h ∈ out → h <= g) → count (is_spin (g + 1)) out = 0%nat.
Proof. intros H. apply count_none. intros [] Hx; cbn; try done. apply H in Hx. lia. Qed.
Lemma no_flash g out : (∀ h, FlashTickCmd h ∈ out → h <= g) → count (is_flash (g + 1)) out = 0%nat.
Proof. intros H. apply count_none. intros [] Hx; cbn; try done. apply H in Hx. lia. Qed.
Lemma in_flight_core m m' out can : core m m' → in_flight (MkSys m out can) → in_flight (MkSys m' out can).
Proof.
  intros (H1 & H2 & H3 & H4 & H5 & H6 & H7 & _) []. constructor; cbn in *; unfold flash_on, is_running in *; by rewrite ?H1, ?H2, ?H3, ?H4, ?H5, ?H6, ?H7.
Qed.
Lemma in_flight_quiet m m' out can : quiet m m' → in_flight (MkSys m out can) → in_flight (MkSys m' out can).
Proof. intros [H _]. by apply in_flight_core. Qed.
Lemma in_flight_flash m out can : in_flight (MkSys m out can) → let '(m', cs) := armFlash m in in_flight (MkSys m' (out ++ cs) can).
Proof.
  intros []. cbn in *. constructor; cbn; rewrite ?count_app, ?count_cons, ?count_nil; cbn; rewrite ?Nat.add_0_r; try done.
  - rewrite no_flash, Z.eqb_refl by done. done.
  - intros g [Hg|Hg]%elem_of_app; [apply if_flash_le0 in Hg; lia|]. apply list_elem_of_singleton in Hg as [= ->]. lia.
  - intros g o [Hg|Hg]%elem_of_app; [eauto|]. by apply list_elem_of_singleton in Hg.
  - intros g [Hg|Hg]%elem_of_app; [eauto|]. by apply list_elem_of_singleton in Hg.
Qed.
Lemma in_flight_stop m out can :
  is_running m = true → in_flight (MkSys m out can) →
  in_flight (MkSys (with_doctor (fst (stop (m_doctor m))) m) out (can ++ omap cancel_of (snd (stop (m_doctor m))))).
Proof.
  intros Hr []. cbn [y_model y_out y_cancelled] in *. rewrite Hr in *.
  assert (omap cancel_of (snd (stop (m_doctor m))) = [d_gen (m_doctor m)]) as -> by (cbn; by rewrite if_cancel0).
  assert (is_running (with_doctor (fst (stop (m_doctor m))) m) = false) as Hn.
  { unfold is_running in *. cbn. rewrite Hr. by apply bool_decide_eq_false. }
  constructor; cbn [y_model y_out y_cancelled]; rewrite ?Hn; cbn; try done.
  - apply no_gather. intros h o Ho. by apply if_gather_old0 in Ho as [? _].
  - intros g o Ho. apply if_gather_old0 in Ho as [? [?|[_ ->]]]; (split; [lia|left; set_solver]).
  - rewrite no_spin by done. lia.
  - intros g Hg. apply if_spin_le0 in Hg. lia.
  - intros g [Hg|Hg]%elem_of_app; [apply if_cancelled0 in Hg; lia|]. apply list_elem_of_singleton in Hg. lia.
  - apply bool_decide_eq_true in Hr. rewrite bool_decide_eq_true_2 by done. intros He. apply if_err0. right. split; [done|]. naive_solver.
Qed.
Lemma in_flight_start m probe out can :
  in_flight (MkSys m out can) →
  let '(m', cs) := startDoctor probe m in in_flight (MkSys m' (out ++ List.filter async cs) (can ++ omap cancel_of cs)).
Proof.
  intros []. cbn in *. unfold startDoctor. cbn [stop].
  set (m' := on_screen _ _).
  assert (List.filter async ((match d_cancel (m_doctor m) with Some g => [Cancel g] | None => [] end) ++
    [GatherCmd (d_gen (m_doctor m) + 1) (doctorOptions probe m); DoctorTickCmd (d_gen (m_doctor m) + 1)]) =
    [GatherCmd (d_gen (m_doctor m) + 1) (doctorOptions probe m); DoctorTickCmd (d_gen (m_doctor m) + 1)]) as -> by by destruct (d_cancel _).
  assert (omap cancel_of ((match d_cancel (m_doctor m) with Some g => [Cancel g] | None => [] end) ++
    [GatherCmd (d_gen (m_doctor m) + 1) (doctorOptions probe m); DoctorTickCmd (d_gen (m_doctor m) + 1)]) =
    if is_running m then [d_gen (m_doctor m)] else []) as -> by (rewrite if_cancel0; by destruct (is_running m)).
  constructor; cbn; rewrite ?count_app, ?count_cons, ?count_nil; cbn; rewrite ?Z.eqb_refl, ?Nat.add_0_r; try done.
  - intros g [Hg|Hg]%elem_of_app; [eauto|]. set_solver.
  - rewrite no_gather; [done|]. intros h o Ho. by apply if_gather_old0 in Ho as [? _].
  - intros g o [Hg|Hg]%elem_of_app.
    + apply if_gather_old0 in Hg as [? [?|[Hr ->]]]; (split; [lia|left; rewrite ?Hr; set_solver]).
    + apply elem_of_cons in Hg as [[= -> ->]|Hg]; [split; [lia|by right]|set_solver].
  - rewrite no_spin by done. change (is_running m') with true. cbn. lia.
  - intros g [Hg|Hg]%elem_of_app; [apply if_spin_le0 in Hg; lia|]. apply elem_of_cons in Hg as [|Hg]; [done|]. apply list_elem_of_singleton in Hg as [= ->]. lia.
  - intros g [Hg|Hg]%elem_of_app; [apply if_cancelled0 in Hg; lia|]. destruct (is_running m); set_solver by lia.
  - by destruct (bool_decide_reflect (d_phase (m_doctor m) = doctorRunning)).
  - intros [?|[_ He]]; [done|]. apply if_err0. destruct (bool_decide_reflect (d_phase (m_doctor m) = doctorRunning)); auto.
Qed.
Lemma in_flight_effect m r out can :
  effect m r → in_flight (MkSys m out can) → in_flight (MkSys (fst r) (out ++ List.filter async (snd r)) (can ++ omap cancel_of (snd r))).
Proof.
  intros He Hi. destruct He as [m' Hq| |m' Hq|m' probe Hq|Hr]; cbn [fst snd].
  - rewrite !app_nil_r. by eapply in_flight_quiet.
  - by rewrite !app_nil_r.
  - pose proof (in_flight_flash m' out can (in_flight_quiet _ _ _ _ Hq Hi)) as Hf. unfold armFlash in *. cbn. by rewrite app_nil_r.
  - pose proof (in_flight_start m' probe out can (in_flight_quiet _ _ _ _ Hq Hi)) as Hf. by destruct (startDoctor probe m').
  - pose proof (in_flight_stop m out can ltac:(by apply bool_decide_eq_true) Hi) as Hf.
    assert (List.filter async (snd (stop (m_doctor m))) = []) as -> by (cbn; by destruct (d_cancel _)). by rewrite app_nil_r.
Qed.
Lemma elem_further {A} (x y : A) l : x ∈ l → x ∈ y :: l. Proof. by right. Qed.
Lemma in_flight_tick m now out can :
  in_flight (MkSys m (TickCmd :: out) can) → in_flight (deliver env (TickMsg now) out (MkSys m (TickCmd :: out) can)).
Proof.
  intros []. unfold deliver. cbn [Update y_model y_cancelled]. cbn in *. unfold wantFetch. cbn. rewrite ?count_cons in *. cbn in *.
  destruct (f_fetching (m_fleet m)) eqn:Ef; cbn.
  all: constructor; cbn; rewrite ?app_nil_r, ?count_app, ?count_cons, ?count_nil; cbn; rewrite ?Ef, ?Nat.add_0_r; cbn in *; try done; try lia.
  all: intros *; rewrite elem_of_app; intros [|]; [by eauto using elem_further|set_solver].
Qed.
Lemma apply_quiet snaps problems at_ m :
  let m' := applySnapshots env snaps problems at_ m in core (set_fetching false m) m'.
Proof.
  cbn zeta. unfold applySnapshots. destruct (keep _ _ _ _) as [[kept missed] fresh]. eapply core_trans; [|apply quiet_seen].
  unfold resolveSelection. repeat case_match; done.
Qed.
Lemma in_flight_fetch m snaps problems at_ out can :
  in_flight (MkSys m (FetchCmd :: out) can) → in_flight (deliver env (SnapshotsMsg snaps problems at_) out (MkSys m (FetchCmd :: out) can)).
Proof.
  intros []. unfold deliver. cbn [Update y_model y_cancelled omap List.filter]. rewrite !app_nil_r. eapply in_flight_core; [apply apply_quiet|].
  cbn in *. rewrite ?count_cons in *. cbn in *. constructor; cbn; try done; eauto using elem_further.
  destruct (f_fetching (m_fleet m)); cbn in *; lia.
Qed.
(** A message of a run nobody waits for changes nothing. *)
Lemma stale_run g m : current_run g (m_doctor m) = false →
  (∀ r a e, applyDoctorDone env g r a e m = m) ∧ (∀ r a e, applyDoctorFailed g r a e m = m) ∧ tickDoctor g m = (m, []).
Proof. intros H. unfold applyDoctorDone, applyDoctorFailed, tickDoctor. by rewrite H. Qed.
Lemma current_run_iff g m : current_run g (m_doctor m) = true ↔ is_running m = true ∧ g = d_gen (m_doctor m).
Proof. unfold current_run, is_running. rewrite andb_true_iff. by rewrite Z.eqb_eq. Qed.
Lemma current_run_false g m : current_run g (m_doctor m) = false → is_running m = true → g ≠ d_gen (m_doctor m).
Proof. intros H Hr ->. assert (current_run (d_gen (m_doctor m)) (m_doctor m) = true) by by apply current_run_iff. congruence. Qed.
(** The run is over: its gather has landed, and its spinner will find it so. *)
Lemma in_flight_gathered m m' g o out can :
  current_run g (m_doctor m) = true → in_flight (MkSys m (GatherCmd g o :: out) can) →
  f_fetching (m_fleet m') = f_fetching (m_fleet m) → m_flash m' = m_flash m → d_gen (m_doctor m') = d_gen (m_doctor m) →
  d_cancel (m_doctor m') = None → d_restore (m_doctor m') = d_restore (m_doctor m) → is_running m' = false →
  (d_phase (m_doctor m') = doctorFailed → d_err (m_doctor m') ≠ None) → in_flight (MkSys m' out can).
Proof.
  intros [Hr ->]%current_run_iff [] H1 H2 H3 H4 H5 H6 H7. cbn in *. rewrite ?count_cons in *. cbn in *. rewrite Z.eqb_refl, Hr in *. cbn in *.
  constructor; cbn; unfold flash_on in *; rewrite ?H1, ?H2, ?H3, ?H4, ?H5, ?H6; cbn; try done; eauto using elem_further; try lia.
  2: { intros [?|[Hd _]]; [auto|]. apply bool_decide_eq_false in H6. done. }
  intros g o' Hg. destruct (if_gather_old0 g o' (elem_further _ _ _ Hg)) as [Hle [Hc|[_ ->]]]; [auto|].
  exfalso. assert (0 < count (is_gather (d_gen (m_doctor m))) out)%nat; [|lia]. apply count_pos. eexists. split; [exact Hg|]. apply Z.eqb_refl.
Qed.
(** A gather nobody waits for lands. *)
Lemma in_flight_dropped m g o out can :
  current_run g (m_doctor m) = false → in_flight (MkSys m (GatherCmd g o :: out) can) → in_flight (MkSys m out can).
Proof.
  intros Hc []. cbn in *. rewrite ?count_cons in *. cbn in *. constructor; cbn; try done; eauto using elem_further.
  destruct (is_running m) eqn:Hr; [|cbn in *; lia]. rewrite (proj2 (Z.eqb_neq _ _)) in if_gather0; [done|]. apply not_eq_sym. by apply current_run_false.
Qed.
Lemma in_flight_done m g o r a e out can :
  in_flight (MkSys m (GatherCmd g o :: out) can) → in_flight (MkSys (applyDoctorDone env g r a e m) out can).
Proof.
  intros Hi. destruct (current_run g (m_doctor m)) eqn:Hc; [|rewrite (proj1 (stale_run g m Hc)); by eapply in_flight_dropped].
  unfold applyDoctorDone. rewrite Hc. cbn [negb]. eapply in_flight_quiet; [apply quiet_reveal|]. by eapply in_flight_gathered.
Qed.
Lemma in_flight_failed m g o r a e out can :
  in_flight (MkSys m (GatherCmd g o :: out) can) → in_flight (MkSys (applyDoctorFailed g r a e m) out can).
Proof.
  intros Hi. destruct (current_run g (m_doctor m)) eqn:Hc; [|rewrite (proj1 (proj2 (stale_run g m Hc))); by eapply in_flight_dropped].
  unfold applyDoctorFailed. rewrite Hc. cbn [negb]. by eapply in_flight_gathered.
Qed.
Lemma in_flight_spin m g out can :
  in_flight (MkSys m (DoctorTickCmd g :: out) can) →
  in_flight (MkSys (fst (tickDoctor g m)) (out ++ List.filter async (snd (tickDoctor g m))) can).
Proof.
  intros []. unfold tickDoctor. cbn in *. rewrite ?count_cons in *. cbn in *. destruct (current_run g (m_doctor m)) eqn:Hc; cbn [negb].
  - apply current_run_iff in Hc as [Hr ->]. constructor; cbn; rewrite ?count_app, ?count_cons, ?count_nil; cbn; rewrite ?Nat.add_0_r; cbn in *; try done.
    all: try (intros *; rewrite elem_of_app; intros [|]; [by eauto using elem_further|set_solver]).
    rewrite Z.eqb_refl in *. change (is_running _) with (is_running m). lia.
  - rewrite app_nil_r. constructor; cbn; try done; eauto using elem_further. destruct (is_running m) eqn:Hr; [|cbn in *; lia].
    rewrite (proj2 (Z.eqb_neq _ _)) in if_spin0; [done|]. apply not_eq_sym. by apply current_run_false.
Qed.
Lemma in_flight_flashed m g out can :
  in_flight (MkSys m (FlashTickCmd g :: out) can) →
  in_flight (MkSys (fst (tickFlash g m)) (out ++ List.filter async (snd (tickFlash g m))) can).
Proof.
  intros []. unfold tickFlash. cbn in *. rewrite ?count_cons in *. cbn in *. unfold flash_on in *.
  destruct (Z.eqb_spec g (fl_gen (m_flash m))) as [->|Hn]; cbn [negb orb]; [destruct (Z.leb_spec (fl_left (m_flash m)) 0)|].
  - rewrite app_nil_r. rewrite Z.eqb_refl, (proj2 (Z.ltb_ge 0 _)) in if_flash0 by lia. cbn in *. lia.
  - rewrite Z.eqb_refl, (proj2 (Z.ltb_lt 0 _)) in if_flash0 by lia. cbn in *.
    destruct (Z.leb_spec (fl_left (m_flash m) - 1) 0).
    + constructor; cbn; rewrite ?app_nil_r; unfold flash_on; cbn; try done; eauto using elem_further. rewrite (proj2 (Z.ltb_ge 0 _)) by lia. cbn. lia.
    + constructor; cbn; rewrite ?count_app, ?count_cons, ?count_nil; cbn; rewrite ?Nat.add_0_r; unfold flash_on; cbn; try done.
      all: try (intros *; rewrite elem_of_app; intros [|]; [by eauto using elem_further|set_solver]).
      rewrite Z.eqb_refl, (proj2 (Z.ltb_lt 0 _)) by lia. cbn. lia.
  - rewrite app_nil_r. rewrite (proj2 (Z.eqb_neq _ _)) in if_flash0 by done. constructor; cbn; try done; eauto using elem_further.
Qed.
Lemma in_flight_land c x m out can :
  completes c x → in_flight (MkSys m (c :: out) can) → in_flight (deliver env x out (MkSys m (c :: out) can)).
Proof.
  intros Hx Hi. destruct c, x; cbn in Hx; try done; try subst.
  - by apply in_flight_tick.
  - by apply in_flight_fetch.
  - unfold deliver. cbn. rewrite !app_nil_r. by eapply in_flight_done.
  - unfold deliver. cbn. rewrite !app_nil_r. by eapply in_flight_failed.
  - apply in_flight_spin in Hi. unfold deliver. cbn [Update y_model y_cancelled]. unfold tickDoctor in *.
    destruct (negb _); cbn in *; rewrite ?app_nil_r in Hi; rewrite ?app_nil_r; exact Hi.
  - apply in_flight_flashed in Hi. unfold deliver. cbn [Update y_model y_cancelled]. unfold tickFlash in *.
    destruct (_ || _); [|destruct (_ <=? 0)]; cbn in *; rewrite ?app_nil_r in Hi; rewrite ?app_nil_r; exact Hi.
Qed.
Lemma in_flight_step y y' : in_flight y → sys_step env y y' → in_flight y'.
Proof.
  intros Hi []; destruct y as [m out can].
  - destruct x as [w h|key| | | | | |]; try done; unfold deliver; cbn [Update y_model y_out y_cancelled].
    + cbn. rewrite !app_nil_r. by apply (in_flight_quiet m).
    + pose proof (in_flight_effect m _ out can (key_effect key m) Hi) as H'. by destruct (handleKey env key m).
  - cbn in *. subst out. assert (in_flight (MkSys m (c :: pre ++ post) can)) as Hi' by (eapply in_flight_perm; [|exact Hi]; by rewrite Permutation_middle).
    eapply (in_flight_land c x) in Hi'; [|done]. done.
Qed.
Lemma in_flight_running m0 y : in_flight (MkSys m0 Init []) → running env m0 y → in_flight y.
Proof. intros H0. induction 1; [done|by eapply in_flight_step]. Qed.
Lemma in_flight_new buildVersion colima_home opts now : in_flight (MkSys (newModel buildVersion colima_home opts now) Init []).
Proof.
  unfold newModel. destruct (if String.eqb _ _ then _ else _) as [p i]. constructor; cbn; try done; try set_solver. all: cbv; lia.
Qed.
End run.

(** A message a run sends. *)
Definition of_run (g : Z) (x : msg) : bool :=
  match x with DoctorDoneMsg h _ _ _ | DoctorFailedMsg h _ _ _ | DoctorTickMsg h => g =? h | _ => false end.

(** C25: however keys, resizes and landing commands interleave, there is exactly
    one clock tick in flight, and a fetch exactly while the model says it is
    fetching; at most one gather in flight has not been canceled, the one the
    screen is waiting for, which has one spinner; nothing a canceled run still
    sends changes the model or starts anything; and the screen of a failed run
    has an error to print. *)
Theorem one_of_each env buildVersion colima_home opts now y :
  running env (newModel buildVersion colima_home opts now) y →
  let m := y_model y in
  count is_tick (y_out y) = 1%nat ∧ count is_fetch (y_out y) = ones (f_fetching (m_fleet m)) ∧
  (∀ g o, GatherCmd g o ∈ y_out y → g ∉ y_cancelled y →
     d_phase (m_doctor m) = doctorRunning ∧ g = d_gen (m_doctor m) ∧ count (is_gather g) (y_out y) = 1%nat) ∧
  (d_phase (m_doctor m) = doctorRunning → ∃ o,
     GatherCmd (d_gen (m_doctor m)) o ∈ y_out y ∧ (d_gen (m_doctor m) ∉ y_cancelled y) ∧ count (is_spin (d_gen (m_doctor m))) (y_out y) = 1%nat) ∧
  (∀ g x, g ∈ y_cancelled y → of_run g x = true → Update env x m = (m, [])) ∧
  count (is_flash (fl_gen (m_flash m))) (y_out y) = ones (0 <? fl_left (m_flash m)) ∧
  (d_phase (m_doctor m) = doctorFailed → d_err (m_doctor m) ≠ None).
Proof.
  intros Hr m. destruct (in_flight_running env _ y (in_flight_new buildVersion colima_home opts now) Hr) as [I1 I2 I3 _ I4 I5 I6 _ _ I7 _ I8].
  fold m in I2, I3, I4, I5, I6, I7. split_and!; try done; [..|by auto].
  - intros g o Hg Hn. destruct (I5 g o Hg) as [_ [?|[Hrun ->]]]; [done|]. rewrite I4, Hrun. by apply bool_decide_eq_true in Hrun.
  - intros Hrun. assert (is_running m = true) as Hb by by apply bool_decide_eq_true. rewrite Hb in I4, I6. cbn in I4, I6.
    destruct (proj1 (count_pos (is_gather (d_gen (m_doctor m))) (y_out y))) as ([] & Hx & Hg); [lia|..]; try done. cbn in Hg. apply Z.eqb_eq in Hg as <-.
    eexists. split_and!; [done| |cbn in *; lia]. intros Hc%I7. lia.
  - intros g x Hc%I7 Hx. assert (current_run g (m_doctor m) = false) as Hs.
    { destruct (current_run g (m_doctor m)) eqn:E; [|done]. apply current_run_iff in E as [_ ->]. lia. }
    destruct (stale_run env g m Hs) as (S1 & S2 & S3). destruct x; cbn in Hx; try done; apply Z.eqb_eq in Hx as <-; cbn; by rewrite ?S1, ?S2, ?S3.
Qed.
(** Doctor opened, canceled, run again; then the first gather lands. *)
Definition ex_pass : PassThrough := MkPass None "" 0.
Definition ex_model : Model := newModel "dev" "/Users/u/.colima" (MkOptions "" ex_pass "v1") 0.
Definition ex_start : Sys := MkSys ex_model Init [].
Definition ex_press (key : string) (y : Sys) : Sys := deliver "" (KeyMsg key) (y_out y) y.
Definition ex_rerun : Sys := ex_press "R" (ex_press "esc" (ex_press "d" ex_start)).
Definition ex_landed : Sys :=
  deliver "" (DoctorFailedMsg 1 "context canceled" 0 0)
    [TickCmd; FetchCmd; DoctorTickCmd 1; GatherCmd 3 (MkDoctorOptions "" ex_pass "v1" false); DoctorTickCmd 3] ex_rerun.
Lemma one_of_each_witness :
  running "" ex_model ex_landed ∧ d_phase (m_doctor (y_model ex_landed)) = doctorRunning ∧ y_cancelled ex_landed = [1] ∧
  count is_tick (y_out ex_landed) = 1%nat.
Proof.
  assert (running "" ex_model ex_landed) as H.
  { apply (stepped "" ex_model ex_rerun).
    - unfold ex_rerun, ex_press. repeat (eapply stepped; [|by apply user_acts]). constructor.
    - apply (command_lands "" ex_rerun (GatherCmd 1 (MkDoctorOptions "" ex_pass "v1" false)) _ [TickCmd; FetchCmd]
        [DoctorTickCmd 1; GatherCmd 3 (MkDoctorOptions "" ex_pass "v1" false); DoctorTickCmd 3]); [vm_compute; reflexivity|reflexivity]. }
  split_and!; [exact H|vm_compute; reflexivity|vm_compute; reflexivity|].
  exact (proj1 (one_of_each "" "dev" "/Users/u/.colima" (MkOptions "" ex_pass "v1") 0 ex_landed H)).
Defined.

(** ** The daemons on the list *)

Section fleet.
Variable env : string.
Definition paths (l : list Snap) : list string := sn_Path <$> l.
Definition path_le (a b : string) : Prop := path_lt env b a = false.

Lemma ltb_leb a b : String.ltb a b = false ↔ String.le b a.
Proof.
  unfold String.le, String.ltb, String.leb. rewrite (String.compare_antisym b a). by destruct (String.compare a b).
Qed.
Lemma path_le_iff a b : path_le a b ↔ (is_root env a = true ∨ is_root env b = false ∧ String.le a b).
Proof.
  unfold path_le, path_lt. rewrite <- ltb_leb. destruct (is_root env a), (is_root env b); cbn; naive_solver.
Qed.
Lemma is_root_eq a b : is_root env a = true → is_root env b = true → a = b.
Proof. unfold is_root. intros ->%String.eqb_eq ->%String.eqb_eq. done. Qed.
Lemma path_le_trans a b c : path_le a b → path_le b c → path_le a c.
Proof.
  rewrite !path_le_iff. intros [Ha|[Hb Hab]] [Hb'|[Hc Hbc]]; auto; [congruence|]. right. split; [done|]. by trans b.
Qed.
Lemma path_le_antisym a b : path_le a b → path_le b a → a = b.
Proof.
  rewrite !path_le_iff. intros [Ha|[Hb Hab]] [Hb'|[Ha' Hba]]; try congruence; [by apply is_root_eq|]. by apply (anti_symm String.le).
Qed.
Lemma path_lt_le a b : path_lt env a b = true → path_le a b.
Proof.
  unfold path_lt, path_le, path_lt. destruct (is_root env a), (is_root env b); cbn; try done. intros H. apply ltb_leb.
  destruct (String.leb_total a b) as [Hl|Hl]; [by apply Is_true_true|]. exfalso. apply Is_true_true, ltb_leb in Hl. congruence.
Qed.
Lemma sortSnaps_perm l : sortSnaps env l ≡ₚ l. Proof. apply sort_stable_perm. Qed.
Lemma sortSnaps_sorted l : StronglySorted (λ a b, path_le (sn_Path a) (sn_Path b)) (sortSnaps env l).
Proof.
  apply sort_stable_sorted; [intros a b; apply path_lt_le|done|]. intros a b c. apply path_le_trans.
Qed.
(** The order a map gives its elements in does not show. *)
Lemma sortSnaps_canonical l k : NoDup (paths l) → l ≡ₚ k → sortSnaps env l = sortSnaps env k.
Proof.
  intros Hd Hp. apply (StronglySorted_unique_strong (λ a b, path_le (sn_Path a) (sn_Path b))); [|apply sortSnaps_sorted..|by rewrite !sortSnaps_perm].
  intros a b. rewrite !sortSnaps_perm, <- Hp. intros Ha Hb H1 H2. pose proof (path_le_antisym _ _ H1 H2) as He.
  apply list_elem_of_lookup in Ha as [i Hi], Hb as [j Hj]. assert (i = j); [|congruence].
  eapply (NoDup_lookup (paths l)); [done|..]; unfold paths; rewrite list_lookup_fmap; [rewrite Hi; reflexivity|rewrite Hj; cbn; by rewrite He].
Qed.

Definition snap_at (p : string) (l : list Snap) : option Snap := find (λ s, String.eqb (sn_Path s) p) l.
Lemma snap_at_Some p l s : snap_at p l = Some s → s ∈ l ∧ sn_Path s = p.
Proof. intros H. apply find_some in H as [Hs%list_elem_of_In He%String.eqb_eq]. done. Qed.
Lemma snap_at_None p l : snap_at p l = None ↔ p ∉ paths l.
Proof.
  unfold snap_at, paths. rewrite list_elem_of_fmap. split.
  - intros H (s & -> & Hs). eapply find_none in H; [|by apply list_elem_of_In]. by rewrite String.eqb_refl in H.
  - intros H. destruct (find _ l) as [s|] eqn:E; [|done]. apply snap_at_Some in E as [Hs He]. destruct H. by exists s.
Qed.
Lemma snap_at_unique p l s : NoDup (paths l) → s ∈ l → sn_Path s = p → snap_at p l = Some s.
Proof.
  intros Hd Hs Hp. destruct (snap_at p l) as [s'|] eqn:E.
  - apply snap_at_Some in E as [Hs' Hp']. f_equal. apply list_elem_of_lookup in Hs as [i Hi], Hs' as [j Hj]. assert (i = j); [|congruence].
    eapply (NoDup_lookup (paths l)); [done|..]; unfold paths; rewrite list_lookup_fmap; [rewrite Hi; cbn; by rewrite Hp|rewrite Hj; cbn; by rewrite Hp'].
  - apply snap_at_None in E. destruct E. apply list_elem_of_fmap. by exists s.
Qed.
Lemma snap_at_perm p l k : NoDup (paths l) → l ≡ₚ k → snap_at p l = snap_at p k.
Proof.
  intros Hd Hp. destruct (snap_at p l) as [s|] eqn:E; symmetry.
  - apply snap_at_Some in E as [Hs He]. apply snap_at_unique; [by unfold paths; rewrite <- Hp|by rewrite <- Hp|done].
  - apply snap_at_None. apply snap_at_None in E. unfold paths in *. by rewrite <- Hp.
Qed.
Lemma snap_at_app p l k : snap_at p (l ++ k) = match snap_at p l with Some s => Some s | None => snap_at p k end.
Proof. unfold snap_at. induction l as [|s l IH]; cbn; [done|]. by destruct (String.eqb _ p). Qed.

(** The loop over the known snapshots, path by path. *)
Definition by_path (f : gmap string Snap) : Prop := ∀ p s, f !! p = Some s → sn_Path s = p.
Lemma keep_spec old : ∀ snaps fresh missed kept missed' fresh',
  NoDup (paths snaps) → by_path fresh → keep old fresh missed snaps = (kept, missed', fresh') →
  paths kept `sublist_of` paths snaps ∧ (∀ p, fresh' !! p = if decide (p ∈ paths snaps) then None else fresh !! p) ∧
  (∀ p, snap_at p kept = s ← snap_at p snaps;
     match fresh !! p with Some f => Some f | None => if maxMissedTicks <? default 0 (old !! p) + 1 then None else Some s end) ∧
  (∀ p, missed' !! p = if decide (p ∈ paths snaps ∧ fresh !! p = None ∧ default 0 (old !! p) + 1 <= maxMissedTicks)
                       then Some (default 0 (old !! p) + 1) else missed !! p).
Proof.
  induction snaps as [|s snaps IH]; intros fresh missed kept missed' fresh' Hd Hf Hk; cbn [keep] in Hk.
  - injection Hk as <- <- <-. split_and!; [done|intros p; by rewrite decide_False by (cbn; set_solver)|done|].
    intros p. rewrite decide_False; [done|]. cbn. set_solver.
  - cbn in Hd. apply NoDup_cons in Hd as [Hs Hd].
    assert (∀ p, p ∈ paths snaps → p ≠ sn_Path s) as Hne by (intros p Hp ->; done).
    destruct (fresh !! sn_Path s) as [f|] eqn:Ef.
    + destruct (keep old _ missed snaps) as [[k ms] fr] eqn:Ek. injection Hk as <- <- <-.
      destruct (IH (delete (sn_Path s) fresh) missed k ms fr Hd ltac:(intros p x [_ ?]%lookup_delete_Some; auto) Ek) as (K1 & K2 & K3 & K4).
      pose proof (Hf _ _ Ef) as Hfp. split_and!.
      * cbn. rewrite Hfp. by apply sublist_skip.
      * intros p. rewrite K2. destruct (decide (p = sn_Path s)) as [->|Hn].
        -- rewrite lookup_delete_eq. repeat case_decide; try done. cbn in *. set_solver.
        -- rewrite lookup_delete_ne by done. cbn. repeat case_decide; set_solver.
      * intros p. cbn. rewrite Hfp. destruct (String.eqb_spec (sn_Path s) p) as [<-|Hn]; [by rewrite Ef|].
        specialize (K3 p). unfold snap_at in K3. by rewrite K3, lookup_delete_ne.
      * intros p. rewrite K4. destruct (decide (p = sn_Path s)) as [->|Hn].
        -- rewrite !decide_False; [done|rewrite Ef; naive_solver|tauto].
        -- rewrite lookup_delete_ne by done. cbn. apply decide_ext. set_solver.
    + destruct (Z.ltb_spec maxMissedTicks (default 0 (old !! sn_Path s) + 1)) as [Hm|Hm].
      * destruct (IH fresh missed kept missed' fresh' Hd Hf Hk) as (K1 & K2 & K3 & K4). split_and!.
        -- cbn. by apply sublist_cons.
        -- intros p. rewrite K2. cbn. destruct (decide (p = sn_Path s)) as [->|]; repeat case_decide; set_solver.
        -- intros p. rewrite K3. cbn. destruct (String.eqb_spec (sn_Path s) p) as [<-|Hn]; [|done].
           rewrite Ef, (proj2 (Z.ltb_lt _ _)) by lia. cbn. by rewrite (proj2 (snap_at_None _ _) Hs).
        -- intros p. rewrite K4. cbn. destruct (decide (p = sn_Path s)) as [->|]; [|apply decide_ext; set_solver].
           rewrite !decide_False; [done|lia|tauto].
      * destruct (keep old fresh _ snaps) as [[k ms] fr] eqn:Ek. injection Hk as <- <- <-.
        destruct (IH fresh _ k ms fr Hd Hf Ek) as (K1 & K2 & K3 & K4). split_and!.
        -- cbn. by apply sublist_skip.
        -- intros p. rewrite K2. cbn. destruct (decide (p = sn_Path s)) as [->|]; repeat case_decide; set_solver.
        -- intros p. cbn. destruct (String.eqb_spec (sn_Path s) p) as [<-|Hn]; [by rewrite Ef, (proj2 (Z.ltb_ge _ _)) by lia|].
           specialize (K3 p). unfold snap_at in K3. by rewrite K3.
        -- intros p. rewrite K4. cbn. destruct (decide (p = sn_Path s)) as [->|].
           ++ rewrite decide_False by tauto. rewrite lookup_insert_eq, decide_True; [done|]. split_and!; [set_solver|done|lia].
           ++ rewrite lookup_insert_ne by done. apply decide_ext. set_solver.
Qed.
#[local] Arguments snap_at : simpl never.
Lemma fresh_of_app l k : fresh_of (l ++ k) = foldl (λ f s, <[sn_Path s := s]> f) (fresh_of l) (usable k).
Proof. unfold fresh_of, usable. by rewrite omap_app, foldl_app. Qed.
Lemma fresh_of_spec snaps : by_path (fresh_of snaps) ∧ (∀ p s, fresh_of snaps !! p = Some s → sn_Usable s = true ∧ Some s ∈ snaps) ∧
  (∀ s, Some s ∈ snaps → sn_Usable s = true → is_Some (fresh_of snaps !! sn_Path s)).
Proof.
  induction snaps as [|o snaps IH] using rev_ind; [split_and!; [intros p s|intros p s|]; cbn; set_solver|].
  destruct IH as (I1 & I2 & I3). rewrite fresh_of_app. unfold usable. cbn. destruct o as [x|]; cbn; [destruct (sn_Usable x) eqn:Eu; cbn|].
  - split_and!.
    + intros p s [[<- <-]|[_ ?]]%lookup_insert_Some; [done|by apply I1].
    + intros p s [[<- <-]|[_ ?]]%lookup_insert_Some; [set_solver|]. destruct (I2 p s); [done|]. set_solver.
    + intros s [Hs|Hs]%elem_of_app Hu; rewrite lookup_insert; case_decide; eauto. apply list_elem_of_singleton in Hs as [= ->]. done.
  - split_and!; [done|intros p s H; destruct (I2 p s H); set_solver|]. intros s [Hs|Hs]%elem_of_app Hu; [eauto|].
    apply list_elem_of_singleton in Hs as [= ->]. congruence.
  - split_and!; [done|intros p s H; destruct (I2 p s H); set_solver|]. intros s [Hs|Hs]%elem_of_app Hu; [eauto|]. by apply list_elem_of_singleton in Hs.
Qed.
Lemma paths_values f : by_path f → paths ((map_to_list f).*2) = (map_to_list f).*1.
Proof.
  intros Hf. unfold paths. rewrite <- list_fmap_compose. apply list_fmap_ext. intros i [p s] Hi. cbn. apply Hf.
  apply elem_of_map_to_list. by eapply list_elem_of_lookup_2.
Qed.
Lemma snap_at_values f p : by_path f → snap_at p ((map_to_list f).*2) = f !! p.
Proof.
  intros Hf. destruct (f !! p) as [s|] eqn:E.
  - apply snap_at_unique; [rewrite paths_values by done; apply NoDup_fst_map_to_list| |by apply Hf].
    apply list_elem_of_fmap. exists (p, s). split; [done|]. by apply elem_of_map_to_list.
  - apply snap_at_None. rewrite paths_values by done. intros ([q s] & -> & H%elem_of_map_to_list)%list_elem_of_fmap. cbn in E. congruence.
Qed.
(** What a fetch makes of the list: at each path, the answer, or for thirty
    fetches what it last answered. *)
Definition absent (m : Model) (p : string) : Z := default 0 (m_missed m !! p) + 1.
Definition after_fetch (m : Model) (snaps : list (option Snap)) (p : string) : option Snap :=
  match fresh_of snaps !! p with
  | Some f => Some f
  | None => s ← snap_at p (m_snaps m); if maxMissedTicks <? absent m p then None else Some s
  end.
Lemma resolve_fleet m : f_snaps (m_fleet (resolveSelection m)) = m_snaps m ∧ f_skewed (m_fleet (resolveSelection m)) = f_skewed (m_fleet m) ∧
  f_missedTicks (m_fleet (resolveSelection m)) = m_missed m ∧ m_logs (resolveSelection m) = m_logs m ∧ m_screen (resolveSelection m) = m_screen m ∧
  m_row (resolveSelection m) = m_row m ∧ m_doctor (resolveSelection m) = m_doctor m ∧ m_conf (resolveSelection m) = m_conf m.
Proof. unfold resolveSelection. by repeat case_match. Qed.
Lemma seen_fleet m : m_fleet (markRefusalsSeen m) = m_fleet m ∧ m_screen (markRefusalsSeen m) = m_screen m ∧ m_row (markRefusalsSeen m) = m_row m ∧
  m_doctor (markRefusalsSeen m) = m_doctor m ∧ l_refusals (m_logs (markRefusalsSeen m)) = m_refusals m ∧ m_conf (markRefusalsSeen m) = m_conf m ∧
  m_flash (markRefusalsSeen m) = m_flash m.
Proof. unfold markRefusalsSeen. by repeat case_match. Qed.
Lemma apply_list snaps problems at_ m :
  NoDup (paths (m_snaps m)) →
  let m' := applySnapshots env snaps problems at_ m in
  NoDup (paths (m_snaps m')) ∧ StronglySorted (λ a b, path_le (sn_Path a) (sn_Path b)) (m_snaps m') ∧
  (∀ p, snap_at p (m_snaps m') = after_fetch m snaps p) ∧
  (∀ p, m_missed m' !! p = if decide (p ∈ paths (m_snaps m) ∧ fresh_of snaps !! p = None ∧ absent m p <= maxMissedTicks) then Some (absent m p) else None).
Proof.
  intros Hd. cbn zeta. unfold applySnapshots. destruct (keep _ _ _ _) as [[kept missed] left] eqn:Ek.
  destruct (fresh_of_spec snaps) as (F1 & _ & _). destruct (keep_spec _ _ _ _ _ _ _ Hd F1 Ek) as (K1 & K2 & K3 & K4).
  set (m1 := with_fleet _ _). destruct (seen_fleet (resolveSelection m1)) as (-> & _). destruct (resolve_fleet m1) as (-> & _ & -> & _). cbn.
  assert (by_path left) as Hl. { intros p s. rewrite K2. case_decide; [done|]. apply F1. }
  assert (NoDup (paths (kept ++ (map_to_list left).*2))) as Hn.
  { unfold paths. rewrite fmap_app. change (NoDup (paths kept ++ paths ((map_to_list left).*2))). rewrite paths_values by done.
    apply NoDup_app. split_and!; [by eapply sublist_NoDup|..|apply NoDup_fst_map_to_list].
    intros p Hp ([q s] & -> & H%elem_of_map_to_list)%list_elem_of_fmap. cbn in Hp. rewrite K2 in H. case_decide; [done|].
    eapply elem_of_sublist in K1; [|exact Hp]. done. }
  split_and!.
  - unfold paths. by rewrite sortSnaps_perm.
  - apply sortSnaps_sorted.
  - intros p. rewrite (snap_at_perm p _ (kept ++ (map_to_list left).*2)) by (unfold paths; by rewrite ?sortSnaps_perm).
    rewrite snap_at_app, K3, snap_at_values, K2 by done. unfold after_fetch, absent.
    destruct (snap_at p (m_snaps m)) as [s|] eqn:Es; cbn.
    + rewrite decide_True; [by repeat case_match|]. destruct (decide (p ∈ paths (m_snaps m))) as [|Hp]; [done|]. apply snap_at_None in Hp. congruence.
    + apply snap_at_None in Es. rewrite decide_False by done. by destruct (fresh_of snaps !! p).
  - intros p. rewrite K4. by rewrite lookup_empty.
Qed.

(** ** The logs *)

Lemma accumulate_nil log ring : accumulate log ring = [] → log = [].
Proof.
  unfold accumulate. destruct (add_new _ ring) as [|r add]; [done|]. cbv zeta.
  destruct (Nat.ltb_spec refusalCap (length (log ++ r :: add))) as [Hl|_]; [|by destruct log].
  intros H%(f_equal length). unfold lastn in H. rewrite length_drop in H. unfold refusalCap in *. cbn in H. lia.
Qed.
Lemma accumulate_cap log ring : (length log <= refusalCap)%nat → (length (accumulate log ring) <= refusalCap)%nat.
Proof.
  intros Hl. unfold accumulate. destruct (add_new _ ring) as [|r add]; [done|]. cbv zeta.
  destruct (Nat.ltb_spec refusalCap (length (log ++ r :: add))); [|lia]. unfold lastn. rewrite length_drop. lia.
Qed.
Definition log_at (p : string) (ls : gmap string (list Refusal)) : list Refusal := default [] (ls !! p).
Definition tight (ls : gmap string (list Refusal)) : Prop := ∀ p, ls !! p ≠ Some [].
Lemma put_log_at q log ls p :
  log ≠ [] ∨ log_at q ls = [] → log_at p (put_log q log ls) = if String.eqb q p then log else log_at p ls.
Proof.
  unfold log_at, put_log. intros Hn. destruct log as [|r log].
  - destruct Hn as [|Hn]; [done|]. destruct (String.eqb_spec q p) as [->|]; [by rewrite Hn|done].
  - rewrite lookup_insert. by destruct (String.eqb_spec q p); case_decide.
Qed.
Lemma put_log_tight q log ls : tight ls → tight (put_log q log ls).
Proof. intros H p. destruct log; cbn; [apply H|]. rewrite lookup_insert. case_decide; [done|apply H]. Qed.
(** What was known of a path that is kept, and each answer's ring on top. *)
Lemma known_logs old kept p : NoDup (paths kept) →
  let ls := foldl (λ out s, put_log (sn_Path s) (default [] (old !! sn_Path s)) out) ∅ kept in
  log_at p ls = (if decide (p ∈ paths kept) then log_at p old else []) ∧ tight ls ∧ dom ls ⊆ list_to_set (paths kept).
Proof.
  induction kept as [|s kept IH] using rev_ind; intros Hd; cbn zeta; [cbn; split_and!; [unfold log_at; rewrite lookup_empty; case_decide; [set_solver|done]|intros q; by rewrite lookup_empty|set_solver]|].
  unfold paths in *. rewrite fmap_app in *. apply NoDup_app in Hd as (Hd & Hs & _). rewrite foldl_app. cbn [foldl]. destruct (IH Hd) as (I1 & I2 & I3).
  cbn zeta in *. split_and!.
  - rewrite put_log_at.
    + destruct (String.eqb_spec (sn_Path s) p) as [<-|Hn]; [by rewrite decide_True by (cbn; set_solver)|]. rewrite I1. cbn. repeat case_decide; set_solver.
    + right. unfold log_at. destruct (_ !! sn_Path s) eqn:E; [|done]. exfalso. apply (Hs (sn_Path s)); [|set_solver].
      apply elem_of_dom_2 in E. set_solver.
  - by apply put_log_tight.
  - unfold put_log. destruct (default [] _); [set_solver|]. rewrite dom_insert_L. set_solver.
Qed.
Definition fold_log (p : string) (snaps : list Snap) (log : list Refusal) : list Refusal :=
  foldl (λ log s, if String.eqb (sn_Path s) p then accumulate log (st_RecentRefusals (sn_State s)) else log) log snaps.
Lemma merged_logs snaps ls p : tight ls →
  let ls' := foldl (λ out s, put_log (sn_Path s) (accumulate (default [] (out !! sn_Path s)) (st_RecentRefusals (sn_State s))) out) ls snaps in
  log_at p ls' = fold_log p snaps (log_at p ls) ∧ tight ls' ∧ dom ls' ⊆ dom ls ∪ list_to_set (paths snaps).
Proof.
  intros Ht. induction snaps as [|s snaps IH] using rev_ind; cbn zeta; [cbn; split_and!; [done|done|set_solver]|].
  unfold fold_log, paths. rewrite !foldl_app, fmap_app. cbn [foldl]. destruct IH as (I1 & I2 & I3). cbn zeta in *. split_and!.
  - rewrite put_log_at.
    + destruct (String.eqb_spec (sn_Path s) p) as [<-|Hn]; [|done]. unfold fold_log in I1. by rewrite <- I1.
    + destruct (accumulate _ _) eqn:E; [|by left]. right. by apply accumulate_nil in E.
  - by apply put_log_tight.
  - unfold put_log. destruct (accumulate _ _); [set_solver|]. rewrite dom_insert_L. set_solver.
Qed.
Lemma apply_logs snaps problems at_ m p :
  NoDup (paths (m_snaps m)) →
  let m' := applySnapshots env snaps problems at_ m in
  log_at p (m_refusals m') = fold_log p (usable snaps) (if decide (p ∈ paths (m_snaps m')) then log_at p (m_refusals m) else []) ∧
  tight (m_refusals m') ∧ dom (m_refusals m') ⊆ list_to_set (paths (m_snaps m')).
Proof.
  intros Hd. cbn zeta. pose proof (apply_list snaps problems at_ m Hd) as HA. cbn zeta in HA. revert HA.
  unfold applySnapshots. destruct (keep _ _ _ _) as [[kept missed] left] eqn:Ek.
  set (m1 := with_fleet _ _). destruct (seen_fleet (resolveSelection m1)) as (-> & _ & _ & _ & -> & _).
  destruct (resolve_fleet m1) as (-> & _ & _ & -> & _). cbn. set (k := sortSnaps env _). intros (Hn & _ & Hp & _).
  unfold mergeRefusals. destruct (known_logs (m_refusals m) k p Hn) as (G1 & G2 & G3).
  destruct (merged_logs (usable snaps) _ p G2) as (H1 & H2 & H3). rewrite H1, G1. split_and!; [done|done|].
  intros q [Hq|Hq]%H3%elem_of_union; [by apply G3|]. apply elem_of_list_to_set, list_elem_of_fmap in Hq as (s & -> & Hs).
  apply elem_of_list_to_set. destruct (decide (sn_Path s ∈ paths k)) as [|Ho]; [done|]. apply snap_at_None in Ho. rewrite Hp in Ho.
  unfold after_fetch in Ho. apply elem_of_omap in Hs as ([x|] & Hx & Hs); [|done]. cbn in Hs. destruct (sn_Usable x) eqn:Eu; [|done]. injection Hs as ->.
  destruct (fresh_of_spec snaps) as (_ & _ & F3). destruct (F3 s Hx Eu) as [f Hf]. by rewrite Hf in Ho.
Qed.

(** ** A session *)

Definition Updates (xs : list msg) (m : Model) : Model := foldl (λ m x, fst (Update env x m)) m xs.
Definition is_snapshots (x : msg) : bool := match x with SnapshotsMsg _ _ _ => true | _ => false end.
Lemma effect_kept m r : effect m r → m_snaps (fst r) = m_snaps m ∧ m_missed (fst r) = m_missed m ∧ m_refusals (fst r) = m_refusals m ∧ m_conf (fst r) = m_conf m.
Proof. intros [m' Hq| |m' Hq|m' pr Hq|_]; cbn; try done; destruct Hq as ((_&_&_&_&_&_&_&?) & ? & _ & _ & ? & ? & _); done. Qed.
Lemma other_kept x m : is_snapshots x = false → let m' := fst (Update env x m) in
  m_snaps m' = m_snaps m ∧ m_missed m' = m_missed m ∧ m_refusals m' = m_refusals m ∧ m_conf m' = m_conf m.
Proof.
  intros Hx. cbn zeta. destruct x; try done; cbn.
  - apply effect_kept, key_effect.
  - by destruct (wantFetch _).
  - unfold applyDoctorDone. destruct (negb _); [done|]. destruct (quiet_reveal env (with_doctor (MkDoctor doctorDone (d_gen (m_doctor m)) None (d_since (m_doctor m)) (d_probe (m_doctor m)) (d_frame (m_doctor m)) (d_restore (m_doctor m)) report ranAt elapsed None (d_cursor (m_doctor m)) (d_expanded (m_doctor m))) m)) as ((_&_&_&_&_&_&_&?) & ? & _ & _ & ? & ? & _). done.
  - unfold applyDoctorFailed. by destruct (negb _).
  - unfold tickDoctor. by destruct (negb _).
  - unfold tickFlash. by destruct (_ || _).
Qed.

(** How many fetches in a row a path has missed, from its first answer on. *)
Definition answers (p : string) (snaps : list (option Snap)) : bool := existsb (λ s, String.eqb (sn_Path s) p) (usable snaps).
Definition misses (p : string) (k : option Z) (x : msg) : option Z :=
  match x with SnapshotsMsg snaps _ _ => if answers p snaps then Some 0 else Z.succ <$> k | _ => k end.
Fixpoint lasts (p : string) (k : option Z) (xs : list msg) : bool :=
  match xs with
  | [] => true
  | x :: xs => (match misses p k x with Some n => n <=? maxMissedTicks | None => true end) && lasts p (misses p k x) xs
  end.
Definition tracks (p : string) (k : option Z) (m : Model) : Prop :=
  NoDup (paths (m_snaps m)) ∧ match k with None => p ∉ paths (m_snaps m) | Some n => p ∈ paths (m_snaps m) ∧ default 0 (m_missed m !! p) = n end.
Lemma answers_iff p snaps : answers p snaps = true ↔ is_Some (fresh_of snaps !! p).
Proof.
  destruct (fresh_of_spec snaps) as (F1 & F2 & F3). unfold answers. rewrite existsb_exists. split.
  - intros (s & Hs%list_elem_of_In & <-%String.eqb_eq). apply elem_of_omap in Hs as ([x|] & Hx & Hs); [|done]. cbn in Hs.
    destruct (sn_Usable x) eqn:Eu; [|done]. injection Hs as ->. eauto.
  - intros [s Hs]. exists s. split; [|apply String.eqb_eq; by apply F1]. apply list_elem_of_In. destruct (F2 p s Hs) as [Hu Hin].
    apply elem_of_omap. exists (Some s). cbn. by rewrite Hu.
Qed.
Lemma tracks_step p k x m :
  tracks p k m → (match misses p k x with Some n => n <= maxMissedTicks | None => True end) → tracks p (misses p k x) (fst (Update env x m)).
Proof.
  intros [Hd Hk] Hm. destruct (is_snapshots x) eqn:Hx.
  2: { destruct (other_kept x m Hx) as (H1 & H2 & _). unfold tracks. rewrite H1, H2. by destruct x. }
  destruct x as [| | |snaps problems at_| | | |]; try done. cbn [Update fst misses] in *. destruct (apply_list snaps problems at_ m Hd) as (A1 & _ & A3 & A4).
  split; [done|]. assert (∀ q, q ∈ paths (m_snaps (applySnapshots env snaps problems at_ m)) ↔ after_fetch m snaps q ≠ None) as Hin.
  { intros q. rewrite <- A3. destruct (decide (q ∈ paths (m_snaps (applySnapshots env snaps problems at_ m)))) as [Hq|Hq].
    - split; [|done]. intros _ H%snap_at_None. done.
    - split; [done|]. intros H. apply snap_at_None in Hq. done. }
  unfold after_fetch in Hin. specialize (Hin p). specialize (A4 p). destruct (answers p snaps) eqn:Ea.
  - apply answers_iff in Ea as [s Hs]. rewrite Hs in Hin. rewrite Hin, A4, decide_False; [done|]. intros (_ & H & _). congruence.
  - destruct (fresh_of snaps !! p) as [s|] eqn:Hs; [exfalso; assert (answers p snaps = true) by (apply answers_iff; by exists s); congruence|].
    destruct k as [n|]; cbn in *.
    + destruct Hk as [Hp Hn]. unfold absent in *. rewrite Hn in *. rewrite (proj2 (Z.ltb_ge _ _)) in Hin by lia.
      rewrite A4, decide_True by (split_and!; [done|done|lia]). split; [|cbn; lia]. apply Hin. destruct (snap_at p (m_snaps m)) eqn:E; [done|]. by apply snap_at_None in E.
    + rewrite Hin. rewrite (proj2 (snap_at_None _ _) Hk). cbn. tauto.
Qed.
Lemma lasts_cons p k x xs : lasts p k (x :: xs) = true → (match misses p k x with Some n => n <= maxMissedTicks | None => True end) ∧ lasts p (misses p k x) xs = true.
Proof. cbn. intros [H1 H2]%andb_true_iff. split; [|done]. destruct (misses p k x); [lia|done]. Qed.
Lemma apply_conf snaps problems at_ m : m_conf (applySnapshots env snaps problems at_ m) = m_conf m.
Proof. by destruct (apply_quiet env snaps problems at_ m) as (_&_&_&_&_&_&_&?). Qed.
Lemma selectedIndex_iff m : selectedIndex m ≠ None ↔ m_selected m ∈ paths (m_snaps m).
Proof.
  unfold selectedIndex, paths. induction (m_snaps m) as [|s l IH]; cbn; [set_solver|]. destruct (String.eqb_spec (sn_Path s) (m_selected m)) as [E|E]; [set_solver|].
  rewrite elem_of_cons, <- IH. destruct (index_of _ l) as [i|]; cbn; naive_solver.
Qed.
(** Where a fetch leaves the selection: the pinned VM's daemon the first time it
    answers, the same path while it is listed, and the first of the list. *)
Lemma apply_selected snaps problems at_ m :
  let m' := applySnapshots env snaps problems at_ m in
  let pin := if f_pinned (m_fleet m) || String.eqb (c_pinProvider (m_conf m)) "" then None
             else find (matchesVM (c_pinProvider (m_conf m)) (c_pinInstance (m_conf m)) (op_VM (c_opts (m_conf m)))) (m_snaps m') in
  m_selected m' = match pin with
                  | Some s => sn_Path s
                  | None => if decide (m_selected m ∈ paths (m_snaps m')) then m_selected m
                            else match m_snaps m' with [] => "" | s :: _ => sn_Path s end
                  end ∧
  f_pinned (m_fleet m') = f_pinned (m_fleet m) || match pin with Some _ => true | None => false end.
Proof.
  cbn zeta. unfold applySnapshots. destruct (keep _ _ _ _) as [[kept missed] left]. set (m1 := with_fleet _ _).
  destruct (seen_fleet (resolveSelection m1)) as (-> & _). destruct (resolve_fleet m1) as (-> & _).
  unfold resolveSelection. change (m_conf m1) with (m_conf m). change (f_pinned (m_fleet m1)) with (f_pinned (m_fleet m)).
  destruct (if _ || _ then None else find _ (m_snaps m1)) as [s|] eqn:Ep.
  { cbn. split; [done|]. by rewrite orb_true_r. }
  rewrite orb_false_r. pose proof (selectedIndex_iff m1) as Hs. change (m_selected m1) with (m_selected m) in Hs.
  destruct (selectedIndex m1) as [i|]; [by rewrite decide_True by (by apply Hs)|]. rewrite decide_False by (by intros ?%Hs). cbn. by destruct (m_snaps m1).
Qed.
Lemma quiet_pinned_key x m : by_user x = false → is_snapshots x = false →
  m_selected (fst (Update env x m)) = m_selected m ∧ f_pinned (m_fleet (fst (Update env x m))) = f_pinned (m_fleet m).
Proof.
  intros H1 H2. destruct x; try done; cbn.
  - by destruct (wantFetch _).
  - unfold applyDoctorDone. destruct (negb _); [done|]. unfold revealCursor. destruct (negb _); [done|]. destruct (doctorRows _). destruct (_ <? 0); [done|]. by destruct (_ !! _).
  - unfold applyDoctorFailed. by destruct (negb _).
  - unfold tickDoctor. by destruct (negb _).
  - unfold tickFlash. by destruct (_ || _).
Qed.
(** A daemon that is selected, with no pin left to honour. *)
Definition settled (m : Model) : Prop := f_pinned (m_fleet m) = true ∨ c_pinProvider (m_conf m) = "".
Lemma settled_pin m A (x : option A) : settled m → (if f_pinned (m_fleet m) || String.eqb (c_pinProvider (m_conf m)) "" then None else x) = None.
Proof. intros [->| ->]; [done|]. cbn. by rewrite orb_true_r. Qed.
Lemma sticks p : ∀ xs k m,
  tracks p (Some k) m → m_selected m = p → settled m → forallb (λ x, match x with KeyMsg _ => false | _ => true end) xs = true → lasts p (Some k) xs = true →
  m_selected (Updates xs m) = p ∧ tracks p (foldl (misses p) (Some k) xs) (Updates xs m) ∧ settled (Updates xs m).
Proof.
  induction xs as [|x xs IH]; intros k m Ht Hs Hp Hx Hl; [done|]. cbn [forallb] in Hx. apply andb_true_iff in Hx as [Hk Hx].
  apply lasts_cons in Hl as [Hm Hl]. pose proof (tracks_step p _ x m Ht Hm) as Ht'.
  assert (m_selected (fst (Update env x m)) = p ∧ settled (fst (Update env x m))) as [Hs' Hp'].
  { destruct x as [w h|key| |snaps problems at_| | | |]; try done;
      try (match goal with |- context [Update env ?x m] => destruct (quiet_pinned_key x m eq_refl eq_refl) as (E1 & E2); pose proof (other_kept x m eq_refl) as (_&_&_&E3) end;
      unfold settled; by rewrite E1, E2, E3).
    cbn [Update fst] in *. destruct (apply_selected snaps problems at_ m) as [S1 S2]. rewrite settled_pin in S1, S2 by done.
    split; [|unfold settled; rewrite S2, apply_conf, orb_false_r; done]. rewrite S1, Hs. rewrite decide_True; [done|].
    destruct Ht' as [_ Ht']. cbn in Ht'. destruct (answers p snaps); tauto. }
  assert (∃ n, misses p (Some k) x = Some n) as [n Hn] by (destruct x; cbn; eauto; destruct (answers p snaps); eauto).
  cbn [Updates foldl]. rewrite Hn in *. by apply (IH n).
Qed.
(** Its log is what its rings showed. *)
Definition rings (p : string) (snaps : list (option Snap)) : list (list Refusal) :=
  (λ s, st_RecentRefusals (sn_State s)) <$> filter (λ s, sn_Path s = p) (usable snaps).
Definition reads (p : string) (xs : list msg) : list (list Refusal) := mjoin ((λ x, match x with SnapshotsMsg snaps _ _ => rings p snaps | _ => [] end) <$> xs).
Lemma fold_log_rings p snaps log : fold_log p (usable snaps) log = foldl accumulate log (rings p snaps).
Proof.
  unfold fold_log, rings. revert log. induction (usable snaps) as [|s l IH]; intros log; [done|]. cbn [foldl].
  destruct (String.eqb_spec (sn_Path s) p); [rewrite filter_cons_True by done|rewrite filter_cons_False by done]; apply IH.
Qed.
Lemma rings_nil p snaps : answers p snaps = false → rings p snaps = [].
Proof.
  unfold answers, rings. induction (usable snaps) as [|s l IH]; [done|]. cbn [existsb]. destruct (String.eqb_spec (sn_Path s) p); [done|].
  rewrite filter_cons_False by done. apply IH.
Qed.
Lemma logs_follow p : ∀ xs k m,
  tracks p k m → (k = None → log_at p (m_refusals m) = []) → lasts p k xs = true → log_at p (m_refusals (Updates xs m)) = foldl accumulate (log_at p (m_refusals m)) (reads p xs).
Proof.
  induction xs as [|x xs IH]; intros k m Ht H0 Hl; [done|]. apply lasts_cons in Hl as [Hm Hl]. pose proof (tracks_step p k x m Ht Hm) as Ht'.
  unfold reads. rewrite fmap_cons. cbn [mjoin list_join Updates foldl]. rewrite foldl_app.
  destruct (is_snapshots x) eqn:Hx.
  2: { destruct (other_kept x m Hx) as (_ & _ & E & _). rewrite <- E in *. destruct x; try done; by apply (IH k). }
  destruct x as [| | |snaps problems at_| | | |]; try done. cbn [Update fst] in *. destruct Ht as [Hd Hk].
  destruct (apply_logs snaps problems at_ m p Hd) as (L1 & _ & L3). rewrite fold_log_rings in L1.
  etrans; [apply (IH _ _ Ht'); [intros HN|done]|].
  2: { fold (reads p xs). f_equal. rewrite L1. f_equal. destruct (decide (p ∈ paths (m_snaps (applySnapshots env snaps problems at_ m)))) as [|Hn]; [done|].
    destruct k as [n|]; [|by rewrite H0]. destruct Ht' as [_ Ht']. cbn in Ht'. destruct (answers p snaps); tauto. }
  rewrite HN in Ht'. destruct Ht' as [_ Ht']. unfold log_at. cbn [Update fst]. destruct (m_refusals (applySnapshots env snaps problems at_ m) !! p) eqn:E; [|reflexivity]. destruct Ht'. apply elem_of_dom_2 in E. apply L3 in E. set_solver.
Qed.
End fleet.

Section session.
Variables env buildVersion colima_home : string.
Variable opts : Options.
Variable now : Z.
#[local] Abbreviation start := (newModel buildVersion colima_home opts now).

Lemma new_empty : m_snaps start = [] ∧ m_refusals start = ∅.
Proof. unfold newModel. by destruct (if String.eqb _ _ then _ else _). Qed.
Lemma updates_nodup xs m : NoDup (paths (m_snaps m)) → NoDup (paths (m_snaps (Updates env xs m))).
Proof.
  revert m. induction xs as [|x xs IH]; intros m Hd; [done|]. apply IH. destruct (is_snapshots x) eqn:Hx.
  - destruct x; try done. by apply apply_list.
  - by destruct (other_kept env x m Hx) as (-> & _).
Qed.
Definition no_key (x : msg) : bool := match x with KeyMsg _ => false | _ => true end.
Definition absence (p : string) (m : Model) : Z := default 0 (m_missed m !! p).

(** The view stays on its daemon. Once selected, and with no pin left to
    honour, a daemon stays selected and listed through anything but a key, for
    as long as no 31 fetches in a row miss it; and at the 31st it is dropped,
    and the first daemon of the list takes its place. *)
Theorem selection_sticks ys xs p :
  let m := Updates env ys start in let m' := Updates env xs m in
  m_selected m = p → p ∈ paths (m_snaps m) → settled m → forallb no_key xs = true → lasts p (Some (absence p m)) xs = true →
  m_selected m' = p ∧ p ∈ paths (m_snaps m') ∧
  (∀ snaps problems at_, answers p snaps = false → absence p m' = maxMissedTicks →
     let m'' := applySnapshots env snaps problems at_ m' in
     (p ∉ paths (m_snaps m'')) ∧ m_selected m'' = match m_snaps m'' with [] => "" | s :: _ => sn_Path s end).
Proof.
  intros m m' Hs Hp Hset Hk Hl.
  assert (NoDup (paths (m_snaps m))) as Hd by (apply updates_nodup; rewrite (proj1 new_empty); constructor).
  destruct (sticks env p xs (absence p m) m (conj Hd (conj Hp eq_refl)) Hs Hset Hk Hl) as (S1 & S2 & S3). fold m' in S1, S2, S3.
  assert (p ∈ paths (m_snaps m')) as Hp'.
  { destruct S2 as [_ S2]. assert (∀ xs n, ∃ n', foldl (misses p) (Some n) xs = Some n') as Hn.
    { clear. induction xs as [|x xs IH]; intros n; cbn; [eauto|]. destruct x; cbn; auto. destruct (answers p snaps); auto. }
    destruct (Hn xs (absence p m)) as [n' ->] in S2. by destruct S2. }
  split_and!; [done|done|]. intros snaps problems at_ Ha Hm. cbn zeta. destruct S2 as [Hd' _].
  destruct (apply_list env snaps problems at_ m' Hd') as (_ & _ & A & _).
  assert (p ∉ paths (m_snaps (applySnapshots env snaps problems at_ m'))) as Hout.
  { apply snap_at_None. rewrite A. unfold after_fetch, absent. fold (absence p m'). rewrite Hm.
    destruct (fresh_of snaps !! p) as [s|] eqn:E; [|by destruct (snap_at p _)]. assert (answers p snaps = true) by (apply answers_iff; by exists s). congruence. }
  split; [done|]. destruct (apply_selected env snaps problems at_ m') as [-> _]. rewrite settled_pin, S1 by done. by rewrite decide_False.
Qed.

(** C26: a daemon's log is what its rings have shown since the first fetch, once
    each, in the daemon's order, the oldest dropped past the cap, whatever keys
    are pressed in between and for as long as no 31 fetches in a row miss it;
    with no more than a ring's worth of refusals between two answers, none after
    the first ring is missing. *)
Theorem log_complete xs p h ns :
  NoDup (refusalKey <$> h) → ascending 0 ns → (∀ n, n ∈ ns → (n <= length h)%nat) →
  reads p xs = ring_at h <$> ns → lasts p None xs = true →
  log_at p (m_refusals (Updates env xs start)) = lastn refusalCap (segments 0 h ns) ∧
  (∀ m n1 ms, ns = n1 :: ms → last ns = Some m →
     (∀ i a b, ns !! i = Some a → ns !! S i = Some b → (b - a <= RingSize)%nat) →
     log_at p (m_refusals (Updates env xs start)) = lastn refusalCap (drop (n1 - RingSize) (take m h))).
Proof.
  intros Hd HA HB HR HL. destruct (observe_all h ns Hd HA HB) as [O1 O2].
  assert (log_at p (m_refusals (Updates env xs start)) = lastn refusalCap (segments 0 h ns)) as H.
  { rewrite (logs_follow env p xs None); [| |intros _|done].
    - rewrite HR, <- O1. destruct new_empty as [_ ->]. unfold log_at. rewrite lookup_empty. cbn. generalize (@nil Refusal). clear.
      induction ns as [|n ns IH]; intros log; [done|]. cbn. apply IH.
    - split; [rewrite (proj1 new_empty); constructor|]. rewrite (proj1 new_empty). apply not_elem_of_nil.
    - unfold log_at. by destruct new_empty as [_ ->]. }
  split; [done|]. intros m n1 ms Hns Hm Hg. rewrite H. f_equal. by eapply O2.
Qed.
End session.

Definition ex_state (rs : list Refusal) : State :=
  let s := frozen_state 1 "v2" in
  MkState 1 "v2" 7 501 0 (st_VM s) "" (st_Resolution s) (st_Auth s) (st_Mirror s) (st_Sync s) rs.
Definition ex_snap (p : string) (rs : list Refusal) : option Snap := Some (MkSnap p (ex_state rs) true).
Definition ex_history : list Refusal := [MkRefusal 1 "auth-mismatch" "a"; MkRefusal 2 "auth-mismatch" "b"; MkRefusal 3 "mirror-skip" "c"].
Definition ex_fetch (t : Z) (n : nat) : msg := SnapshotsMsg [ex_snap "/u/b.sock" (take n ex_history); ex_snap "/u/a.sock" []] [] t.
(** Selected by the first fetch, kept when it does not answer and another does. *)
Lemma selection_sticks_witness :
  let ys := [ex_fetch 1 1; KeyMsg "tab"] in let xs := [SnapshotsMsg [ex_snap "/u/a.sock" []] [] 2; TickMsg 3] in
  let m := Updates "" ys (newModel "dev" "" (MkOptions "" ex_pass "v1") 0) in
  m_selected m = "/u/b.sock" ∧ m_selected (Updates "" xs m) = "/u/b.sock".
Proof.
  cbv zeta. split; [vm_compute; reflexivity|].
  refine (proj1 (selection_sticks "" "dev" "" (MkOptions "" ex_pass "v1") 0 [ex_fetch 1 1; KeyMsg "tab"]
    [SnapshotsMsg [ex_snap "/u/a.sock" []] [] 2; TickMsg 3] "/u/b.sock" _ _ _ _ _)).
  - vm_compute. reflexivity.
  - vm_compute. right. left.
  - left. vm_compute. reflexivity.
  - reflexivity.
  - vm_compute. reflexivity.
Defined.
Lemma log_complete_witness :
  let xs := [ex_fetch 1 1; KeyMsg "r"; SnapshotsMsg [] [] 2; ex_fetch 3 3] in
  log_at "/u/b.sock" (m_refusals (Updates "" xs (newModel "dev" "" (MkOptions "" ex_pass "v1") 0))) = ex_history.
Proof.
  cbv zeta. refine (proj1 (log_complete "" "dev" "" (MkOptions "" ex_pass "v1") 0 [ex_fetch 1 1; KeyMsg "r"; SnapshotsMsg [] [] 2; ex_fetch 3 3] "/u/b.sock"
    ex_history [1; 3]%nat _ _ _ _ _)).
  - apply (bool_decide_unpack _). vm_compute. exact I.
  - cbn. lia.
  - intros n Hn. cbn. set_solver by lia.
  - vm_compute. reflexivity.
  - vm_compute. reflexivity.
Defined.

(** ** The daemons in the order the keys walk them *)

Section order.
Variable env : string.

Lemma rival_in l r x y : rival env l r = Some (x, y) → x = r ∧ y ∈ l ∧ is_root env (sn_Path x) = true ∧ is_root env (sn_Path y) = false.
Proof.
  unfold rival. destruct (is_root env (sn_Path r)) eqn:Er; cbn [negb orb]; [|done]. destruct (String.eqb _ ""); [done|].
  destruct (find _ l) as [u|] eqn:E; [|done]. intros [= <- <-]. apply find_some in E as [Hu%list_elem_of_In [Hn _]%andb_true_iff]. apply negb_true_iff in Hn. done.
Qed.
Lemma fighting_in l x y : fightingPair env l = Some (x, y) → x ∈ l ∧ y ∈ l ∧ is_root env (sn_Path x) = true ∧ is_root env (sn_Path y) = false.
Proof.
  unfold fightingPair. intros H. assert ((x, y) ∈ omap (rival env l) l) as (r & Hr & E)%elem_of_omap.
  { destruct (omap _ l) as [|z k]; [done|]. injection H as ->. left. }
  apply rival_in in E as (-> & ? & ? & ?). done.
Qed.
Lemma pulled_perm (root user : Snap) (l : list Snap) :
  NoDup (paths l) → root ∈ l → user ∈ l → sn_Path root ≠ sn_Path user →
  mjoin ((λ s, if String.eqb (sn_Path s) (sn_Path user) then [] else if String.eqb (sn_Path s) (sn_Path root) then [s; user] else [s]) <$> l) ≡ₚ l.
Proof.
  set (f := λ s, _). intros Hd Hr Hu Hn.
  assert (∀ s, s ∈ l → sn_Path s = sn_Path user → s = user) as Hsu.
  { intros s Hs He. pose proof (snap_at_unique _ l s Hd Hs He) as E1. pose proof (snap_at_unique _ l user Hd Hu eq_refl) as E2. congruence. }
  apply list_elem_of_split in Hu as (a & b & ->). assert (∀ s, s ∈ a ++ b → sn_Path s ≠ sn_Path user) as Hoff.
  { intros s Hs He. unfold paths in Hd. rewrite fmap_app, fmap_cons in Hd. apply NoDup_app in Hd as (_ & H1 & H2). apply NoDup_cons in H2 as [H2 _].
    apply elem_of_app in Hs as [Hs|Hs]; [apply (H1 (sn_Path user)); [rewrite <- He; by apply list_elem_of_fmap_2|left]|].
    apply H2. rewrite <- He. by apply list_elem_of_fmap_2. }
  assert (∀ k, (∀ s, s ∈ k → sn_Path s ≠ sn_Path user) → mjoin (f <$> k) ≡ₚ k ++ replicate (count (λ s, String.eqb (sn_Path s) (sn_Path root)) k) user) as Hk.
  { induction k as [|s k IH]; intros H; [done|]. rewrite fmap_cons, count_cons. cbn [mjoin list_join]. rewrite IH by (intros x Hx; apply H; by right).
    unfold f. rewrite (proj2 (String.eqb_neq _ _)) by (apply H; left). destruct (String.eqb _ _); cbn; [|done]. f_equiv. by rewrite Permutation_middle. }
  assert (f user = []) as Hfu by (unfold f; by rewrite String.eqb_refl).
  rewrite fmap_app, fmap_cons, join_app. cbn [mjoin list_join]. rewrite Hfu, !Hk by (intros s Hs; apply Hoff; set_solver). cbn [app].
  assert (count (λ s, String.eqb (sn_Path s) (sn_Path root)) (a ++ b) = 1%nat) as Hc.
  { assert (root ∈ a ++ b) as Hin by (apply elem_of_app; apply elem_of_app in Hr as [?|[->|?]%elem_of_cons]; [by left|done|by right]).
    assert (NoDup (paths (a ++ b))) as Hdab by (eapply sublist_NoDup; [exact Hd|]; apply fmap_sublist, sublist_app; [done|by apply sublist_cons]).
    apply list_elem_of_split in Hin as (c & d & Hcd). rewrite Hcd in *. unfold paths in Hdab. rewrite fmap_app, fmap_cons in Hdab.
    apply NoDup_app in Hdab as (_ & H1 & H2). apply NoDup_cons in H2 as [H2 _]. rewrite count_app, count_cons, String.eqb_refl, !count_none; [done|..].
    - intros s Hs. apply String.eqb_neq. intros He. apply H2. rewrite <- He. by apply list_elem_of_fmap_2.
    - intros s Hs. apply String.eqb_neq. intros He. apply (H1 (sn_Path root)); [rewrite <- He; by apply list_elem_of_fmap_2|left]. }
  rewrite count_app in Hc. destruct (count _ a) as [|[|]], (count _ b) as [|[|]]; try lia; cbn; rewrite ?app_nil_r, ?Permutation_middle; [|by rewrite <- app_assoc].
  f_equiv. by rewrite Permutation_app_comm.
Qed.
(** Every daemon has one row, whoever is fighting. *)
Lemma ordered_perm m : NoDup (paths (m_snaps m)) → orderedSnaps env m ≡ₚ m_snaps m.
Proof.
  intros Hd. unfold orderedSnaps. destruct (fightingPair env (answering m)) as [[root user]|] eqn:E; [|done].
  apply fighting_in in E as (Hr & Hu & H1 & H2). destruct (Nat.eqb _ _); [|done]. unfold answering in *.
  apply list_elem_of_filter in Hr as [_ Hr], Hu as [_ Hu]. apply pulled_perm; try done. intros He. rewrite He in H1. congruence.
Qed.
Lemma selectable_ordered m : selectableRows env m = orderedSnaps env m.
Proof.
  unfold selectableRows, daemonRows. rewrite !omap_app.
  assert (∀ l, omap selectable (RowDaemon <$> l) = l) as -> by (induction l as [|s l IH]; [done|]; cbn; by f_equal).
  assert (∀ l, omap selectable (RowSkewed <$> l) = []) as -> by (by induction l).
  assert (∀ l, omap selectable (RowUnreadable <$> l) = []) as -> by (by induction l). by rewrite !app_nil_r.
Qed.
Lemma index_at p (l : list Snap) j s : NoDup (paths l) → l !! j = Some s → sn_Path s = p → index_of (λ s, String.eqb (sn_Path s) p) l = Some j.
Proof.
  intros Hd. revert j. induction l as [|x l IH]; intros [|j] Hj Hp; try done; cbn in Hd; apply NoDup_cons in Hd as [Hx Hd]; cbn in *.
  - injection Hj as ->. by rewrite Hp, String.eqb_refl.
  - destruct (String.eqb_spec (sn_Path x) p) as [He|_]; [|by rewrite (IH Hd j Hj Hp)]. exfalso. apply Hx. rewrite He, <- Hp. apply list_elem_of_fmap_2. by eapply list_elem_of_lookup_2.
Qed.
Lemma selectPath_selects p m : m_selected (selectPath env p m) = p.
Proof. unfold selectPath. by rewrite (proj1 (seen_fleet _)). Qed.
(** From row [j], [tab] lands on the next row and [shift+tab] on the one before,
    around the end. *)
Lemma step_lands n m j s :
  NoDup (paths (m_snaps m)) → let rows := orderedSnaps env m in
  rows !! j = Some s → m_selected m = sn_Path s → - lenZ rows <= n →
  ∃ t, rows !! Z.to_nat ((Z.of_nat j + n) mod lenZ rows) = Some t ∧ m_selected (Tui.step env n m) = sn_Path t.
Proof.
  intros Hd. cbn zeta. intros Hj Hs Hn. unfold step. rewrite selectable_ordered.
  pose proof (lookup_lt_Some _ _ _ Hj) as Hlt. unfold lenZ in *.
  assert (NoDup (paths (orderedSnaps env m))) as Hdo by (unfold paths; rewrite ordered_perm by done; exact Hd).
  rewrite (index_at (m_selected m) (orderedSnaps env m) j s Hdo Hj (eq_sym Hs)). set (rows := orderedSnaps env m) in *.
  rewrite Z.rem_mod_nonneg by lia. replace ((Z.of_nat j + n + Z.of_nat (length rows)) mod _) with ((Z.of_nat j + n) mod Z.of_nat (length rows)) by (rewrite <- (Z_mod_plus_full _ 1); f_equal; lia).
  pose proof (Z.mod_pos_bound (Z.of_nat j + n) (Z.of_nat (length rows)) ltac:(lia)) as Hb.
  destruct (lookup_lt_is_Some_2 rows (Z.to_nat ((Z.of_nat j + n) mod Z.of_nat (length rows)))) as [t Ht]; [lia|].
  exists t. split; [done|]. destruct rows as [|r rows']; [cbn in Hlt; lia|]. rewrite Ht. apply selectPath_selects.
Qed.
End order.

(** ** The rows of the screen *)

Section rows.
Variable env : string.
Variable T : Text.

Lemma detail_rows m : lenZ (detailPane T m) = detailLines m ∧ 0 <= detailLines m <= 5.
Proof.
  unfold detailPane, detailLines. destruct (negb _ || negb _); [done|]. destruct (_ !! _) as [e|]; [|done].
  unfold entryDetailRows, entryRows, lenZ. destruct (String.eqb _ _) eqn:E; (split; [reflexivity|cbn; lia]).
Qed.
Lemma refusal_rows m : lenZ (refusalPane T m) = Z.max 0 (paneLines m).
Proof.
  unfold refusalPane. destruct (Z.leb_spec (paneLines m) 0) as [Hp|Hp]; [unfold lenZ; cbn; lia|].
  destruct (window _ _ _) as [first last]. unfold lenZ. rewrite length_take, !length_app, length_replicate. cbn [length]. lia.
Qed.
Lemma pane_bounds m : 0 <= paneLines m ∧ (minHeight <= s_height (m_screen m) → paneLines m + 5 <= s_height (m_screen m) - 1).
Proof.
  unfold paneLines. destruct (s_pane (m_screen m)); [unfold minHeight; lia|]. unfold minPaneLines, panePercent, minHeight. set (h := s_height _).
  split.
  - pose proof (Z.quot_pos (h * 40) 100). destruct (Z.le_gt_cases 0 h); lia.
  - intros H. rewrite Z.quot_div_nonneg by lia. pose proof (Z.div_le_mono (h * 40) (h * 40) 100). pose proof (Z.mul_div_le (h * 40) 100). lia.
Qed.
Lemma frame_rows body m : let pane := detailPane T m ++ refusalPane T m in
  ∃ top, frame T body m = top ++ pane ++ [t_footer T m] ∧ lenZ top = Z.max 0 (s_height (m_screen m) - 1 - lenZ pane).
Proof.
  cbn zeta. unfold frame. set (rows := Z.to_nat _). exists (take rows body ++ replicate (rows - length (take rows body)) (t_blank T)).
  split; [by rewrite <- !app_assoc|]. unfold rows, lenZ. rewrite !length_app, length_replicate, length_take. lia.
Qed.
(** With the smallest window the dashboard is drawn in, both strips fit above
    the footer. *)
Lemma frame_exact body m : minHeight <= s_height (m_screen m) →
  lenZ (frame T body m) = s_height (m_screen m) ∧
  ∃ top, frame T body m = top ++ detailPane T m ++ refusalPane T m ++ [t_footer T m].
Proof.
  intros H. destruct (frame_rows body m) as (top & -> & Ht). destruct (detail_rows m) as [Hd1 Hd2]. pose proof (refusal_rows m) as Hr.
  destruct (pane_bounds m) as [Hp1 Hp2]. unfold lenZ in *. rewrite !length_app in *. cbn [length]. split; [lia|]. exists top. by rewrite <- !app_assoc.
Qed.
Lemma overlay_rows bg card y : length (overlayCompose T bg card y) = length bg.
Proof. unfold overlayCompose. by rewrite length_imap. Qed.
Lemma too_small_rows m : 0 < s_height (m_screen m) → lenZ (tooSmallView T m) = s_height (m_screen m).
Proof. intros H. unfold tooSmallView, lenZ. rewrite length_take, !length_app, !length_replicate. cbn [length]. lia. Qed.

(** C40: every screen has exactly the window's height, whatever is open and
    however long its parts; and the dashboard, the doctor view and the switcher
    end in the whole detail strip, the whole refusals pane and the footer. *)
Theorem screen_rows m :
  0 < s_width (m_screen m) → 0 < s_height (m_screen m) →
  lenZ (View env T m) = s_height (m_screen m) ∧
  (minWidth <= s_width (m_screen m) → minHeight <= s_height (m_screen m) → s_overlay (m_screen m) ≠ overlayHelp →
   ∃ top, View env T m = top ++ detailPane T m ++ refusalPane T m ++ [t_footer T m] ∧
     lenZ (detailPane T m) = detailLines m ∧ lenZ (refusalPane T m) = paneLines m).
Proof.
  intros Hw Hh. unfold View. rewrite (proj2 (Z.leb_gt _ _)), (proj2 (Z.leb_gt _ 0)) by done. cbn [orb].
  destruct (Z.ltb_spec (s_width (m_screen m)) minWidth); [split; [by apply too_small_rows|lia]|].
  destruct (Z.ltb_spec (s_height (m_screen m)) minHeight) as [|HH]; [split; [by apply too_small_rows|lia]|]. cbn [orb].
  destruct (detail_rows m) as [Hd _]. pose proof (refusal_rows m) as Hr. rewrite Z.max_r in Hr by apply pane_bounds.
  assert (∀ body, lenZ (frame T body m) = s_height (m_screen m) ∧ ∃ top, frame T body m = top ++ detailPane T m ++ refusalPane T m ++ [t_footer T m] ∧
    lenZ (detailPane T m) = detailLines m ∧ lenZ (refusalPane T m) = paneLines m) as Hf.
  { intros body. destruct (frame_exact body m HH) as [H1 [top H2]]. split; [done|]. by exists top. }
  assert (∀ P : Prop, ∀ body, lenZ (frame T body m) = s_height (m_screen m) ∧ (P → ∃ top, frame T body m = top ++ detailPane T m ++ refusalPane T m ++ [t_footer T m] ∧
    lenZ (detailPane T m) = detailLines m ∧ lenZ (refusalPane T m) = paneLines m)) as Hg by (intros P body; split; [|intros _]; apply Hf).
  destruct (s_overlay (m_screen m)).
  - unfold doctorView, dashboardView. destruct (s_view _); [destruct (selectedSnap m)|]; (split; [apply Hf|intros _ _ _; apply Hf]).
  - split; [apply Hf|intros _ _ _; apply Hf].
  - split; [|done]. unfold helpView, lenZ. rewrite overlay_rows. unfold doctorView, dashboardView. destruct (s_view _); [destruct (selectedSnap m)|]; apply Hf.
Qed.
End rows.

Definition ex_text : Text :=
  MkText string "" "too small" (λ _, "footer") (λ _, ["header"]) (λ _, ["no daemon"]) (λ _, ["daemons"]) (λ _ _, ["summary"])
    (λ _ _ n, replicate (Z.to_nat n) "row") (λ _, ["running"]) (λ _, ["report"]) (λ _, ["failed"]) "idle" (λ _ _, "rule") (λ _ _, "state")
    (λ _ _, "meaning") (λ _ _, "try") (λ _ _, "traffic") (λ _, "refusals") (λ _, "none yet") rf_Line gr_line (λ _, ["keys"]) (λ _ c, c) (λ l, l).
Definition ex_new : Model := newModel "dev" "" (MkOptions "" ex_pass "v1") 0.
Lemma screen_rows_witness :
  let m := Updates "" [WindowSizeMsg 80 24; ex_fetch 1 3; KeyMsg "tab"; KeyMsg "r"] ex_new in
  lenZ (View "" ex_text m) = 24 ∧ ∃ top, View "" ex_text m = top ++ refusalPane ex_text m ++ ["footer"] ∧ lenZ (refusalPane ex_text m) = 9.
Proof.
  cbv zeta. set (m := Updates _ _ _). destruct (screen_rows "" ex_text m) as [H1 H2]; [vm_compute; reflexivity..|].
  split; [rewrite H1; vm_compute; reflexivity|]. destruct H2 as (top & H2 & H3 & H4); [vm_compute; discriminate..|]. exists top.
  split; [rewrite H2; vm_compute; reflexivity|]. rewrite H4. vm_compute. reflexivity.
Defined.

(** ** Layers in each other's way *)

(** The help card says [esc] closes it. Over the doctor view [esc] cancels the
    gather under it, or leaves the view, and the card stays; and the keys that
    would scroll the card move the cursor of the list under it. *)
Lemma help_over_doctor env m :
  s_overlay (m_screen m) = overlayHelp → s_view (m_screen m) = viewDoctor →
  let '(m', cs) := Update env (KeyMsg "esc") m in
  s_overlay (m_screen m') = overlayHelp ∧
  (if is_running m then cs = (match d_cancel (m_doctor m) with Some g => [Cancel g] | None => [] end) else s_view (m_screen m') = viewDashboard) ∧
  ∀ key, key ∈ ["j"; "k"; "pgdown"; "pgup"; "g"; "G"] → m_scroll (fst (Update env (KeyMsg key) m)) = m_scroll m.
Proof.
  intros Ho Hv. assert (∀ key, key ∈ ["j"; "k"; "pgdown"; "pgup"; "g"; "G"] → m_scroll (fst (Update env (KeyMsg key) m)) = m_scroll m) as Hk.
  { assert (∀ n, m_scroll (moveDoctorCursor env n m) = m_scroll m) as Hmv.
    { intros n. unfold moveDoctorCursor. destruct (_ =? 0); [done|]. unfold revealCursor, scrollRegion. cbn. by rewrite Ho. }
    intros key Hkey. cbn [Update]. unfold handleKey. rewrite Ho, Hv.
    repeat (apply elem_of_cons in Hkey as [->|Hkey]; [cbn; apply Hmv|]). by apply elem_of_nil in Hkey. }
  revert Hk. generalize (∀ key, key ∈ ["j"; "k"; "pgdown"; "pgup"; "g"; "G"] → m_scroll (fst (Update env (KeyMsg key) m)) = m_scroll m). intros P Hk.
  cbn. unfold handleKey. cbn. rewrite Ho, Hv. unfold handleDoctorKey. cbn. unfold is_running.
  destruct (bool_decide (d_phase (m_doctor m) = doctorRunning)); cbn; (split_and!; [done|done|exact Hk]).
Qed.
Definition ex_refusals (n : nat) : list Refusal := (λ i, MkRefusal (Z.of_nat i) "auth-mismatch" (Itoa (Z.of_nat i))) <$> seq 0 n.
Definition ex_full : Model :=
  Updates "" [WindowSizeMsg 80 24; SnapshotsMsg [ex_snap "/u/a.sock" []; ex_snap "/u/b.sock" (ex_refusals 32)] [] 1; KeyMsg "2"; KeyMsg "r"] ex_new.
Definition pane_window (m : Model) : Z * Z := window (log_rows m) (paneLines m - 1) (paneScroll m).
(** A daemon chosen in the switcher with the pane open: the pane is left at the
    oldest lines of its log, and not following, while the counter takes all of
    them as shown. [tab] outside the switcher follows. *)
Lemma switcher_unpins_pane :
  pane_window ex_full = (24, 32) ∧
  pane_window (Updates "" [KeyMsg "1"; KeyMsg "tab"] ex_full) = (24, 32) ∧
  pane_window (Updates "" [KeyMsg "1"; KeyMsg "v"; KeyMsg "2"] ex_full) = (0, 8) ∧
  pane_window (Updates "" [KeyMsg "v"; KeyMsg "enter"] ex_full) = (0, 8) ∧
  unseenRefusals (Updates "" [KeyMsg "1"; KeyMsg "v"; KeyMsg "2"] ex_full) "/u/b.sock" = 0%nat.
Proof. vm_compute. split_and!; reflexivity. Qed.
(** The help card shares the pane's scroll: opened over a following pane it
    starts at its last lines, and a line up in it is a line up in the pane. *)
Lemma help_shares_scroll :
  (let m := Updates "" [KeyMsg "?"] ex_full in window (helpBody_rows m) (helpVisible m) (m_scroll m) = (13, 31)) ∧
  (let m := Updates "" [KeyMsg "?"; KeyMsg "k"; KeyMsg "?"] ex_full in pane_window m = (12, 20) ∧ sc_follow (m_scroll m) = false).
Proof. vm_compute. split_and!; reflexivity. Qed.
(** [j] leaves the pane following, where the manual says any scroll key does
    not. *)
Lemma down_keeps_following : sc_follow (m_scroll (Updates "" [KeyMsg "j"] ex_full)) = true ∧ sc_follow (m_scroll (Updates "" [KeyMsg "k"; KeyMsg "pgdown"] ex_full)) = false.
Proof. vm_compute. split_and!; reflexivity. Qed.

(** ** The tables *)

(** The rows' order depends on nothing but the rows: a daemon's ports listed in
    another order are the same table. *)
Definition entry_le (a b : MirrorEntry) : Prop := entry_lt b a = false.
Lemma entry_le_iff a b :
  entry_le a b ↔ stateRank (me_State a) < stateRank (me_State b) ∨ stateRank (me_State a) = stateRank (me_State b) ∧
    (me_Proto a ≠ me_Proto b ∧ String.le (me_Proto a) (me_Proto b) ∨ me_Proto a = me_Proto b ∧ me_Port a <= me_Port b).
Proof.
  unfold entry_le, entry_lt. destruct (Z.eqb_spec (stateRank (me_State b)) (stateRank (me_State a))) as [E|E]; cbn [negb].
  - destruct (String.eqb_spec (me_Proto b) (me_Proto a)) as [P|P]; cbn [negb]; [rewrite Z.ltb_ge|rewrite ltb_leb]; split; intros H.
    + right. split; [done|]. by right.
    + destruct H as [|[_ [[N _]|[_ H]]]]; [lia|congruence|done].
    + right. split; [done|]. left. by split.
    + destruct H as [|[_ [[_ H]|[? _]]]]; [lia|done|congruence].
  - rewrite Z.ltb_ge. split; [intros H; left; lia|intros [|[? _]]; lia].
Qed.
Lemma entry_le_trans a b c : entry_le a b → entry_le b c → entry_le a c.
Proof.
  rewrite !entry_le_iff. intros [|[R1 H1]] [|[R2 H2]]; try lia. right. split; [lia|].
  destruct H1 as [[N1 L1]|[P1 L1]], H2 as [[N2 L2]|[P2 L2]].
  - left. split; [|by trans (me_Proto b)]. intros P. apply N1. apply (anti_symm String.le); [done|]. by rewrite P.
  - left. by rewrite <- P2.
  - left. by rewrite P1.
  - right. split; [congruence|lia].
Qed.
Lemma entry_lt_le a b : entry_lt a b = true → entry_le a b.
Proof.
  rewrite entry_le_iff. unfold entry_lt. destruct (Z.eqb_spec (stateRank (me_State a)) (stateRank (me_State b))) as [E|E]; cbn [negb]; [|intros ?%Z.ltb_lt; by left].
  destruct (String.eqb_spec (me_Proto a) (me_Proto b)) as [P|P]; cbn [negb]; intros H; right; (split; [done|]); [right; split; [done|by apply Z.lt_le_incl, Z.ltb_lt]|left]. split; [done|].
  destruct (String.leb_total (me_Proto a) (me_Proto b)) as [Hl|Hl]; [by apply Is_true_true|]. exfalso. apply Is_true_true, ltb_leb in Hl. congruence.
Qed.
Lemma sortedEntries_canonical l k : NoDup ((λ e, (me_Proto e, me_Port e)) <$> l) → l ≡ₚ k → sortedEntries l = sortedEntries k.
Proof.
  intros Hd Hp. unfold sortedEntries.
  apply (StronglySorted_unique_strong entry_le);
    [|apply sort_stable_sorted; [apply entry_lt_le|done|intros a b c; apply entry_le_trans]..|by rewrite !sort_stable_perm].
  intros a b. rewrite !sort_stable_perm, <- Hp. intros Ha Hb H1%entry_le_iff H2%entry_le_iff.
  assert (me_Proto a = me_Proto b ∧ me_Port a = me_Port b) as [E1 E2].
  { destruct H1 as [|[R1 H1]], H2 as [|[R2 H2]]; try lia. destruct H1 as [[N1 L1]|[P1 L1]], H2 as [[N2 L2]|[P2 L2]]; try (exfalso; congruence).
    - destruct N1. by apply (anti_symm String.le).
    - split; [done|lia]. }
  apply list_elem_of_lookup in Ha as [i Hi], Hb as [j Hj]. assert (i = j); [|congruence].
  eapply (NoDup_lookup _ i j); [exact Hd|rewrite list_lookup_fmap, Hi; reflexivity|rewrite list_lookup_fmap, Hj; cbn; by rewrite E1, E2].
Qed.
(** An overflow is never silent: the rows shown and the number the last line
    names are all there are. *)
Lemma windowRows_count {A} (more : Z → A) rows s visible :
  1 <= visible → let n := lenZ rows in
  lenZ (windowRows more rows s visible) = Z.min n visible ∧
  (visible < n → sc_offset s = 0 → windowRows more rows s visible = take (Z.to_nat (visible - 1)) rows ++ [more (n - lenZ (take (Z.to_nat (visible - 1)) rows))]).
Proof.
  intros Hv. cbn zeta. unfold windowRows, lenZ. rewrite (proj2 (Z.leb_gt _ _)) by lia. set (n := Z.of_nat (length rows)).
  destruct (Z.leb_spec n visible); [split; [lia|lia]|]. destruct (Z.eqb_spec (sc_offset s) 0) as [E|E].
  - split; [rewrite length_app, length_take; cbn [length]; lia|]. intros _ _. rewrite length_take. repeat f_equal. lia.
  - split; [|done]. pose proof (window_fills n visible s ltac:(lia)) as Hw. destruct (window n visible s) as [lo hi].
    rewrite (proj2 (Z.ltb_ge visible 1)) in Hw by lia. rewrite length_take, length_drop. lia.
Qed.
(** Folding hides no port: unfolded, the rows are the advertised set in order. *)
Definition unfold_row (r : sync_row) : list Advertised := match r with PortRow a => [a] | FoldRow l => l end.
Lemma unfold_ports l : mjoin (unfold_row <$> (PortRow <$> l)) = l.
Proof. induction l as [|a l IH]; [done|]. cbn in *. by f_equal. Qed.
Lemma split_ephemeral_app l : let '(low, eph) := split_ephemeral l in l = low ++ eph.
Proof. induction l as [|a l IH]; cbn; [done|]. destruct (_ <=? _); [done|]. destruct (split_ephemeral l). cbn. by f_equal. Qed.
Lemma unfold_proto x l : mjoin (unfold_row <$> protoRows x l) = l.
Proof.
  unfold protoRows. pose proof (split_ephemeral_app l) as H. destruct (split_ephemeral l) as [low eph]. rewrite fmap_app, join_app, unfold_ports, H.
  f_equal. destruct (_ || _); [apply unfold_ports|]. cbn. by rewrite app_nil_r.
Qed.
Lemma runs_join l : mjoin (proto_runs l) = l.
Proof.
  induction l as [|a l IH]; [done|]. cbn. destruct (proto_runs l) as [|[|b run] runs] eqn:E; cbn in *; [by f_equal|by f_equal|].
  destruct (String.eqb _ _); cbn; by f_equal.
Qed.
Lemma syncRows_all x l : mjoin (unfold_row <$> syncRows x l) = l.
Proof.
  unfold syncRows. rewrite <- (runs_join l) at 2. induction (proto_runs l) as [|r rs IH]; [done|].
  rewrite fmap_cons. cbn [mjoin list_join]. rewrite fmap_app, join_app, unfold_proto. f_equal. exact IH.
Qed.
(** A row is marked for what this fetch changed, or still for what one of the
    last five seconds did; a row that says what it said is not marked anew. *)
Lemma pulses_live m snaps at_ k p :
  mergePulses m snaps at_ !! k = Some p →
  pu_at p = at_ ∧ (∀ old, prev_states m !! k = Some old → pu_from p = old) ∨
  l_pulses (m_logs m) !! k = Some p ∧ at_ - pu_at p < pulseTTL.
Proof.
  unfold mergePulses. revert p. set (good := λ out : gmap string pulse, ∀ p, out !! k = Some p →
    pu_at p = at_ ∧ (∀ old, prev_states m !! k = Some old → pu_from p = old) ∨ l_pulses (m_logs m) !! k = Some p ∧ at_ - pu_at p < pulseTTL).
  change (good (foldl (λ out s, foldl (pulse_of m at_ s) out (entries_of s)) ∅ (usable snaps))).
  apply (foldl_invariant good); [intros p; by rewrite lookup_empty|]. intros s out0 _ H0. apply (foldl_invariant good); [done|].
  clear out0 H0. intros e out _ Hout p. unfold pulse_of.
  assert (∀ o : gmap string pulse, match l_pulses (m_logs m) !! pulseKey (sn_Path s) e with
    | Some q => if at_ - pu_at q <? pulseTTL then <[pulseKey (sn_Path s) e := q]> out else out | None => out end = o → o !! k = Some p →
    pu_at p = at_ ∧ (∀ old, prev_states m !! k = Some old → pu_from p = old) ∨ l_pulses (m_logs m) !! k = Some p ∧ at_ - pu_at p < pulseTTL) as Hold.
  { intros o <-. destruct (l_pulses _ !! pulseKey _ _) as [q|] eqn:Eq; [|apply Hout]. destruct (Z.ltb_spec (at_ - pu_at q) pulseTTL); [|apply Hout].
    intros [[<- <-]|[_ H']]%lookup_insert_Some; [by right|by apply Hout]. }
  destruct (prev_states m !! pulseKey (sn_Path s) e) as [old|] eqn:Ep.
  - destruct (negb _); [|by apply Hold]. intros [[<- <-]|[_ H']]%lookup_insert_Some; [|by apply Hout]. left. split; [done|]. intros ? [= <-]%(eq_trans (eq_sym Ep)). done.
  - destruct (existsb _ _); [|by apply Hold]. intros [[<- <-]|[_ H']]%lookup_insert_Some; [|by apply Hout]. left. split; [done|]. intros old' Ho. congruence.
Qed.
(** ** The keys *)

(** In each view no key means two things, and the help lists every key. *)
Lemma keys_distinct :
  NoDup (mjoin dispatchedBindings) ∧ NoDup (mjoin doctorBindings) ∧ NoDup (mjoin switcherBindings) ∧
  Forall (λ b, b ∈ mjoin (snd <$> groups)) (dispatchedBindings ++ doctorBindings ++ switcherBindings).
Proof. split_and!; apply (bool_decide_unpack _); vm_compute; exact I. Qed.
